(* ===== verification/_CoqProject ===== *)
-Q . S2P
Prelude.v
CoreUtils.v
Abi.v
FileId.v
Policy.v
DecisionEngine.v
PolicyCompiler.v
PathResolver.v
SpscQueue.v
SpscConcurrent.v
SpscWeak.v
SpscMonitor.v
BpfMap.v
KernelProgram.v
SecurityEvent.v
Enforcer.v
KernelIo.v
EbpfManager.v
EbpfInstall.v
EbpfProperties.v
EbpfCapacity.v
EbpfLifecycle.v
Json.v
JsonText.v
ConfigParser.v
EventSink.v
Controller.v
LoadSteps.v
Pipeline.v
Agreement.v
ControllerProperties.v
ConcurrentLoads.v
EventPath.v
Daemon.v
DaemonProperties.v
ControllerInvariant.v
Server.v
ServerProperties.v
ServerLife.v
ServerLoads.v
ServerHistory.v
Connections.v
ConnectionInvariant.v
ConnectionProperties.v
ConnectionLife.v
Cli.v
CliProperties.v
Tools.v
System.v
RepositoryTests.v
