(* ===== verification/Prelude.v ===== *)
(** * eBPF FileGuard: a verification library

    eBPF FileGuard decides, for every open of a protected file, whether the
    opening executable may have it.  A JSON policy lists protected paths and
    rules (path, executable, ALLOW or DENY).  `guardctl` and the daemon
    validate the policy, resolve its paths to file identities (device and
    inode), and write them into BPF maps; an LSM program attached to
    security_file_open looks the identities up on every open and returns 0 or
    -EACCES, and reports its decisions through a ring buffer.  User space
    decodes the reports, renders the identities as paths, and hands the events
    to a console table, an NDJSON log and the stream clients of the daemon.

    This library models the C and C++ sources of that program (src/ebpf,
    src/include/fileguard, src/src) as executable definitions and proves what
    makes them correct.  Every definition reads like the function whose name
    it carries; early returns, error messages and the order of side effects
    are kept.

    ** Conventions

    - [Result<T>] is [result T]; a C++ call that can throw returns an
      [outcome]; a call that can do either returns a [call] (Json.v).
    - Machine integers are [Z] with their wrap-around written out ([u32],
      [i32], [u64], [i64]); sizes of containers are [nat] or [Z].
    - [std::unordered_map], [std::unordered_set] are stdpp's [gmap], [gset];
      [std::vector] is a list.
    - What a system call returns is an argument (a record of results, or a
      list of the results of successive calls), what it is given is part of
      the result; no theorem assumes that a system call succeeds unless it
      says so.
    - Code that is not in the repository is a parameter: stat(2) is the
      [FileResolver] of PolicyCompiler.v, bpf(2) maps the class of BpfMap.v
      with its laws, nlohmann/json the class of Json.v with its laws, the
      kernel helpers the [hook_env] of KernelProgram.v, the descriptor that
      accept(2) returns the class of Connections.v with its law.
    - The program's own abstract classes are type classes too: [IEnforcer],
      whose instances are the null and the Linux backend, and
      [EventStreamClient], whose instance is [SocketStreamClient].
    - Each class with laws has an instance that satisfies them, and every
      theorem with hypotheses has a lemma [..._witness] that applies it to a
      concrete input.

    ** The files, and the sources they model

    - Prelude.v (this file): the error channel of core_utils.hpp, exceptions,
      integers, lists and strings shared by all files; the hint database
      [str].
    - CoreUtils.v: [trim] of core_utils.hpp.  Abi.v: abi.h, the structs shared
      with the kernel and the byte layout of an event record.  FileId.v:
      file_id.hpp.
    - Policy.v: policy.hpp and policy.cpp; [policy_wf] is what [validate]
      accepts.  DecisionEngine.v: decision_engine.hpp/.cpp; [decides] is the
      documented procedure.  PolicyCompiler.v: policy_compiler.hpp/.cpp.
      PathResolver.v: path_resolver.hpp/.cpp.
    - SpscQueue.v, SpscConcurrent.v, SpscWeak.v, SpscMonitor.v:
      event_queue.hpp; the operations and their refinement of a bounded FIFO;
      the lock-free pair try_push/try_pop under interleaving; the same
      accesses with their C++ memory orders, where a load may return a stale
      store; the mutex and condition variables of push/pop/request_stop under
      interleaving.
    - BpfMap.v: the kernel's maps as an interface.  KernelProgram.v:
      ebpf/fileguard.bpf.c, the whole hook, also with the maps changing
      between its reads.
    - SecurityEvent.v, Enforcer.v: security_event.hpp, enforcer.hpp/.cpp; the
      contract [EnforcerLaws] of a backend, and the null backend.
    - KernelIo.v: sequences of map operations, with a small program logic.
      EbpfManager.v: ebpf_manager.hpp and ebpf_manager_linux.cpp.
      EbpfInstall.v, EbpfProperties.v, EbpfCapacity.v, EbpfLifecycle.v: its
      proofs, and the Linux backend as an instance of [EnforcerLaws].
    - Json.v: the JSON library as an interface.  JsonText.v: an instance that
      reads and writes texts.  ConfigParser.v: config_parser.hpp/.cpp.
      EventSink.v: event_sink.hpp/.cpp.
    - Controller.v: controller.hpp/.cpp.  LoadSteps.v: load_policy cut at its
      critical sections.  Pipeline.v: the event threads under interleaving.
      Agreement.v: the kernel's verdicts against the decision engine.
      ControllerProperties.v: installing, events, shutdown.
      ConcurrentLoads.v: load_policy called by several threads.  EventPath.v:
      the polling thread, from the opens in the kernel to the queue.
    - Daemon.v, DaemonProperties.v: daemon.hpp/.cpp.  ControllerInvariant.v:
      the state invariant of the controller and of the stream clients.
      Server.v: all threads of `guardctl serve` (main, Daemon::run, the accept
      loop, the connections, the controller's threads, the signal handler) as
      one step system; ServerProperties.v: its invariant; ServerLife.v: what
      follows for the running server; ServerLoads.v: its policy loads;
      ServerHistory.v: which policy the kernel holds after which loads.
    - Connections.v: the threads of the connections, of the stream clients and
      Daemon::stop, cut at every access to the client objects, the descriptors
      and the two lists of clients.  ConnectionInvariant.v: the invariant of
      the objects.  ConnectionProperties.v: the descriptors, and the end of a
      stream.  ConnectionLife.v: what follows for the clients.
    - Cli.v, CliProperties.v: cli.hpp/.cpp, main.cpp and version.hpp.
      Tools.v: tools/bench.cc, tools/backup-agent.cc, tools/test-reader.cc.
      System.v: one load request end to end.  RepositoryTests.v: the test
      cases of src/tests, and a session over the control socket, evaluated on
      the definitions.

    ** What the theorems show

    - Decisions.  The hook's return value is characterised exactly; the
      decision engine refines the documented procedure; on the identities a
      policy compiles to, the two agree for accesses without aliases and a
      default that is not ALLOW, and disagree under a default of ALLOW.
    - Policies.  [validate] accepts exactly the well-formed policies,
      [compile] succeeds exactly on resolvable ones and yields exactly their
      identities; the parser accepts only well-formed policies and reads back
      every expressible one.
    - Installation.  A successful [apply_policy] leaves exactly the compiled
      policy in the maps; between any two of its map operations an open gets
      the old verdict, the new one, or is allowed; a failed one leaves the old
      verdicts or allows all; it succeeds exactly when the policy fits the
      maps.  A hook that overlaps the update can still deny wrongly.
    - End to end.  When the daemon answers a load request with ok, the host
      enforces the decision engine's decisions on the document's policy.
    - The server.  In every state its threads can reach the data is
      well-formed and an enforcing kernel decides exactly as the policy of the
      last load that the backend took says, between any two critical sections
      of any number of loads; that policy is the one of a request line the
      connection received, or of the policy file.  As long as the loads do not
      overlap it is the current policy, or the one a load is bringing in;
      overlapping ones can leave two different policies in the kernel and in
      user space.  Undisturbed, a load is handle_line.  Shutdown terminates
      without a deadlock and leaves nothing behind; a signal during the start
      is lost, and a connection's thread can outlive the daemon object.
    - Connections.  No thread uses a client object that is destroyed; until a
      stream ends every thread uses descriptors of its own; the end of a stream
      terminates; without interference the steps are the operations of
      Daemon.v.  The descriptor of an ended stream is closed twice and its
      number kept for a shutdown, which can hit another connection.
    - Events.  The queue is a bounded FIFO for one producer and one consumer,
      free of data races under the memory orders of the code and of lost
      wake-ups for push/pop; the records the hook submits are decoded with
      their data and queued in order; the threads of the controller deliver
      every accepted event once and in order under every interleaving; the
      daemon's stream of events is not what guardctl can read.
    - Requests and the command line.  Framing is independent of chunks, only
      an accepted load changes the policy, a failed start leaves nothing
      behind, command lines and event objects round trip, listings show the
      policy.

    ** Bounds and fuel

    [clear_loop] (deleting the keys of a map) gets one unit of fuel more than
    the map has elements, and is proved not to need more.  [consumer_loop] in
    [request_stop] gets one iteration more than the queue's capacity, which
    its content cannot exceed.  [shutdown_left] bounds the steps of the service
    threads after a stop by eight, [ending_left] the steps that end a stream.
    [next_fd] skips at most as many numbers as are in use.  [writer_loop] and
    [consumer_loop] otherwise take any fuel, and the theorems say how much is
    enough.  Lists of system call results bound the other loops; running out
    of results is "still waiting", a value of its own.

    ** What is not modelled

    The standard library's threads as such (their interleavings are, in
    SpscConcurrent.v, SpscWeak.v, SpscMonitor.v, Pipeline.v, ConcurrentLoads.v,
    Server.v and Connections.v).  Server.v takes one event through the sinks,
    one request other than load_policy, the start and the shutdown of the
    controller (with the joins of its threads) and the ends of the streaming
    mode as a step; how these overlap with other threads is in Pipeline.v and
    Connections.v.  The writer threads of Connections.v pop whenever their
    queue is not empty; how they sleep and are woken is in SpscMonitor.v.  When
    a thread can be scheduled is not modelled: the liveness theorems say which
    steps remain possible.  The overflow of a signed 64-bit sum, which C++
    leaves undefined, is written as the wrap-around (format_event_time).  Detaching `serve
    --daemon` from the terminal changes nothing in the model but the streams
    written to; strftime, localtime and the rendering of doubles are
    parameters.  nlohmann/json, libbpf, the skeleton and vmlinux.h are not in
    src/; scripts/ and the build files run nothing of the program.  A thread
    that goes on after the Daemon object is destroyed is an error state of
    Server.v ([uses_destroyed_daemon]), shown reachable; what it would read
    there is not modelled. *)

From stdpp Require Export base tactics option list strings gmap pretty.
From Stdlib Require Export ZArith Lia Ascii.
From Stdlib Require String.

(** ** The error channel: [Result<T>] of include/fileguard/core_utils.hpp

    [std::expected<T, std::string>] is a sum of a value and a message. *)
Inductive result (A : Type) : Type :=
| Ok (a : A)
| Err (message : string).
Arguments Ok {A} a.
Arguments Err {A} message.

(** [ResultVoid] is [Result<std::monostate>]. *)
Abbreviation ResultVoid := (result unit).

Definition ok_v : ResultVoid := Ok tt.

Definition err {A : Type} (message : string) : result A := Err message.
Arguments err {A} message /.

#[export] Instance result_ret : MRet result := @Ok.
#[export] Instance result_bind : MBind result :=
  fun A B f r => match r with Ok a => f a | Err e => Err e end.
#[export] Instance result_fmap : FMap result :=
  fun A B f r => match r with Ok a => Ok (f a) | Err e => Err e end.

(** [has_value()] / the contextual conversion of [std::expected]. *)
Definition has_value {A : Type} (r : result A) : bool :=
  match r with Ok _ => true | Err _ => false end.

#[export] Instance result_eq_dec `{EqDecision A} : EqDecision (result A).
Proof. solve_decision. Defined.

#[export] Instance Ok_inj {A : Type} : Inj (=) (=) (@Ok A).
Proof. by intros ?? [= ->]. Qed.

Lemma result_bind_Ok {A B : Type} (f : A -> result B) (r : result A) (b : B) :
  r ≫= f = Ok b <-> exists a, r = Ok a /\ f a = Ok b.
Proof.
  destruct r as [a|e]; cbn; split; [by eauto| |done|by intros (a & ? & ?)].
  by intros (a' & [= <-] & ?).
Qed.

Lemma result_bind_Err {A B : Type} (f : A -> result B) (r : result A) (e : string) :
  r ≫= f = Err e <-> r = Err e \/ exists a, r = Ok a /\ f a = Err e.
Proof.
  destruct r as [a|m]; cbn; split.
  - eauto.
  - by intros [?|(a' & [= <-] & ?)].
  - by left; f_equal; congruence.
  - by intros [[= ->]|(a & ? & ?)].
Qed.

(** ** Exceptions

    A C++ call either returns or throws.  Only the code that calls
    nlohmann/json can throw; the payload is what [what()] says. *)
Inductive outcome (A : Type) : Type :=
| Return (a : A)
| Throw (what : string).
Arguments Return {A} a.
Arguments Throw {A} what.

#[export] Instance outcome_ret : MRet outcome := @Return.
#[export] Instance outcome_bind : MBind outcome :=
  fun A B f o => match o with Return a => f a | Throw w => Throw w end.

#[export] Instance outcome_eq_dec `{EqDecision A} : EqDecision (outcome A).
Proof. solve_decision. Defined.

Lemma outcome_bind_Return {A B : Type} (f : A -> outcome B) (o : outcome A) (b : B) :
  o ≫= f = Return b <-> exists a, o = Return a /\ f a = Return b.
Proof.
  destruct o as [a|w]; cbn; split; [by eauto| |done|by intros (a & ? & ?)].
  by intros (a' & [= <-] & ?).
Qed.

Lemma outcome_bind_Throw {A B : Type} (f : A -> outcome B) (o : outcome A) (w : string) :
  o ≫= f = Throw w <-> o = Throw w \/ exists a, o = Return a /\ f a = Throw w.
Proof.
  destruct o as [a|m]; cbn; split.
  - eauto.
  - by intros [?|(a' & [= <-] & ?)].
  - by left; f_equal; congruence.
  - by intros [[= ->]|(a & ? & ?)].
Qed.

(** ** Machine integers

    A w-bit integer is a [Z]; conversions wrap as C++20 says. *)
Definition wrap_u (w z : Z) : Z := (z mod 2 ^ w)%Z.
Definition wrap_s (w z : Z) : Z := ((z + 2 ^ (w - 1)) mod 2 ^ w - 2 ^ (w - 1))%Z.

Abbreviation u8 := (wrap_u 8).
Abbreviation u32 := (wrap_u 32).
Abbreviation u64 := (wrap_u 64).
Abbreviation i32 := (wrap_s 32).
Abbreviation i64 := (wrap_s 64).

Definition in_u (w z : Z) : Prop := (0 <= z < 2 ^ w)%Z.
Definition in_s (w z : Z) : Prop := (- 2 ^ (w - 1) <= z < 2 ^ (w - 1))%Z.

#[export] Instance in_u_dec (w z : Z) : Decision (in_u w z).
Proof. unfold in_u. apply _. Defined.
#[export] Instance in_s_dec (w z : Z) : Decision (in_s w z).
Proof. unfold in_s. apply _. Defined.

Lemma wrap_u_small (w z : Z) : in_u w z -> wrap_u w z = z.
Proof. unfold in_u, wrap_u. intros. by apply Z.mod_small. Qed.

Lemma wrap_u_in (w z : Z) : (0 <= w)%Z -> in_u w (wrap_u w z).
Proof. intros. unfold in_u, wrap_u. apply Z.mod_pos_bound. by apply Z.pow_pos_nonneg. Qed.

Lemma wrap_s_small (w z : Z) : (0 < w)%Z -> in_s w z -> wrap_s w z = z.
Proof.
  unfold in_s, wrap_s. intros Hw Hz.
  assert (2 ^ w = 2 * 2 ^ (w - 1))%Z as Hpow.
  { rewrite <- Z.pow_succ_r by lia. f_equal. lia. }
  rewrite Z.mod_small by lia. lia.
Qed.

Lemma wrap_s_in (w z : Z) : (0 < w)%Z -> in_s w (wrap_s w z).
Proof.
  intros Hw. unfold wrap_s, in_s.
  assert (2 ^ w = 2 * 2 ^ (w - 1))%Z as Hpow.
  { rewrite <- Z.pow_succ_r by lia. f_equal. lia. }
  pose proof (Z.mod_pos_bound (z + 2 ^ (w - 1)) (2 ^ w)) as Hm.
  assert (0 < 2 ^ (w - 1))%Z by (apply Z.pow_pos_nonneg; lia). lia.
Qed.

(** A non-negative [int32_t] survives the trip through [uint32_t]. *)
Lemma i32_u32_nonneg (z : Z) : (0 <= z < 2 ^ 31)%Z -> i32 (u32 z) = z.
Proof.
  intros Hz. rewrite wrap_u_small by (unfold in_u; lia).
  apply wrap_s_small; unfold in_s; lia.
Qed.

(** ** Loops with an early [return err(...)] *)
Fixpoint result_fold {S A : Type} (f : S -> A -> result S) (s : S) (l : list A) : result S :=
  match l with
  | [] => Ok s
  | x :: l => s' ← f s x; result_fold f s' l
  end.

Lemma result_fold_app {S A : Type} (f : S -> A -> result S) (s : S) (l1 l2 : list A) :
  result_fold f s (l1 ++ l2) = (s' ← result_fold f s l1; result_fold f s' l2).
Proof.
  revert s; induction l1 as [|x l1 IH]; intros s; [done|].
  cbn. destruct (f s x); [apply IH|done].
Qed.

(** The loop fails exactly at the first element whose iteration fails. *)
Lemma result_fold_Err {S A : Type} (f : S -> A -> result S) (s : S) (l : list A) (e : string) :
  result_fold f s l = Err e <->
  exists pre x post s', l = pre ++ x :: post /\ result_fold f s pre = Ok s' /\ f s' x = Err e.
Proof.
  revert s; induction l as [|y l IH]; intros s; cbn.
  { split; [done|]. intros (pre & x & post & s' & Hl & _). by destruct pre. }
  rewrite result_bind_Err. split.
  - intros [He|(s1 & Hs1 & (pre & x & post & s' & -> & Hpre & Hx)%IH)].
    + by exists [], y, l, s.
    + exists (y :: pre), x, post, s'. cbn. by rewrite Hs1.
  - intros (pre & x & post & s' & Hl & Hpre & Hx).
    destruct pre as [|z pre]; simplify_eq/=; [by left|right].
    apply result_bind_Ok in Hpre as (s1 & Hs1 & Hpre).
    exists s1. split; [done|]. apply IH. by exists pre, x, post, s'.
Qed.

(** Folding a relation along the loop: a state predicate indexed by the
    consumed prefix, kept by every iteration, holds of the final state. *)
Lemma result_fold_invariant {S A : Type} (f : S -> A -> result S)
    (P : list A -> S -> Prop) (l : list A) (s s' : S) :
  P [] s ->
  (forall done x s1 s2, P done s1 -> f s1 x = Ok s2 -> P (done ++ [x]) s2) ->
  result_fold f s l = Ok s' ->
  P l s'.
Proof.
  intros H0 Hstep.
  assert (forall rest pre s0, P pre s0 -> result_fold f s0 rest = Ok s' -> P (pre ++ rest) s') as H.
  { induction rest as [|x rest IH]; intros pre s0 Hp Hf; cbn in Hf.
    - rewrite app_nil_r. by simplify_eq.
    - apply result_bind_Ok in Hf as (s1 & Hf1 & Hf2).
      rewrite cons_middle, app_assoc. eapply IH; eauto. }
  intros Hf. by apply (H l [] s).
Qed.

(** Loops that append one computed element per input element. *)
Fixpoint result_imapM {A B : Type} (f : nat -> A -> result B) (i : nat) (l : list A)
    : result (list B) :=
  match l with
  | [] => Ok []
  | x :: l => y ← f i x; ys ← result_imapM f (S i) l; Ok (y :: ys)
  end.

Definition result_mapM {A B : Type} (f : A -> result B) (l : list A) : result (list B) :=
  result_imapM (fun _ => f) 0 l.

Lemma result_imapM_Ok {A B : Type} (f : nat -> A -> result B) (i : nat) (l : list A) (k : list B) :
  result_imapM f i l = Ok k <->
  length k = length l /\
  forall n x y, l !! n = Some x -> k !! n = Some y -> f (i + n) x = Ok y.
Proof.
  revert i k; induction l as [|x l IH]; intros i k; cbn.
  - split; [by intros [= <-]|]. intros [Hl _]. by destruct k.
  - rewrite result_bind_Ok. setoid_rewrite result_bind_Ok. setoid_rewrite IH. split.
    + intros (y & Hy & ys & (Hl & Hys) & [= <-]). split; [by cbn; rewrite Hl|].
      intros [|n] x' y'; cbn; [intros [= <-] [= <-]; by rewrite Nat.add_0_r|].
      rewrite <- Nat.add_succ_comm. apply Hys.
    + intros [Hl Hall]. destruct k as [|y k]; [done|].
      exists y. split; [by rewrite <- (Nat.add_0_r i); apply (Hall 0)|].
      exists k. split; [|done]. split; [by injection Hl|].
      intros n x' y' ??. rewrite Nat.add_succ_comm. by apply (Hall (S n)).
Qed.

Lemma result_imapM_Err {A B : Type} (f : nat -> A -> result B) (i : nat) (l : list A) (e : string) :
  result_imapM f i l = Err e ->
  exists n x, l !! n = Some x /\ f (i + n) x = Err e.
Proof.
  revert i; induction l as [|x l IH]; intros i; cbn; [done|].
  intros [He|(y & _ & H)]%result_bind_Err; [by exists 0, x; rewrite Nat.add_0_r|].
  apply result_bind_Err in H as [H|(?&_&?)]; [|done].
  destruct (IH _ H) as (n & x' & Hn & Hx). exists (S n), x'.
  by rewrite <- Nat.add_succ_comm.
Qed.

Lemma result_mapM_Ok {A B : Type} (f : A -> result B) (l : list A) (k : list B) :
  result_mapM f l = Ok k <-> Forall2 (fun x y => f x = Ok y) l k.
Proof.
  unfold result_mapM. rewrite result_imapM_Ok, Forall2_same_length_lookup. naive_solver.
Qed.

(** ** Lists: duplicate-free insertion, first match *)
Fixpoint find_first {A : Type} (p : A -> bool) (l : list A) : option A :=
  match l with
  | [] => None
  | x :: l => if p x then Some x else find_first p l
  end.

Lemma find_first_Some {A : Type} (p : A -> bool) (l : list A) (x : A) :
  find_first p l = Some x <->
  exists l1 l2, l = l1 ++ x :: l2 /\ p x = true /\ Forall (fun y => p y = false) l1.
Proof.
  split.
  - induction l as [|y l IH]; cbn; [done|]. destruct (p y) eqn:Hy.
    + intros [= ->]. exists [], l. auto.
    + intros Hl. destruct (IH Hl) as (l1 & l2 & -> & Hx & Hall).
      exists (y :: l1), l2. auto.
  - intros (l1 & l2 & -> & Hx & Hall).
    induction Hall as [|y l1 Hy Hall IH]; cbn; [by rewrite Hx|by rewrite Hy].
Qed.

Lemma find_first_None {A : Type} (p : A -> bool) (l : list A) :
  find_first p l = None <-> Forall (fun y => p y = false) l.
Proof.
  split.
  - induction l as [|y l IH]; cbn; [constructor|].
    destruct (p y) eqn:Hy; [done|]. constructor; auto.
  - induction 1 as [|y l Hy Hall IH]; cbn; [done|by rewrite Hy].
Qed.

Lemma find_first_ext {A : Type} (p q : A -> bool) (l : list A) :
  (forall x, x ∈ l -> p x = q x) -> find_first p l = find_first q l.
Proof.
  induction l as [|x l IH]; intros Hpq; [done|]. cbn.
  rewrite Hpq by constructor. rewrite IH; [done|].
  intros y Hy. apply Hpq. by constructor.
Qed.

Lemma find_first_elem {A : Type} (p : A -> bool) (l : list A) (x : A) :
  find_first p l = Some x -> x ∈ l /\ p x = true.
Proof. intros (l1 & l2 & -> & Hx & _)%find_first_Some. set_solver. Qed.

Lemma filter_all {A : Type} (P : A -> Prop) `{!forall x, Decision (P x)} (l : list A) :
  Forall P l -> filter P l = l.
Proof. induction 1; [done|]. rewrite filter_cons_True by done. by f_equal. Qed.

(** ** Strings *)

(** [s.front()], and [s.empty()]. *)
Definition str_front (s : string) : option ascii :=
  match s with EmptyString => None | String c _ => Some c end.
Definition str_empty (s : string) : bool :=
  match s with EmptyString => true | String _ _ => false end.

(** [s.empty() || s.front() != '/'] negated: an absolute path. *)
Definition is_absolute (s : string) : bool :=
  match str_front s with Some c => bool_decide (c = "/"%char) | None => false end.

(** No character of [s] satisfies [p]. *)
Fixpoint str_all (p : ascii -> bool) (s : string) : bool :=
  match s with EmptyString => true | String c s => p c && str_all p s end.

Lemma str_app_nil_l (t : string) : "" +:+ t = t.
Proof. done. Qed.

Lemma str_app_cons (c : ascii) (s t : string) : String c s +:+ t = String c (s +:+ t).
Proof. done. Qed.

Lemma str_app_assoc (s t u : string) : (s +:+ t) +:+ u = s +:+ (t +:+ u).
Proof. induction s as [|c s IH]; [done|]. by rewrite !str_app_cons, IH. Qed.

Lemma str_app_nil_r (s : string) : s +:+ "" = s.
Proof. induction s as [|c s IH]; [done|]. by rewrite str_app_cons, IH. Qed.

Create Rewrite HintDb str.
#[export] Hint Rewrite str_app_nil_l str_app_cons str_app_assoc str_app_nil_r : str.

Lemma str_all_app (p : ascii -> bool) (s t : string) :
  str_all p (s +:+ t) = str_all p s && str_all p t.
Proof.
  induction s as [|c s IH]; [done|]. rewrite str_app_cons. cbn.
  by rewrite IH, andb_assoc.
Qed.

Lemma str_all_impl (p q : ascii -> bool) (s : string) :
  (forall c, p c = true -> q c = true) -> str_all p s = true -> str_all q s = true.
Proof.
  intros Hpq. induction s as [|c s IH]; cbn; [done|].
  intros [Hc Hs]%andb_true_iff. by rewrite Hpq, IH.
Qed.

Lemma str_length_app (s t : string) :
  String.length (s +:+ t) = String.length s + String.length t.
Proof. induction s as [|c s IH]; [done|]. rewrite str_app_cons. cbn. by rewrite IH. Qed.

(** Two fields that do not contain the separator are recovered from their
    separated concatenation. *)
Lemma str_app_sep_inj (c : ascii) (s1 s2 t1 t2 : string) :
  str_all (fun x => negb (Ascii.eqb x c)) s1 = true ->
  str_all (fun x => negb (Ascii.eqb x c)) s2 = true ->
  s1 +:+ String c t1 = s2 +:+ String c t2 ->
  s1 = s2 /\ t1 = t2.
Proof.
  revert s2; induction s1 as [|a s1 IH]; intros [|b s2]; cbn;
    rewrite ?str_app_nil_l, ?str_app_cons; intros H1 H2 Heq; simplify_eq.
  - done.
  - by rewrite Ascii.eqb_refl in H2.
  - by rewrite Ascii.eqb_refl in H1.
  - apply andb_true_iff in H1 as [_ H1]. apply andb_true_iff in H2 as [_ H2].
    destruct (IH s2 H1 H2) as [-> ->]; auto.
Qed.

(** [std::to_string] of an unsigned integer: its decimal digits. *)
Definition to_string_u (z : Z) : string := pretty (Z.to_N z).

Definition is_digit (c : ascii) : bool :=
  bool_decide (48 <= nat_of_ascii c <= 57)%nat.

Lemma is_digit_neq (c d : ascii) :
  is_digit d = false -> is_digit c = true -> negb (Ascii.eqb c d) = true.
Proof. intros Hd Hc. destruct (Ascii.eqb_spec c d); [congruence|done]. Qed.

Lemma pretty_N_char_digit (x : N) : (x < 10)%N -> is_digit (pretty_N_char x) = true.
Proof.
  intros Hx. destruct x as [|p]; [done|].
  do 4 (destruct p as [p|p|]; try done; try lia).
Qed.

Lemma pretty_N_go_digits (x : N) (s : string) :
  str_all is_digit s = true -> str_all is_digit (pretty_N_go x s) = true.
Proof.
  revert s. induction (N.lt_wf_0 x) as [x _ IH]; intros s Hs.
  destruct (decide (0 < x)%N) as [Hx|Hx].
  - rewrite pretty_N_go_step by done. apply IH; [by apply N.div_lt|].
    cbn. rewrite Hs, pretty_N_char_digit; [done|]. by apply N.mod_lt.
  - assert (x = 0)%N as -> by lia. by rewrite pretty_N_go_0.
Qed.

Lemma to_string_u_digits (z : Z) : str_all is_digit (to_string_u z) = true.
Proof.
  unfold to_string_u, pretty, pretty_N. case_decide; [done|].
  by apply pretty_N_go_digits.
Qed.

Lemma to_string_u_inj (x y : Z) :
  (0 <= x)%Z -> (0 <= y)%Z -> to_string_u x = to_string_u y -> x = y.
Proof. intros Hx Hy Heq%pretty_N_inj. lia. Qed.

Lemma pretty_N_go_length (n : nat) (x : N) (s : string) :
  (x < 10 ^ N.of_nat n)%N -> String.length (pretty_N_go x s) <= n + String.length s.
Proof.
  revert x s; induction n as [|n IH]; intros x s Hx.
  - assert (x = 0)%N as -> by (cbn in Hx; lia). by rewrite pretty_N_go_0.
  - destruct (decide (0 < x)%N) as [Hpos|Hpos].
    + rewrite pretty_N_go_step by done. etrans; [apply IH|cbn; lia].
      apply N.Div0.div_lt_upper_bound.
      replace (N.of_nat (S n)) with (1 + N.of_nat n)%N in Hx by lia.
      rewrite N.pow_add_r in Hx. cbn in Hx. lia.
    + assert (x = 0)%N as -> by lia. rewrite pretty_N_go_0. lia.
Qed.

(** A number below 10^n has at most n digits. *)
Lemma to_string_u_length (n : nat) (z : Z) :
  (0 < n)%nat -> (0 <= z < 10 ^ Z.of_nat n)%Z -> String.length (to_string_u z) <= n.
Proof.
  intros Hn Hz. unfold to_string_u, pretty, pretty_N. case_decide; [cbn; lia|].
  etrans; [apply (pretty_N_go_length n)|cbn; lia].
  apply N2Z.inj_lt. rewrite Z2N.id by lia. rewrite N2Z.inj_pow, nat_N_Z. lia.
Qed.
