(* ===== verification/CoreUtils.v ===== *)
(** * [trim] of include/fileguard/core_utils.hpp

    The error channel of the same header ([Result], [ok_v], [err]) is in
    Prelude.v, which every file loads. *)

From S2P Require Import Prelude.

(** The set of characters trim strips: space, tab, CR, LF. *)
Definition trim_chars : list ascii :=
  [ascii_of_nat 32; ascii_of_nat 9; ascii_of_nat 13; ascii_of_nat 10].
Definition is_trim_char (c : ascii) : bool := bool_decide (c ∈ trim_chars).

(** [s.find_first_not_of(set)] and [s.find_last_not_of(set)]; [None] is
    [npos]. *)
Fixpoint find_first_not_of (p : ascii -> bool) (s : string) : option nat :=
  match s with
  | EmptyString => None
  | String c s => if p c then S <$> find_first_not_of p s else Some 0
  end.

Fixpoint find_last_not_of (p : ascii -> bool) (s : string) : option nat :=
  match s with
  | EmptyString => None
  | String c s =>
     match find_last_not_of p s with
     | Some i => Some (S i)
     | None => if p c then None else Some 0
     end
  end.

Definition trim (s : string) : string :=
  match find_first_not_of is_trim_char s with
  | None => ""
  | Some b =>
     match find_last_not_of is_trim_char s with
     | None => ""
     | Some e => String.substring b (e - b + 1) s
     end
  end.

Lemma find_first_not_of_None (p : ascii -> bool) (s : string) :
  find_first_not_of p s = None <-> str_all p s = true.
Proof.
  induction s as [|c s IH]; [done|]. cbn. rewrite andb_true_iff, <- IH.
  destruct (p c), (find_first_not_of p s); naive_solver.
Qed.

Lemma find_last_not_of_None (p : ascii -> bool) (s : string) :
  find_last_not_of p s = None <-> str_all p s = true.
Proof.
  induction s as [|c s IH]; [done|]. cbn. rewrite andb_true_iff, <- IH.
  destruct (p c), (find_last_not_of p s); naive_solver.
Qed.

(** The position found splits the string. *)
Lemma find_first_not_of_Some (p : ascii -> bool) (s : string) (b : nat) :
  find_first_not_of p s = Some b ->
  exists pre c post, s = pre +:+ String c post /\ String.length pre = b /\
    str_all p pre = true /\ p c = false.
Proof.
  revert b; induction s as [|c s IH]; cbn; intros b Hb; [done|].
  destruct (p c) eqn:Hc; [|by simplify_eq; eexists "", c, s].
  destruct (find_first_not_of p s) as [b'|]; simplify_eq/=.
  destruct (IH b' eq_refl) as (pre & d & post & -> & <- & Hpre & Hd).
  exists (String c pre), d, post. cbn. by rewrite Hc, Hpre.
Qed.

Lemma find_last_not_of_app (p : ascii -> bool) (pre s : string) (c : ascii) :
  p c = false ->
  find_last_not_of p (pre +:+ String c s) =
  Some (String.length pre + match find_last_not_of p s with Some i => S i | None => 0 end).
Proof.
  intros Hc. induction pre as [|d pre IH].
  - rewrite str_app_nil_l. cbn. rewrite Hc. by case_match.
  - rewrite str_app_cons. cbn. by rewrite IH.
Qed.

Lemma find_last_not_of_Some (p : ascii -> bool) (s : string) (e : nat) :
  find_last_not_of p s = Some e ->
  exists pre c post, s = pre +:+ String c post /\ String.length pre = e /\
    p c = false /\ str_all p post = true.
Proof.
  revert e; induction s as [|c s IH]; cbn; intros e He; [done|].
  destruct (find_last_not_of p s) as [e'|] eqn:Hs; simplify_eq/=.
  - destruct (IH e' eq_refl) as (pre & d & post & -> & <- & Hd & Hpost).
    by exists (String c pre), d, post.
  - destruct (p c) eqn:Hc; simplify_eq/=. exists "", c, s.
    by rewrite (proj1 (find_last_not_of_None p s)) by done.
Qed.

Lemma substring_app (pre s post : string) :
  String.substring (String.length pre) (String.length s) (pre +:+ (s +:+ post)) = s.
Proof.
  induction pre as [|c pre IH]; cbn; [|by rewrite str_app_cons].
  rewrite str_app_nil_l. induction s as [|c s IH].
  - by destruct post.
  - rewrite str_app_cons. cbn. by rewrite IH.
Qed.

(** The last character of a string. *)
Fixpoint str_back (s : string) : option ascii :=
  match s with
  | EmptyString => None
  | String c EmptyString => Some c
  | String _ s => str_back s
  end.

Lemma str_back_app (pre : string) (c : ascii) : str_back (pre +:+ String c "") = Some c.
Proof.
  induction pre as [|d pre IH]; [done|]. rewrite str_app_cons. cbn.
  rewrite IH. by destruct pre.
Qed.

(** The first and last kept characters pin [trim s] down. *)
Lemma trim_eq (s pre mid post : string) (c d : ascii) :
  s = pre +:+ (mid +:+ post) ->
  str_all is_trim_char pre = true -> str_all is_trim_char post = true ->
  str_front mid = Some c -> is_trim_char c = false ->
  str_back mid = Some d -> is_trim_char d = false ->
  trim s = mid.
Proof.
  intros -> Hpre Hpost Hf Hc Hb Hd. unfold trim.
  assert (find_first_not_of is_trim_char (pre +:+ (mid +:+ post)) = Some (String.length pre)) as ->.
  { destruct mid as [|c' mid]; simplify_eq/=. clear Hb. rewrite str_app_cons.
    induction pre as [|x pre IH]; [by rewrite str_app_nil_l; cbn; rewrite Hc|].
    cbn in Hpre. apply andb_true_iff in Hpre as [Hx Hpre].
    rewrite str_app_cons. cbn. by rewrite Hx, IH. }
  assert (exists front, mid = front +:+ String d "") as [front ->].
  { clear Hf. induction mid as [|x mid IH]; [done|].
    destruct mid as [|y mid]; [by simplify_eq/=; exists ""|].
    destruct IH as [front ->]; [done|]. by exists (String x front). }
  rewrite !str_app_assoc, str_app_cons, str_app_nil_l.
  rewrite <- (str_app_assoc pre), find_last_not_of_app by done.
  rewrite (proj2 (find_last_not_of_None _ _) Hpost), str_length_app.
  replace (_ - _ + 1) with (String.length (front +:+ String d "")).
  2: { rewrite str_length_app. cbn. lia. }
  replace ((pre +:+ front) +:+ String d post) with (pre +:+ ((front +:+ String d "") +:+ post)).
  - apply substring_app.
  - by rewrite !str_app_assoc, str_app_cons, str_app_nil_l.
Qed.

(** Trim is the whitespace-free core: [trim s] is the unique block of
    [s] between a maximal whitespace prefix and suffix: [s] is
    [pre ++ trim s ++ post] with [pre] and [post] all whitespace, and
    [trim s] is empty or begins and ends with a non-whitespace character. *)
Theorem trim_decomposes (s : string) :
  exists pre post,
    s = pre +:+ (trim s +:+ post) /\
    str_all is_trim_char pre = true /\ str_all is_trim_char post = true /\
    (trim s = "" \/
     exists c d, str_front (trim s) = Some c /\ is_trim_char c = false /\
                 str_back (trim s) = Some d /\ is_trim_char d = false).
Proof.
  destruct (find_first_not_of is_trim_char s) as [b|] eqn:Hb.
  2: { exists s, "". unfold trim. rewrite Hb.
       apply find_first_not_of_None in Hb. autorewrite with str. auto. }
  apply find_first_not_of_Some in Hb as (pre & c & rest & -> & _ & Hpre & Hc).
  destruct (find_last_not_of is_trim_char (String c rest)) as [e|] eqn:He.
  2: { apply find_last_not_of_None in He. cbn in He. by rewrite Hc in He. }
  apply find_last_not_of_Some in He as (front & d & post & Heq & _ & Hd & Hpost).
  set (mid := front +:+ String d "").
  assert (String c rest = mid +:+ post) as Hmid.
  { unfold mid. by rewrite str_app_assoc, str_app_cons, str_app_nil_l. }
  assert (str_front mid = Some c) as Hfront.
  { clear -Heq. subst mid. destruct front as [|x front];
      rewrite ?str_app_nil_l, ?str_app_cons in *; by injection Heq as -> _. }
  assert (str_back mid = Some d) as Hback by apply str_back_app.
  rewrite Hmid. exists pre, post.
  rewrite (trim_eq (pre +:+ (mid +:+ post)) pre mid post c d) by done.
  split_and!; [done..|]. right. by exists c, d.
Qed.
