(* ===== verification/Abi.v ===== *)
(** * The kernel/userspace ABI: include/fileguard/abi.h

    The C structs as records, the action/operation/reason codes, and the
    byte layout both sides give to the ring-buffer record. *)

From S2P Require Import Prelude.

Local Open Scope Z_scope.

Definition FG_MAX_COMM : Z := 16.
Definition FG_MAGIC : Z := 0x46474152.

(** The map names of abi.h that [clear_map] compares against. *)
Definition FG_MAP_PROTECTED : string := "fileguard_protected".
Definition FG_MAP_RULES : string := "fileguard_rules".

Definition FG_ACTION_ALLOW : Z := 0.
Definition FG_ACTION_DENY : Z := 1.
Definition FG_OP_OPEN : Z := 1.
Definition FG_REASON_POLICY_RULE : Z := 1.
Definition FG_REASON_DEFAULT_DENY : Z := 2.
Definition FG_REASON_UNKNOWN_PROCESS : Z := 3.
Definition FG_REASON_UNKNOWN_RESOURCE : Z := 4.

(** The structs.  [fg_u32]/[fg_u64] fields are [Z]s; [*_wf] says they are in
    the range of their C type. *)
Record fileguard_file_id_t := AbiFileId {
  abi_dev_major : Z;  (* fg_u32 *)
  abi_dev_minor : Z;  (* fg_u32 *)
  abi_ino : Z;        (* fg_u64 *)
}.

Record fileguard_rule_key_t := AbiRuleKey {
  key_res : fileguard_file_id_t;
  key_proc : fileguard_file_id_t;
}.

Record fileguard_rule_val_t := AbiRuleVal {
  val_rule_id : Z;
  val_action : Z;
  val_operation : Z;
  val_reserved : Z;
}.

Record fileguard_protected_val_t := AbiProtectedVal { prot_reserved : Z }.

Record fileguard_config_t := AbiConfig {
  cfg_policy_version : Z;
  cfg_enabled : Z;
  cfg_reserved0 : Z;
  cfg_reserved1 : Z;
}.

Record fileguard_event_t := AbiEvent {
  ev_magic : Z;
  ev_timestamp_ns : Z;
  ev_pid : Z;
  ev_tgid : Z;
  ev_uid : Z;
  ev_gid : Z;
  ev_res : fileguard_file_id_t;
  ev_proc : fileguard_file_id_t;
  ev_rule_id : Z;
  ev_operation : Z;  (* fg_u8 *)
  ev_action : Z;     (* fg_u8 *)
  ev_reason : Z;     (* fg_u8 *)
  ev_pad : Z;        (* fg_u8 *)
  ev_comm : list Z;  (* char[FG_MAX_COMM] as unsigned bytes *)
}.

#[export] Instance fileguard_file_id_t_eq_dec : EqDecision fileguard_file_id_t.
Proof. solve_decision. Defined.
#[export] Instance fileguard_rule_key_t_eq_dec : EqDecision fileguard_rule_key_t.
Proof. solve_decision. Defined.
#[export] Instance fileguard_rule_val_t_eq_dec : EqDecision fileguard_rule_val_t.
Proof. solve_decision. Defined.
#[export] Instance fileguard_config_t_eq_dec : EqDecision fileguard_config_t.
Proof. solve_decision. Defined.
#[export] Instance fileguard_event_t_eq_dec : EqDecision fileguard_event_t.
Proof. solve_decision. Defined.

(** The two map key types are countable, so a kernel map can be viewed as a
    [gmap]. *)
#[export] Instance fileguard_file_id_t_countable : Countable fileguard_file_id_t.
Proof.
  apply (inj_countable' (fun i => (abi_dev_major i, abi_dev_minor i, abi_ino i))
                        (fun t => AbiFileId t.1.1 t.1.2 t.2)).
  by intros [].
Defined.
#[export] Instance fileguard_rule_key_t_countable : Countable fileguard_rule_key_t.
Proof.
  apply (inj_countable' (fun k => (key_res k, key_proc k)) (fun t => AbiRuleKey t.1 t.2)).
  by intros [].
Defined.

(** [T x{}] / [T x = {}] value-initialise: every field zero. *)
Definition abi_file_id_zero : fileguard_file_id_t := AbiFileId 0 0 0.
Definition abi_config_zero : fileguard_config_t := AbiConfig 0 0 0 0.

Definition abi_file_id_wf (i : fileguard_file_id_t) : Prop :=
  in_u 32 (abi_dev_major i) /\ in_u 32 (abi_dev_minor i) /\ in_u 64 (abi_ino i).

Definition event_wf (e : fileguard_event_t) : Prop :=
  in_u 32 (ev_magic e) /\ in_u 64 (ev_timestamp_ns e) /\ in_u 32 (ev_pid e) /\
  in_u 32 (ev_tgid e) /\ in_u 32 (ev_uid e) /\ in_u 32 (ev_gid e) /\
  abi_file_id_wf (ev_res e) /\ abi_file_id_wf (ev_proc e) /\
  in_u 32 (ev_rule_id e) /\ in_u 8 (ev_operation e) /\ in_u 8 (ev_action e) /\
  in_u 8 (ev_reason e) /\ in_u 8 (ev_pad e) /\
  length (ev_comm e) = 16%nat /\ Forall (in_u 8) (ev_comm e).

#[export] Instance abi_file_id_wf_dec i : Decision (abi_file_id_wf i).
Proof. unfold abi_file_id_wf. apply _. Defined.
#[export] Instance event_wf_dec e : Decision (event_wf e).
Proof. unfold event_wf. apply _. Defined.

(** ** Byte layout

    Little-endian fields at their natural alignment: [magic] is followed by
    four bytes of padding so that [timestamp_ns] is 8-aligned. *)
Fixpoint le_bytes (n : nat) (z : Z) : list Z :=
  match n with
  | O => []
  | S n => (z mod 256) :: le_bytes n (z / 256)
  end.

Fixpoint le_value (bs : list Z) : Z :=
  match bs with
  | [] => 0
  | b :: bs => b + 256 * le_value bs
  end.

(** The field at byte offset [off], [n] bytes wide. *)
Definition field (off n : nat) (bs : list Z) : list Z := take n (drop off bs).
Definition field_value (off n : nat) (bs : list Z) : Z := le_value (field off n bs).

Definition encode_file_id (i : fileguard_file_id_t) : list Z :=
  le_bytes 4 (abi_dev_major i) ++ le_bytes 4 (abi_dev_minor i) ++ le_bytes 8 (abi_ino i).

Definition decode_file_id (off : nat) (bs : list Z) : fileguard_file_id_t :=
  AbiFileId (field_value off 4 bs) (field_value (off + 4) 4 bs) (field_value (off + 8) 8 bs).

(** [sizeof(fileguard_event_t)]. *)
Definition sizeof_event : nat := 88.

(** The record as it lies in the ring buffer; [padding] is what the four
    padding bytes happen to hold. *)
Definition encode_event (padding : list Z) (e : fileguard_event_t) : list Z :=
  le_bytes 4 (ev_magic e) ++ padding ++ le_bytes 8 (ev_timestamp_ns e) ++
  le_bytes 4 (ev_pid e) ++ le_bytes 4 (ev_tgid e) ++
  le_bytes 4 (ev_uid e) ++ le_bytes 4 (ev_gid e) ++
  encode_file_id (ev_res e) ++ encode_file_id (ev_proc e) ++
  le_bytes 4 (ev_rule_id e) ++ le_bytes 1 (ev_operation e) ++
  le_bytes 1 (ev_action e) ++ le_bytes 1 (ev_reason e) ++ le_bytes 1 (ev_pad e) ++
  ev_comm e.

(** [static_cast<const fileguard_event_t*>(data)]: read every field at its
    offset. *)
Definition decode_event (bs : list Z) : fileguard_event_t :=
  {| ev_magic := field_value 0 4 bs;
     ev_timestamp_ns := field_value 8 8 bs;
     ev_pid := field_value 16 4 bs;
     ev_tgid := field_value 20 4 bs;
     ev_uid := field_value 24 4 bs;
     ev_gid := field_value 28 4 bs;
     ev_res := decode_file_id 32 bs;
     ev_proc := decode_file_id 48 bs;
     ev_rule_id := field_value 64 4 bs;
     ev_operation := field_value 68 1 bs;
     ev_action := field_value 69 1 bs;
     ev_reason := field_value 70 1 bs;
     ev_pad := field_value 71 1 bs;
     ev_comm := field 72 16 bs |}.

Lemma length_le_bytes (n : nat) (z : Z) : length (le_bytes n z) = n.
Proof. revert z; induction n; intros z; cbn; auto. Qed.

Lemma le_value_bytes (n : nat) (z : Z) :
  in_u (8 * Z.of_nat n) z -> le_value (le_bytes n z) = z.
Proof.
  unfold in_u. revert z; induction n as [|n IH]; intros z Hz; cbn [le_bytes le_value].
  - cbn in Hz. lia.
  - rewrite IH.
    + pose proof (Z.div_mod z 256). lia.
    + replace (8 * Z.of_nat (S n)) with (8 + 8 * Z.of_nat n) in Hz by lia.
      rewrite Z.pow_add_r in Hz by lia. change (2 ^ 8) with 256 in Hz.
      split; [apply Z.div_pos; lia|apply Z.div_lt_upper_bound; lia].
Qed.

(** Reading the field that follows a prefix of known length. *)
Lemma field_app (pre x post : list Z) (off n : nat) :
  length pre = off -> length x = n -> field off n (pre ++ x ++ post) = x.
Proof. intros <- <-. unfold field. by rewrite drop_app_length, take_app_length. Qed.

Lemma field_skip (pre bs : list Z) (off n : nat) :
  (length pre <= off)%nat -> field off n (pre ++ bs) = field (off - length pre) n bs.
Proof. intros. unfold field. by rewrite drop_app_ge. Qed.

Lemma length_encode_event (padding : list Z) (e : fileguard_event_t) :
  length padding = 4%nat -> length (ev_comm e) = 16%nat ->
  length (encode_event padding e) = sizeof_event.
Proof.
  intros Hp Hc. unfold encode_event, encode_file_id.
  rewrite !length_app, !length_le_bytes, Hp, Hc. done.
Qed.

Lemma field_head (x post : list Z) (n : nat) : length x = n -> field 0 n (x ++ post) = x.
Proof. intros <-. unfold field. by rewrite drop_0, take_app_length. Qed.

(** Walks to the field and drops the prefixes before it. *)
Ltac solve_field :=
  repeat first
    [ rewrite field_head by (rewrite ?length_le_bytes; done)
    | rewrite field_skip by (rewrite ?length_le_bytes; lia);
      rewrite ?length_le_bytes ];
  cbn [Nat.sub].

(** The layout round trip: the userspace cast reads back exactly what the
    kernel stored, whatever the padding holds. *)
Lemma decode_encode_event (padding : list Z) (e : fileguard_event_t) :
  length padding = 4%nat -> event_wf e ->
  decode_event (encode_event padding e) = e.
Proof.
  intros Hp Hwf. destruct e as [m ts pid tgid uid gid [rM rm ri] [pM pm pi] rid op ac re pa comm].
  unfold event_wf, abi_file_id_wf in Hwf; cbn in Hwf. destruct_and!.
  unfold decode_event, decode_file_id, encode_event, encode_file_id, field_value; cbn [
    ev_magic ev_timestamp_ns ev_pid ev_tgid ev_uid ev_gid ev_res ev_proc ev_rule_id
    ev_operation ev_action ev_reason ev_pad ev_comm abi_dev_major abi_dev_minor abi_ino].
  rewrite <- !app_assoc.
  f_equal; [..|f_equal|f_equal| | | | | |].
  all: repeat first
    [ rewrite field_head by (rewrite ?length_le_bytes; done)
    | rewrite field_skip by (rewrite ?length_le_bytes; cbn; lia); rewrite ?length_le_bytes, ?Hp; cbn [Nat.sub Nat.add] ].
  all: try (apply le_value_bytes; done).
  unfold field. rewrite drop_0. by apply take_ge; lia.
Qed.
