(* ===== verification/FileId.v ===== *)
(** * File identity: include/fileguard/file_id.hpp

    [(dev_major, dev_minor, ino)] as computed on both sides of the kernel
    boundary, its comparison operators, its rendering and its conversions to
    and from the ABI struct. *)

From S2P Require Import Prelude Abi.

Local Open Scope Z_scope.

Record FileId := MkFileId {
  dev_major : Z;  (* uint32_t *)
  dev_minor : Z;  (* uint32_t *)
  ino : Z;        (* uint64_t *)
}.

(** [FileId id;] uses the default member initialisers. *)
Definition FileId_default : FileId := MkFileId 0 0 0.

Definition FileId_wf (f : FileId) : Prop :=
  in_u 32 (dev_major f) /\ in_u 32 (dev_minor f) /\ in_u 64 (ino f).

#[export] Instance FileId_eq_dec : EqDecision FileId.
Proof. solve_decision. Defined.
#[export] Instance FileId_countable : Countable FileId.
Proof.
  apply (inj_countable' (fun i => (dev_major i, dev_minor i, ino i))
                        (fun t => MkFileId t.1.1 t.1.2 t.2)).
  by intros [].
Defined.

(** [operator==], [operator!=], [operator<]. *)
Definition FileId_eqb (a b : FileId) : bool :=
  (dev_major a =? dev_major b) && (dev_minor a =? dev_minor b) && (ino a =? ino b).

Definition FileId_neqb (a b : FileId) : bool := negb (FileId_eqb a b).

Definition FileId_ltb (a b : FileId) : bool :=
  if negb (dev_major a =? dev_major b) then dev_major a <? dev_major b
  else if negb (dev_minor a =? dev_minor b) then dev_minor a <? dev_minor b
  else ino a <? ino b.

Definition FileId_valid (f : FileId) : bool := negb (ino f =? 0).

Definition FileId_to_string (f : FileId) : string :=
  to_string_u (dev_major f) +:+ ":" +:+ to_string_u (dev_minor f) +:+ ":" +:+
  to_string_u (ino f).

Definition to_abi (f : FileId) : fileguard_file_id_t :=
  {| abi_dev_major := dev_major f; abi_dev_minor := dev_minor f; abi_ino := ino f |}.

Definition from_abi (i : fileguard_file_id_t) : FileId :=
  {| dev_major := abi_dev_major i; dev_minor := abi_dev_minor i; ino := abi_ino i |}.

(** ** Lemmas *)

Lemma FileId_eqb_eq (a b : FileId) : FileId_eqb a b = true <-> a = b.
Proof.
  destruct a as [a1 a2 a3], b as [b1 b2 b3]. unfold FileId_eqb; cbn.
  rewrite !andb_true_iff, !Z.eqb_eq. split; [naive_solver|by intros [= -> -> ->]].
Qed.

Lemma FileId_eqb_refl (a : FileId) : FileId_eqb a a = true.
Proof. by apply FileId_eqb_eq. Qed.

Lemma FileId_eqb_bool_decide (a b : FileId) : FileId_eqb a b = bool_decide (a = b).
Proof. apply eq_true_iff_eq. by rewrite FileId_eqb_eq, bool_decide_eq_true. Qed.

Lemma from_abi_to_abi (f : FileId) : from_abi (to_abi f) = f.
Proof. by destruct f. Qed.

Lemma to_abi_from_abi (i : fileguard_file_id_t) : to_abi (from_abi i) = i.
Proof. by destruct i. Qed.

#[export] Instance to_abi_inj : Inj (=) (=) to_abi.
Proof. intros a b Heq%(f_equal from_abi). by rewrite !from_abi_to_abi in Heq. Qed.

Create Rewrite HintDb abi.
#[export] Hint Rewrite from_abi_to_abi to_abi_from_abi : abi.

Lemma FileId_valid_spec (f : FileId) : FileId_valid f = true <-> ino f <> 0.
Proof. unfold FileId_valid. by rewrite negb_true_iff, Z.eqb_neq. Qed.

Lemma FileId_valid_false (f : FileId) : FileId_valid f = false <-> ino f = 0.
Proof. unfold FileId_valid. by rewrite negb_false_iff, Z.eqb_eq. Qed.

(** [operator<] is lexicographic. *)
Lemma FileId_ltb_lt (a b : FileId) :
  FileId_ltb a b = true <->
  dev_major a < dev_major b \/
  dev_major a = dev_major b /\
    (dev_minor a < dev_minor b \/ dev_minor a = dev_minor b /\ ino a < ino b).
Proof.
  unfold FileId_ltb.
  destruct (Z.eqb_spec (dev_major a) (dev_major b)); cbn; [|rewrite Z.ltb_lt; lia].
  destruct (Z.eqb_spec (dev_minor a) (dev_minor b)); cbn; rewrite Z.ltb_lt; lia.
Qed.

(** ** Properties *)

(** FileId ordering: [operator<] is a strict total order compatible with
    [operator==]: irreflexive, transitive, and exactly one of a < b, a == b,
    b < a holds, so [FileId] is usable as an ordered key. *)
Theorem FileId_strict_total_order :
  (forall a, FileId_ltb a a = false) /\
  (forall a b c, FileId_ltb a b = true -> FileId_ltb b c = true -> FileId_ltb a c = true) /\
  (forall a b,
     (FileId_ltb a b = true /\ FileId_eqb a b = false /\ FileId_ltb b a = false) \/
     (FileId_ltb a b = false /\ FileId_eqb a b = true /\ FileId_ltb b a = false) \/
     (FileId_ltb a b = false /\ FileId_eqb a b = false /\ FileId_ltb b a = true)).
Proof.
  split_and!.
  - intros a. apply not_true_iff_false. rewrite FileId_ltb_lt. lia.
  - intros a b c. rewrite !FileId_ltb_lt. lia.
  - intros [a1 a2 a3] [b1 b2 b3]. rewrite <- !not_true_iff_false, !FileId_ltb_lt, FileId_eqb_eq.
    cbn. assert (MkFileId a1 a2 a3 = MkFileId b1 b2 b3 <-> a1 = b1 /\ a2 = b2 /\ a3 = b3) as ->
      by (split; [by intros [= -> -> ->]|by intros (-> & -> & ->)]).
    lia.
Qed.

Lemma to_string_u_no_colon (z : Z) :
  str_all (fun x => negb (Ascii.eqb x ":")) (to_string_u z) = true.
Proof.
  apply (str_all_impl is_digit); [|apply to_string_u_digits].
  intros c. by apply is_digit_neq.
Qed.

(** Rendering is injective: two well-formed identities that print the
    same ["major:minor:ino"] text are equal, so an unresolved identity in an
    event names exactly one file. *)
Theorem FileId_to_string_inj (a b : FileId) :
  FileId_wf a -> FileId_wf b -> FileId_to_string a = FileId_to_string b -> a = b.
Proof.
  destruct a as [a1 a2 a3], b as [b1 b2 b3]. unfold FileId_wf, FileId_to_string, in_u; cbn.
  intros Ha Hb Heq.
  apply str_app_sep_inj in Heq as [H1 Heq]; [|apply to_string_u_no_colon..].
  apply str_app_sep_inj in Heq as [H2 Heq]; [|apply to_string_u_no_colon..].
  f_equal; apply to_string_u_inj; tauto || lia.
Qed.

Lemma FileId_to_string_inj_witness :
  FileId_wf (MkFileId 1 2 99) /\ FileId_to_string (MkFileId 1 2 99) = "1:2:99" /\
  MkFileId 1 2 99 = MkFileId 1 2 99.
Proof.
  assert (FileId_wf (MkFileId 1 2 99)) as H by (vm_compute; intuition discriminate).
  split; [exact H|]. split; [reflexivity|].
  exact (FileId_to_string_inj (MkFileId 1 2 99) (MkFileId 1 2 99) H H eq_refl).
Defined.

Example FileId_to_string_test : FileId_to_string (MkFileId 3 4 55) = "3:4:55".
Proof. reflexivity. Qed.
