(* ===== verification/Policy.v ===== *)
(** * The policy model: include/fileguard/policy.hpp and src/policy.cpp

    The typed policy vocabulary, [Policy::validate], [Policy::is_protected]
    and [Policy::find_rule]; [policy_wf] is the declarative reading of what
    [validate] accepts. *)

From S2P Require Import Prelude.

(** ** Vocabulary

    A scoped enumeration over [uint8_t] can hold any byte; the values without
    an enumerator (a [static_cast] from a ring-buffer byte produces them) are
    the [_unnamed] ones. *)
Inductive Operation := Open | Operation_unnamed (code : Z).
Inductive Action := Allow | Deny | Action_unnamed (code : Z).
Inductive ProcessIdentityType := ExePath | ProcessIdentityType_unnamed (code : Z).

#[export] Instance Operation_eq_dec : EqDecision Operation.
Proof. solve_decision. Defined.
#[export] Instance Action_eq_dec : EqDecision Action.
Proof. solve_decision. Defined.
#[export] Instance ProcessIdentityType_eq_dec : EqDecision ProcessIdentityType.
Proof. solve_decision. Defined.

(** [static_cast<uint32_t>(e)] and [static_cast<E>(byte)]. *)
Definition Operation_code (op : Operation) : Z :=
  match op with Open => 1 | Operation_unnamed v => v end.
Definition Operation_of_code (v : Z) : Operation :=
  if (v =? 1)%Z then Open else Operation_unnamed v.

Definition Action_code (a : Action) : Z :=
  match a with Allow => 0 | Deny => 1 | Action_unnamed v => v end.
Definition Action_of_code (v : Z) : Action :=
  if (v =? 0)%Z then Allow else if (v =? 1)%Z then Deny else Action_unnamed v.

Definition operation_name (op : Operation) : string :=
  if bool_decide (op = Open) then "OPEN" else "?".

Definition action_name (a : Action) : string :=
  if bool_decide (a = Allow) then "ALLOW" else "DENY".

Record ProcessIdentity := MkProcessIdentity {
  proc_type : ProcessIdentityType;
  proc_value : string;
}.
Definition ProcessIdentity_default : ProcessIdentity := MkProcessIdentity ExePath "".

Record ResourceIdentity := MkResourceIdentity {
  res_path : string;
  res_operation : option Operation;
}.

Record PolicyRule := MkPolicyRule {
  rule_id : string;
  rule_resource : ResourceIdentity;
  rule_process : ProcessIdentity;
  rule_operation : Operation;
  rule_action : Action;
}.

Record Policy := MkPolicy {
  version : Z;  (* int32_t *)
  default_action : Action;
  protected_resources : list ResourceIdentity;
  rules : list PolicyRule;
}.

#[export] Instance ProcessIdentity_eq_dec : EqDecision ProcessIdentity.
Proof. solve_decision. Defined.
#[export] Instance ResourceIdentity_eq_dec : EqDecision ResourceIdentity.
Proof. solve_decision. Defined.
#[export] Instance PolicyRule_eq_dec : EqDecision PolicyRule.
Proof. solve_decision. Defined.
#[export] Instance Policy_eq_dec : EqDecision Policy.
Proof. solve_decision. Defined.

(** ** Policy::validate

    One iteration of each loop; the state is the [unordered_set] the loop
    grows, and [insert(x).second] is "x was not in it". *)
Definition validate_resource (protected_paths : gset string) (res : ResourceIdentity)
    : result (gset string) :=
  if str_empty (res_path res) then err "protected resource has an empty path"
  else if negb (is_absolute (res_path res)) then
    err ("protected resource path must be absolute: '" +:+ res_path res +:+ "'")
  else if match res_operation res with
          | Some op => negb (bool_decide (op = Open)) | None => false end then
    err ("unsupported operation on protected resource '" +:+ res_path res +:+
         "' (MVP supports OPEN only)")
  else if bool_decide (res_path res ∈ protected_paths) then
    err ("duplicate protected resource: '" +:+ res_path res +:+ "'")
  else Ok ({[ res_path res ]} ∪ protected_paths).

Definition validate_rule (protected_paths : gset string)
    (rule_ids : gset string) (rule : PolicyRule) : result (gset string) :=
  let path := res_path (rule_resource rule) in
  if str_empty (rule_id rule) then err "rule has an empty id"
  else if bool_decide (rule_id rule ∈ rule_ids) then
    err ("duplicate rule id: '" +:+ rule_id rule +:+ "'")
  else if str_empty path || negb (is_absolute path) then
    err ("rule '" +:+ rule_id rule +:+ "' resource path must be absolute")
  else if negb (bool_decide (path ∈ protected_paths)) then
    err ("rule '" +:+ rule_id rule +:+ "' references resource '" +:+ path +:+
         "' which is not listed in protected_resources")
  else if negb (bool_decide (proc_type (rule_process rule) = ExePath)) then
    err ("rule '" +:+ rule_id rule +:+
         "' uses an unsupported process identity type (MVP: exe_path)")
  else if str_empty (proc_value (rule_process rule)) then
    err ("rule '" +:+ rule_id rule +:+ "' has an empty process path")
  else if negb (bool_decide (rule_operation rule = Open)) then
    err ("rule '" +:+ rule_id rule +:+
         "' uses an unsupported operation (MVP supports OPEN only)")
  else Ok ({[ rule_id rule ]} ∪ rule_ids).

Definition validate (p : Policy) : ResultVoid :=
  if (version p <? 0)%Z then err "policy version must be non-negative"
  else
    protected_paths ← result_fold validate_resource ∅ (protected_resources p);
    rule_ids ← result_fold (validate_rule protected_paths) ∅ (rules p);
    ok_v.

(** ** Lookups *)
Definition is_protected (p : Policy) (path : string) : bool :=
  existsb (fun res => String.eqb (res_path res) path) (protected_resources p).

Definition rule_matches (resource_path : string) (process : ProcessIdentity)
    (op : Operation) (rule : PolicyRule) : bool :=
  String.eqb (res_path (rule_resource rule)) resource_path &&
  bool_decide (proc_type (rule_process rule) = proc_type process) &&
  String.eqb (proc_value (rule_process rule)) (proc_value process) &&
  bool_decide (rule_operation rule = op).

(** [nullptr] is [None]. *)
Definition find_rule (p : Policy) (resource_path : string) (process : ProcessIdentity)
    (op : Operation) : option PolicyRule :=
  find_first (rule_matches resource_path process op) (rules p).

(** ** The declarative invariant of a validated policy *)
Definition resource_wf (res : ResourceIdentity) : Prop :=
  is_absolute (res_path res) = true /\
  (res_operation res = None \/ res_operation res = Some Open).

Definition rule_wf (paths : list string) (rule : PolicyRule) : Prop :=
  rule_id rule <> "" /\
  res_path (rule_resource rule) ∈ paths /\
  is_absolute (res_path (rule_resource rule)) = true /\
  proc_type (rule_process rule) = ExePath /\
  proc_value (rule_process rule) <> "" /\
  rule_operation rule = Open.

Record policy_wf (p : Policy) : Prop := {
  wf_version : (0 <= version p)%Z;
  wf_resources : Forall resource_wf (protected_resources p);
  wf_paths_nodup : NoDup (res_path <$> protected_resources p);
  wf_rules : Forall (rule_wf (res_path <$> protected_resources p)) (rules p);
  wf_ids_nodup : NoDup (rule_id <$> rules p);
}.

(** ** One iteration *)

Lemma is_absolute_nonempty (s : string) : is_absolute s = true -> str_empty s = false.
Proof. by destruct s. Qed.

Lemma str_empty_spec (s : string) : str_empty s = false <-> s <> "".
Proof. by destruct s. Qed.

Lemma validate_resource_Ok (paths paths' : gset string) (res : ResourceIdentity) :
  validate_resource paths res = Ok paths' <->
  resource_wf res /\ (res_path res ∉ paths) /\ paths' = {[ res_path res ]} ∪ paths.
Proof.
  unfold validate_resource, resource_wf. split.
  - destruct (str_empty _); [done|]. destruct (is_absolute _); [|done].
    destruct (res_operation res) as [[|]|]; cbn; try done;
      repeat (case_bool_decide; cbn; try done); intros [= <-]; auto.
  - intros ((Habs & Hop) & Hnew & ->).
    rewrite is_absolute_nonempty, Habs, bool_decide_eq_false_2 by done.
    by destruct Hop as [-> | ->].
Qed.

Lemma validate_rule_Ok (paths ids ids' : gset string) (rule : PolicyRule) :
  validate_rule paths ids rule = Ok ids' <->
  rule_wf (elements paths) rule /\ (rule_id rule ∉ ids) /\ ids' = {[ rule_id rule ]} ∪ ids.
Proof.
  unfold validate_rule, rule_wf. rewrite elem_of_elements, <- !str_empty_spec. split.
  - destruct (str_empty (rule_id rule)); [done|]. case_bool_decide; [done|].
    destruct (str_empty (res_path _)); [done|]. destruct (is_absolute _); [|done]. cbn.
    repeat (case_bool_decide || destruct (str_empty _); cbn; try done).
    intros [= <-]. by split_and!.
  - intros ((Hid & Hpath & Habs & Hty & Hval & Hop) & Hnew & ->).
    rewrite Hid, Hval, is_absolute_nonempty, Habs by done.
    by rewrite (bool_decide_eq_false_2 (_ ∈ ids)), !bool_decide_eq_true_2 by done.
Qed.

(** ** The loops *)

(** A loop that keeps a set of keys succeeds exactly when every element is
    acceptable and the keys are distinct. *)
Lemma nodup_loop_Ok {A : Type} (f : gset string -> A -> result (gset string))
    (key : A -> string) (ok : A -> Prop) :
  (forall s s' x, f s x = Ok s' <-> ok x /\ (key x ∉ s) /\ s' = {[ key x ]} ∪ s) ->
  forall l s s',
    result_fold f s l = Ok s' <->
    Forall ok l /\ NoDup (key <$> l) /\ (forall x, x ∈ l -> key x ∉ s) /\
    s' = list_to_set (key <$> l) ∪ s.
Proof.
  intros Hf. induction l as [|x l IH]; intros s s'; cbn [result_fold fmap list_fmap].
  - split; [intros [= <-]; split_and!; [constructor..|set_solver|set_solver]|].
    intros (_ & _ & _ & ->). f_equal. set_solver.
  - rewrite result_bind_Ok. setoid_rewrite Hf. rewrite Forall_cons, NoDup_cons. split.
    + intros (s1 & (Hx & Hnew & ->) & (Hl & Hnd & Hin & ->)%IH).
      split_and!; [done..| |done| |set_solver].
      * rewrite list_elem_of_fmap. intros (y & Hy & Hyl).
        apply (Hin y Hyl). rewrite <- Hy. set_solver.
      * intros y [->|Hy]%elem_of_cons; [done|]. specialize (Hin y Hy). set_solver.
    + intros ((Hx & Hl) & (Hxn & Hnd) & Hin & ->).
      exists ({[ key x ]} ∪ s). split; [split_and!; [done| |done]; apply Hin; set_solver|].
      apply IH. split_and!; [done..| |set_solver].
      intros y Hy. rewrite not_elem_of_union, not_elem_of_singleton. split.
      * intros Heq. apply Hxn. rewrite <- Heq. by apply list_elem_of_fmap_2.
      * apply Hin. set_solver.
Qed.

Lemma rule_wf_paths (l1 l2 : list string) (rule : PolicyRule) :
  (forall x, x ∈ l1 <-> x ∈ l2) -> rule_wf l1 rule <-> rule_wf l2 rule.
Proof. intros Hl. unfold rule_wf. by rewrite Hl. Qed.

Lemma validate_resources_Ok (l : list ResourceIdentity) (s : gset string) :
  result_fold validate_resource ∅ l = Ok s <->
  Forall resource_wf l /\ NoDup (res_path <$> l) /\ s = list_to_set (res_path <$> l).
Proof.
  rewrite (nodup_loop_Ok _ _ _ validate_resource_Ok).
  split; [intros (?&?&?&->)|intros (?&?&->)]; split_and!; set_solver.
Qed.

(** [validate] accepts exactly the well-formed policies. *)
Lemma validate_iff_wf (p : Policy) : validate p = ok_v <-> policy_wf p.
Proof.
  unfold validate. destruct (Z.ltb_spec (version p) 0) as [Hv|Hv].
  { split; [done|]. intros []. lia. }
  split.
  - intros (paths & (Hres & Hnd & ->)%validate_resources_Ok & Hrest)%result_bind_Ok.
    apply result_bind_Ok in Hrest as (ids & Hrules & _).
    apply (nodup_loop_Ok _ _ _ (validate_rule_Ok _)) in Hrules as (Hrules & Hids & _).
    split; try done. eapply Forall_impl; [exact Hrules|]. intros rule.
    apply rule_wf_paths. set_solver.
  - intros [_ Hres Hnd Hrules Hids].
    rewrite (proj2 (validate_resources_Ok _ _) (conj Hres (conj Hnd eq_refl))). cbn.
    assert (result_fold (validate_rule (list_to_set (res_path <$> protected_resources p))) ∅
              (rules p) = Ok (list_to_set (rule_id <$> rules p) ∪ ∅)) as ->; [|done].
    apply (nodup_loop_Ok _ _ _ (validate_rule_Ok _)). split_and!; [|done|set_solver|done].
    eapply Forall_impl; [exact Hrules|]. intros rule.
    apply rule_wf_paths. set_solver.
Qed.

Lemma validate_Ok_unit (p : Policy) (u : unit) : validate p = Ok u -> policy_wf p.
Proof. destruct u. apply validate_iff_wf. Qed.

(** ** Lookups *)

Lemma is_protected_spec (p : Policy) (path : string) :
  is_protected p path = true <-> path ∈ res_path <$> protected_resources p.
Proof.
  unfold is_protected. rewrite existsb_exists, list_elem_of_fmap.
  setoid_rewrite String.eqb_eq. setoid_rewrite <- list_elem_of_In. naive_solver.
Qed.

Lemma rule_matches_spec (path : string) (process : ProcessIdentity) (op : Operation)
    (rule : PolicyRule) :
  rule_matches path process op rule = true <->
  res_path (rule_resource rule) = path /\ rule_process rule = process /\
  rule_operation rule = op.
Proof.
  unfold rule_matches. rewrite !andb_true_iff, !String.eqb_eq, !bool_decide_eq_true.
  destruct (rule_process rule), process; cbn. naive_solver.
Qed.

(** ** Properties *)

(** C7 (validate is exact): [Policy::validate] returns success exactly for the
    policies that satisfy the invariant: non-negative version, absolute and
    pairwise distinct protected paths with OPEN (or no) operation, and rules
    with distinct non-empty ids that name a protected absolute path, an
    exe_path process with a non-empty value and the OPEN operation. *)
Theorem validate_exact (p : Policy) : validate p = ok_v <-> policy_wf p.
Proof. apply validate_iff_wf. Qed.

(** Which error validate reports: [Policy::validate] fails exactly when
    the version is negative, or some protected resource is the first one its
    loop body rejects (given the paths before it), or every resource passes
    and some rule is the first one rejected (given all the paths and the ids
    before it); the message is that entry's message, so entries after the
    first offender never change it. *)
Theorem validate_reports_first_offender (p : Policy) (m : string) :
  validate p = Err m <->
  ((version p < 0)%Z /\ m = "policy version must be non-negative") \/
  ((0 <= version p)%Z /\ exists pre res post,
     protected_resources p = pre ++ res :: post /\
     Forall resource_wf pre /\ NoDup (res_path <$> pre) /\
     validate_resource (list_to_set (res_path <$> pre)) res = Err m) \/
  ((0 <= version p)%Z /\ Forall resource_wf (protected_resources p) /\
   NoDup (res_path <$> protected_resources p) /\ exists pre rule post,
     rules p = pre ++ rule :: post /\
     Forall (rule_wf (res_path <$> protected_resources p)) pre /\
     NoDup (rule_id <$> pre) /\
     validate_rule (list_to_set (res_path <$> protected_resources p))
                   (list_to_set (rule_id <$> pre)) rule = Err m).
Proof.
  unfold validate. destruct (Z.ltb_spec (version p) 0) as [Hv|Hv].
  { split; [intros [= <-]; by left|]. intros [[_ ->]|[(?&_)|(?&_)]]; [done|lia..]. }
  cbv iota. rewrite result_bind_Err. setoid_rewrite result_bind_Err.
  setoid_rewrite result_fold_Err. setoid_rewrite validate_resources_Ok.
  setoid_rewrite (nodup_loop_Ok _ _ _ (validate_rule_Ok _)).
  split.
  - intros [(pre & res & post & s & Hl & (Hwf & Hnd & ->) & Hm)|Hrules].
    + right; left. split; [done|]. by exists pre, res, post.
    + destruct Hrules as (s & (Hwf & Hnd & ->) & [Hr|(?&_&?)]); [|done].
      destruct Hr as (pre & rule & post & s & Hl & (Hrwf & Hrnd & _ & ->) & Hm).
      right; right. split_and!; [done..|]. exists pre, rule, post.
      rewrite union_empty_r_L in Hm. split_and!; [done| |done|done].
      eapply Forall_impl; [exact Hrwf|]. intros r. apply rule_wf_paths. set_solver.
  - intros [[? _]|[(_ & pre & res & post & Hl & Hwf & Hnd & Hm)|Hrules]]; [lia|left|right].
    + by exists pre, res, post, (list_to_set (res_path <$> pre)).
    + destruct Hrules as (_ & Hwf & Hnd & pre & rule & post & Hl & Hrwf & Hrnd & Hm).
      exists (list_to_set (res_path <$> protected_resources p)). split; [done|left].
      exists pre, rule, post, (list_to_set (rule_id <$> pre) ∪ ∅).
      rewrite union_empty_r_L. split_and!; [done| |done|set_solver|done|done].
      eapply Forall_impl; [exact Hrwf|]. intros r. apply rule_wf_paths. set_solver.
Qed.

(** Find_rule takes the first match: [find_rule] returns a rule exactly
    when it is the first of the list whose resource path, process identity and
    operation equal the request's, and [nullptr] exactly when none matches. *)
Theorem find_rule_first_match (p : Policy) (path : string) (process : ProcessIdentity)
    (op : Operation) :
  let hits rule := res_path (rule_resource rule) = path /\ rule_process rule = process /\
                   rule_operation rule = op in
  (forall rule, find_rule p path process op = Some rule <->
     exists pre post, rules p = pre ++ rule :: post /\ hits rule /\
                      Forall (fun r => ~ hits r) pre) /\
  (find_rule p path process op = None <-> Forall (fun r => ~ hits r) (rules p)).
Proof.
  intros hits. unfold find_rule.
  assert (forall r, rule_matches path process op r = false <-> ~ hits r) as Hno.
  { intros r. rewrite <- not_true_iff_false. by rewrite rule_matches_spec. }
  split.
  - intros rule. rewrite find_first_Some. setoid_rewrite rule_matches_spec.
    by setoid_rewrite Hno.
  - rewrite find_first_None. by setoid_rewrite Hno.
Qed.
