(* ===== verification/DecisionEngine.v ===== *)
(** * The userspace decision: include/fileguard/decision_engine.hpp and
    src/decision_engine.cpp

    [evaluate] on paths, and [decides], the decision procedure that the
    header and docs/05-policy-model.md draw, as an inductive relation. *)

From S2P Require Import Prelude Abi Policy.

(** [enum class Reason : uint8_t], valued by the FG_REASON codes; other bytes
    are [Reason_unnamed]. *)
Inductive Reason :=
| Reason_PolicyRule
| Reason_DefaultDeny
| Reason_UnknownProcess
| Reason_ResourceUnprotected
| Reason_unnamed (code : Z).

#[export] Instance Reason_eq_dec : EqDecision Reason.
Proof. solve_decision. Defined.

(** [static_cast<Reason>(byte)], and the code of a reason. *)
Definition Reason_of_code (v : Z) : Reason :=
  if (v =? FG_REASON_POLICY_RULE)%Z then Reason_PolicyRule
  else if (v =? FG_REASON_DEFAULT_DENY)%Z then Reason_DefaultDeny
  else if (v =? FG_REASON_UNKNOWN_PROCESS)%Z then Reason_UnknownProcess
  else if (v =? FG_REASON_UNKNOWN_RESOURCE)%Z then Reason_ResourceUnprotected
  else Reason_unnamed v.

Definition reason_name (r : Reason) : string :=
  match r with
  | Reason_PolicyRule => "POLICY_RULE"
  | Reason_DefaultDeny => "DEFAULT_DENY"
  | Reason_UnknownProcess => "UNKNOWN_PROCESS"
  | Reason_ResourceUnprotected => "RESOURCE_UNPROTECTED"
  | Reason_unnamed _ => "?"
  end.

Record AccessRequest := MkAccessRequest {
  resource_path : string;
  req_process : ProcessIdentity;
  req_operation : Operation;
}.

Record Decision := MkDecision {
  action : Action;
  reason : Reason;
  matched_rule_id : string;
  matched_rule_index : Z;  (* uint32_t *)
}.
Definition Decision_default : Decision := MkDecision Deny Reason_DefaultDeny "" 0.

#[export] Instance Decision_eq_dec : EqDecision Decision.
Proof. solve_decision. Defined.

(** DecisionEngine::evaluate *)
Definition evaluate (policy : Policy) (request : AccessRequest) : Decision :=
  if negb (is_protected policy (resource_path request)) then
    MkDecision Allow Reason_ResourceUnprotected "" 0
  else
    match find_rule policy (resource_path request) (req_process request)
                    (req_operation request) with
    | Some rule => MkDecision (rule_action rule) Reason_PolicyRule (rule_id rule) 0
    | None => MkDecision (default_action policy) Reason_DefaultDeny "" 0
    end.

(** ** The documented procedure *)

(** The rule speaks about this very request. *)
Definition rule_covers (request : AccessRequest) (rule : PolicyRule) : Prop :=
  res_path (rule_resource rule) = resource_path request /\
  rule_process rule = req_process request /\
  rule_operation rule = req_operation request.

Inductive decides (p : Policy) (q : AccessRequest) : Decision -> Prop :=
| decides_unprotected :
    (resource_path q ∉ res_path <$> protected_resources p) ->
    decides p q (MkDecision Allow Reason_ResourceUnprotected "" 0)
| decides_rule pre rule post :
    resource_path q ∈ res_path <$> protected_resources p ->
    rules p = pre ++ rule :: post ->
    rule_covers q rule ->
    Forall (fun r => ~ rule_covers q r) pre ->
    decides p q (MkDecision (rule_action rule) Reason_PolicyRule (rule_id rule) 0)
| decides_default :
    resource_path q ∈ res_path <$> protected_resources p ->
    Forall (fun r => ~ rule_covers q r) (rules p) ->
    decides p q (MkDecision (default_action p) Reason_DefaultDeny "" 0).

(** ** Lemmas *)

Lemma rule_covers_spec (q : AccessRequest) (r : PolicyRule) :
  rule_matches (resource_path q) (req_process q) (req_operation q) r = true <->
  rule_covers q r.
Proof. apply rule_matches_spec. Qed.

Lemma rule_covers_false (q : AccessRequest) (r : PolicyRule) :
  rule_matches (resource_path q) (req_process q) (req_operation q) r = false <->
  ~ rule_covers q r.
Proof. by rewrite <- rule_covers_spec, not_true_iff_false. Qed.

Lemma evaluate_decides (p : Policy) (q : AccessRequest) : decides p q (evaluate p q).
Proof.
  unfold evaluate. destruct (is_protected p (resource_path q)) eqn:Hp; cbn.
  - apply is_protected_spec in Hp. unfold find_rule. destruct (find_first _ _) as [rule|] eqn:Hr.
    + apply find_first_Some in Hr as (pre & post & Hl & Hc & Hpre).
      apply (decides_rule p q pre rule post); [done|done|by apply rule_covers_spec|].
      eapply Forall_impl; [exact Hpre|]. intros r. apply rule_covers_false.
    + apply find_first_None in Hr. apply decides_default; [done|].
      eapply Forall_impl; [exact Hr|]. intros r. apply rule_covers_false.
  - apply decides_unprotected. by rewrite <- is_protected_spec, not_true_iff_false.
Qed.

Lemma first_split_unique {A : Type} (P : A -> Prop) (pre1 pre2 post1 post2 : list A) (x y : A) :
  pre1 ++ x :: post1 = pre2 ++ y :: post2 ->
  P x -> P y -> Forall (fun z => ~ P z) pre1 -> Forall (fun z => ~ P z) pre2 ->
  x = y.
Proof.
  revert pre2; induction pre1 as [|a pre1 IH]; intros [|b pre2]; cbn; intros Heq Hx Hy H1 H2;
    simplify_eq; [done|by inversion_clear H2|by inversion_clear H1|].
  apply (IH pre2); auto; [by inversion_clear H1|by inversion_clear H2].
Qed.

Lemma decides_functional (p : Policy) (q : AccessRequest) (d1 d2 : Decision) :
  decides p q d1 -> decides p q d2 -> d1 = d2.
Proof.
  assert (forall pre rule post, rules p = pre ++ rule :: post -> rule_covers q rule ->
            ~ Forall (fun r => ~ rule_covers q r) (rules p)) as Hex.
  { intros pre rule post -> Hc Hall. apply Forall_app in Hall as [_ Hall].
    by inversion_clear Hall. }
  destruct 1 as [|pre1 r1 post1 ? Hl1 Hc1 Hp1|], 1 as [|pre2 r2 post2 ? Hl2 Hc2 Hp2|];
    try done; try (by destruct (Hex _ _ _ ltac:(eassumption) ltac:(eassumption))).
  rewrite Hl1 in Hl2. by rewrite (first_split_unique _ _ _ _ _ _ _ Hl2 Hc1 Hc2 Hp1 Hp2).
Qed.

Lemma evaluate_iff_decides (p : Policy) (q : AccessRequest) (d : Decision) :
  evaluate p q = d <-> decides p q d.
Proof.
  split; [intros <-; apply evaluate_decides|].
  intros Hd. by apply (decides_functional p q); [apply evaluate_decides|].
Qed.

(** ** Properties *)

(** C6 (evaluate implements the documented procedure):
    [DecisionEngine::evaluate] returns [d] exactly when the documented
    procedure does: unprotected resources are allowed, otherwise the first
    rule for (resource, process, operation) decides, otherwise the policy's
    default action applies.  In particular the procedure is deterministic and
    total. *)
Theorem evaluate_refines_procedure (p : Policy) (q : AccessRequest) (d : Decision) :
  evaluate p q = d <-> decides p q d.
Proof. apply evaluate_iff_decides. Qed.

(** Default deny: under a policy whose default action is not ALLOW, an
    access to a protected resource is allowed exactly when the first rule of
    the list that covers the request is an ALLOW rule; so an executable that
    no rule names is never allowed. *)
Theorem evaluate_default_deny (p : Policy) (q : AccessRequest) :
  default_action p <> Allow ->
  resource_path q ∈ res_path <$> protected_resources p ->
  (action (evaluate p q) = Allow <->
   exists pre rule post, rules p = pre ++ rule :: post /\ rule_covers q rule /\
     rule_action rule = Allow /\ Forall (fun r => ~ rule_covers q r) pre).
Proof.
  intros Hdef Hprot. pose proof (evaluate_decides p q) as Hd. split.
  - intros Ha. destruct Hd as [Hn|pre rule post _ Hl Hc Hpre|_ _]; cbn in Ha.
    + done.
    + by exists pre, rule, post.
    + done.
  - intros (pre & rule & post & Hl & Hc & Ha & Hpre).
    by rewrite (decides_functional p q _ _ Hd (decides_rule p q pre rule post Hprot Hl Hc Hpre)).
Qed.

(** The policy of the decision-engine unit tests. *)
Definition sample_policy (def act : Action) : Policy :=
  MkPolicy 1 def [MkResourceIdentity "/protected/secret.txt" (Some Open)]
    [MkPolicyRule "allow-backup" (MkResourceIdentity "/protected/secret.txt" (Some Open))
       (MkProcessIdentity ExePath "/usr/local/bin/backup-agent") Open act].

Definition sample_request (path exe : string) : AccessRequest :=
  MkAccessRequest path (MkProcessIdentity ExePath exe) Open.

Lemma evaluate_default_deny_witness :
  action (evaluate (sample_policy Deny Allow)
            (sample_request "/protected/secret.txt" "/bin/cat")) = Allow <->
  exists pre rule post,
    rules (sample_policy Deny Allow) = pre ++ rule :: post /\
    rule_covers (sample_request "/protected/secret.txt" "/bin/cat") rule /\
    rule_action rule = Allow /\
    Forall (fun r => ~ rule_covers (sample_request "/protected/secret.txt" "/bin/cat") r) pre.
Proof.
  apply (evaluate_default_deny (sample_policy Deny Allow)
           (sample_request "/protected/secret.txt" "/bin/cat")).
  - discriminate.
  - apply elem_of_cons. left. reflexivity.
Defined.

(** The unit tests of tests/test_decision_engine.cpp. *)
Example evaluate_unprotected :
  evaluate (sample_policy Deny Allow) (sample_request "/etc/hosts" "/bin/cat") =
  MkDecision Allow Reason_ResourceUnprotected "" 0.
Proof. reflexivity. Qed.
Example evaluate_allow_rule :
  evaluate (sample_policy Deny Allow)
    (sample_request "/protected/secret.txt" "/usr/local/bin/backup-agent") =
  MkDecision Allow Reason_PolicyRule "allow-backup" 0.
Proof. reflexivity. Qed.
Example evaluate_default_allow :
  evaluate (sample_policy Allow Allow) (sample_request "/protected/secret.txt" "/bin/cat") =
  MkDecision Allow Reason_DefaultDeny "" 0.
Proof. reflexivity. Qed.
