(* ===== verification/PolicyCompiler.v ===== *)
(** * Compiling a policy to identities: include/fileguard/policy_compiler.hpp
    and src/policy_compiler.cpp

    [compile] resolves every path through an injectable [FileResolver];
    [resolve_path_with_stat] is the default resolver over the stat(2) system
    call, which is a parameter. *)

From S2P Require Import Prelude Abi FileId Policy.

(** A C string ends at its first NUL. *)
Fixpoint c_str (s : string) : string :=
  match s with
  | EmptyString => EmptyString
  | String c s => if Ascii.eqb c (ascii_of_nat 0) then EmptyString else String c (c_str s)
  end.

Record CompiledRule := MkCompiledRule {
  c_rule_id : Z;  (* uint32_t, 1-based *)
  c_resource : FileId;
  c_process : FileId;
  c_operation : Operation;
  c_action : Action;
}.

Record CompiledPolicy := MkCompiledPolicy {
  c_version : Z;
  c_protected_resources : list FileId;
  c_rules : list CompiledRule;
}.

#[export] Instance CompiledRule_eq_dec : EqDecision CompiledRule.
Proof. solve_decision. Defined.
#[export] Instance CompiledPolicy_eq_dec : EqDecision CompiledPolicy.
Proof. solve_decision. Defined.

Definition FileResolver : Type := string -> result FileId.

(** ** The default resolver *)
Record stat_buf := MkStat { st_dev : Z; st_ino : Z }.

Section DefaultResolver.
(** stat(2): an errno, or the fields the code reads; glibc's [major],
    [minor] and [strerror]. *)
Context (stat : string -> Z + stat_buf) (major minor : Z -> Z) (strerror : Z -> string).

Definition resolve_path_with_stat (path : string) : result FileId :=
  match stat (c_str path) with
  | inl e => err ("cannot stat '" +:+ path +:+ "': " +:+ strerror e)
  | inr st => Ok {| dev_major := u32 (major (st_dev st));
                    dev_minor := u32 (minor (st_dev st));
                    ino := u64 (st_ino st) |}
  end.
End DefaultResolver.

(** ** PolicyCompiler::compile *)

(** One iteration of the protected-resource loop: the state is
    [compiled.protected_resources] and [resolved_resources]. *)
Definition compile_resource (resolver_ : FileResolver)
    (acc : list FileId * list (string * FileId)) (res : ResourceIdentity)
    : result (list FileId * list (string * FileId)) :=
  id ← resolver_ (res_path res);
  if negb (FileId_valid id) then
    err ("resolved zero inode for protected resource '" +:+ res_path res +:+ "'")
  else Ok (acc.1 ++ [id], acc.2 ++ [(res_path res, id)]).

(** One iteration of the rule loop: the state is [compiled.rules] and
    [rule_index]. *)
Definition compile_rule (resolver_ : FileResolver) (resolved : list (string * FileId))
    (acc : list CompiledRule * Z) (rule : PolicyRule) : result (list CompiledRule * Z) :=
  let '(rules, rule_index) := acc in
  match find_first (fun p => String.eqb p.1 (res_path (rule_resource rule))) resolved with
  | None => err ("internal error: unresolved protected resource for rule '" +:+
                 rule_id rule +:+ "'")
  | Some (_, res_id) =>
     proc_id ← resolver_ (proc_value (rule_process rule));
     if negb (FileId_valid proc_id) then
       err ("resolved zero inode for process '" +:+ proc_value (rule_process rule) +:+ "'")
     else
       Ok (rules ++ [MkCompiledRule rule_index res_id proc_id
                       (rule_operation rule) (rule_action rule)],
           u32 (rule_index + 1))
  end.

Definition compile (resolver_ : FileResolver) (policy : Policy) : result CompiledPolicy :=
  _ ← validate policy;
  resources ← result_fold (compile_resource resolver_) ([], []) (protected_resources policy);
  compiled ← result_fold (compile_rule resolver_ resources.2) ([], 1%Z) (rules policy);
  Ok (MkCompiledPolicy (version policy) resources.1 compiled.1).

(** ** Lemmas *)

(** The resolver gives [path] a usable identity. *)
Definition resolves (resolver_ : FileResolver) (path : string) (id : FileId) : Prop :=
  resolver_ path = Ok id /\ FileId_valid id = true.

(** What the [i]-th rule compiles to. *)
Definition rule_compiles (resolver_ : FileResolver) (i : nat) (rule : PolicyRule)
    (c : CompiledRule) : Prop :=
  resolves resolver_ (res_path (rule_resource rule)) (c_resource c) /\
  resolves resolver_ (proc_value (rule_process rule)) (c_process c) /\
  c_operation c = rule_operation rule /\ c_action c = rule_action rule /\
  c_rule_id c = u32 (Z.of_nat i + 1).

(** The two checks a path goes through before its identity is used. *)
Definition resolve_checked (resolver_ : FileResolver) (msg path : string) : result FileId :=
  id ← resolver_ path;
  if negb (FileId_valid id) then err msg else Ok id.

Lemma resolve_checked_Ok (r : FileResolver) (msg path : string) (id : FileId) :
  resolve_checked r msg path = Ok id <-> resolves r path id.
Proof.
  unfold resolve_checked, resolves. rewrite result_bind_Ok. split.
  - intros (id' & Hid & H). destruct (FileId_valid id') eqn:Hv; cbn in H; simplify_eq. auto.
  - intros (Hid & Hv). exists id. by rewrite Hv.
Qed.

Lemma resolve_checked_Err (r : FileResolver) (msg path e : string) :
  resolve_checked r msg path = Err e <->
  r path = Err e \/ (e = msg /\ exists id, r path = Ok id /\ ino id = 0%Z).
Proof.
  unfold resolve_checked. rewrite result_bind_Err. f_equiv. split.
  - intros (id & Hid & H). destruct (FileId_valid id) eqn:Hv; cbn in H; simplify_eq.
    split; [done|]. exists id. split; [done|].
    by apply FileId_valid_false.
  - intros (-> & id & Hid & Hino). exists id. split; [done|].
    by rewrite (proj2 (FileId_valid_false id) Hino).
Qed.

Section Compile.
  Context (resolver_ : FileResolver).

Definition zero_inode_resource (res : ResourceIdentity) : string :=
  "resolved zero inode for protected resource '" +:+ res_path res +:+ "'".

Definition zero_inode_process (rule : PolicyRule) : string :=
  "resolved zero inode for process '" +:+ proc_value (rule_process rule) +:+ "'".

Lemma compile_resource_alt acc (res : ResourceIdentity) :
  compile_resource resolver_ acc res =
  (id ← resolve_checked resolver_ (zero_inode_resource res) (res_path res);
   Ok (acc.1 ++ [id], acc.2 ++ [(res_path res, id)])).
Proof.
  unfold compile_resource, resolve_checked.
  destruct (resolver_ _) as [id|]; [|done]. cbn. by destruct (negb _).
Qed.

(** The loops as maps: the accumulators only ever grow at the end. *)
Lemma compile_resources_map (l : list ResourceIdentity) acc :
  result_fold (compile_resource resolver_) acc l =
  (ids ← result_mapM (fun res => resolve_checked resolver_ (zero_inode_resource res) (res_path res)) l;
   Ok (acc.1 ++ ids, acc.2 ++ zip (res_path <$> l) ids)).
Proof.
  unfold result_mapM. generalize 0. revert acc; induction l as [|res l IH]; intros acc i; cbn.
  { rewrite !app_nil_r. by destruct acc. }
  rewrite compile_resource_alt.
  destruct (resolve_checked _ _ _) as [id|e]; [|done]. cbn. rewrite (IH _ (S i)).
  destruct (result_imapM _ (S i) l); [|done]. cbn. by rewrite <- !app_assoc.
Qed.

Definition rule_to_compiled (resolved : list (string * FileId)) (i : nat) (rule : PolicyRule)
    : result CompiledRule :=
  match find_first (fun p => String.eqb p.1 (res_path (rule_resource rule))) resolved with
  | None => err ("internal error: unresolved protected resource for rule '" +:+
                 rule_id rule +:+ "'")
  | Some (_, res_id) =>
     proc_id ← resolve_checked resolver_ (zero_inode_process rule)
                             (proc_value (rule_process rule));
     Ok (MkCompiledRule (u32 (Z.of_nat i + 1)) res_id proc_id
           (rule_operation rule) (rule_action rule))
  end.

Lemma next_rule_index (i : nat) :
  u32 (u32 (Z.of_nat i + 1) + 1) = u32 (Z.of_nat (S i) + 1).
Proof. unfold wrap_u. rewrite Zplus_mod_idemp_l. f_equal. lia. Qed.

Lemma compile_rule_alt (resolved : list (string * FileId)) (done_rules : list CompiledRule)
    (i : nat) (rule : PolicyRule) :
  compile_rule resolver_ resolved (done_rules, u32 (Z.of_nat i + 1)) rule =
  (c ← rule_to_compiled resolved i rule;
   Ok (done_rules ++ [c], u32 (Z.of_nat (S i) + 1))).
Proof.
  unfold compile_rule, rule_to_compiled, resolve_checked.
  destruct (find_first _ resolved) as [[? res_id]|]; [|done].
  destruct (resolver_ _) as [id|]; [|done]. cbn.
  destruct (negb _); [done|]. cbn. by rewrite next_rule_index.
Qed.

Lemma compile_rules_map (resolved : list (string * FileId)) (l : list PolicyRule)
    (done_rules : list CompiledRule) (i : nat) :
  result_fold (compile_rule resolver_ resolved) (done_rules, u32 (Z.of_nat i + 1)) l =
  (cs ← result_imapM (rule_to_compiled resolved) i l;
   Ok (done_rules ++ cs, u32 (Z.of_nat (i + length l) + 1))).
Proof.
  revert done_rules i; induction l as [|rule l IH]; intros done_rules i;
    cbn [result_fold result_imapM length].
  { cbn. by rewrite app_nil_r, Nat.add_0_r. }
  rewrite compile_rule_alt.
  destruct (rule_to_compiled _ _ _) as [c|e]; [|done].
  cbn [mbind result_bind]. rewrite IH.
  destruct (result_imapM _ (S i) l); [|done]. cbn [mbind result_bind].
  rewrite <- app_assoc. by replace (i + S (length l)) with (S i + length l) by lia.
Qed.

(** [compile] without accumulators. *)
Lemma compile_unfold (p : Policy) :
  compile resolver_ p =
  (_ ← validate p;
   ids ← result_mapM (fun res => resolve_checked resolver_ (zero_inode_resource res) (res_path res)) (protected_resources p);
   cs ← result_imapM (rule_to_compiled (zip (res_path <$> protected_resources p) ids)) 0 (rules p);
   Ok (MkCompiledPolicy (version p) ids cs)).
Proof.
  unfold compile. rewrite compile_resources_map.
  destruct (validate p); [|done]. cbn.
  destruct (result_mapM _ _) as [ids|]; [|done]. cbn.
  rewrite (compile_rules_map _ _ [] 0). by destruct (result_imapM _ 0 _).
Qed.

(** A protected path is found among the resolved ones, with the identity
    the resolver gave it. *)
Lemma find_resolved (paths : list string) (ids : list FileId) (path : string) :
  Forall2 (resolves resolver_) paths ids -> path ∈ paths ->
  exists id, find_first (fun p => String.eqb p.1 path) (zip paths ids) = Some (path, id) /\
             resolves resolver_ path id.
Proof.
  induction 1 as [|x id paths ids Hx Hall IH]; cbn; [set_solver|]. intros Hin.
  destruct (String.eqb_spec x path) as [->|Hne]; [by exists id|].
  apply IH. set_solver.
Qed.

Lemma resolves_functional (path : string) (id1 id2 : FileId) :
  resolves resolver_ path id1 -> resolves resolver_ path id2 -> id1 = id2.
Proof. intros [H1 _] [H2 _]. congruence. Qed.

Lemma resources_resolved (p : Policy) (ids : list FileId) :
  result_mapM (fun res => resolve_checked resolver_ (zero_inode_resource res) (res_path res)) (protected_resources p) = Ok ids <->
  Forall2 (resolves resolver_) (res_path <$> protected_resources p) ids.
Proof.
  rewrite result_mapM_Ok, Forall2_fmap_l. cbn.
  split; intros H; (eapply Forall2_impl; [exact H|]);
    intros res id; cbn; apply resolve_checked_Ok.
Qed.

Lemma rule_to_compiled_Ok (p : Policy) (ids : list FileId) (i : nat) (rule : PolicyRule)
    (c : CompiledRule) :
  policy_wf p -> rule ∈ rules p ->
  Forall2 (resolves resolver_) (res_path <$> protected_resources p) ids ->
  rule_to_compiled (zip (res_path <$> protected_resources p) ids) i rule = Ok c <->
  rule_compiles resolver_ i rule c.
Proof.
  intros Hwf Hin Hids. unfold rule_to_compiled, rule_compiles.
  assert (res_path (rule_resource rule) ∈ res_path <$> protected_resources p) as Hpath.
  { pose proof (wf_rules p Hwf) as Hr. rewrite Forall_forall in Hr. by apply Hr. }
  destruct (find_resolved _ _ _ Hids Hpath) as (rid & -> & Hrid).
  rewrite result_bind_Ok. setoid_rewrite resolve_checked_Ok. split.
  - intros (pid & Hpid & [= <-]). by split_and!.
  - intros (Hr & Hp & Hop & Hact & Hri). exists (c_process c). split; [done|].
    rewrite (resolves_functional _ _ _ Hrid Hr). destruct c; cbn in *. congruence.
Qed.

Lemma compile_Ok (p : Policy) (c : CompiledPolicy) :
  compile resolver_ p = Ok c <->
  policy_wf p /\ c_version c = version p /\
  Forall2 (resolves resolver_) (res_path <$> protected_resources p) (c_protected_resources c) /\
  length (c_rules c) = length (rules p) /\
  (forall i rule cr, rules p !! i = Some rule -> c_rules c !! i = Some cr ->
                     rule_compiles resolver_ i rule cr).
Proof.
  rewrite compile_unfold, result_bind_Ok. setoid_rewrite result_bind_Ok.
  setoid_rewrite result_bind_Ok. setoid_rewrite resources_resolved.
  setoid_rewrite result_imapM_Ok. split.
  - intros ([] & Hwf%validate_Ok_unit & ids & Hids & cs & (Hlen & Hcs) & [= <-]).
    split_and!; [done..|]. intros i rule cr Hr Hc.
    apply (rule_to_compiled_Ok p ids); [done|by eapply list_elem_of_lookup_2|done|].
    by apply (Hcs i).
  - intros (Hwf & Hv & Hids & Hlen & Hcs). exists tt. split; [by apply validate_iff_wf|].
    exists (c_protected_resources c). split; [done|]. exists (c_rules c).
    split; [|destruct c; cbn in *; congruence]. split; [done|].
    intros i rule cr Hr Hc. apply rule_to_compiled_Ok; auto.
    by eapply list_elem_of_lookup_2.
Qed.
End Compile.

(** Why a path is unusable, and the message [compile] then returns. *)
Definition path_fails (r : FileResolver) (path zero_msg m : string) : Prop :=
  r path = Err m \/ (m = zero_msg /\ exists id, r path = Ok id /\ ino id = 0%Z).

Lemma rule_to_compiled_Err (r : FileResolver) (p : Policy) (ids : list FileId) (i : nat)
    (rule : PolicyRule) (m : string) :
  policy_wf p -> rule ∈ rules p ->
  Forall2 (resolves r) (res_path <$> protected_resources p) ids ->
  rule_to_compiled r (zip (res_path <$> protected_resources p) ids) i rule = Err m ->
  path_fails r (proc_value (rule_process rule)) (zero_inode_process rule) m.
Proof.
  intros Hwf Hin Hids. unfold rule_to_compiled.
  destruct (find_resolved r (res_path <$> protected_resources p) ids
              (res_path (rule_resource rule)) Hids) as (rid & -> & _).
  { pose proof (wf_rules p Hwf) as Hr. rewrite Forall_forall in Hr. by apply Hr. }
  intros [H|(?&_&?)]%result_bind_Err; [|done].
  by apply resolve_checked_Err in H.
Qed.

(** ** Properties *)

(** C5 (compile is exact): [PolicyCompiler::compile] succeeds with [c] exactly
    when the policy validates, every protected path and every rule's process
    path resolves to an identity with a non-zero inode, and [c] is: the
    policy's version, the identity of each protected path in order, and for
    the i-th rule the identities of its resource and process with its
    operation, its action and rule_id i+1 (as uint32_t). *)
Theorem compile_exact (r : FileResolver) (p : Policy) (c : CompiledPolicy) :
  compile r p = Ok c <->
  validate p = ok_v /\ c_version c = version p /\
  Forall2 (resolves r) (res_path <$> protected_resources p) (c_protected_resources c) /\
  length (c_rules c) = length (rules p) /\
  (forall i rule cr, rules p !! i = Some rule -> c_rules c !! i = Some cr ->
                     rule_compiles r i rule cr).
Proof. by rewrite compile_Ok, validate_iff_wf. Qed.

(** Why compile fails: [compile] fails only with the validation error, or
    with the resolver's error (or the zero-inode message) for a protected
    path, or for a rule's process path; the "internal error: unresolved
    protected resource" branch is never taken. *)
Theorem compile_error_cases (r : FileResolver) (p : Policy) (m : string) :
  compile r p = Err m ->
  validate p = Err m \/
  (exists res, res ∈ protected_resources p /\
     path_fails r (res_path res) (zero_inode_resource res) m) \/
  (exists rule, rule ∈ rules p /\
     path_fails r (proc_value (rule_process rule)) (zero_inode_process rule) m).
Proof.
  rewrite compile_unfold. intros [H|([] & Hv & H)]%result_bind_Err; [by left|].
  apply validate_Ok_unit in Hv.
  apply result_bind_Err in H as [H|(ids & Hids & H)].
  { right; left. apply result_imapM_Err in H as (n & res & Hn & Hres).
    exists res. split; [by eapply list_elem_of_lookup_2|]. by apply resolve_checked_Err. }
  apply result_bind_Err in H as [H|(?&_&?)]; [|done].
  right; right. apply result_imapM_Err in H as (n & rule & Hn & Hrule).
  apply list_elem_of_lookup_2 in Hn. exists rule. split; [done|].
  apply resources_resolved in Hids. by eapply rule_to_compiled_Err.
Qed.

(** The resolver and policy of tests/test_policy_compiler.cpp. *)
Definition sample_resolver : FileResolver := fun path =>
  if String.eqb path "/protected/secret.txt" then Ok (MkFileId 1 2 1000)
  else if String.eqb path "/usr/local/bin/backup-agent" then Ok (MkFileId 1 2 2000)
  else err ("unexpected path " +:+ path).

Definition compiler_policy : Policy :=
  MkPolicy 7 Deny [MkResourceIdentity "/protected/secret.txt" (Some Open)]
    [MkPolicyRule "allow-backup" (MkResourceIdentity "/protected/secret.txt" (Some Open))
       (MkProcessIdentity ExePath "/usr/local/bin/backup-agent") Open Allow].

Example compile_sample :
  compile sample_resolver compiler_policy =
  Ok (MkCompiledPolicy 7 [MkFileId 1 2 1000]
        [MkCompiledRule 1 (MkFileId 1 2 1000) (MkFileId 1 2 2000) Open Allow]).
Proof. vm_compute. reflexivity. Qed.

Lemma compile_error_cases_witness :
  validate compiler_policy = Err "no such file" \/
  (exists res, res ∈ protected_resources compiler_policy /\
     path_fails (fun _ => err "no such file") (res_path res) (zero_inode_resource res)
       "no such file") \/
  (exists rule, rule ∈ rules compiler_policy /\
     path_fails (fun _ => err "no such file") (proc_value (rule_process rule))
       (zero_inode_process rule) "no such file").
Proof.
  apply (compile_error_cases (fun _ => err "no such file") compiler_policy "no such file").
  vm_compute. reflexivity.
Defined.
