(* ===== verification/PathResolver.v ===== *)
(** * Reverse identity resolution: include/fileguard/path_resolver.hpp and
    src/path_resolver.cpp

    The map from identities back to configured paths that renders events.
    The [std::unordered_map] is a [gmap]; [FileIdHash] is its hash. *)

From S2P Require Import Prelude Abi FileId.

(** [size_t] is 64 bits wide; both shifts are of converted 64-bit values. *)
Definition FileIdHash (id : FileId) : Z :=
  let h := u64 (ino id) in
  let h := Z.lxor h (u64 (Z.shiftl (u64 (dev_major id)) 20)) in
  Z.lxor h (u64 (Z.shiftl (u64 (dev_minor id)) 8)).

Record PathResolver := MkPathResolver { map_ : gmap FileId string }.

Definition PathResolver_empty : PathResolver := MkPathResolver ∅.

Definition resolver_add (r : PathResolver) (id : FileId) (path : string) : PathResolver :=
  MkPathResolver (<[id := path]> (map_ r)).

Definition resolver_resolve (r : PathResolver) (id : FileId) : string :=
  match map_ r !! id with
  | Some path => path
  | None => FileId_to_string id
  end.

Definition resolver_size (r : PathResolver) : nat := size (map_ r).

(** ** Lemmas *)

Lemma resolve_add_eq (r : PathResolver) (id : FileId) (path : string) :
  resolver_resolve (resolver_add r id path) id = path.
Proof. unfold resolver_resolve; cbn. by rewrite lookup_insert_eq. Qed.

Lemma resolve_add_ne (r : PathResolver) (id id' : FileId) (path : string) :
  id <> id' -> resolver_resolve (resolver_add r id path) id' = resolver_resolve r id'.
Proof. intros. unfold resolver_resolve; cbn. by rewrite lookup_insert_ne. Qed.

Lemma resolve_empty (id : FileId) : resolver_resolve PathResolver_empty id = FileId_to_string id.
Proof. unfold resolver_resolve; cbn. by rewrite lookup_empty. Qed.

Create Rewrite HintDb resolver.
#[export] Hint Rewrite resolve_add_eq resolve_empty : resolver.

(** Adding a list of bindings in order. *)
Definition resolver_add_all (r : PathResolver) (l : list (FileId * string)) : PathResolver :=
  foldl (fun r p => resolver_add r p.1 p.2) r l.

Lemma resolve_add_all_notin (l : list (FileId * string)) (r : PathResolver) (id : FileId) :
  (id ∉ l.*1) -> resolver_resolve (resolver_add_all r l) id = resolver_resolve r id.
Proof.
  revert r; induction l as [|[i path] l IH]; intros r Hid; [done|]. cbn in *.
  rewrite IH by set_solver. apply resolve_add_ne. set_solver.
Qed.

(** The last binding added for an identity is the one rendered. *)
Lemma resolve_add_all_last (l1 l2 : list (FileId * string)) (r : PathResolver) (id : FileId)
    (path : string) :
  (id ∉ l2.*1) -> resolver_resolve (resolver_add_all r (l1 ++ (id, path) :: l2)) id = path.
Proof.
  intros Hid. unfold resolver_add_all. rewrite foldl_app. cbn.
  rewrite resolve_add_all_notin by done. apply resolve_add_eq.
Qed.

(** If equal identities are only ever bound to one path, every bound identity
    renders as its path. *)
Lemma resolve_add_all_functional (l : list (FileId * string)) (r : PathResolver) (id : FileId)
    (path : string) :
  (id, path) ∈ l -> (forall path', (id, path') ∈ l -> path' = path) ->
  resolver_resolve (resolver_add_all r l) id = path.
Proof.
  revert r; induction l as [|[i q] l IH] using rev_ind; intros r Hin Hfun; [set_solver|].
  unfold resolver_add_all. rewrite foldl_snoc. cbn.
  destruct (decide (i = id)) as [->|Hne].
  - rewrite resolve_add_eq. apply Hfun. set_solver.
  - rewrite resolve_add_ne by done. apply IH; [|intros; apply Hfun]; set_solver.
Qed.

(** Equal identities hash alike (what [unordered_map] needs of its hash) and
    the hash is a [size_t]. *)
Lemma FileIdHash_range (id : FileId) : in_u 64 (FileIdHash id).
Proof.
  assert (forall a b, in_u 64 a -> in_u 64 b -> in_u 64 (Z.lxor a b)) as Hxor.
  { unfold in_u. intros a b Ha Hb. split; [by apply Z.lxor_nonneg; lia|].
    destruct (decide (Z.lxor a b = 0)%Z) as [->|Hne]; [lia|].
    assert (0 <= Z.lxor a b)%Z by (apply Z.lxor_nonneg; lia).
    apply Z.log2_lt_pow2; [lia|].
    eapply Z.le_lt_trans; [apply Z.log2_lxor; lia|].
    apply Z.max_lub_lt.
    - destruct (decide (a = 0)%Z) as [->|]; [done|]. apply Z.log2_lt_pow2; lia.
    - destruct (decide (b = 0)%Z) as [->|]; [done|]. apply Z.log2_lt_pow2; lia. }
  unfold FileIdHash. apply Hxor; [apply Hxor|]; by apply wrap_u_in.
Qed.
