(* ===== verification/SpscQueue.v ===== *)
(** * The bounded event queue: include/fileguard/event_queue.hpp

    [SpscQueue<T>] as the code has it (slots, head, tail, stop flag), its
    operations, and the refinement to a bounded FIFO.  A call that would block
    on a condition variable returns [None] here; the interleavings are
    modelled in SpscConcurrent.v and SpscMonitor.v.

    Indices are [nat]: [size_t] cannot overflow in [(i + 1) % size], because
    [i < size] and the slots fit in memory. *)

From S2P Require Import Prelude.

Record SpscQueue (T : Type) := MkSpscQueue {
  slots_ : list T;
  head_ : nat;   (* producer index *)
  tail_ : nat;   (* consumer index *)
  stop_ : bool;
}.
Arguments MkSpscQueue {T} _ _ _ _.
Arguments slots_ {T} _.
Arguments head_ {T} _.
Arguments tail_ {T} _.
Arguments stop_ {T} _.

#[export] Instance SpscQueue_eq_dec `{EqDecision T} : EqDecision (SpscQueue T).
Proof. solve_decision. Defined.

Section SpscQueue.
(** [inhabitant] is the value-initialised [T()] that [slots_(capacity)]
    fills the vector with. *)
Context {T : Type} `{!Inhabited T}.
Implicit Types (q : SpscQueue T) (x : T).

(** explicit SpscQueue(size_t capacity) *)
Definition SpscQueue_new (capacity : nat) : outcome (SpscQueue T) :=
  if capacity <? 2 then Throw "SpscQueue capacity must be >= 2"
  else Return (MkSpscQueue (replicate capacity inhabitant) 0 0 false).

Definition queue_capacity q : nat := length (slots_ q).

Definition queue_next q (i : nat) : nat := (i + 1) mod length (slots_ q).

Definition queue_empty q : bool := head_ q =? tail_ q.
Definition queue_full q : bool := queue_next q (head_ q) =? tail_ q.

(** [slots_[head] = item; head = next(head)], shared by both pushes. *)
Definition queue_store q x : SpscQueue T :=
  MkSpscQueue (<[head_ q := x]> (slots_ q)) (queue_next q (head_ q)) (tail_ q) (stop_ q).

(** [out = std::move(slots_[tail]); tail = next(tail)], shared by both
    pops.  The moved-from slot is outside [tail, head) and never read before
    it is overwritten; it is left as it is. *)
Definition queue_take q : T * SpscQueue T :=
  (slots_ q !!! tail_ q,
   MkSpscQueue (slots_ q) (head_ q) (queue_next q (tail_ q)) (stop_ q)).

(** void push(T item): [None] while the wait predicate is false. *)
Definition queue_push q x : option (SpscQueue T) :=
  if stop_ q || negb (queue_full q) then
    if stop_ q then Some q else Some (queue_store q x)
  else None.

(** bool try_push(T item) *)
Definition queue_try_push q x : bool * SpscQueue T :=
  if queue_next q (head_ q) =? tail_ q then (false, q)
  else (true, queue_store q x).

(** bool pop(T& out): [None] while the wait predicate is false; the returned
    option is the popped value, or [None] for [return false]. *)
Definition queue_pop q : option (option T * SpscQueue T) :=
  if stop_ q || negb (queue_empty q) then
    if queue_empty q then Some (None, q)
    else let '(x, q') := queue_take q in Some (Some x, q')
  else None.

(** bool try_pop(T& out) *)
Definition queue_try_pop q : option T * SpscQueue T :=
  if head_ q =? tail_ q then (None, q)
  else let '(x, q') := queue_take q in (Some x, q').

Definition queue_request_stop q : SpscQueue T :=
  MkSpscQueue (slots_ q) (head_ q) (tail_ q) true.

(** ** Invariant and abstraction *)
Definition queue_wf q : Prop :=
  2 <= length (slots_ q) /\ head_ q < length (slots_ q) /\ tail_ q < length (slots_ q).

(** The elements between tail and head, oldest first. *)
Definition queue_contents q : list T :=
  if tail_ q <=? head_ q then take (head_ q - tail_ q) (drop (tail_ q) (slots_ q))
  else drop (tail_ q) (slots_ q) ++ take (head_ q) (slots_ q).

Lemma queue_next_spec q i :
  i < length (slots_ q) ->
  queue_next q i = if decide (S i = length (slots_ q)) then 0 else S i.
Proof.
  intros Hi. unfold queue_next. rewrite Nat.add_1_r. case_decide as Heq.
  - rewrite Heq. apply Nat.Div0.mod_same.
  - apply Nat.mod_small. lia.
Qed.

Lemma queue_next_lt q i : queue_wf q -> i < length (slots_ q) -> queue_next q i < length (slots_ q).
Proof. intros (H2 & _) Hi. rewrite queue_next_spec by done. case_decide; lia. Qed.

Lemma SpscQueue_new_wf capacity q :
  SpscQueue_new capacity = Return q ->
  queue_wf q /\ queue_contents q = [] /\ length (slots_ q) = capacity /\ stop_ q = false.
Proof.
  unfold SpscQueue_new. destruct (Nat.ltb_spec capacity 2); intros [= <-].
  unfold queue_wf, queue_contents; cbn. rewrite length_replicate. split_and!; auto; lia.
Qed.

Lemma queue_store_wf q x : queue_wf q -> queue_wf (queue_store q x).
Proof.
  intros Hwf. pose proof Hwf as (H2 & Hh & Ht). unfold queue_wf; cbn.
  rewrite length_insert. split_and!; [done|by apply queue_next_lt|done].
Qed.

Lemma queue_take_wf q : queue_wf q -> queue_wf (queue_take q).2.
Proof.
  intros Hwf. pose proof Hwf as (H2 & Hh & Ht). unfold queue_wf; cbn.
  split_and!; [done|done|by apply queue_next_lt].
Qed.

(** A queue whose tail has caught up with its head. *)
Lemma drained_queue q :
  queue_wf q ->
  let q' := MkSpscQueue (slots_ q) (head_ q) (head_ q) (stop_ q) in
  queue_wf q' /\ queue_contents q' = [] /\ stop_ q' = stop_ q.
Proof.
  intros (H2 & Hh & Ht). split_and!; [by split_and!| |done].
  unfold queue_contents; cbn. by rewrite Nat.leb_refl, Nat.sub_diag, take_0.
Qed.

Lemma length_queue_contents q :
  queue_wf q ->
  length (queue_contents q) =
  if tail_ q <=? head_ q then head_ q - tail_ q else length (slots_ q) - tail_ q + head_ q.
Proof.
  intros (H2 & Hh & Ht). unfold queue_contents.
  destruct (Nat.leb_spec (tail_ q) (head_ q));
    rewrite ?length_app, ?length_take, ?length_drop; lia.
Qed.

Lemma queue_empty_spec q : queue_wf q -> queue_empty q = true <-> queue_contents q = [].
Proof.
  intros Hwf. rewrite <- length_zero_iff_nil, length_queue_contents by done.
  destruct Hwf as (H2 & Hh & Ht). unfold queue_empty. rewrite Nat.eqb_eq.
  destruct (Nat.leb_spec (tail_ q) (head_ q)); lia.
Qed.

Lemma queue_full_spec q :
  queue_wf q -> queue_full q = true <-> length (queue_contents q) = length (slots_ q) - 1.
Proof.
  intros Hwf. rewrite length_queue_contents by done. pose proof Hwf as (H2 & Hh & Ht).
  unfold queue_full. rewrite Nat.eqb_eq, queue_next_spec by done.
  case_decide; destruct (Nat.leb_spec (tail_ q) (head_ q)); lia.
Qed.

Lemma queue_contents_bound q :
  queue_wf q -> length (queue_contents q) <= length (slots_ q) - 1.
Proof.
  intros Hwf. rewrite length_queue_contents by done. destruct Hwf as (H2 & Hh & Ht).
  destruct (Nat.leb_spec (tail_ q) (head_ q)); lia.
Qed.

Lemma take_snoc_insert (l : list T) (i n : nat) x :
  i < length l -> i <= n -> n < length l ->
  take (S n - i) (drop i (<[n := x]> l)) = take (n - i) (drop i l) ++ [x].
Proof.
  intros Hi Hn Hl. rewrite Nat.sub_succ_l by done.
  rewrite (take_S_r _ _ x).
  - f_equal. rewrite drop_insert_ge by done. by rewrite take_insert_ge by lia.
  - rewrite lookup_drop. replace (i + (n - i)) with n by lia. by rewrite list_lookup_insert_eq.
Qed.

(** Storing into a queue that is not full appends. *)
Lemma queue_store_contents q x :
  queue_wf q -> queue_full q = false ->
  queue_contents (queue_store q x) = queue_contents q ++ [x].
Proof.
  intros Hwf Hfull. pose proof Hwf as (H2 & Hh & Ht).
  unfold queue_full in Hfull. apply Nat.eqb_neq in Hfull.
  unfold queue_contents; cbn. rewrite queue_next_spec in * by done.
  case_decide as Hlast.
  - (* the store wraps the head around to 0, so tail > 0 *)
    destruct (Nat.leb_spec (tail_ q) 0); [lia|].
    destruct (Nat.leb_spec (tail_ q) (head_ q)); [|lia].
    rewrite take_0, app_nil_r.
    rewrite <- take_snoc_insert by lia. rewrite take_ge; [done|].
    rewrite length_drop, length_insert. lia.
  - destruct (Nat.leb_spec (tail_ q) (S (head_ q))), (Nat.leb_spec (tail_ q) (head_ q)); try lia.
    + apply take_snoc_insert; lia.
    + rewrite drop_insert_lt by lia. rewrite <- app_assoc. f_equal.
      rewrite (take_S_r _ _ x) by (apply list_lookup_insert_eq; lia).
      by rewrite take_insert_ge by lia.
Qed.

(** Taking from a non-empty queue removes its oldest element. *)
Lemma queue_take_contents q :
  queue_wf q -> queue_empty q = false ->
  queue_contents q = (queue_take q).1 :: queue_contents (queue_take q).2.
Proof.
  intros Hwf He. pose proof Hwf as (H2 & Hh & Ht).
  unfold queue_empty in He. apply Nat.eqb_neq in He.
  destruct (lookup_lt_is_Some_2 (slots_ q) (tail_ q) Ht) as [y Hy].
  unfold queue_contents; cbn. rewrite (list_lookup_total_correct _ _ _ Hy).
  rewrite queue_next_spec by done. rewrite (drop_S _ _ _ Hy).
  destruct (Nat.leb_spec (tail_ q) (head_ q)).
  - replace (head_ q - tail_ q) with (S (head_ q - S (tail_ q))) by lia. cbn.
    case_decide; [lia|]. by destruct (Nat.leb_spec (S (tail_ q)) (head_ q)); [|lia].
  - cbn. f_equal. case_decide as Hlast.
    + rewrite (drop_ge _ (S _)) by lia. cbn. by rewrite Nat.sub_0_r, drop_0.
    + by destruct (Nat.leb_spec (S (tail_ q)) (head_ q)); [lia|].
Qed.

(** What a call of push that returns, and a call of pop that returns, do to
    the contents. *)
Lemma queue_push_contents q x q' :
  queue_wf q -> queue_push q x = Some q' ->
  queue_wf q' /\ stop_ q' = stop_ q /\
  queue_contents q' = if stop_ q then queue_contents q else queue_contents q ++ [x].
Proof.
  intros Hwf. unfold queue_push. destruct (stop_ q) eqn:Hs; cbn; [by intros [= <-]|].
  destruct (queue_full q) eqn:Hf; cbn; [done|]. intros [= <-].
  split_and!; [by apply queue_store_wf|done|by apply queue_store_contents].
Qed.

Lemma queue_pop_contents q r q' :
  queue_wf q -> queue_pop q = Some (r, q') ->
  queue_wf q' /\ stop_ q' = stop_ q /\
  match r with
  | Some x => queue_contents q = x :: queue_contents q'
  | None => stop_ q = true /\ queue_contents q = [] /\ q' = q
  end.
Proof.
  intros Hwf. unfold queue_pop. destruct (queue_empty q) eqn:He.
  - apply queue_empty_spec in He as Hc; [|done].
    destruct (stop_ q) eqn:Hs; cbn; [|done]. by intros [= <- <-].
  - rewrite orb_true_r. pose proof (queue_take_contents q Hwf He) as Ht.
    pose proof (queue_take_wf q Hwf) as Hw. unfold queue_take in *. intros [= <- <-]. done.
Qed.
End SpscQueue.

(** ** The abstract specification: a bounded FIFO *)

(** The calls a client can make, and what each returns; [Blocked] is a call
    whose wait predicate is false. *)
Inductive queue_op (T : Type) :=
| OpPush (x : T) | OpTryPush (x : T) | OpPop | OpTryPop | OpRequestStop.
Arguments OpPush {T} x.
Arguments OpTryPush {T} x.
Arguments OpPop {T}.
Arguments OpTryPop {T}.
Arguments OpRequestStop {T}.

Inductive queue_reply (T : Type) :=
| Blocked | Done | Accepted (b : bool) | Popped (item : option T).
Arguments Blocked {T}.
Arguments Done {T}.
Arguments Accepted {T} b.
Arguments Popped {T} item.

Record fifo (T : Type) := MkFifo { items : list T; bound : nat; closed : bool }.
Arguments MkFifo {T} _ _ _.
Arguments items {T} _.
Arguments bound {T} _.
Arguments closed {T} _.

Section Refinement.
  Context {T : Type} `{!Inhabited T}.
Implicit Types (q : SpscQueue T) (f : fifo T) (x : T).

Definition queue_step q (op : queue_op T) : queue_reply T * SpscQueue T :=
  match op with
  | OpPush x =>
     match queue_push q x with Some q' => (Done, q') | None => (Blocked, q) end
  | OpTryPush x => let '(b, q') := queue_try_push q x in (Accepted b, q')
  | OpPop =>
     match queue_pop q with Some (r, q') => (Popped r, q') | None => (Blocked, q) end
  | OpTryPop => let '(r, q') := queue_try_pop q in (Popped r, q')
  | OpRequestStop => (Done, queue_request_stop q)
  end.

Definition fifo_append f x : fifo T := MkFifo (items f ++ [x]) (bound f) (closed f).

Definition fifo_step f (op : queue_op T) : queue_reply T * fifo T :=
  let is_full := length (items f) =? bound f in
  match op with
  | OpPush x => if closed f then (Done, f)           (* dropped *)
                else if is_full then (Blocked, f)
                else (Done, fifo_append f x)
  | OpTryPush x => if is_full then (Accepted false, f) else (Accepted true, fifo_append f x)
  | OpPop => match items f with
             | [] => if closed f then (Popped None, f) else (Blocked, f)
             | x :: l => (Popped (Some x), MkFifo l (bound f) (closed f))
             end
  | OpTryPop => match items f with
                | [] => (Popped None, f)
                | x :: l => (Popped (Some x), MkFifo l (bound f) (closed f))
                end
  | OpRequestStop => (Done, MkFifo (items f) (bound f) true)
  end.

(** The replies to a sequence of calls. *)
Fixpoint replies {S : Type} (step : S -> queue_op T -> queue_reply T * S) (s : S)
    (ops : list (queue_op T)) : list (queue_reply T) :=
  match ops with
  | [] => []
  | op :: ops => let '(r, s') := step s op in r :: replies step s' ops
  end.

Definition queue_abs q : fifo T :=
  MkFifo (queue_contents q) (length (slots_ q) - 1) (stop_ q).

Lemma queue_full_length q :
  queue_wf q -> queue_full q = (length (queue_contents q) =? length (slots_ q) - 1).
Proof.
  intros Hwf. apply eq_true_iff_eq. by rewrite queue_full_spec, Nat.eqb_eq by done.
Qed.

Lemma queue_store_abs q x :
  queue_wf q -> queue_full q = false -> queue_abs (queue_store q x) = fifo_append (queue_abs q) x.
Proof.
  intros Hwf Hf. unfold queue_abs, fifo_append.
  rewrite queue_store_contents by done. cbn. by rewrite length_insert.
Qed.

(** Every call simulates its specification, and keeps the invariant. *)
Lemma queue_step_simulates q (op : queue_op T) :
  queue_wf q ->
  queue_wf (queue_step q op).2 /\
  fifo_step (queue_abs q) op = ((queue_step q op).1, queue_abs (queue_step q op).2).
Proof.
  intros Hwf.
  assert (forall x, queue_full q = false -> queue_wf (queue_store q x)) as Hst
    by (intros; by apply queue_store_wf).
  pose proof (queue_empty_spec q Hwf) as Hemp.
  pose proof (queue_take_wf q Hwf) as Htw.
  destruct op as [x|x| | |]; cbn; unfold queue_push, queue_try_push, queue_pop, queue_try_pop.
  - rewrite <- queue_full_length by done. destruct (stop_ q) eqn:Hs; cbn; [done|].
    destruct (queue_full q) eqn:Hf; cbn; [done|].
    split; [by apply Hst|]. by rewrite queue_store_abs.
  - rewrite <- queue_full_length by done. fold (queue_full q).
    destruct (queue_full q) eqn:Hf; cbn; [done|].
    split; [by apply Hst|]. by rewrite queue_store_abs.
  - destruct (queue_empty q) eqn:He.
    + rewrite (proj1 Hemp) by done. by destruct (stop_ q) eqn:Hs.
    + rewrite orb_true_r, queue_take_contents by done. split; [exact Htw|reflexivity].
  - fold (queue_empty q). destruct (queue_empty q) eqn:He.
    + by rewrite (proj1 Hemp).
    + rewrite queue_take_contents by done. split; [exact Htw|reflexivity].
  - done.
Qed.

Lemma queue_replies_simulate q (ops : list (queue_op T)) :
  queue_wf q -> replies queue_step q ops = replies fifo_step (queue_abs q) ops.
Proof.
  revert q; induction ops as [|op ops IH]; intros q Hwf; [done|]. cbn.
  destruct (queue_step_simulates q op Hwf) as [Hwf' ->].
  destruct (queue_step q op) as [r q']; cbn in *. by rewrite IH.
Qed.

(** ** Properties *)

(** C13 (the ring is a bounded FIFO): a queue constructed with capacity n >= 2
    answers every sequence of push, try_push, pop, try_pop and request_stop
    calls exactly as a first-in first-out list of at most n - 1 elements
    does: pushes append or are refused/blocked when n - 1 elements are
    queued, pops return the oldest element, a stopped queue drops blocking
    pushes and lets pop drain what is left before it returns false. *)
Theorem queue_refines_fifo (capacity : nat) (q : SpscQueue T) (ops : list (queue_op T)) :
  SpscQueue_new capacity = Return q ->
  replies queue_step q ops = replies fifo_step (MkFifo [] (capacity - 1) false) ops.
Proof.
  intros (Hwf & Hc & Hlen & Hs)%SpscQueue_new_wf.
  rewrite queue_replies_simulate by done. unfold queue_abs. by rewrite Hc, Hlen, Hs.
Qed.

(** Stop drains: after [request_stop], pop returns the queued elements
    one by one, oldest first, and then [false] forever; no call blocks, and
    [push] leaves the queue unchanged. *)
Theorem queue_stop_drains q (n : nat) :
  queue_wf q ->
  replies queue_step (queue_request_stop q)
    (replicate (length (queue_contents q) + n) OpPop) =
  (Popped ∘ Some <$> queue_contents q) ++ replicate n (Popped None) /\
  forall x, queue_push (queue_request_stop q) x = Some (queue_request_stop q).
Proof.
  intros Hwf. split; [|done].
  rewrite queue_replies_simulate by done. unfold queue_abs; cbn [queue_request_stop stop_].
  change (queue_contents (queue_request_stop q)) with (queue_contents q).
  generalize (queue_contents q) as l, (length (slots_ (queue_request_stop q)) - 1) as b.
  intros l b. induction l as [|x l IH]; cbn; [|by rewrite IH].
  induction n as [|n IH]; cbn; [done|by rewrite IH].
Qed.
End Refinement.

(** The queue of tests/test_event_queue.cpp: capacity 4, three usable slots. *)
Definition test_queue : SpscQueue nat := MkSpscQueue [0; 0; 0; 0] 0 0 false.

Lemma queue_refines_fifo_witness :
  replies queue_step test_queue
    [OpTryPush 1; OpTryPush 2; OpTryPush 3; OpTryPush 4; OpTryPop; OpTryPush 4; OpPush 9] =
  [Accepted true; Accepted true; Accepted true; Accepted false; Popped (Some 1);
   Accepted true; Blocked].
Proof.
  rewrite (queue_refines_fifo 4 test_queue
    [OpTryPush 1; OpTryPush 2; OpTryPush 3; OpTryPush 4; OpTryPop; OpTryPush 4; OpPush 9]).
  - reflexivity.
  - reflexivity.
Defined.

Lemma queue_stop_drains_witness :
  replies queue_step (queue_request_stop (MkSpscQueue [1; 2; 0; 7] 2 3 false))
    (replicate 4 OpPop) = [Popped (Some 7); Popped (Some 1); Popped (Some 2); Popped None].
Proof.
  refine (proj1 (queue_stop_drains (MkSpscQueue [1; 2; 0; 7] 2 3 false) 1 _)).
  unfold queue_wf; cbn; lia.
Defined.

Example SpscQueue_too_small :
  SpscQueue_new (T := nat) 1 = Throw "SpscQueue capacity must be >= 2".
Proof. reflexivity. Qed.
