(* ===== verification/SpscConcurrent.v ===== *)
(** * The lock-free data path: interleavings of try_push and try_pop

    One producer thread loops in [try_push], one consumer thread loops in
    [try_pop] (include/fileguard/event_queue.hpp).  Every shared access is a
    step of its own: the loads and stores of [head_] and [tail_] and the slot
    accesses.  Memory is sequentially consistent here; SpscWeak.v has the same
    steps under the memory orders of the code. *)

From stdpp Require Import relations.
From S2P Require Import Prelude SpscQueue.

(** Where each thread stands. *)
Inductive producer_pc (T : Type) :=
| PIdle
| PLoadedHead (x : T) (h : nat)   (* h = head_.load(relaxed) *)
| PNotFull (x : T) (h : nat)      (* next(h) != tail_.load(acquire) *)
| PWritten (x : T) (h : nat).     (* slots_[h] = item *)
Arguments PIdle {T}.
Arguments PLoadedHead {T} x h.
Arguments PNotFull {T} x h.
Arguments PWritten {T} x h.

Inductive consumer_pc (T : Type) :=
| CIdle
| CLoadedHead (h : nat)           (* h = head_.load(acquire) *)
| CNotEmpty (t : nat)             (* h != tail_.load(relaxed) *)
| CRead (t : nat) (v : T).        (* out = slots_[t] *)
Arguments CIdle {T}.
Arguments CLoadedHead {T} h.
Arguments CNotEmpty {T} t.
Arguments CRead {T} t v.

(** The shared queue, the two threads, and the history of completed calls. *)
Record spsc_sys (T : Type) := MkSys {
  shared : SpscQueue T;
  prod : producer_pc T;
  cons_ : consumer_pc T;
  pushed : list T;   (* items whose try_push returned true, in order *)
  popped : list T;   (* items try_pop has delivered, in order *)
}.
Arguments MkSys {T} _ _ _ _ _.
Arguments shared {T} _.
Arguments prod {T} _.
Arguments cons_ {T} _.
Arguments pushed {T} _.
Arguments popped {T} _.

Section Concurrent.
  Context {T : Type} `{!Inhabited T}.
Implicit Types (q : SpscQueue T) (s : spsc_sys T) (x v : T) (h t : nat).

Definition write_slot q h x : SpscQueue T :=
  MkSpscQueue (<[h := x]> (slots_ q)) (head_ q) (tail_ q) (stop_ q).
Definition store_head q h : SpscQueue T :=
  MkSpscQueue (slots_ q) h (tail_ q) (stop_ q).
Definition store_tail q t : SpscQueue T :=
  MkSpscQueue (slots_ q) (head_ q) t (stop_ q).

Inductive spsc_step : spsc_sys T -> spsc_sys T -> Prop :=
(* try_push(x) *)
| step_load_head q c pu po x :
    spsc_step (MkSys q PIdle c pu po) (MkSys q (PLoadedHead x (head_ q)) c pu po)
| step_full q c pu po x h :
    queue_next q h = tail_ q ->                             (* return false *)
    spsc_step (MkSys q (PLoadedHead x h) c pu po) (MkSys q PIdle c pu po)
| step_not_full q c pu po x h :
    queue_next q h <> tail_ q ->
    spsc_step (MkSys q (PLoadedHead x h) c pu po) (MkSys q (PNotFull x h) c pu po)
| step_write q c pu po x h :
    spsc_step (MkSys q (PNotFull x h) c pu po)
              (MkSys (write_slot q h x) (PWritten x h) c pu po)
| step_publish q c pu po x h :
    spsc_step (MkSys q (PWritten x h) c pu po)              (* return true *)
              (MkSys (store_head q (queue_next q h)) PIdle c (pu ++ [x]) po)
(* try_pop(out) *)
| step_snapshot_head q p pu po :
    spsc_step (MkSys q p CIdle pu po) (MkSys q p (CLoadedHead (head_ q)) pu po)
| step_empty q p pu po h :
    h = tail_ q ->                                          (* return false *)
    spsc_step (MkSys q p (CLoadedHead h) pu po) (MkSys q p CIdle pu po)
| step_not_empty q p pu po h :
    h <> tail_ q ->
    spsc_step (MkSys q p (CLoadedHead h) pu po) (MkSys q p (CNotEmpty (tail_ q)) pu po)
| step_read q p pu po t :
    spsc_step (MkSys q p (CNotEmpty t) pu po)
              (MkSys q p (CRead t (slots_ q !!! t)) pu po)
| step_release q p pu po t v :
    spsc_step (MkSys q p (CRead t v) pu po)                 (* return true *)
              (MkSys (store_tail q (queue_next q t)) p CIdle pu (po ++ [v])).

Definition spsc_init q : spsc_sys T := MkSys q PIdle CIdle [] [].

(** ** Invariant *)
Definition producer_ok q (p : producer_pc T) : Prop :=
  match p with
  | PIdle => True
  | PLoadedHead _ h => h = head_ q
  | PNotFull _ h => h = head_ q /\ queue_full q = false
  | PWritten x h => h = head_ q /\ queue_full q = false /\ slots_ q !! h = Some x
  end.

Definition consumer_ok q (c : consumer_pc T) : Prop :=
  match c with
  | CIdle => True
  | CLoadedHead h => h <> tail_ q -> queue_empty q = false
  | CNotEmpty t => t = tail_ q /\ queue_empty q = false
  | CRead t v => t = tail_ q /\ queue_empty q = false /\ slots_ q !! t = Some v
  end.

Record spsc_inv (capacity : nat) s : Prop := {
  inv_wf : queue_wf (shared s);
  inv_capacity : length (slots_ (shared s)) = capacity;
  inv_history : pushed s = popped s ++ queue_contents (shared s);
  inv_producer : producer_ok (shared s) (prod s);
  inv_consumer : consumer_ok (shared s) (cons_ s);
}.

(** The slot at [head_] is outside the queue's contents. *)
Lemma write_head_contents q x :
  queue_wf q -> queue_contents (write_slot q (head_ q) x) = queue_contents q.
Proof.
  intros (H2 & Hh & Ht). unfold queue_contents; cbn.
  destruct (Nat.leb_spec (tail_ q) (head_ q)).
  - rewrite drop_insert_ge, take_insert_ge by lia. done.
  - rewrite drop_insert_lt, take_insert_ge by lia. done.
Qed.

Lemma write_slot_wf q h x : queue_wf q -> queue_wf (write_slot q h x).
Proof. unfold queue_wf; cbn. by rewrite length_insert. Qed.

Lemma write_slot_full q h x : queue_full (write_slot q h x) = queue_full q.
Proof. unfold queue_full, queue_next; cbn. by rewrite length_insert. Qed.

(** Publishing what was written at the head is [queue_store]. *)
Lemma publish_is_store q x :
  slots_ q !! head_ q = Some x -> store_head q (queue_next q (head_ q)) = queue_store q x.
Proof. intros Hx. unfold store_head, queue_store. by rewrite list_insert_id. Qed.

Lemma store_not_empty q x :
  queue_wf q -> queue_full q = false -> queue_empty (queue_store q x) = false.
Proof.
  intros Hwf Hf. apply not_true_iff_false.
  rewrite queue_empty_spec by (by apply queue_store_wf).
  rewrite queue_store_contents by done. by destruct (queue_contents q).
Qed.

(** Taking an element makes room. *)
Lemma take_not_full q :
  queue_wf q -> queue_empty q = false -> queue_full (store_tail q (queue_next q (tail_ q))) = false.
Proof.
  intros Hwf He. apply not_true_iff_false.
  change (store_tail _ _) with (queue_take q).2.
  rewrite queue_full_spec by (by apply queue_take_wf).
  pose proof (queue_contents_bound q Hwf) as Hb.
  rewrite queue_take_contents in Hb by done. cbn in *. lia.
Qed.

(** The producer's store keeps what the consumer relies on. *)
Lemma consumer_ok_write q x c :
  consumer_ok q c -> consumer_ok (write_slot q (head_ q) x) c.
Proof.
  destruct c as [|h|t|t v]; cbn; [done..|]. intros (-> & He & Hv). split_and!; [done..|].
  rewrite list_lookup_insert_ne; [done|]. by apply Nat.eqb_neq in He.
Qed.

Lemma consumer_ok_publish q x c :
  queue_wf q -> queue_full q = false -> slots_ q !! head_ q = Some x ->
  consumer_ok q c -> consumer_ok (store_head q (queue_next q (head_ q))) c.
Proof.
  intros Hwf Hf Hx. rewrite (publish_is_store q x) by done.
  pose proof (store_not_empty q x Hwf Hf) as Hne.
  destruct c as [|h|t|t v]; cbn [consumer_ok]; [done|done|naive_solver|].
  intros (-> & He & Hv). split_and!; [done..|]. cbn. by rewrite list_insert_id.
Qed.

(** The consumer's release keeps what the producer relies on. *)
Lemma producer_ok_release q p :
  queue_wf q -> queue_empty q = false -> producer_ok q p ->
  producer_ok (store_tail q (queue_next q (tail_ q))) p.
Proof.
  intros Hwf He. pose proof (take_not_full q Hwf He).
  destruct p; cbn [producer_ok]; cbn [head_ slots_ store_tail]; naive_solver.
Qed.

Lemma spsc_step_inv capacity s s' :
  spsc_inv capacity s -> spsc_step s s' -> spsc_inv capacity s'.
Proof.
  intros [Hwf Hcap Hhist Hp Hc] Hstep.
  destruct Hstep; cbn [shared prod cons_ pushed popped] in *;
    split; cbn [shared prod cons_ pushed popped]; try done.
  - (* step_not_full *) cbn in Hp; subst. split; [done|]. by apply Nat.eqb_neq.
  - (* step_write *) destruct Hp as [-> Hf]. by apply write_slot_wf.
  - cbn. by rewrite length_insert.
  - destruct Hp as [-> Hf]. by rewrite write_head_contents.
  - destruct Hp as [-> Hf]. cbn. rewrite write_slot_full. split_and!; [done..|].
    destruct Hwf as (_ & ? & _). by apply list_lookup_insert_eq.
  - destruct Hp as [-> Hf]. by apply consumer_ok_write.
  - (* step_publish *) destruct Hp as (-> & Hf & Hx).
    rewrite (publish_is_store q x) by done. by apply queue_store_wf.
  - destruct Hp as (-> & Hf & Hx). rewrite (publish_is_store q x) by done.
    by rewrite queue_store_contents, Hhist, <- app_assoc.
  - destruct Hp as (-> & Hf & Hx). by apply (consumer_ok_publish q x).
  - (* step_snapshot_head *) intros Hne. by apply Nat.eqb_neq.
  - (* step_not_empty *) split; [done|]. by apply Hc.
  - (* step_read *) destruct Hc as [-> He]. split_and!; [done..|].
    destruct Hwf as (_ & _ & ?). by apply list_lookup_lookup_total_lt.
  - (* step_release *) destruct Hc as (-> & He & Hv). by apply (queue_take_wf q).
  - destruct Hc as (-> & He & Hv). rewrite queue_take_contents in Hhist by done.
    cbn in Hhist. rewrite (list_lookup_total_correct _ _ _ Hv) in Hhist.
    by rewrite Hhist, <- app_assoc.
  - destruct Hc as (-> & He & Hv). by apply producer_ok_release.
Qed.

Lemma spsc_reachable_inv capacity q s :
  SpscQueue_new capacity = Return q -> rtc spsc_step (spsc_init q) s -> spsc_inv capacity s.
Proof.
  intros (Hwf & Hc & Hlen & _)%SpscQueue_new_wf Hr.
  assert (spsc_inv capacity (spsc_init q)) as H0.
  { split; cbn; [done..|by rewrite Hc|done|done]. }
  revert H0. induction Hr as [s0|s0 s1 s2 Hstep _ IH]; [done|].
  intros H0. apply IH. by eapply spsc_step_inv.
Qed.

(** ** Properties *)

(** No loss, no duplication, no reordering: in every interleaving of a
    producer looping in try_push and a consumer looping in try_pop, what has
    been delivered is a prefix of what has been accepted, in order, and at
    most capacity - 1 accepted items are outstanding. *)
Theorem spsc_concurrent_fifo (capacity : nat) q s :
  SpscQueue_new capacity = Return q ->
  rtc spsc_step (spsc_init q) s ->
  exists outstanding, pushed s = popped s ++ outstanding /\ length outstanding <= capacity - 1.
Proof.
  intros Hq Hr. destruct (spsc_reachable_inv _ _ _ Hq Hr) as [Hwf Hcap Hhist _ _].
  exists (queue_contents (shared s)). split; [done|].
  rewrite <- Hcap. by apply queue_contents_bound.
Qed.

(** The slots are race-free: in every reachable state, when the producer
    is about to write a slot and the consumer is about to read one (or has
    read it and not yet released it), the two slots differ; and both indices
    are inside the vector. *)
Theorem spsc_slots_race_free (capacity : nat) q s x h :
  SpscQueue_new capacity = Return q ->
  rtc spsc_step (spsc_init q) s ->
  prod s = PNotFull x h ->
  h < capacity /\
  (forall t, cons_ s = CNotEmpty t -> h <> t /\ t < capacity) /\
  (forall t v, cons_ s = CRead t v -> h <> t /\ t < capacity).
Proof.
  intros Hq Hr Hp. destruct (spsc_reachable_inv _ _ _ Hq Hr) as [Hwf Hcap _ Hprod Hcons].
  destruct Hwf as (_ & Hh & Ht). rewrite Hp in Hprod. destruct Hprod as [-> _].
  rewrite Hcap in *. split; [done|].
  split; [intros t Hc|intros t v Hc]; rewrite Hc in Hcons; destruct Hcons as (-> & He & ?) || destruct Hcons as (-> & He);
    (split; [by apply Nat.eqb_neq|done]).
Qed.
End Concurrent.

(** A concrete interleaving: the producer fills slot 0 and starts on slot 1
    while the consumer picks item 7 up. *)
Definition small_queue3 : SpscQueue nat := MkSpscQueue [0; 0; 0] 0 0 false.

Lemma small_run :
  rtc spsc_step (spsc_init small_queue3)
    (MkSys (MkSpscQueue [7; 0; 0] 1 0 false) (PNotFull 8 1) (CNotEmpty 0) [7] []).
Proof.
  eapply rtc_l; [apply (step_load_head _ _ _ _ 7)|].
  eapply rtc_l; [by apply step_not_full|].
  eapply rtc_l; [apply step_write|].
  eapply rtc_l; [apply step_publish|].
  eapply rtc_l; [apply (step_load_head _ _ _ _ 8)|].
  eapply rtc_l; [by apply step_not_full|].
  eapply rtc_l; [apply step_snapshot_head|].
  eapply rtc_l; [by apply step_not_empty|].
  apply rtc_refl.
Qed.

Lemma spsc_concurrent_fifo_witness :
  exists outstanding, [7] = [] ++ outstanding /\ length outstanding <= 3 - 1.
Proof.
  apply (spsc_concurrent_fifo 3 small_queue3
    (MkSys (MkSpscQueue [7; 0; 0] 1 0 false) (PNotFull 8 1) (CNotEmpty 0) [7] [])).
  - reflexivity.
  - exact small_run.
Defined.

Lemma spsc_slots_race_free_witness :
  1 < 3 /\
  (forall t, CNotEmpty (T := nat) 0 = CNotEmpty t -> 1 <> t /\ t < 3) /\
  (forall t v, CNotEmpty (T := nat) 0 = CRead t v -> 1 <> t /\ t < 3).
Proof.
  apply (spsc_slots_race_free 3 small_queue3
    (MkSys (MkSpscQueue [7; 0; 0] 1 0 false) (PNotFull 8 1) (CNotEmpty 0) [7] []) 8 1).
  - reflexivity.
  - exact small_run.
  - reflexivity.
Defined.
