(* ===== verification/SpscWeak.v ===== *)
(** * The lock-free data path under C++ release/acquire

    SpscConcurrent.v interleaves the shared accesses of the queue as if memory
    were sequentially consistent.  Here the accesses have the memory orders of
    include/fileguard/event_queue.hpp: a load of [head_] or [tail_] may return
    any store its thread has not yet seen overwritten, a release store carries
    the storing thread's view, an acquire load takes it over, a relaxed one
    does not.  The slots are not atomic: an access that conflicts with one that
    does not happen before it is a data race.  The consumer moves out of a
    slot, so its access is a write as well, and leaves any value behind.

    The steps cover all four calls: push and pop make the same atomic accesses
    to [head_], [tail_] and the slots as try_push and try_pop (pop evaluates
    [empty()] twice, which is [w_recheck]); what the mutex adds only rules
    interleavings out. *)

From stdpp Require Import relations.
From S2P Require Import Prelude SpscQueue.

Inductive memory_order := memory_order_relaxed | memory_order_acquire | memory_order_release.

(** What happens before a point of a thread: the newest store to each index,
    counted from the initialisation, and the number of slot accesses of each
    thread. *)
Record view := MkView {
  v_head : nat;
  v_tail : nat;
  v_prod : nat;
  v_cons : nat;
}.
Definition view_bot : view := MkView 0 0 0 0.
Definition view_join (v w : view) : view :=
  MkView (v_head v `max` v_head w) (v_tail v `max` v_tail w)
    (v_prod v `max` v_prod w) (v_cons v `max` v_cons w).

(** A store to an atomic: its value, and the view it publishes. *)
Record message := MkMessage { msg_value : nat; msg_view : view }.

(** The view of a thread that loads message [m], the [i]-th store to [head_]
    (to [tail_]), with the given order. *)
Definition load_view (o : memory_order) (m : message) (v : view) : view :=
  match o with
  | memory_order_acquire => view_join v (msg_view m)
  | _ => v
  end.
Definition saw_head (i : nat) (v : view) : view :=
  MkView (v_head v `max` i) (v_tail v) (v_prod v) (v_cons v).
Definition saw_tail (i : nat) (v : view) : view :=
  MkView (v_head v) (v_tail v `max` i) (v_prod v) (v_cons v).

(** What a store with the given order publishes. *)
Definition store_message (o : memory_order) (value : nat) (v : view) : message :=
  MkMessage value (match o with memory_order_release => v | _ => view_bot end).

(** The orders a producer and a consumer use. *)
Record orders := MkOrders {
  push_load_head : memory_order;
  push_load_tail : memory_order;
  push_store_head : memory_order;
  pop_load_head : memory_order;
  pop_load_tail : memory_order;
  pop_store_tail : memory_order;
}.

(** try_push with try_pop; full() and push with empty() and pop. *)
Definition try_orders : orders :=
  MkOrders memory_order_relaxed memory_order_acquire memory_order_release
    memory_order_acquire memory_order_relaxed memory_order_release.
Definition blocking_orders : orders :=
  MkOrders memory_order_relaxed memory_order_acquire memory_order_release
    memory_order_acquire memory_order_acquire memory_order_release.

(** The orders the proof relies on: each thread's own index may be loaded with
    any order. *)
Definition synchronises (o : orders) : Prop :=
  push_load_tail o = memory_order_acquire /\ push_store_head o = memory_order_release /\
  pop_load_head o = memory_order_acquire /\ pop_store_tail o = memory_order_release.

Inductive wprod (T : Type) :=
| WPIdle
| WPHead (x : T) (h : nat)      (* head_ loaded *)
| WPNotFull (x : T) (h : nat)   (* tail_ loaded, next(h) differs *)
| WPWritten (x : T) (h : nat).  (* slots_[h] = std::move(item) *)
Arguments WPIdle {T}.
Arguments WPHead {T} x h.
Arguments WPNotFull {T} x h.
Arguments WPWritten {T} x h.

Inductive wcons (T : Type) :=
| WCIdle
| WCHead (h : nat)              (* head_ loaded *)
| WCNotEmpty (t : nat)          (* tail_ loaded, h differs *)
| WCRead (t : nat) (v : T).     (* out = std::move(slots_[t]) *)
Arguments WCIdle {T}.
Arguments WCHead {T} h.
Arguments WCNotEmpty {T} t.
Arguments WCRead {T} t v.

(** A slot: its value, and when each thread last accessed it. *)
Record wslot (T : Type) := MkWSlot { w_val : T; w_prod : nat; w_cons : nat }.
Arguments MkWSlot {T} _ _ _.
Arguments w_val {T} _.
Arguments w_prod {T} _.
Arguments w_cons {T} _.

(** The stores to [head_] and [tail_], oldest first; the slots; the two
    threads with their views; the history of completed calls. *)
Record wsys (T : Type) := MkWSys {
  heads : list message;
  tails : list message;
  wslots : list (wslot T);
  wproducer : wprod T;
  pview : view;
  wconsumer : wcons T;
  cview : view;
  wpushed : list T;
  wpopped : list T;
}.
Arguments MkWSys {T} _ _ _ _ _ _ _ _ _.
Arguments heads {T} _.
Arguments tails {T} _.
Arguments wslots {T} _.
Arguments wproducer {T} _.
Arguments pview {T} _.
Arguments wconsumer {T} _.
Arguments cview {T} _.
Arguments wpushed {T} _.
Arguments wpopped {T} _.

Section Weak.
Context {T : Type} (o : orders).
Implicit Types (s : wsys T) (x y v : T) (h t i j : nat).

Definition wnext (sl : list (wslot T)) (i : nat) : nat := (i + 1) mod length sl.

Inductive wstep : wsys T -> wsys T -> Prop :=
(* producer *)
| w_load_head hs ts sl pv c cv pu po x i m :
    hs !! i = Some m -> v_head pv <= i ->
    wstep (MkWSys hs ts sl WPIdle pv c cv pu po)
          (MkWSys hs ts sl (WPHead x (msg_value m))
             (saw_head i (load_view (push_load_head o) m pv)) c cv pu po)
| w_full hs ts sl pv c cv pu po x h j m :
    ts !! j = Some m -> v_tail pv <= j -> wnext sl h = msg_value m ->
    wstep (MkWSys hs ts sl (WPHead x h) pv c cv pu po)
          (MkWSys hs ts sl WPIdle (saw_tail j (load_view (push_load_tail o) m pv)) c cv pu po)
| w_not_full hs ts sl pv c cv pu po x h j m :
    ts !! j = Some m -> v_tail pv <= j -> wnext sl h <> msg_value m ->
    wstep (MkWSys hs ts sl (WPHead x h) pv c cv pu po)
          (MkWSys hs ts sl (WPNotFull x h) (saw_tail j (load_view (push_load_tail o) m pv)) c cv pu po)
| w_write hs ts sl pv c cv pu po x h old :
    sl !! h = Some old ->
    wstep (MkWSys hs ts sl (WPNotFull x h) pv c cv pu po)
          (MkWSys hs ts (<[h := MkWSlot x (S (v_prod pv)) (w_cons old)]> sl) (WPWritten x h)
             (MkView (v_head pv) (v_tail pv) (S (v_prod pv)) (v_cons pv)) c cv pu po)
| w_publish hs ts sl pv c cv pu po x h :
    wstep (MkWSys hs ts sl (WPWritten x h) pv c cv pu po)
          (MkWSys (hs ++ [store_message (push_store_head o) (wnext sl h) (saw_head (length hs) pv)])
             ts sl WPIdle (saw_head (length hs) pv) c cv (pu ++ [x]) po)
(* consumer *)
| w_snapshot hs ts sl p pv cv pu po i m :
    hs !! i = Some m -> v_head cv <= i ->
    wstep (MkWSys hs ts sl p pv WCIdle cv pu po)
          (MkWSys hs ts sl p pv (WCHead (msg_value m))
             (saw_head i (load_view (pop_load_head o) m cv)) pu po)
| w_empty hs ts sl p pv cv pu po h j m :
    ts !! j = Some m -> v_tail cv <= j -> h = msg_value m ->
    wstep (MkWSys hs ts sl p pv (WCHead h) cv pu po)
          (MkWSys hs ts sl p pv WCIdle (saw_tail j (load_view (pop_load_tail o) m cv)) pu po)
| w_not_empty hs ts sl p pv cv pu po h j m :
    ts !! j = Some m -> v_tail cv <= j -> h <> msg_value m ->
    wstep (MkWSys hs ts sl p pv (WCHead h) cv pu po)
          (MkWSys hs ts sl p pv (WCNotEmpty (msg_value m))
             (saw_tail j (load_view (pop_load_tail o) m cv)) pu po)
| w_recheck hs ts sl p pv t cv pu po :
    wstep (MkWSys hs ts sl p pv (WCNotEmpty t) cv pu po) (MkWSys hs ts sl p pv WCIdle cv pu po)
| w_read hs ts sl p pv t cv pu po old y :
    sl !! t = Some old ->
    wstep (MkWSys hs ts sl p pv (WCNotEmpty t) cv pu po)
          (MkWSys hs ts (<[t := MkWSlot y (w_prod old) (S (v_cons cv))]> sl) p pv
             (WCRead t (w_val old)) (MkView (v_head cv) (v_tail cv) (v_prod cv) (S (v_cons cv))) pu po)
| w_release hs ts sl p pv t v cv pu po :
    wstep (MkWSys hs ts sl p pv (WCRead t v) cv pu po)
          (MkWSys hs (ts ++ [store_message (pop_store_tail o) (wnext sl t) (saw_tail (length ts) cv)])
             sl p pv WCIdle (saw_tail (length ts) cv) pu (po ++ [v])).

(** After the constructor, which happens before both threads. *)
Definition winit (values : list T) : wsys T :=
  MkWSys [MkMessage 0 view_bot] [MkMessage 0 view_bot] ((fun x => MkWSlot x 0 0) <$> values)
    WPIdle view_bot WCIdle view_bot [] [].

(** A thread about to access a slot the other thread has accessed without
    that access happening before. *)
Definition race s : Prop :=
  (exists x h sl, wproducer s = WPNotFull x h /\ wslots s !! h = Some sl /\ v_cons (pview s) < w_cons sl) \/
  (exists t sl, wconsumer s = WCNotEmpty t /\ wslots s !! t = Some sl /\ v_prod (cview s) < w_prod sl).
End Weak.

(** ** Invariant *)

(** Two numbers less than [n] apart with the same remainder are equal. *)
Lemma mod_window (a b n : nat) : a < b + n -> b < a + n -> a mod n = b mod n -> a = b.
Proof.
  intros Hab Hba Hmod. destruct (decide (n = 0)) as [->|Hn]; [lia|].
  pose proof (Nat.div_mod_eq a n) as Ha. pose proof (Nat.div_mod_eq b n) as Hb.
  pose proof (Nat.mod_upper_bound b n Hn). rewrite Hmod in Ha.
  assert (a / n = b / n) as Hdiv by nia. lia.
Qed.

Lemma mod_next (i n : nat) : (i mod n + 1) mod n = (i + 1) mod n.
Proof. by rewrite Nat.Div0.add_mod_idemp_l. Qed.

Section Invariant.
Context {T : Type} (o : orders) (Ho : synchronises o) (n : nat).
Implicit Types (s : wsys T) (x y : T) (v : view) (h t i j : nat).

(** Every view is consistent: a store to an index comes after the slot
    accesses that led to it; and bounded by what has happened, [hs] stores to
    head_, [ts] to tail_, [ps] and [cs] slot accesses. *)
Record view_ok (hs ts ps cs : nat) (v : view) : Prop := {
  vo_head : v_head v <= v_prod v;
  vo_tail : v_tail v <= v_cons v;
  vo_hs : v_head v <= hs;
  vo_ts : v_tail v <= ts;
  vo_ps : v_prod v <= ps;
  vo_cs : v_cons v <= cs;
}.

Lemma view_ok_mono (hs ts ps cs hs' ts' ps' cs' : nat) v :
  view_ok hs ts ps cs v -> hs <= hs' -> ts <= ts' -> ps <= ps' -> cs <= cs' -> view_ok hs' ts' ps' cs' v.
Proof. intros []; split; lia. Qed.

Lemma view_ok_load hs ts ps cs order m v :
  view_ok hs ts ps cs v -> view_ok hs ts ps cs (msg_view m) ->
  view_ok hs ts ps cs (load_view order m v).
Proof. intros [] []. destruct order; cbn; try done; split; cbn; lia. Qed.

Lemma view_ok_saw_head hs ts ps cs i v :
  view_ok hs ts ps cs v -> i <= hs -> i <= v_prod v -> view_ok hs ts ps cs (saw_head i v).
Proof. intros []; split; cbn; lia. Qed.

Lemma view_ok_saw_tail hs ts ps cs i v :
  view_ok hs ts ps cs v -> i <= ts -> i <= v_cons v -> view_ok hs ts ps cs (saw_tail i v).
Proof. intros []; split; cbn; lia. Qed.

Definition written_item s : list T :=
  match wproducer s with WPWritten x _ => [x] | _ => [] end.
Definition read_item s : list T :=
  match wconsumer s with WCRead _ v => [v] | _ => [] end.

(** What each position of the producer and of the consumer means, with [hs]
    items published and [ts] released. *)
Definition wproducer_ok (hs : nat) (p : wprod T) (pv : view) : Prop :=
  match p with
  | WPIdle => True
  | WPHead _ h => h = hs mod n
  | WPNotFull _ h | WPWritten _ h => h = hs mod n /\ hs + 1 < v_tail pv + n
  end.
Definition wconsumer_ok (ts : nat) (c : wcons T) (cv : view) : Prop :=
  match c with
  | WCIdle => True
  | WCHead h => exists i, h = i mod n /\ ts <= i /\ i <= v_head cv
  | WCNotEmpty t | WCRead t _ => t = ts mod n /\ ts < v_head cv
  end.

Definition published (s : wsys T) : nat := length (wpushed s).
Definition released (s : wsys T) : nat := length (wpopped s).
Definition writes s : nat := published s + length (written_item s).
Definition reads s : nat := released s + length (read_item s).

Record winv s : Prop := {
  wi_heads : length (heads s) = S (published s);
  wi_head : forall i m, heads s !! i = Some m ->
    msg_value m = i mod n /\ i <= v_prod (msg_view m) /\
    view_ok (published s) (released s) (writes s) (reads s) (msg_view m);
  wi_tails : length (tails s) = S (released s);
  wi_tail : forall j m, tails s !! j = Some m ->
    msg_value m = j mod n /\ j <= v_cons (msg_view m) /\
    view_ok (published s) (released s) (writes s) (reads s) (msg_view m);
  wi_pview : view_ok (published s) (released s) (writes s) (reads s) (pview s);
  wi_phead : v_head (pview s) = published s;
  wi_pprod : v_prod (pview s) = writes s;
  wi_cview : view_ok (published s) (released s) (writes s) (reads s) (cview s);
  wi_ctail : v_tail (cview s) = released s;
  wi_ccons : v_cons (cview s) = reads s;
  wi_capacity : published s < v_tail (pview s) + n;
  wi_behind : released s <= v_head (cview s);
  wi_prod : wproducer_ok (published s) (wproducer s) (pview s);
  wi_cons : wconsumer_ok (released s) (wconsumer s) (cview s);
  wi_slots : length (wslots s) = n;
  (* the slot of each of the last n items written *)
  wi_written : forall k x, (wpushed s ++ written_item s) !! k = Some x -> writes s <= k + n ->
    exists sl, wslots s !! (k mod n) = Some sl /\ w_prod sl = k + 1 /\ (reads s <= k -> w_val sl = x);
  wi_read : forall k, k < reads s -> reads s <= k + n ->
    exists sl, wslots s !! (k mod n) = Some sl /\ w_cons sl = k + 1;
  wi_unread : forall k sl, k < n -> reads s <= k -> wslots s !! k = Some sl -> w_cons sl = 0;
  (* the items delivered are the items pushed *)
  wi_history : forall k x, (wpopped s ++ read_item s) !! k = Some x -> wpushed s !! k = Some x;
}.

Lemma winit_inv (values : list T) : length values = n -> 2 <= n -> winv (winit values).
Proof.
  intros Hlen Hn. split; unfold writes, reads, published, released; cbn.
  all: try done; try lia.
  - intros [|i] m; [|done]. intros [= <-]. cbn. rewrite Nat.Div0.mod_0_l. split_and!; [done..|].
    by split.
  - intros [|i] m; [|done]. intros [= <-]. cbn. rewrite Nat.Div0.mod_0_l. split_and!; [done..|].
    by split.
  - by rewrite length_fmap.
  - intros k sl _ _ Hk. rewrite list_lookup_fmap in Hk. by apply fmap_Some in Hk as (x & _ & ->).
Qed.

(** A thread's own index, and its own slot accesses, are the newest. *)
Lemma load_own_head hs ts ps cs order m v i :
  view_ok hs ts ps cs v -> view_ok hs ts ps cs (msg_view m) -> v_head v = hs -> v_prod v = ps ->
  i <= hs ->
  v_head (saw_head i (load_view order m v)) = hs /\ v_prod (saw_head i (load_view order m v)) = ps /\
  v_tail v <= v_tail (saw_head i (load_view order m v)).
Proof. intros [] [] Hh Hp Hi. destruct order; cbn; lia. Qed.

Lemma load_other_tail hs ts ps cs order m v j :
  view_ok hs ts ps cs v -> view_ok hs ts ps cs (msg_view m) -> v_head v = hs -> v_prod v = ps ->
  v_head (saw_tail j (load_view order m v)) = hs /\ v_prod (saw_tail j (load_view order m v)) = ps /\
  v_tail v <= v_tail (saw_tail j (load_view order m v)) /\
  j <= v_tail (saw_tail j (load_view order m v)).
Proof. intros [] [] Hh Hp. destruct order; cbn; lia. Qed.

Lemma load_own_tail hs ts ps cs order m v j :
  view_ok hs ts ps cs v -> view_ok hs ts ps cs (msg_view m) -> v_tail v = ts -> v_cons v = cs ->
  j <= ts ->
  v_tail (saw_tail j (load_view order m v)) = ts /\ v_cons (saw_tail j (load_view order m v)) = cs /\
  v_head v <= v_head (saw_tail j (load_view order m v)).
Proof. intros [] [] Ht Hc Hj. destruct order; cbn; lia. Qed.

Lemma load_other_head hs ts ps cs order m v i :
  view_ok hs ts ps cs v -> view_ok hs ts ps cs (msg_view m) -> v_tail v = ts -> v_cons v = cs ->
  v_tail (saw_head i (load_view order m v)) = ts /\ v_cons (saw_head i (load_view order m v)) = cs /\
  v_head v <= v_head (saw_head i (load_view order m v)) /\
  i <= v_head (saw_head i (load_view order m v)).
Proof. intros [] [] Ht Hc. destruct order; cbn; lia. Qed.

(** A step of the producer that only loads. *)
Lemma winv_producer_loads s p pv :
  winv s -> written_item s = [] ->
  match p with WPWritten _ _ => False | _ => True end ->
  view_ok (published s) (released s) (writes s) (reads s) pv ->
  v_head pv = published s -> v_prod pv = writes s -> v_tail (pview s) <= v_tail pv ->
  wproducer_ok (published s) p pv ->
  winv (MkWSys (heads s) (tails s) (wslots s) p pv (wconsumer s) (cview s) (wpushed s) (wpopped s)).
Proof.
  intros [] Hw Hp Hv Hh Hpr Ht Hok.
  assert (forall s', written_item s' = match wproducer s' with WPWritten x _ => [x] | _ => [] end) as Hwi
    by done.
  unfold writes, published, released, reads in *. rewrite Hw in *.
  split; unfold writes, published, released, reads, read_item; rewrite ?Hwi; cbn in *;
    (destruct p; [| | |done]); cbn in *; try done; try lia.
Qed.

(** A step of the consumer that only loads. *)
Lemma winv_consumer_loads s c cv :
  winv s -> read_item s = [] ->
  match c with WCRead _ _ => False | _ => True end ->
  view_ok (published s) (released s) (writes s) (reads s) cv ->
  v_tail cv = released s -> v_cons cv = reads s -> released s <= v_head cv ->
  wconsumer_ok (released s) c cv ->
  winv (MkWSys (heads s) (tails s) (wslots s) (wproducer s) (pview s) c cv (wpushed s) (wpopped s)).
Proof.
  intros [] Hw Hp Hv Hh Hpr Ht Hok.
  assert (forall s', read_item s' = match wconsumer s' with WCRead _ v => [v] | _ => [] end) as Hwi
    by done.
  unfold writes, published, released, reads in *. rewrite Hw in *.
  split; unfold writes, published, released, reads, written_item; rewrite ?Hwi; cbn in *;
    (destruct c; [| | |done]); cbn in *; try done; try lia.
Qed.

(** How far apart the indices of the two threads can be. *)
Lemma winv_bounds s :
  winv s ->
  released s <= published s /\ published s < released s + n /\ published s <= writes s /\
  released s <= reads s /\ v_tail (pview s) <= released s /\ v_head (cview s) <= published s.
Proof. intros [? ? ? ? [] ? ? [] ? ? ? ? ? ? ? ? ? ? ?]. unfold writes, reads. lia. Qed.

Lemma wnext_eq s i : winv s -> wnext (wslots s) (i mod n) = (i + 1) mod n.
Proof. intros Hi. unfold wnext. rewrite (wi_slots s Hi). apply mod_next. Qed.

Lemma winv_head_load s x i m :
  winv s -> wproducer s = WPIdle -> heads s !! i = Some m -> v_head (pview s) <= i ->
  winv (MkWSys (heads s) (tails s) (wslots s) (WPHead x (msg_value m))
          (saw_head i (load_view (push_load_head o) m (pview s)))
          (wconsumer s) (cview s) (wpushed s) (wpopped s)).
Proof using Type.
  intros Hi Hp Hm Hle. destruct (wi_head s Hi i m Hm) as (Hv & Hpr & Hok).
  pose proof (lookup_lt_Some _ _ _ Hm) as Hlt. rewrite (wi_heads s Hi) in Hlt.
  pose proof (wi_pview s Hi) as Hpv. pose proof (wi_phead s Hi) as Hph. pose proof (wi_pprod s Hi) as Hpp.
  assert (written_item s = []) as Hw by (unfold written_item; by rewrite Hp).
  destruct (load_own_head _ _ _ _ (push_load_head o) m _ i Hpv Hok Hph Hpp ltac:(lia)) as (E1 & E2 & E3).
  apply winv_producer_loads; try done.
  - apply view_ok_saw_head; [by apply view_ok_load|lia|].
    destruct Hpv. destruct (push_load_head o); cbn; lia.
  - cbn. rewrite Hv. f_equal. lia.
Qed.

(** The producer's load of tail_: a newer value makes room. *)
Lemma winv_tail_load s j m :
  winv s -> tails s !! j = Some m -> written_item s = [] ->
  let pv := saw_tail j (load_view (push_load_tail o) m (pview s)) in
  view_ok (published s) (released s) (writes s) (reads s) pv /\
  v_head pv = published s /\ v_prod pv = writes s /\ v_tail (pview s) <= v_tail pv /\ j <= v_tail pv /\
  v_tail pv <= released s /\ j <= released s.
Proof using Ho.
  intros Hi Hm Hw pv. destruct (wi_tail s Hi j m Hm) as (Hv & Hpr & Hok).
  pose proof (lookup_lt_Some _ _ _ Hm) as Hlt. rewrite (wi_tails s Hi) in Hlt.
  destruct (load_other_tail _ _ _ _ (push_load_tail o) m _ j (wi_pview s Hi) Hok
    (wi_phead s Hi) (wi_pprod s Hi)) as (E1 & E2 & E3 & E4).
  assert (view_ok (published s) (released s) (writes s) (reads s) pv) as Hpv.
  { apply view_ok_saw_tail; [apply view_ok_load; [apply Hi|done]|lia|].
    destruct Ho as (-> & _). cbn. lia. }
  split_and!; try done; [apply Hpv|lia].
Qed.

Lemma winv_full s x h j m :
  winv s -> wproducer s = WPHead x h -> tails s !! j = Some m -> v_tail (pview s) <= j ->
  let pv := saw_tail j (load_view (push_load_tail o) m (pview s)) in
  winv (MkWSys (heads s) (tails s) (wslots s) WPIdle pv (wconsumer s) (cview s) (wpushed s) (wpopped s)) /\
  (wnext (wslots s) h <> msg_value m ->
   winv (MkWSys (heads s) (tails s) (wslots s) (WPNotFull x h) pv (wconsumer s) (cview s)
           (wpushed s) (wpopped s))).
Proof using Ho.
  intros Hi Hp Hm Hle pv.
  assert (written_item s = []) as Hw by (unfold written_item; by rewrite Hp).
  destruct (winv_tail_load s j m Hi Hm Hw) as (Hok & E1 & E2 & E3 & E4 & E5 & E6). fold pv in Hok, E1, E2, E3, E4, E5.
  split; [by apply winv_producer_loads|]. intros Hne. apply winv_producer_loads; try done.
  pose proof (wi_prod s Hi) as Hpr. rewrite Hp in Hpr. cbn in Hpr. subst h. split; [done|].
  rewrite (wnext_eq s) in Hne by done. destruct (wi_tail s Hi j m Hm) as (Hv & _). rewrite Hv in Hne.
  pose proof (wi_capacity s Hi). destruct (winv_bounds s Hi) as (? & ? & _).
  destruct (decide (published s + 1 = j + n)) as [Heq|Hneq].
  - destruct Hne. rewrite Heq. by rewrite <- Nat.Div0.add_mod_idemp_r, Nat.Div0.mod_same, Nat.add_0_r.
  - lia.
Qed.

Lemma winv_head_snapshot s i m :
  winv s -> wconsumer s = WCIdle -> heads s !! i = Some m -> v_head (cview s) <= i ->
  winv (MkWSys (heads s) (tails s) (wslots s) (wproducer s) (pview s) (WCHead (msg_value m))
          (saw_head i (load_view (pop_load_head o) m (cview s))) (wpushed s) (wpopped s)).
Proof using Ho.
  intros Hi Hc Hm Hle. destruct (wi_head s Hi i m Hm) as (Hv & Hpr & Hok).
  pose proof (lookup_lt_Some _ _ _ Hm) as Hlt. rewrite (wi_heads s Hi) in Hlt.
  assert (read_item s = []) as Hw by (unfold read_item; by rewrite Hc).
  destruct (load_other_head _ _ _ _ (pop_load_head o) m _ i (wi_cview s Hi) Hok
    (wi_ctail s Hi) (wi_ccons s Hi)) as (E1 & E2 & E3 & E4).
  pose proof (wi_behind s Hi). apply winv_consumer_loads; try done; [|lia|].
  - apply view_ok_saw_head; [apply view_ok_load; [apply Hi|done]|lia|].
    destruct Ho as (_ & _ & -> & _). cbn. lia.
  - exists i. split_and!; [done|lia|done].
Qed.

Lemma winv_tail_own_load s h j m :
  winv s -> wconsumer s = WCHead h -> tails s !! j = Some m -> v_tail (cview s) <= j ->
  let cv := saw_tail j (load_view (pop_load_tail o) m (cview s)) in
  winv (MkWSys (heads s) (tails s) (wslots s) (wproducer s) (pview s) WCIdle cv (wpushed s) (wpopped s)) /\
  (h <> msg_value m ->
   winv (MkWSys (heads s) (tails s) (wslots s) (wproducer s) (pview s) (WCNotEmpty (msg_value m)) cv
           (wpushed s) (wpopped s))).
Proof using Type.
  intros Hi Hc Hm Hle cv. destruct (wi_tail s Hi j m Hm) as (Hv & Hpr & Hok).
  pose proof (lookup_lt_Some _ _ _ Hm) as Hlt. rewrite (wi_tails s Hi) in Hlt.
  assert (read_item s = []) as Hw by (unfold read_item; by rewrite Hc).
  pose proof (wi_ctail s Hi) as Hct. pose proof (wi_ccons s Hi) as Hcc.
  destruct (winv_bounds s Hi) as (? & ? & ? & ? & _).
  destruct (load_own_tail _ _ _ _ (pop_load_tail o) m _ j (wi_cview s Hi) Hok Hct Hcc ltac:(lia))
    as (E1 & E2 & E3). fold cv in E1, E2, E3.
  assert (view_ok (published s) (released s) (writes s) (reads s) cv) as Hcv.
  { pose proof (wi_cview s Hi) as Hcv. apply view_ok_saw_tail; [by apply view_ok_load|lia|].
    destruct Hcv. destruct (pop_load_tail o); cbn; lia. }
  pose proof (wi_behind s Hi).
  split; [apply winv_consumer_loads; try done; lia|].
  intros Hne. apply winv_consumer_loads; try done; [lia|].
  pose proof (wi_cons s Hi) as Hco. rewrite Hc in Hco. destruct Hco as (i & -> & Hi1 & Hi2).
  assert (j = released s) as -> by lia. rewrite Hv in *. split; [done|].
  assert (i <> released s) by (intros ->; done). lia.
Qed.

Lemma winv_recheck s t :
  winv s -> wconsumer s = WCNotEmpty t ->
  winv (MkWSys (heads s) (tails s) (wslots s) (wproducer s) (pview s) WCIdle (cview s)
          (wpushed s) (wpopped s)).
Proof using Type.
  intros Hi Hc. assert (read_item s = []) as Hw by (unfold read_item; by rewrite Hc).
  by apply winv_consumer_loads; try done; apply Hi.
Qed.

#[local] Arguments published : simpl never.
#[local] Arguments released : simpl never.
#[local] Arguments writes : simpl never.
#[local] Arguments reads : simpl never.

(** The views a load can meet stay consistent as threads go on. *)
Ltac view_grows :=
  match goal with
  | H : view_ok _ _ _ _ ?v |- view_ok _ _ _ _ ?v => refine (view_ok_mono _ _ _ _ _ _ _ _ _ H _ _ _ _); lia
  end.

(** The slot the producer writes holds none of the last [n - 1] items. *)
Lemma winv_write s x h old :
  winv s -> wproducer s = WPNotFull x h -> wslots s !! h = Some old ->
  winv (MkWSys (heads s) (tails s) (<[h := MkWSlot x (S (v_prod (pview s))) (w_cons old)]> (wslots s))
          (WPWritten x h)
          (MkView (v_head (pview s)) (v_tail (pview s)) (S (v_prod (pview s))) (v_cons (pview s)))
          (wconsumer s) (cview s) (wpushed s) (wpopped s)).
Proof using Type.
  intros Hi Hp Hold. destruct (winv_bounds s Hi) as (B1 & B2 & B3 & B4 & _).
  assert (written_item s = []) as Hw by (unfold written_item; by rewrite Hp).
  assert (writes s = published s) as HW by (unfold writes; rewrite Hw; cbn; lia).
  destruct Hi as [I1 I2 I3 I4 I5 I6 I7 I8 I9 I10 I11 I12 I13 I14 I15 I16 I17 I18 I19].
  rewrite Hp in I13. cbn in I13. destruct I13 as [-> Hcap]. rewrite Hw, app_nil_r, HW in *.
  set (s' := MkWSys _ _ _ _ _ _ _ _ _).
  assert (writes s' = S (published s)) as HW' by (unfold writes, published; cbn; lia).
  split; change (published s') with (published s); change (released s') with (released s);
    change (reads s') with (reads s); rewrite ?HW'; cbn.
  all: try done; try lia.
  - intros i m Hm. destruct (I2 i m Hm) as (? & ? & ?). split_and!; [done..|]. view_grows.
  - intros i m Hm. destruct (I4 i m Hm) as (? & ? & ?). split_and!; [done..|]. view_grows.
  - destruct I5; split; cbn; lia.
  - view_grows.
  - by rewrite length_insert.
  - intros k y Hk Hkn. change (written_item s') with [x] in Hk.
    destruct (decide (k = published s)) as [->|Hne].
    + rewrite lookup_app_r in Hk by done. rewrite Nat.sub_diag in Hk. injection Hk as <-.
      eexists. rewrite list_lookup_insert_eq by (by eapply lookup_lt_Some). split_and!; [done|cbn; lia|done].
    + assert (k < published s).
      { apply lookup_lt_Some in Hk. rewrite length_app in Hk. cbn in Hk. unfold published in *. lia. }
      rewrite lookup_app_l in Hk by done.
      rewrite list_lookup_insert_ne; [apply I16; [done|lia]|].
      intros Hm. apply mod_window in Hm; lia.
  - intros k Hk Hkn. destruct (I17 k Hk Hkn) as (sl & Hsl & Hc).
    destruct (decide (published s mod n = k mod n)) as [Heq|Hne].
    + rewrite <- Heq in *. simplify_eq. eexists. rewrite list_lookup_insert_eq by (by eapply lookup_lt_Some). done.
    + exists sl. by rewrite list_lookup_insert_ne.
  - intros k sl Hkn Hk. destruct (decide (published s mod n = k)) as [<-|Hne].
    + rewrite list_lookup_insert_eq by (by eapply lookup_lt_Some). intros [= <-]. cbn. by eapply I18.
    + rewrite list_lookup_insert_ne by done. by apply I18.
Qed.

Lemma winv_publish s x h :
  winv s -> wproducer s = WPWritten x h ->
  let pv := saw_head (length (heads s)) (pview s) in
  winv (MkWSys (heads s ++ [store_message (push_store_head o) (wnext (wslots s) h) pv])
          (tails s) (wslots s) WPIdle pv (wconsumer s) (cview s) (wpushed s ++ [x]) (wpopped s)).
Proof using Ho.
  intros Hi Hp pv. destruct (winv_bounds s Hi) as (B1 & B2 & B3 & B4 & _).
  pose proof (wi_prod s Hi) as Hpr. rewrite Hp in Hpr. destruct Hpr as [-> Hcap].
  rewrite (wnext_eq s) by done.
  assert (written_item s = [x]) as Hw by (unfold written_item; by rewrite Hp).
  assert (writes s = S (published s)) as HW by (unfold writes; rewrite Hw; cbn; lia).
  destruct Hi as [I1 I2 I3 I4 I5 I6 I7 I8 I9 I10 I11 I12 I13 I14 I15 I16 I17 I18 I19].
  rewrite Hw, HW in *. set (s' := MkWSys _ _ _ _ _ _ _ _ _).
  assert (published s' = S (published s)) as HP by (unfold published; cbn; rewrite length_app; cbn; lia).
  assert (writes s' = S (published s)) as HW' by (unfold writes; rewrite HP; cbn; lia).
  assert (view_ok (S (published s)) (released s) (S (published s)) (reads s) pv) as Hpv.
  { apply view_ok_saw_head; [view_grows|lia|lia]. }
  split; rewrite ?HW', ?HP; change (released s') with (released s); change (reads s') with (reads s); cbn.
  all: try done; try lia.
  - rewrite length_app; cbn. lia.
  - intros i m [Hm|(Hl & Hm)]%lookup_app_Some.
    + destruct (I2 i m Hm) as (? & ? & ?). split_and!; [done..|]. view_grows.
    + pose proof (lookup_lt_Some _ _ _ Hm) as Hlt. cbn in Hlt. assert (i = S (published s)) as -> by lia.
      rewrite I1, Nat.sub_diag in Hm. injection Hm as <-. destruct Ho as (_ & -> & _). cbn.
      rewrite Nat.add_1_r. split_and!; [done|lia|done].
  - intros i m Hm. destruct (I4 i m Hm) as (? & ? & ?). split_and!; [done..|]. view_grows.
  - view_grows.
  - rewrite app_nil_r. apply I16.
  - intros k y Hk. apply lookup_app_l_Some. by apply I19.
Qed.

(** The slot the consumer takes holds the oldest item not taken. *)
Lemma winv_read s t old y :
  winv s -> wconsumer s = WCNotEmpty t -> wslots s !! t = Some old ->
  winv (MkWSys (heads s) (tails s) (<[t := MkWSlot y (w_prod old) (S (v_cons (cview s)))]> (wslots s))
          (wproducer s) (pview s) (WCRead t (w_val old))
          (MkView (v_head (cview s)) (v_tail (cview s)) (v_prod (cview s)) (S (v_cons (cview s))))
          (wpushed s) (wpopped s)).
Proof using Type.
  intros Hi Hc Hold. destruct (winv_bounds s Hi) as (B1 & B2 & B3 & B4 & B5 & B6).
  assert (read_item s = []) as Hr by (unfold read_item; by rewrite Hc).
  assert (reads s = released s) as HR by (unfold reads; rewrite Hr; cbn; lia).
  assert (writes s <= published s + 1) as HW1.
  { unfold writes, written_item. destruct (wproducer s); cbn; lia. }
  destruct Hi as [I1 I2 I3 I4 I5 I6 I7 I8 I9 I10 I11 I12 I13 I14 I15 I16 I17 I18 I19].
  rewrite Hc in I14. cbn in I14. destruct I14 as [-> Hlt]. rewrite Hr, app_nil_r, HR in *.
  assert (exists x, wpushed s !! released s = Some x) as (x & Hx).
  { apply lookup_lt_is_Some_2. change (released s < published s). lia. }
  destruct (I16 (released s) x) as (sl & Hsl & Hp & Hv); [by apply lookup_app_l_Some|lia|].
  assert (sl = old) as -> by congruence. specialize (Hv ltac:(lia)).
  set (s' := MkWSys _ _ _ _ _ _ _ _ _).
  assert (reads s' = S (released s)) as HR' by (unfold reads, released; cbn; lia).
  split; change (published s') with (published s); change (released s') with (released s);
    change (writes s') with (writes s); rewrite ?HR'; cbn.
  all: try done; try lia.
  - intros i m Hm. destruct (I2 i m Hm) as (? & ? & ?). split_and!; [done..|]. view_grows.
  - intros i m Hm. destruct (I4 i m Hm) as (? & ? & ?). split_and!; [done..|]. view_grows.
  - view_grows.
  - destruct I8; split; cbn; lia.
  - by rewrite length_insert.
  - intros k z Hk Hkn. assert (k < writes s).
    { apply lookup_lt_Some in Hk. by rewrite length_app in Hk. }
    destruct (I16 k z Hk Hkn) as (sl & Hs & Hpk & Hvk).
    destruct (decide (released s mod n = k mod n)) as [Heq|Hne].
    + apply mod_window in Heq; [subst k|lia..]. eexists.
      rewrite list_lookup_insert_eq by (by eapply lookup_lt_Some). split_and!; [done|cbn; congruence|lia].
    + exists sl. rewrite list_lookup_insert_ne by done. split_and!; [done..|]. intros ?. apply Hvk. lia.
  - intros k Hk Hkn. destruct (decide (k = released s)) as [->|Hne].
    + eexists. rewrite list_lookup_insert_eq by (by eapply lookup_lt_Some). split; [done|cbn; lia].
    + destruct (I17 k) as (sl & Hs & Hck); [lia..|]. exists sl.
      rewrite list_lookup_insert_ne; [done|]. intros Hm. apply mod_window in Hm; lia.
  - intros k sl Hkn Hk. rewrite list_lookup_insert_ne; [apply I18; lia|].
    rewrite <- (Nat.mod_small k n) by done. intros Hm. apply mod_window in Hm; lia.
  - intros k z [Hk|(Hl & Hk)]%lookup_app_Some; [by apply I19|].
    change (length (wpopped s)) with (released s) in *.
    pose proof (lookup_lt_Some _ _ _ Hk) as Hlt'. cbn in Hlt'. assert (k = released s) as -> by lia.
    rewrite Nat.sub_diag in Hk. injection Hk as <-. by rewrite Hx, Hv.
Qed.

Lemma winv_release s t x :
  winv s -> wconsumer s = WCRead t x ->
  let cv := saw_tail (length (tails s)) (cview s) in
  winv (MkWSys (heads s) (tails s ++ [store_message (pop_store_tail o) (wnext (wslots s) t) cv])
          (wslots s) (wproducer s) (pview s) WCIdle cv (wpushed s) (wpopped s ++ [x])).
Proof using Ho.
  intros Hi Hc cv. destruct (winv_bounds s Hi) as (B1 & B2 & B3 & B4 & B5 & B6).
  pose proof (wi_cons s Hi) as Hco. rewrite Hc in Hco. destruct Hco as [-> Hlt].
  rewrite (wnext_eq s) by done.
  assert (read_item s = [x]) as Hr by (unfold read_item; by rewrite Hc).
  assert (reads s = S (released s)) as HR by (unfold reads; rewrite Hr; cbn; lia).
  destruct Hi as [I1 I2 I3 I4 I5 I6 I7 I8 I9 I10 I11 I12 I13 I14 I15 I16 I17 I18 I19].
  rewrite Hr, HR in *. set (s' := MkWSys _ _ _ _ _ _ _ _ _).
  assert (released s' = S (released s)) as HP by (unfold released; cbn; rewrite length_app; cbn; lia).
  assert (reads s' = S (released s)) as HR' by (unfold reads; rewrite HP; cbn; lia).
  assert (view_ok (published s) (S (released s)) (writes s) (S (released s)) cv) as Hcv.
  { apply view_ok_saw_tail; [view_grows|lia|lia]. }
  split; rewrite ?HR', ?HP; change (published s') with (published s);
    change (writes s') with (writes s); cbn.
  all: try done; try lia.
  - intros i m Hm. destruct (I2 i m Hm) as (? & ? & ?). split_and!; [done..|]. view_grows.
  - rewrite length_app; cbn. lia.
  - intros i m [Hm|(Hl & Hm)]%lookup_app_Some.
    + destruct (I4 i m Hm) as (? & ? & ?). split_and!; [done..|]. view_grows.
    + pose proof (lookup_lt_Some _ _ _ Hm) as Hlt'. cbn in Hlt'. assert (i = S (released s)) as -> by lia.
      rewrite I3, Nat.sub_diag in Hm. injection Hm as <-. destruct Ho as (_ & _ & _ & ->). cbn.
      rewrite Nat.add_1_r. split_and!; [done|lia|done].
  - view_grows.
  - rewrite app_nil_r. apply I19.
Qed.

Lemma wstep_inv s s' : winv s -> wstep o s s' -> winv s'.
Proof using Ho.
  intros Hi Hstep.
  destruct Hstep as [hs ts sl pv c cv pu po x i m Hm Hle|hs ts sl pv c cv pu po x h j m Hm Hle _
    |hs ts sl pv c cv pu po x h j m Hm Hle Hne|hs ts sl pv c cv pu po x h old Hs|hs ts sl pv c cv pu po x h
    |hs ts sl p pv cv pu po i m Hm Hle|hs ts sl p pv cv pu po h j m Hm Hle _
    |hs ts sl p pv cv pu po h j m Hm Hle Hne|hs ts sl p pv t cv pu po
    |hs ts sl p pv t cv pu po old y Hs|hs ts sl p pv t v cv pu po].
  - exact (winv_head_load _ x i m Hi eq_refl Hm Hle).
  - exact (proj1 (winv_full _ x h j m Hi eq_refl Hm Hle)).
  - exact (proj2 (winv_full _ x h j m Hi eq_refl Hm Hle) Hne).
  - exact (winv_write _ x h old Hi eq_refl Hs).
  - exact (winv_publish _ x h Hi eq_refl).
  - exact (winv_head_snapshot _ i m Hi eq_refl Hm Hle).
  - exact (proj1 (winv_tail_own_load _ h j m Hi eq_refl Hm Hle)).
  - exact (proj2 (winv_tail_own_load _ h j m Hi eq_refl Hm Hle) Hne).
  - exact (winv_recheck _ t Hi eq_refl).
  - exact (winv_read _ t old y Hi eq_refl Hs).
  - exact (winv_release _ t v Hi eq_refl).
Qed.

Lemma wreachable_inv (values : list T) s :
  length values = n -> 2 <= n -> rtc (wstep o) (winit values) s -> winv s.
Proof using Ho.
  intros Hlen Hn Hr. pose proof (winit_inv values Hlen Hn) as H0.
  induction Hr; eauto using wstep_inv.
Qed.

Lemma winv_reads_bound s : winv s -> reads s <= published s.
Proof using Type.
  intros Hi. pose proof (wi_cons s Hi) as Hc. destruct (winv_bounds s Hi) as (? & ? & ? & ? & ? & ?).
  unfold reads, read_item in *. destruct (wconsumer s); cbn in *; lia.
Qed.

Lemma winv_producer_slot s x h sl :
  winv s -> wproducer s = WPNotFull x h -> wslots s !! h = Some sl -> w_cons sl <= v_cons (pview s).
Proof using Type.
  intros Hi Hp Hsl. pose proof (wi_prod s Hi) as Hpr. rewrite Hp in Hpr. destruct Hpr as [-> Hcap].
  destruct (winv_bounds s Hi) as (? & ? & ? & ? & ? & ?). pose proof (winv_reads_bound s Hi).
  pose proof (vo_tail _ _ _ _ _ (wi_pview s Hi)).
  destruct (decide (published s < n)) as [Hlt|Hge].
  - rewrite Nat.mod_small in Hsl by done. by rewrite (wi_unread s Hi (published s) sl); [lia|..].
  - assert (published s mod n = (published s - n) mod n) as Heq.
    { replace (published s) with (published s - n + 1 * n) at 1 by lia. apply Nat.Div0.mod_add. }
    destruct (wi_read s Hi (published s - n)) as (sl' & Hsl' & Hc); [lia..|].
    rewrite Heq in Hsl. simplify_eq. lia.
Qed.

Lemma winv_consumer_slot s t sl :
  winv s -> wconsumer s = WCNotEmpty t -> wslots s !! t = Some sl -> w_prod sl <= v_prod (cview s).
Proof using Type.
  intros Hi Hc Hsl. pose proof (wi_cons s Hi) as Hco. rewrite Hc in Hco. destruct Hco as [-> Hlt].
  destruct (winv_bounds s Hi) as (? & ? & ? & ? & ? & ?).
  pose proof (vo_head _ _ _ _ _ (wi_cview s Hi)).
  assert (writes s <= published s + 1).
  { unfold writes, written_item. destruct (wproducer s); cbn; lia. }
  assert (exists x, wpushed s !! released s = Some x) as (x & Hx).
  { apply lookup_lt_is_Some_2. change (released s < published s). lia. }
  destruct (wi_written s Hi (released s) x) as (sl' & Hsl' & Hp & _); [by apply lookup_app_l_Some|lia|].
  simplify_eq. lia.
Qed.

Lemma winv_no_race s : winv s -> ~ race s.
Proof using Type.
  intros Hi [(x & h & sl & Hp & Hsl & Hlt)|(t & sl & Hc & Hsl & Hlt)].
  - pose proof (winv_producer_slot s x h sl Hi Hp Hsl). lia.
  - pose proof (winv_consumer_slot s t sl Hi Hc Hsl). lia.
Qed.

Lemma winv_popped s : winv s -> exists rest, wpushed s = wpopped s ++ rest /\ length rest <= n - 1.
Proof using Type.
  intros Hi. destruct (winv_bounds s Hi) as (? & ? & _).
  assert (wpopped s `prefix_of` wpushed s) as [rest Hrest].
  { exists (drop (released s) (wpushed s)). apply list_eq. intros k.
    destruct (decide (k < released s)) as [Hk|Hk].
    - rewrite lookup_app_l by done. destruct (lookup_lt_is_Some_2 (wpopped s) k Hk) as [x Hx].
      rewrite Hx. apply (wi_history s Hi). by apply lookup_app_l_Some.
    - rewrite lookup_app_r by (unfold released in Hk; lia). rewrite lookup_drop. f_equal.
      unfold released in *. lia. }
  exists rest. split; [done|]. unfold published, released in *.
  apply (f_equal length) in Hrest. rewrite length_app in Hrest. lia.
Qed.
End Invariant.

(** ** The property *)
Lemma queue_orders_synchronise : synchronises try_orders /\ synchronises blocking_orders.
Proof. by repeat split. Qed.

(** C11 (the acquire/release pairs suffice): with the memory orders of
    try_push/try_pop, and with those push and pop use through full() and
    empty(), in every execution in which a load may return any store not yet
    known to be overwritten: no thread ever touches a slot without the other
    thread's accesses of it happening before (the queue has no data race);
    what has been delivered is a prefix, in order and value for value, of
    what has been accepted, even though the consumer leaves moved-from values
    in the slots; and at most capacity - 1 items are outstanding. *)
Theorem spsc_release_acquire {T : Type} (o : orders) (values : list T) (s : wsys T) :
  o = try_orders \/ o = blocking_orders -> 2 <= length values ->
  rtc (wstep o) (winit values) s ->
  ~ race s /\
  exists outstanding, wpushed s = wpopped s ++ outstanding /\ length outstanding <= length values - 1.
Proof.
  intros Ho Hn Hr.
  assert (synchronises o) as Hsync by (destruct queue_orders_synchronise; naive_solver).
  pose proof (wreachable_inv o Hsync (length values) values s eq_refl Hn Hr) as Hi.
  split; [by eapply winv_no_race|by apply winv_popped].
Qed.

(** One item handed over through a queue of two slots; the memory views after
    each step. *)
Definition handed_over (o : orders) : wsys nat :=
  let pv := MkView 1 0 1 0 in
  let hs := [MkMessage 0 view_bot; store_message (push_store_head o) 1 pv] in
  MkWSys hs [MkMessage 0 view_bot] [MkWSlot 7 1 0; MkWSlot 0 0 0] WPIdle pv
    (WCNotEmpty 0)
    (saw_tail 0 (load_view (pop_load_tail o) (MkMessage 0 view_bot)
       (saw_head 1 (load_view (pop_load_head o) (store_message (push_store_head o) 1 pv) view_bot))))
    [7] [].

Lemma handed_over_reachable (o : orders) : rtc (wstep o) (winit [0; 0]) (handed_over o).
Proof.
  assert (load_view (push_load_head o) (MkMessage 0 view_bot) view_bot = view_bot) as E1
    by by destruct (push_load_head o).
  assert (load_view (push_load_tail o) (MkMessage 0 view_bot) view_bot = view_bot) as E2
    by by destruct (push_load_tail o).
  eapply rtc_l; [by apply (w_load_head _ _ _ _ _ _ _ _ _ 7 0)|]. rewrite E1.
  eapply rtc_l; [by apply (w_not_full _ _ _ _ _ _ _ _ _ _ _ 0 (MkMessage 0 view_bot))|]. cbn [msg_value].
  change (saw_head 0 view_bot) with view_bot. rewrite E2.
  eapply rtc_l; [by apply w_write|].
  eapply rtc_l; [apply w_publish|].
  eapply rtc_l; [eapply (w_snapshot _ _ _ _ _ _ _ _ _ 1); [done|cbn; lia]|].
  eapply rtc_l; [eapply (w_not_empty _ _ _ _ _ _ _ _ _ _ 0); [done| |done]; by destruct (pop_load_head o), (push_store_head o)|].
  apply rtc_refl.
Qed.

Lemma spsc_release_acquire_witness :
  ~ race (handed_over try_orders) /\
  exists outstanding, [7] = [] ++ outstanding /\ length outstanding <= length [0; 0] - 1.
Proof.
  apply (spsc_release_acquire try_orders [0; 0] (handed_over try_orders)).
  - by left.
  - cbn. lia.
  - apply handed_over_reachable.
Defined.

(** The release store of [head_] is necessary: relaxed, the consumer may see
    the new index before the slot. *)
Definition relaxed_publication : orders :=
  MkOrders memory_order_relaxed memory_order_acquire memory_order_relaxed
    memory_order_acquire memory_order_relaxed memory_order_release.

Example relaxed_publication_races : exists s, rtc (wstep relaxed_publication) (winit [0; 0]) s /\ race s.
Proof.
  exists (handed_over relaxed_publication). split; [apply handed_over_reachable|].
  right. exists 0, (MkWSlot 7 1 0). split_and!; [done|done|]. cbn. lia.
Qed.
