(* ===== verification/SpscMonitor.v ===== *)
(** * Blocking calls: the mutex and the two condition variables

    [push] and [pop] of include/fileguard/event_queue.hpp block on condition
    variables; [request_stop] wakes everybody.  Each critical-section action is
    a step: taking the mutex, evaluating the wait predicate, the atomic
    release-and-block, the store, the unlock, the notification.  A
    notification wakes a thread only if it is already blocked.

    The controller's queue has a blocking producer ([push]); the queue of a
    socket stream client has a non-blocking one ([try_push], which stores and
    notifies without the mutex).  [mon_step lockfree] is the system with
    either producer. *)

From stdpp Require Import relations.
From S2P Require Import Prelude SpscQueue.

Inductive owner := Free | ByProducer | ByConsumer | ByStopper.

#[export] Instance owner_eq_dec : EqDecision owner.
Proof. solve_decision. Defined.

Inductive mprod (T : Type) :=
| MPIdle
| MPLocked (x : T)      (* holds the mutex, before the wait predicate *)
| MPWillWait (x : T)    (* predicate false, about to release and block *)
| MPWaiting (x : T)     (* blocked in cv_producer_ *)
| MPWoken (x : T)       (* notified, wants the mutex back *)
| MPStored              (* stored, still holds the mutex *)
| MPNotify.             (* about to call cv_consumer_.notify_one() *)
Arguments MPIdle {T}.
Arguments MPLocked {T} x.
Arguments MPWillWait {T} x.
Arguments MPWaiting {T} x.
Arguments MPWoken {T} x.
Arguments MPStored {T}.
Arguments MPNotify {T}.

Inductive mcons :=
| MCIdle | MCLocked | MCWillWait | MCWaiting | MCWoken
| MCTaken               (* took an element, still holds the mutex *)
| MCNotify.             (* about to call cv_producer_.notify_one() *)

Inductive mstop :=
| MSIdle
| MSLocked              (* holds the mutex *)
| MSSet                 (* stop_ = true, still holds the mutex *)
| MSNotifyProducer      (* about to call cv_producer_.notify_all() *)
| MSNotifyConsumer      (* about to call cv_consumer_.notify_all() *)
| MSDone.

Record monitor (T : Type) := MkMonitor {
  mq : SpscQueue T;
  mutex : owner;
  mp : mprod T;
  mc : mcons;
  ms : mstop;
}.
Arguments MkMonitor {T} _ _ _ _ _.
Arguments mq {T} _.
Arguments mutex {T} _.
Arguments mp {T} _.
Arguments mc {T} _.
Arguments ms {T} _.

Definition wake_consumer (c : mcons) : mcons :=
  match c with MCWaiting => MCWoken | c => c end.
Definition wake_producer {T} (p : mprod T) : mprod T :=
  match p with MPWaiting x => MPWoken x | p => p end.

Section Monitor.
  Context {T : Type} `{!Inhabited T}.
Implicit Types (q : SpscQueue T) (s : monitor T) (x : T) (p : mprod T) (c : mcons) (z : mstop).

Inductive mon_step (lockfree : bool) : monitor T -> monitor T -> Prop :=
(* push(x) *)
| push_lock q c z x :
    lockfree = false ->
    mon_step lockfree (MkMonitor q Free MPIdle c z) (MkMonitor q ByProducer (MPLocked x) c z)
| push_stopped q o c z x :                        (* if (stop_) return; *)
    stop_ q = true ->
    mon_step lockfree (MkMonitor q o (MPLocked x) c z) (MkMonitor q Free MPIdle c z)
| push_store q o c z x :
    stop_ q = false -> queue_full q = false ->
    mon_step lockfree (MkMonitor q o (MPLocked x) c z) (MkMonitor (queue_store q x) o MPStored c z)
| push_unlock q o c z :
    mon_step lockfree (MkMonitor q o MPStored c z) (MkMonitor q Free MPNotify c z)
| push_predicate_false q o c z x :
    stop_ q = false -> queue_full q = true ->
    mon_step lockfree (MkMonitor q o (MPLocked x) c z) (MkMonitor q o (MPWillWait x) c z)
| push_block q o c z x :
    mon_step lockfree (MkMonitor q o (MPWillWait x) c z) (MkMonitor q Free (MPWaiting x) c z)
| push_reacquire q c z x :
    mon_step lockfree (MkMonitor q Free (MPWoken x) c z) (MkMonitor q ByProducer (MPLocked x) c z)
| push_notify q o c z :
    mon_step lockfree (MkMonitor q o MPNotify c z) (MkMonitor q o MPIdle (wake_consumer c) z)
(* try_push(x): no mutex *)
| try_push_full q o c z :
    lockfree = true -> queue_full q = true ->
    mon_step lockfree (MkMonitor q o MPIdle c z) (MkMonitor q o MPIdle c z)
| try_push_store q o c z x :
    lockfree = true -> queue_full q = false ->
    mon_step lockfree (MkMonitor q o MPIdle c z) (MkMonitor (queue_store q x) o MPNotify c z)
(* pop(out) *)
| pop_lock q p z :
    mon_step lockfree (MkMonitor q Free p MCIdle z) (MkMonitor q ByConsumer p MCLocked z)
| pop_drained q o p z :                           (* stopped and drained: return false *)
    stop_ q = true -> queue_empty q = true ->
    mon_step lockfree (MkMonitor q o p MCLocked z) (MkMonitor q Free p MCIdle z)
| pop_take q o p z :
    queue_empty q = false ->
    mon_step lockfree (MkMonitor q o p MCLocked z) (MkMonitor (queue_take q).2 o p MCTaken z)
| pop_unlock q o p z :
    mon_step lockfree (MkMonitor q o p MCTaken z) (MkMonitor q Free p MCNotify z)
| pop_predicate_false q o p z :
    stop_ q = false -> queue_empty q = true ->
    mon_step lockfree (MkMonitor q o p MCLocked z) (MkMonitor q o p MCWillWait z)
| pop_block q o p z :
    mon_step lockfree (MkMonitor q o p MCWillWait z) (MkMonitor q Free p MCWaiting z)
| pop_reacquire q p z :
    mon_step lockfree (MkMonitor q Free p MCWoken z) (MkMonitor q ByConsumer p MCLocked z)
| pop_notify q o p z :
    mon_step lockfree (MkMonitor q o p MCNotify z) (MkMonitor q o (wake_producer p) MCIdle z)
(* request_stop() *)
| stop_lock q p c :
    mon_step lockfree (MkMonitor q Free p c MSIdle) (MkMonitor q ByStopper p c MSLocked)
| stop_set q o p c :
    mon_step lockfree (MkMonitor q o p c MSLocked) (MkMonitor (queue_request_stop q) o p c MSSet)
| stop_unlock q o p c :
    mon_step lockfree (MkMonitor q o p c MSSet) (MkMonitor q Free p c MSNotifyProducer)
| stop_notify_producer q o p c :
    mon_step lockfree (MkMonitor q o p c MSNotifyProducer)
                      (MkMonitor q o (wake_producer p) c MSNotifyConsumer)
| stop_notify_consumer q o p c :
    mon_step lockfree (MkMonitor q o p c MSNotifyConsumer)
                      (MkMonitor q o p (wake_consumer c) MSDone)
(* spurious wake-ups, which the standard allows *)
| spurious_producer q o c z x :
    mon_step lockfree (MkMonitor q o (MPWaiting x) c z) (MkMonitor q o (MPWoken x) c z)
| spurious_consumer q o p z :
    mon_step lockfree (MkMonitor q o p MCWaiting z) (MkMonitor q o p MCWoken z).

Definition mon_init q : monitor T := MkMonitor q Free MPIdle MCIdle MSIdle.

(** ** Invariant of the system with the blocking producer *)
Definition producer_holds p : bool :=
  match p with MPLocked _ | MPWillWait _ | MPStored => true | _ => false end.
Definition consumer_holds c : bool :=
  match c with MCLocked | MCWillWait | MCTaken => true | _ => false end.
Definition stopper_holds z : bool :=
  match z with MSLocked | MSSet => true | _ => false end.

(** A notification of the consumer (resp. producer) is still to come. *)
Definition consumer_notice p z : bool :=
  match p, z with
  | (MPStored | MPNotify), _ => true
  | _, (MSSet | MSNotifyProducer | MSNotifyConsumer) => true
  | _, _ => false
  end.
Definition producer_notice c z : bool :=
  match c, z with
  | (MCTaken | MCNotify), _ => true
  | _, (MSSet | MSNotifyProducer) => true
  | _, _ => false
  end.

Definition nothing_to_pop q : Prop := queue_empty q = true /\ stop_ q = false.
Definition no_room q : Prop := queue_full q = true /\ stop_ q = false.

Record mon_inv s : Prop := {
  mi_wf : queue_wf (mq s);
  mi_producer : producer_holds (mp s) = bool_decide (mutex s = ByProducer);
  mi_consumer : consumer_holds (mc s) = bool_decide (mutex s = ByConsumer);
  mi_stopper : stopper_holds (ms s) = bool_decide (mutex s = ByStopper);
  mi_stopped : match ms s with MSIdle | MSLocked => True | _ => stop_ (mq s) = true end;
  mi_will_wait_c : mc s = MCWillWait -> nothing_to_pop (mq s);
  mi_will_wait_p : forall x, mp s = MPWillWait x -> no_room (mq s);
  mi_waiting_c : mc s = MCWaiting -> nothing_to_pop (mq s) \/ consumer_notice (mp s) (ms s) = true;
  mi_waiting_p : forall x, mp s = MPWaiting x -> no_room (mq s) \/ producer_notice (mc s) (ms s) = true;
}.

Ltac mon_cases :=
  repeat match goal with
  | c : mcons |- _ => destruct c
  | p : mprod T |- _ => destruct p
  | z : mstop |- _ => destruct z
  | o : owner |- _ => destruct o
  end.

Lemma mon_step_inv s s' : mon_inv s -> mon_step false s s' -> mon_inv s'.
Proof.
  intros [Hwf Hp Hc Hz Hst Hwc Hwp Hsc Hsp] Hstep.
  destruct Hstep; cbn [mq mutex mp mc ms] in *; try done;
    split; cbn [mq mutex mp mc ms];
    try (first [done | by apply queue_store_wf | by apply (queue_take_wf q)]).
  all: mon_cases; cbn in *; try done; naive_solver.
Qed.

Lemma mon_init_inv q : queue_wf q -> mon_inv (mon_init q).
Proof. intros Hwf. by split. Qed.

Lemma mon_reachable_inv capacity q s :
  SpscQueue_new capacity = Return q -> rtc (mon_step false) (mon_init q) s -> mon_inv s.
Proof.
  intros (Hwf & _)%SpscQueue_new_wf Hr. pose proof (mon_init_inv q Hwf) as H0. revert H0.
  induction Hr as [s0|s0 s1 s2 Hstep _ IH]; [done|].
  intros H0. apply IH. by eapply mon_step_inv.
Qed.

(** ** Properties *)

(** C12 (push never loses a wake-up): with the blocking producer of the
    controller's pipeline, in every reachable state a consumer blocked in
    pop with no notification in flight has an empty, unstopped queue, a
    producer blocked in push with none in flight has a full, unstopped
    queue, and the two are never blocked together; so an event is never
    left in the queue with both threads asleep. *)
Theorem push_no_lost_wakeup (capacity : nat) q s :
  SpscQueue_new capacity = Return q ->
  rtc (mon_step false) (mon_init q) s ->
  (mc s = MCWaiting -> consumer_notice (mp s) (ms s) = false ->
     queue_contents (mq s) = [] /\ stop_ (mq s) = false) /\
  (forall x, mp s = MPWaiting x -> producer_notice (mc s) (ms s) = false ->
     length (queue_contents (mq s)) = length (slots_ (mq s)) - 1 /\ stop_ (mq s) = false) /\
  (forall x, mc s = MCWaiting -> mp s = MPWaiting x ->
     consumer_notice (mp s) (ms s) = false -> producer_notice (mc s) (ms s) = false -> False).
Proof.
  intros Hq Hr. destruct (mon_reachable_inv _ _ _ Hq Hr) as [Hwf _ _ _ _ _ _ Hsc Hsp].
  assert (mc s = MCWaiting -> consumer_notice (mp s) (ms s) = false ->
            queue_contents (mq s) = [] /\ stop_ (mq s) = false) as HC.
  { intros Hc Hn. destruct (Hsc Hc) as [[He Hs]|?]; [|congruence].
    by apply queue_empty_spec in He. }
  assert (forall x, mp s = MPWaiting x -> producer_notice (mc s) (ms s) = false ->
            length (queue_contents (mq s)) = length (slots_ (mq s)) - 1 /\
            stop_ (mq s) = false) as HP.
  { intros x Hp Hn. destruct (Hsp x Hp) as [[He Hs]|?]; [|congruence].
    by apply queue_full_spec in He. }
  split_and!; [done..|]. intros x Hc Hp Hcn Hpn.
  destruct (HC Hc Hcn) as [Hempty _]. destruct (HP x Hp Hpn) as [Hfull _].
  rewrite Hempty in Hfull. destruct Hwf as (? & _). cbn in Hfull. lia.
Qed.

(** Request_stop leaves nobody blocked: with the blocking producer, once
    request_stop has returned and the producer and the consumer have no
    notification of their own in flight, neither of them is blocked on a
    condition variable. *)
Theorem request_stop_unblocks (capacity : nat) q s :
  SpscQueue_new capacity = Return q ->
  rtc (mon_step false) (mon_init q) s ->
  ms s = MSDone ->
  consumer_notice (mp s) (ms s) = false -> producer_notice (mc s) (ms s) = false ->
  mc s <> MCWaiting /\ forall x, mp s <> MPWaiting x.
Proof.
  intros Hq Hr Hdone Hcn Hpn.
  destruct (mon_reachable_inv _ _ _ Hq Hr) as [_ _ _ _ Hst _ _ Hsc Hsp].
  rewrite Hdone in Hst. split.
  - intros Hc. destruct (Hsc Hc) as [[_ ?]|?]; congruence.
  - intros x Hp. destruct (Hsp x Hp) as [[_ ?]|?]; congruence.
Qed.

(** try_push can lose a wake-up: with the non-blocking producer of a
    socket stream client, a state is reachable in which an event is in the
    queue, the consumer is blocked in pop, and no notification is in flight:
    try_push stored and notified between the consumer's evaluation of the
    wait predicate and its blocking.  The event stays undelivered until
    another push, a stop or a spurious wake-up. *)
Theorem try_push_loses_wakeup (capacity : nat) q x :
  SpscQueue_new capacity = Return q ->
  exists s, rtc (mon_step true) (mon_init q) s /\
    queue_contents (mq s) = [x] /\ mc s = MCWaiting /\ mutex s = Free /\
    consumer_notice (mp s) (ms s) = false.
Proof.
  intros Hq. pose proof (SpscQueue_new_wf _ _ Hq) as (Hwf & Hc & Hlen & Hs).
  assert (queue_empty q = true) as He by (by apply queue_empty_spec).
  assert (queue_full q = false) as Hf.
  { apply not_true_iff_false. rewrite queue_full_spec, Hc by done.
    destruct Hwf as (? & _). cbn. lia. }
  exists (MkMonitor (queue_store q x) Free MPIdle MCWaiting MSIdle). split_and!; try done.
  - eapply rtc_l; [apply pop_lock|]. eapply rtc_l; [by apply pop_predicate_false|].
    eapply rtc_l; [by apply (try_push_store _ _ _ _ _ x)|].
    eapply rtc_l; [apply push_notify|]. eapply rtc_l; [apply pop_block|]. apply rtc_refl.
  - cbn. by rewrite queue_store_contents, Hc.
Qed.
End Monitor.

(** A two-slot queue; the consumer blocks, is notified by nobody, and the
    producer is idle. *)
Definition tiny_queue : SpscQueue nat := MkSpscQueue [0; 0] 0 0 false.
Definition tiny_blocked : monitor nat := MkMonitor tiny_queue Free MPIdle MCWaiting MSIdle.

Lemma tiny_blocked_reachable (lockfree : bool) :
  rtc (mon_step lockfree) (mon_init tiny_queue) tiny_blocked.
Proof.
  eapply rtc_l; [apply pop_lock|]. eapply rtc_l; [by apply pop_predicate_false|].
  eapply rtc_l; [apply pop_block|]. apply rtc_refl.
Qed.

Lemma tiny_queue_new : SpscQueue_new 2 = Return tiny_queue.
Proof. reflexivity. Qed.

Lemma push_no_lost_wakeup_witness :
  queue_contents (mq tiny_blocked) = [] /\ stop_ (mq tiny_blocked) = false.
Proof.
  apply (proj1 (push_no_lost_wakeup 2 tiny_queue tiny_blocked tiny_queue_new
                  (tiny_blocked_reachable false))); reflexivity.
Defined.

Definition tiny_stopped : monitor nat :=
  MkMonitor (queue_request_stop tiny_queue) Free MPIdle MCWoken MSDone.

Lemma tiny_stopped_reachable : rtc (mon_step false) (mon_init tiny_queue) tiny_stopped.
Proof.
  etrans; [apply tiny_blocked_reachable|].
  eapply rtc_l; [apply stop_lock|]. eapply rtc_l; [apply stop_set|].
  eapply rtc_l; [apply stop_unlock|]. eapply rtc_l; [apply stop_notify_producer|].
  eapply rtc_l; [apply stop_notify_consumer|]. apply rtc_refl.
Qed.

Lemma request_stop_unblocks_witness :
  mc tiny_stopped <> MCWaiting /\ forall x, mp tiny_stopped <> MPWaiting x.
Proof.
  apply (request_stop_unblocks 2 tiny_queue tiny_stopped tiny_queue_new tiny_stopped_reachable);
    reflexivity.
Defined.

Lemma try_push_loses_wakeup_witness :
  exists s, rtc (mon_step true) (mon_init tiny_queue) s /\
    queue_contents (mq s) = [42] /\ mc s = MCWaiting /\ mutex s = Free /\
    consumer_notice (mp s) (ms s) = false.
Proof. apply (try_push_loses_wakeup 2 tiny_queue 42). reflexivity. Defined.
