(* ===== verification/BpfMap.v ===== *)
(** * The kernel's BPF maps, as an interface

    bpf(2) map operations are kernel code: they are the operations of a class,
    and what FileGuard relies on (the documented behaviour of
    BPF_MAP_TYPE_HASH and BPF_MAP_TYPE_ARRAY) is the class of laws.  Clients
    are proved against the laws; [HashMap] and [ArrayMap] discharge them. *)

From S2P Require Import Prelude.

Definition ENOENT : Z := 2.
Definition E2BIG : Z := 7.
Definition EACCES : Z := 13.
Definition EEXIST : Z := 17.

Inductive update_flag := BPF_ANY | BPF_NOEXIST.

(** [M] is a map with keys [K] and values [V].  [update] and [delete] return
    the errno (0 for success) with the map; [get_next_key] returns either the
    negative return code of the libbpf wrapper with errno, or the next key. *)
Class BpfMap (K V M : Type) := {
  bpf_create : Z -> M;                                  (* max_entries *)
  bpf_map__fd : M -> Z;                                 (* its descriptor in this process *)
  bpf_map_lookup_elem : M -> K -> option V;
  bpf_map_update_elem : update_flag -> M -> K -> V -> Z * M;
  bpf_map_delete_elem : M -> K -> Z * M;
  bpf_map_get_next_key : M -> option K -> Z * Z + K;
}.

(** The laws, over the finite map [map_view m] that the map holds. *)
Class BpfMapLaws (K V M : Type) `{Countable K} `{!BpfMap K V M} := {
  map_view : M -> gmap K V;
  (* a map of a loaded object has a descriptor *)
  map_fd_valid : forall m, (0 <= bpf_map__fd m)%Z;
  lookup_view : forall m k, bpf_map_lookup_elem m k = map_view m !! k;
  update_ok : forall flag m k v m',
    bpf_map_update_elem flag m k v = (0%Z, m') -> map_view m' = <[k := v]> (map_view m);
  update_fail : forall flag m k v e m',
    bpf_map_update_elem flag m k v = (e, m') -> e <> 0%Z -> map_view m' = map_view m;
  (* BPF_NOEXIST creates an element only if there was none, and EEXIST is
     reported exactly when there was one *)
  update_noexist : forall m k v,
    (bpf_map_update_elem BPF_NOEXIST m k v).1 = EEXIST <-> is_Some (map_view m !! k);
}.

(** A hash map is created empty, and can be emptied by iteration. *)
Class BpfHashLaws (K V M : Type) `{BpfMapLaws K V M} : Prop := {
  create_view : forall n, map_view (bpf_create n) = ∅;
  delete_view : forall m k,
    map_view (bpf_map_delete_elem m k).2 = delete k (map_view m);
  (* with no key, or a key that is not in the map, iteration (re)starts at a
     first element, and fails only if there is none *)
  next_key_first : forall m ok,
    match ok with None => True | Some k => map_view m !! k = None end ->
    match bpf_map_get_next_key m ok with
    | inl _ => map_view m = ∅
    | inr k => is_Some (map_view m !! k)
    end;
  next_key_nonzero : forall m ok rc e, bpf_map_get_next_key m ok = inl (rc, e) -> (rc < 0)%Z;
}.

(** Capacity: a new key fits while there is room, and only then. *)
Class BpfHashCapacity (K V M : Type) `{BpfMapLaws K V M} := {
  max_entries : M -> Z;
  create_max : forall n, max_entries (bpf_create n) = Z.max 0 n;
  update_max : forall flag m k v,
    max_entries (bpf_map_update_elem flag m k v).2 = max_entries m;
  delete_max : forall m k, max_entries (bpf_map_delete_elem m k).2 = max_entries m;
  update_room : forall flag m k v,
    map_view m !! k = None -> (Z.of_nat (size (map_view m)) < max_entries m)%Z ->
    (bpf_map_update_elem flag m k v).1 = 0%Z;
  update_full : forall flag m k v,
    map_view m !! k = None -> (max_entries m <= Z.of_nat (size (map_view m)))%Z ->
    (bpf_map_update_elem flag m k v).1 = E2BIG;
}.

(** The wrapper reports the end of the iteration as -ENOENT, which is what
    libbpf 1.0 and later do (earlier versions return -1 and set errno). *)
Class EndsWithEnoent (K V M : Type) `{BpfMapLaws K V M} : Prop := {
  next_key_end : forall m ok rc e,
    bpf_map_get_next_key m ok = inl (rc, e) -> rc = (- ENOENT)%Z;
}.

(** The earlier convention: -1 with errno set. *)
Class EndsWithMinusOne (K V M : Type) `{BpfMapLaws K V M} : Prop := {
  next_key_minus_one : forall m ok rc e,
    bpf_map_get_next_key m ok = inl (rc, e) -> rc = (- 1)%Z;
}.

(** A one-element array: key 0 always has a value, initially [zero]. *)
Class BpfArrayLaws (V M : Type) `{BpfMapLaws Z V M} (zero : V) : Prop := {
  array_zero : forall m, is_Some (map_view m !! 0%Z);
  array_create : map_view (bpf_create 1) !! 0%Z = Some zero;
  array_update : forall m v, (bpf_map_update_elem BPF_ANY m 0%Z v).1 = 0%Z;
}.

(** ** A hash map that satisfies the laws *)
Section HashMap.
  Context {K V : Type} `{Countable K}.

Record HashMap := MkHashMap {
  hm_max_entries : nat;
  hm_elems : gmap K V;
}.

(** Keys in the map's internal order. *)
Definition hm_keys (m : HashMap) : list K := (map_to_list (hm_elems m)).*1.

(** The key after [k]; the first one if [k] is not in the map. *)
Fixpoint next_after (l all : list K) (k : K) : option K :=
  match l with
  | [] => head all
  | x :: l => if decide (x = k) then head l else next_after l all k
  end.

Definition hm_update (flag : update_flag) (m : HashMap) (k : K) (v : V) : Z * HashMap :=
  match flag, hm_elems m !! k with
  | BPF_NOEXIST, Some _ => (EEXIST, m)
  | _, Some _ => (0%Z, MkHashMap (hm_max_entries m) (<[k := v]> (hm_elems m)))
  | _, None =>
     if hm_max_entries m <=? size (hm_elems m) then (E2BIG, m)
     else (0%Z, MkHashMap (hm_max_entries m) (<[k := v]> (hm_elems m)))
  end.

#[export] Instance HashMap_ops : BpfMap K V HashMap := {
  bpf_create n := MkHashMap (Z.to_nat n) ∅;
  bpf_map__fd _ := 10%Z;
  bpf_map_lookup_elem m k := hm_elems m !! k;
  bpf_map_update_elem := hm_update;
  bpf_map_delete_elem m k :=
    (if decide (is_Some (hm_elems m !! k)) then 0%Z else ENOENT,
     MkHashMap (hm_max_entries m) (delete k (hm_elems m)));
  bpf_map_get_next_key m ok :=
    match (match ok with None => head (hm_keys m)
           | Some k => next_after (hm_keys m) (hm_keys m) k end) with
    | Some k => inr k
    | None => inl (- ENOENT, ENOENT)%Z
    end;
}.

Lemma elem_of_hm_keys (m : HashMap) (k : K) : k ∈ hm_keys m <-> is_Some (hm_elems m !! k).
Proof.
  unfold hm_keys. rewrite list_elem_of_fmap. split.
  - intros ([k' v] & -> & Hin%elem_of_map_to_list). by exists v.
  - intros [v Hv]. exists (k, v). by rewrite elem_of_map_to_list.
Qed.

Lemma next_after_notin (l all : list K) (k : K) : (k ∉ l) -> next_after l all k = head all.
Proof.
  induction l as [|x l IH]; [done|]. intros Hk. cbn.
  rewrite decide_False by set_solver. apply IH. set_solver.
Qed.

#[export] Instance HashMap_laws : BpfMapLaws K V HashMap.
Proof.
  refine {| map_view := hm_elems |}.
  - done.
  - done.
  - intros flag m k v m'. cbn. unfold hm_update.
    destruct flag, (hm_elems m !! k); try (by intros [= <-]);
      case_match; by intros [= <-].
  - intros flag m k v e m'. cbn. unfold hm_update.
    destruct flag, (hm_elems m !! k); try (intros [= <- <-]; done);
      case_match; by intros [= <- <-].
  - intros m k v. cbn. unfold hm_update. destruct (hm_elems m !! k) eqn:Hk; cbn.
    + split; [by eauto|done].
    + split; [case_match; done|by intros []].
Defined.

#[export] Instance HashMap_hash : BpfHashLaws K V HashMap.
Proof.
  split.
  - done.
  - done.
  - intros m ok Hok. cbn in *.
    assert (match ok with None => head (hm_keys m)
            | Some k => next_after (hm_keys m) (hm_keys m) k end = head (hm_keys m)) as ->.
    { destruct ok as [k|]; [|done]. apply next_after_notin.
      rewrite elem_of_hm_keys. rewrite Hok. by intros []. }
    destruct (hm_keys m) as [|k l] eqn:Hkeys; cbn.
    + unfold hm_keys in Hkeys. apply fmap_nil_inv in Hkeys.
      by apply map_to_list_empty_iff.
    + apply elem_of_hm_keys. rewrite Hkeys. set_solver.
  - intros m ok rc e. cbn. case_match; [done|]. by intros [= <- <-].
Qed.

#[export] Instance HashMap_enoent : EndsWithEnoent K V HashMap.
Proof. split. intros m ok rc e. cbn. case_match; [done|]. by intros [= <- <-]. Qed.

#[export] Instance HashMap_capacity : BpfHashCapacity K V HashMap.
Proof.
  refine {| max_entries := fun m => Z.of_nat (hm_max_entries m) |}.
  - intros n. cbn. lia.
  - intros flag m k v. cbn. unfold hm_update. by repeat case_match.
  - done.
  - intros flag m k v Hk Hs. cbn in *. unfold hm_update. rewrite Hk.
    destruct (Nat.leb_spec (hm_max_entries m) (size (hm_elems m))); [lia|by destruct flag].
  - intros flag m k v Hk Hs. cbn in *. unfold hm_update. rewrite Hk.
    destruct (Nat.leb_spec (hm_max_entries m) (size (hm_elems m))); [by destruct flag|lia].
Defined.
End HashMap.
Arguments HashMap K V {_ _}.

(** ** A one-element array that satisfies the laws *)
Section ArrayMap.
  Context {V : Type} (zero : V).

Record ArrayMap := MkArrayMap { am_value : V }.

#[local] Instance ArrayMap_ops : BpfMap Z V ArrayMap := {
  bpf_create _ := MkArrayMap zero;
  bpf_map__fd _ := 11%Z;
  bpf_map_lookup_elem m k := if decide (k = 0%Z) then Some (am_value m) else None;
  bpf_map_update_elem flag m k v :=
    match flag with
    | BPF_NOEXIST => if decide (k = 0%Z) then (EEXIST, m) else (E2BIG, m)
    | BPF_ANY => if decide (k = 0%Z) then (0%Z, MkArrayMap v) else (E2BIG, m)
    end;
  bpf_map_delete_elem m _ := (22%Z, m);                      (* EINVAL *)
  bpf_map_get_next_key m ok :=
    match ok with Some 0%Z => inl (- ENOENT, ENOENT)%Z | _ => inr 0%Z end;
}.

#[local] Instance ArrayMap_laws : BpfMapLaws Z V ArrayMap.
Proof.
  refine {| map_view := fun m => {[0%Z := am_value m]} |}.
  - done.
  - intros m k. cbn. case_decide; subst; [by rewrite lookup_singleton_eq|].
    by rewrite lookup_singleton_ne.
  - intros flag m k v m'. cbn. destruct flag; case_decide; intros; simplify_eq/=.
    by rewrite insert_singleton_eq.
  - intros flag m k v e m'. cbn. destruct flag; case_decide; intros; by simplify_eq/=.
  - intros m k v. cbn. case_decide; subst; cbn.
    + rewrite lookup_singleton_eq. by split; [eauto|].
    + rewrite lookup_singleton_ne by done. by split; [|intros []].
Defined.

#[local] Instance ArrayMap_array : BpfArrayLaws V ArrayMap zero.
Proof.
  split.
  - intros m. cbn. rewrite lookup_singleton_eq. by eauto.
  - cbn. by rewrite lookup_singleton_eq.
  - intros m v. cbn. done.
Qed.
End ArrayMap.
Arguments ArrayMap V : clear implicits.

(** ** A hash map behind a libbpf that reports the end as -1 *)
Section LegacyMap.
  Context {K V : Type} `{Countable K}.

Record LegacyMap := MkLegacyMap { lm_map : HashMap K V }.

#[export] Instance LegacyMap_ops : BpfMap K V LegacyMap := {
  bpf_create n := MkLegacyMap (bpf_create n);
  bpf_map__fd m := bpf_map__fd (lm_map m);
  bpf_map_lookup_elem m k := bpf_map_lookup_elem (lm_map m) k;
  bpf_map_update_elem flag m k v :=
    let r := bpf_map_update_elem flag (lm_map m) k v in (r.1, MkLegacyMap r.2);
  bpf_map_delete_elem m k :=
    let r := bpf_map_delete_elem (lm_map m) k in (r.1, MkLegacyMap r.2);
  bpf_map_get_next_key m ok :=
    match bpf_map_get_next_key (lm_map m) ok with
    | inl (_, e) => inl (-1, e)%Z
    | inr k => inr k
    end;
}.

#[export] Instance LegacyMap_laws : BpfMapLaws K V LegacyMap.
Proof.
  refine {| map_view := fun m => map_view (lm_map m) |}.
  - intros m. apply (map_fd_valid (lm_map m)).
  - intros m k. apply (lookup_view (lm_map m)).
  - intros flag [m] k v m' Hu. cbn in *.
    destruct (hm_update flag m k v) as [e m''] eqn:Hm. injection Hu as -> <-.
    exact (update_ok flag m k v m'' Hm).
  - intros flag [m] k v e m' Hu He. cbn in *.
    destruct (hm_update flag m k v) as [e' m''] eqn:Hm. injection Hu as -> <-.
    exact (update_fail flag m k v e m'' Hm He).
  - intros [m] k v. apply (update_noexist m).
Defined.

#[export] Instance LegacyMap_hash : BpfHashLaws K V LegacyMap.
Proof.
  split.
  - done.
  - intros [m] k. apply (delete_view m).
  - intros [m] ok Hok. pose proof (next_key_first m ok Hok) as Hn. cbn in *.
    destruct (match ok with None => head (hm_keys m) | Some k => _ end); exact Hn.
  - intros [m] ok rc e. cbn. intros Hn. repeat case_match; by simplify_eq.
Qed.

#[export] Instance LegacyMap_minus_one : EndsWithMinusOne K V LegacyMap.
Proof.
  split. intros [m] ok rc e. cbn. intros Hn. repeat case_match; by simplify_eq.
Qed.
End LegacyMap.
Arguments LegacyMap K V {_ _}.
