(* ===== verification/KernelProgram.v ===== *)
(** * The LSM program: ebpf/fileguard.bpf.c

    The BPF program attached to security_file_open, over the four maps.  The
    kernel objects it walks are records; the helpers (pid, uid, clock, comm,
    ring-buffer reservation) are what the hook's environment supplies, so a
    theorem that quantifies over environments covers every result they can
    have.  [kernel_verdict] is the abstract decision over the finite maps the
    kernel maps hold. *)

From S2P Require Import Prelude Abi BpfMap.

Local Open Scope Z_scope.

(** ** Kernel objects

    The fields [BPF_CORE_READ] follows.  A pointer is an [option]; a read
    through a null pointer leaves zero in its destination. *)
Record super_block := MkSuperBlock { s_dev : Z (* dev_t *) }.
Record inode := MkInode { i_sb : option super_block; i_ino : Z }.
Record file := MkFile { f_inode : option inode }.
Record mm_struct := MkMm { exe_file : option file }.
Record task_struct := MkTask { task_mm : option mm_struct }.

(** What the hook can observe besides its [file] argument, and the slot
    [bpf_ringbuf_reserve] returns: recycled memory, which keeps its previous
    content. *)
Record hook_env := MkHookEnv {
  current_task : task_struct;
  current_pid_tgid : Z;
  current_uid_gid : Z;
  ktime_ns : Z;
  current_comm : list Z;
  ringbuf_reserve : option fileguard_event_t;
}.

(** The three maps the program reads. *)
Record KMaps (P R C : Type) := MkKMaps {
  fileguard_protected : P;
  fileguard_rules : R;
  fileguard_config : C;
}.
Arguments MkKMaps {P R C} _ _ _.
Arguments fileguard_protected {P R C} _.
Arguments fileguard_rules {P R C} _.
Arguments fileguard_config {P R C} _.

(** Assignments [ev->f = v]; the one-byte fields truncate. *)
Definition ev_set_rule_id (v : Z) (e : fileguard_event_t) : fileguard_event_t :=
  AbiEvent (ev_magic e) (ev_timestamp_ns e) (ev_pid e) (ev_tgid e) (ev_uid e) (ev_gid e)
    (ev_res e) (ev_proc e) v (ev_operation e) (ev_action e) (ev_reason e) (ev_pad e) (ev_comm e).
Definition ev_set_action (v : Z) (e : fileguard_event_t) : fileguard_event_t :=
  AbiEvent (ev_magic e) (ev_timestamp_ns e) (ev_pid e) (ev_tgid e) (ev_uid e) (ev_gid e)
    (ev_res e) (ev_proc e) (ev_rule_id e) (ev_operation e) (u8 v) (ev_reason e) (ev_pad e)
    (ev_comm e).
Definition ev_set_reason (v : Z) (e : fileguard_event_t) : fileguard_event_t :=
  AbiEvent (ev_magic e) (ev_timestamp_ns e) (ev_pid e) (ev_tgid e) (ev_uid e) (ev_gid e)
    (ev_res e) (ev_proc e) (ev_rule_id e) (ev_operation e) (ev_action e) (u8 v) (ev_pad e)
    (ev_comm e).

(** fg_file_id: [out] is left alone when the file has no inode. *)
Definition fg_file_id (f : file) (out : fileguard_file_id_t) : fileguard_file_id_t :=
  match f_inode f with
  | None => out
  | Some inode =>
     let dev := u64 (match i_sb inode with Some sb => s_dev sb | None => 0 end) in
     {| abi_dev_major := u32 (Z.shiftr dev 20);
        abi_dev_minor := u32 (Z.land dev 0xfffff);
        abi_ino := u64 (i_ino inode) |}
  end.

(** fg_process_exe_id *)
Definition fg_process_exe_id (task : task_struct) (out : fileguard_file_id_t)
    : fileguard_file_id_t :=
  match task_mm task with
  | None => out
  | Some mm =>
     match exe_file mm with
     | None => out
     | Some exe => fg_file_id exe out
     end
  end.

(** The identities the program works with: both start zeroed. *)
Definition opened_id (f : file) : fileguard_file_id_t := fg_file_id f abi_file_id_zero.
Definition process_id (task : task_struct) : fileguard_file_id_t :=
  fg_process_exe_id task abi_file_id_zero.

Section Program.
  Context {P R C : Type}
    `{!BpfMap fileguard_file_id_t fileguard_protected_val_t P}
    `{!BpfMap fileguard_rule_key_t fileguard_rule_val_t R}
    `{!BpfMap Z fileguard_config_t C}.
Abbreviation Maps := (KMaps P R C).

Definition fg_enabled (m : Maps) : bool :=
  match bpf_map_lookup_elem (fileguard_config m) 0 with
  | Some cfg => negb (cfg_enabled cfg =? 0)
  | None => false
  end.

Definition fg_decision (m : Maps) (res proc : fileguard_file_id_t)
    (ev : option fileguard_event_t) : Z * option fileguard_event_t :=
  if abi_ino proc =? 0 then
    (- EACCES, (fun e => ev_set_reason FG_REASON_UNKNOWN_PROCESS
                           (ev_set_action FG_ACTION_DENY e)) <$> ev)
  else
    match bpf_map_lookup_elem (fileguard_rules m) (AbiRuleKey res proc) with
    | Some rule =>
       (if val_action rule =? FG_ACTION_ALLOW then 0 else - EACCES,
        (fun e => ev_set_reason FG_REASON_POLICY_RULE
                    (ev_set_action (val_action rule)
                       (ev_set_rule_id (val_rule_id rule) e))) <$> ev)
    | None =>
       (- EACCES, (fun e => ev_set_reason FG_REASON_DEFAULT_DENY
                              (ev_set_action FG_ACTION_DENY e)) <$> ev)
    end.

(** The fields the hook fills as soon as the slot is reserved. *)
Definition fill_event (env : hook_env) (res : fileguard_file_id_t) (e : fileguard_event_t)
    : fileguard_event_t :=
  {| ev_magic := FG_MAGIC;
     ev_timestamp_ns := ktime_ns env;
     ev_pid := u32 (current_pid_tgid env);
     ev_tgid := u32 (Z.shiftr (current_pid_tgid env) 32);
     ev_uid := u32 (current_uid_gid env);
     ev_gid := u32 (Z.shiftr (current_uid_gid env) 32);
     ev_res := res;
     ev_proc := ev_proc e;
     ev_rule_id := ev_rule_id e;
     ev_operation := FG_OP_OPEN;
     ev_action := ev_action e;
     ev_reason := ev_reason e;
     ev_pad := ev_pad e;
     ev_comm := current_comm env |}.

(** The hook: its return value and the record it submits, if any. *)
Definition fg_file_open (m : Maps) (env : hook_env) (f : file)
    : Z * option fileguard_event_t :=
  if negb (fg_enabled m) then (0, None)
  else
    let res := opened_id f in
    if abi_ino res =? 0 then (0, None)
    else
      match bpf_map_lookup_elem (fileguard_protected m) res with
      | None => (0, None)
      | Some _ =>
         let ev := fill_event env res <$> ringbuf_reserve env in
         fg_decision m res (process_id (current_task env)) ev
      end.
End Program.

(** ** The abstract decision *)

Record kernel_view := MkKernelView {
  kv_protected : gmap fileguard_file_id_t fileguard_protected_val_t;
  kv_rules : gmap fileguard_rule_key_t fileguard_rule_val_t;
  kv_config : gmap Z fileguard_config_t;
}.

Definition kv_enabled (v : kernel_view) : bool :=
  match kv_config v !! 0 with Some cfg => negb (cfg_enabled cfg =? 0) | None => false end.

Definition kv_guards (v : kernel_view) (res : fileguard_file_id_t) : Prop :=
  kv_enabled v = true /\ abi_ino res <> 0 /\ is_Some (kv_protected v !! res).

#[export] Instance kv_guards_dec v res : Decision (kv_guards v res).
Proof. unfold kv_guards. apply _. Defined.

(** The verdict on a guarded resource, with its FG_REASON code. *)
Definition guarded_verdict (v : kernel_view) (res proc : fileguard_file_id_t) : Z * Z :=
  if decide (abi_ino proc = 0) then (- EACCES, FG_REASON_UNKNOWN_PROCESS)
  else match kv_rules v !! AbiRuleKey res proc with
       | Some rule => (if val_action rule =? FG_ACTION_ALLOW then 0 else - EACCES,
                       FG_REASON_POLICY_RULE)
       | None => (- EACCES, FG_REASON_DEFAULT_DENY)
       end.

Definition kernel_verdict (v : kernel_view) (res proc : fileguard_file_id_t) : Z :=
  if decide (kv_guards v res) then (guarded_verdict v res proc).1 else 0.

Lemma kernel_verdict_guarded (v : kernel_view) res proc :
  kv_guards v res -> kernel_verdict v res proc = (guarded_verdict v res proc).1.
Proof. intros. unfold kernel_verdict. by rewrite decide_True. Qed.

Lemma kernel_verdict_unguarded (v : kernel_view) res proc :
  ~ kv_guards v res -> kernel_verdict v res proc = 0.
Proof. intros. unfold kernel_verdict. by rewrite decide_False. Qed.

Section Refinement.
  Context {P R C : Type}
    `{!BpfMap fileguard_file_id_t fileguard_protected_val_t P}
    `{!BpfMap fileguard_rule_key_t fileguard_rule_val_t R}
    `{!BpfMap Z fileguard_config_t C}
    `{!BpfMapLaws fileguard_file_id_t fileguard_protected_val_t P}
    `{!BpfMapLaws fileguard_rule_key_t fileguard_rule_val_t R}
    `{!BpfMapLaws Z fileguard_config_t C}.
Abbreviation Maps := (KMaps P R C).

(** The abstraction function from the kernel's maps. *)
Definition view_maps (m : Maps) : kernel_view :=
  MkKernelView (map_view (fileguard_protected m)) (map_view (fileguard_rules m))
    (map_view (fileguard_config m)).

Lemma fg_enabled_view (m : Maps) : fg_enabled m = kv_enabled (view_maps m).
Proof. unfold fg_enabled, kv_enabled. by rewrite lookup_view. Qed.

Lemma fg_decision_verdict (m : Maps) (res proc : fileguard_file_id_t) ev :
  (fg_decision m res proc ev).1 = (guarded_verdict (view_maps m) res proc).1.
Proof.
  unfold fg_decision, guarded_verdict. rewrite lookup_view. cbn [kv_rules view_maps].
  destruct (Z.eqb_spec (abi_ino proc) 0).
  - by rewrite decide_True by done.
  - rewrite decide_False by done. by destruct (_ !! _).
Qed.

(** The hook on a guarded resource, and on any other. *)
Lemma fg_file_open_guarded (m : Maps) env f :
  kv_guards (view_maps m) (opened_id f) ->
  fg_file_open m env f =
  fg_decision m (opened_id f) (process_id (current_task env))
    (fill_event env (opened_id f) <$> ringbuf_reserve env).
Proof.
  intros (He & Hi & [v Hv]). unfold fg_file_open. rewrite fg_enabled_view, He. cbn [negb].
  rewrite lookup_view. cbn [view_maps kv_protected] in Hv. rewrite Hv.
  by destruct (Z.eqb_spec (abi_ino (opened_id f)) 0).
Qed.

Lemma fg_file_open_unguarded (m : Maps) env f :
  ~ kv_guards (view_maps m) (opened_id f) -> fg_file_open m env f = (0, None).
Proof.
  intros Hn. unfold fg_file_open. rewrite fg_enabled_view, lookup_view.
  destruct (kv_enabled (view_maps m)) eqn:He; [|done]. cbn [negb].
  destruct (Z.eqb_spec (abi_ino (opened_id f)) 0); [done|].
  destruct (map_view (fileguard_protected m) !! opened_id f) eqn:Hl; [|done].
  destruct Hn. split_and!; [done..|]. by eexists.
Qed.

Lemma fg_file_open_verdict (m : Maps) env f :
  (fg_file_open m env f).1 =
  kernel_verdict (view_maps m) (opened_id f) (process_id (current_task env)).
Proof.
  unfold kernel_verdict. case_decide as Hg.
  - by rewrite fg_file_open_guarded, fg_decision_verdict.
  - by rewrite fg_file_open_unguarded.
Qed.

Lemma guarded_verdict_codes (v : kernel_view) res proc :
  (guarded_verdict v res proc).1 = 0 \/ (guarded_verdict v res proc).1 = - EACCES.
Proof. unfold guarded_verdict. repeat case_match; auto. Qed.

Lemma guarded_allows (v : kernel_view) res proc :
  (guarded_verdict v res proc).1 = 0 <->
  abi_ino proc <> 0 /\
  exists rule, kv_rules v !! AbiRuleKey res proc = Some rule /\ val_action rule = FG_ACTION_ALLOW.
Proof.
  unfold guarded_verdict. case_decide as Hp; [split; [done|tauto]|].
  destruct (kv_rules v !! _) as [rule|] eqn:Hr; cbn.
  - destruct (Z.eqb_spec (val_action rule) FG_ACTION_ALLOW); naive_solver.
  - split; [done|]. by intros (_ & rule & ? & _).
Qed.
End Refinement.

(** ** Properties *)

Section Properties.
  Context {P R C : Type}
    `{!BpfMap fileguard_file_id_t fileguard_protected_val_t P}
    `{!BpfMap fileguard_rule_key_t fileguard_rule_val_t R}
    `{!BpfMap Z fileguard_config_t C}
    `{!BpfMapLaws fileguard_file_id_t fileguard_protected_val_t P}
    `{!BpfMapLaws fileguard_rule_key_t fileguard_rule_val_t R}
    `{!BpfMapLaws Z fileguard_config_t C}.
Abbreviation Maps := (KMaps P R C).

(** C1 (the LSM decision): the hook returns 0 or -EACCES and nothing else, and
    it returns 0 exactly when enforcement is disabled, or the opened file has
    no inode number, or it is not in the protected map, or the current
    executable is identified and the rule for (file, executable) is an ALLOW
    rule.  So an unidentified executable, an executable without a rule and a
    DENY rule are all refused (default deny, fail closed). *)
Theorem fg_file_open_decision (m : Maps) (env : hook_env) (f : file) :
  ((fg_file_open m env f).1 = 0 \/ (fg_file_open m env f).1 = - EACCES) /\
  ((fg_file_open m env f).1 = 0 <->
   fg_enabled m = false \/
   abi_ino (opened_id f) = 0 \/
   bpf_map_lookup_elem (fileguard_protected m) (opened_id f) = None \/
   (abi_ino (process_id (current_task env)) <> 0 /\
    exists rule,
      bpf_map_lookup_elem (fileguard_rules m)
        (AbiRuleKey (opened_id f) (process_id (current_task env))) = Some rule /\
      val_action rule = FG_ACTION_ALLOW)).
Proof.
  rewrite fg_file_open_verdict, fg_enabled_view, !lookup_view.
  destruct (decide (kv_guards (view_maps m) (opened_id f))) as [Hg|Hg];
    [rewrite kernel_verdict_guarded by done|rewrite kernel_verdict_unguarded by done].
  - split; [apply guarded_verdict_codes|]. rewrite guarded_allows.
    destruct Hg as (He & Hi & Hp). cbn [kv_protected view_maps] in Hp.
    split; [by auto|].
    intros [H|[H|[H|H]]]; [congruence|done| |done].
    rewrite H in Hp. by destruct Hp.
  - split; [by left|]. split; [|done]. intros _.
    unfold kv_guards in Hg. destruct (kv_enabled (view_maps m)); [|by left].
    destruct (decide (abi_ino (opened_id f) = 0)); [by auto|].
    right; right; left. apply eq_None_not_Some. intros Hs. apply Hg. auto.
Qed.

(** Enforcement does not depend on who asks or on the event path: the
    verdict is a function of the maps, the opened file and the current task's
    executable only.  Changing the uid and gid (root included), the pid, the
    clock, the command name, or whether the ring buffer has room, never
    changes it; nor does the rest of the task. *)
Theorem fg_file_open_depends_only (m : Maps) (env1 env2 : hook_env) (f : file) :
  process_id (current_task env1) = process_id (current_task env2) ->
  (fg_file_open m env1 f).1 = (fg_file_open m env2 f).1.
Proof. intros Hp. by rewrite !fg_file_open_verdict, Hp. Qed.

(** The submitted record: a record is submitted exactly for a guarded
    resource when a slot was reserved, whatever the verdict.  Its magic, pid,
    tgid, uid, gid, resource, operation and comm are the hook's; its reason is
    the verdict's; its action is ALLOW exactly when the hook returned 0
    (provided the rule's action fits the one-byte field); and for a rule
    decision its rule id is the rule's. *)
Lemma fg_file_open_event (m : Maps) (env : hook_env) (f : file) :
  let res := opened_id f in
  let proc := process_id (current_task env) in
  ((fg_file_open m env f).2 = None <->
   ~ kv_guards (view_maps m) res \/ ringbuf_reserve env = None) /\
  (forall e, (fg_file_open m env f).2 = Some e ->
     ev_magic e = FG_MAGIC /\ ev_res e = res /\ ev_operation e = FG_OP_OPEN /\
     ev_timestamp_ns e = ktime_ns env /\ ev_comm e = current_comm env /\
     ev_pid e = u32 (current_pid_tgid env) /\
     ev_tgid e = u32 (Z.shiftr (current_pid_tgid env) 32) /\
     ev_uid e = u32 (current_uid_gid env) /\
     ev_gid e = u32 (Z.shiftr (current_uid_gid env) 32) /\
     ev_reason e = (guarded_verdict (view_maps m) res proc).2 /\
     (forall rule, kv_rules (view_maps m) !! AbiRuleKey res proc = Some rule ->
        abi_ino proc <> 0 ->
        ev_rule_id e = val_rule_id rule /\ ev_action e = u8 (val_action rule)) /\
     ((forall rule, kv_rules (view_maps m) !! AbiRuleKey res proc = Some rule ->
         in_u 8 (val_action rule)) ->
      (ev_action e = FG_ACTION_ALLOW <-> (fg_file_open m env f).1 = 0))).
Proof.
  cbn zeta. destruct (decide (kv_guards (view_maps m) (opened_id f))) as [Hg|Hg].
  2: { rewrite fg_file_open_unguarded by done. cbn. split; [tauto|done]. }
  rewrite fg_file_open_guarded by done. unfold fg_decision, guarded_verdict.
  rewrite lookup_view. cbn [kv_rules view_maps].
  destruct (ringbuf_reserve env) as [slot|] eqn:Hs.
  2: { cbn. split; [|intros e; by repeat case_match].
       split; [auto|]. intros _. by repeat case_match. }
  destruct (Z.eqb_spec (abi_ino (process_id (current_task env))) 0) as [Hp|Hp].
  - rewrite decide_True by done. cbn. split; [naive_solver|].
    intros e [= <-]. by split_and!.
  - rewrite decide_False by done.
    destruct (map_view (fileguard_rules m) !! _) as [rule|] eqn:Hr; cbn.
    + split; [naive_solver|]. intros e [= <-]. cbn. split_and!; try done.
      * by intros ? [= <-].
      * intros Hin. rewrite wrap_u_small by auto. by case_match; rewrite ?Z.eqb_eq, ?Z.eqb_neq in *.
    + split; [naive_solver|]. intros e [= <-]. by split_and!.
Qed.

(** C32 (the process identity is never reported): the [proc] field of a
    submitted record, and its padding byte, are whatever the recycled slot
    held, for every file, task and map content; and unless a rule decided, so
    is the rule id.  The executable the decision was made about does not
    reach user space. *)
Theorem fg_file_open_event_stale_process (m : Maps) (env : hook_env) (f : file)
    (slot e : fileguard_event_t) :
  ringbuf_reserve env = Some slot ->
  (fg_file_open m env f).2 = Some e ->
  ev_proc e = ev_proc slot /\ ev_pad e = ev_pad slot /\
  (ev_reason e <> FG_REASON_POLICY_RULE -> ev_rule_id e = ev_rule_id slot).
Proof.
  intros Hs. destruct (decide (kv_guards (view_maps m) (opened_id f))) as [Hg|Hg].
  2: by rewrite fg_file_open_unguarded by done.
  rewrite fg_file_open_guarded, Hs by done. unfold fg_decision. cbn [fmap option_fmap option_map].
  case_match; [|case_match]; intros [= <-]; by split_and!.
Qed.
End Properties.

(** ** Concrete maps *)

Definition ProtectedMap : Type := HashMap fileguard_file_id_t fileguard_protected_val_t.
Definition RulesMap : Type := HashMap fileguard_rule_key_t fileguard_rule_val_t.
Definition ConfigMap : Type := ArrayMap fileguard_config_t.

#[export] Instance ConfigMap_ops : BpfMap Z fileguard_config_t (ArrayMap fileguard_config_t) :=
  ArrayMap_ops abi_config_zero.
#[export] Instance ConfigMap_laws : BpfMapLaws Z fileguard_config_t (ArrayMap fileguard_config_t) :=
  ArrayMap_laws abi_config_zero.
#[export] Instance ConfigMap_array :
  BpfArrayLaws fileguard_config_t (ArrayMap fileguard_config_t) abi_config_zero :=
  ArrayMap_array abi_config_zero.

(** A protected file on device 8:1, readable by one executable. *)
Definition kfile (ino : Z) : file :=
  MkFile (Some (MkInode (Some (MkSuperBlock (Z.shiftl 8 20 + 1))) ino)).
Definition ktask (ino : Z) : task_struct := MkTask (Some (MkMm (Some (kfile ino)))).
Definition sample_slot : fileguard_event_t :=
  AbiEvent 0 0 0 0 0 0 abi_file_id_zero (AbiFileId 9 9 9) 77 0 0 0 0 (repeat 0 16).
Definition kenv (ino uid : Z) : hook_env :=
  MkHookEnv (ktask ino) 4294967297 uid 1000 ([99; 97; 116] ++ repeat 0 13) (Some sample_slot).

Definition sample_kmaps (enabled : Z) :
    KMaps (HashMap fileguard_file_id_t fileguard_protected_val_t)
      (HashMap fileguard_rule_key_t fileguard_rule_val_t) (ArrayMap fileguard_config_t) :=
  MkKMaps
    (MkHashMap 8 {[ AbiFileId 8 1 1000 := AbiProtectedVal 0 ]})
    (MkHashMap 8 {[ AbiRuleKey (AbiFileId 8 1 1000) (AbiFileId 8 1 2000) :=
                      AbiRuleVal 1 FG_ACTION_ALLOW 1 0 ]})
    (MkArrayMap (AbiConfig 7 enabled 0 0)).

Example fg_file_open_allow :
  (fg_file_open (sample_kmaps 1) (kenv 2000 0) (kfile 1000)).1 = 0.
Proof. vm_compute. reflexivity. Qed.
Example fg_file_open_default_deny :
  (fg_file_open (sample_kmaps 1) (kenv 3000 0) (kfile 1000)).1 = -13.
Proof. vm_compute. reflexivity. Qed.
Example fg_file_open_disabled :
  (fg_file_open (sample_kmaps 0) (kenv 3000 0) (kfile 1000)).1 = 0.
Proof. vm_compute. reflexivity. Qed.

Lemma fg_file_open_depends_only_witness :
  (fg_file_open (sample_kmaps 1) (kenv 3000 0) (kfile 1000)).1 =
  (fg_file_open (sample_kmaps 1) (kenv 3000 1000) (kfile 1000)).1.
Proof. apply fg_file_open_depends_only. reflexivity. Defined.

Lemma fg_file_open_event_stale_process_witness :
  let e := fill_event (kenv 3000 0) (AbiFileId 8 1 1000) sample_slot in
  let e := ev_set_reason FG_REASON_DEFAULT_DENY (ev_set_action FG_ACTION_DENY e) in
  ev_proc e = AbiFileId 9 9 9 /\ ev_pad e = 0 /\
  (ev_reason e <> FG_REASON_POLICY_RULE -> ev_rule_id e = 77).
Proof.
  apply (fg_file_open_event_stale_process (sample_kmaps 1) (kenv 3000 0) (kfile 1000) sample_slot);
    vm_compute; reflexivity.
Defined.
