(* ===== verification/SecurityEvent.v ===== *)
(** * Event records: include/fileguard/security_event.hpp

    What the ring-buffer callback decodes ([RawEvent]) and what sinks and
    stream clients receive ([SecurityEvent]). *)

From S2P Require Import Prelude FileId Policy DecisionEngine.

Record RawEvent := MkRawEvent {
  raw_timestamp_ns : Z;  (* uint64_t *)
  raw_pid : Z;
  raw_tgid : Z;
  raw_uid : Z;
  raw_gid : Z;
  raw_resource : FileId;
  raw_process : FileId;
  raw_rule_id : Z;
  raw_operation : Operation;
  raw_action : Action;
  raw_reason : Reason;
  raw_comm : string;
}.

Record SecurityEvent := MkSecurityEvent {
  se_timestamp : string;
  se_pid : Z;
  se_tgid : Z;
  se_uid : Z;
  se_gid : Z;
  se_comm : string;
  se_process_path : string;
  se_resource_path : string;
  se_operation : Operation;
  se_action : Action;
  se_reason : Reason;
  se_rule_id : Z;
}.

(** [SecurityEvent ev;]: the default member initialisers. *)
Definition SecurityEvent_default : SecurityEvent :=
  MkSecurityEvent "" 0 0 0 0 "" "" "" Open Deny Reason_DefaultDeny 0.

#[export] Instance RawEvent_eq_dec : EqDecision RawEvent.
Proof. solve_decision. Defined.
#[export] Instance SecurityEvent_eq_dec : EqDecision SecurityEvent.
Proof. solve_decision. Defined.

(** The content of a queue slot nothing was stored in. *)
#[export] Instance SecurityEvent_inhabited : Inhabited SecurityEvent :=
  populate SecurityEvent_default.
