(* ===== verification/Enforcer.v ===== *)
(** * The enforcement interface: include/fileguard/enforcer.hpp and
    src/enforcer.cpp

    [IEnforcer] is a class of operations over the backend's state; its
    contract is the class [EnforcerLaws], against which the controller is
    proved.  [NullEnforcer] implements it here, the Linux backend in
    EbpfManager.v. *)

From S2P Require Import Prelude Abi FileId Policy DecisionEngine PolicyCompiler BpfMap SecurityEvent.

Local Open Scope Z_scope.

Record EnforcerStatus := MkEnforcerStatus {
  attached : bool;
  enforcing : bool;
  backend : string;
  policy_version : Z;  (* int32_t *)
  protected_count : Z; (* size_t *)
  rule_count : Z;      (* size_t *)
  detail : string;
}.
Definition EnforcerStatus_default : EnforcerStatus :=
  MkEnforcerStatus false false "none" 0 0 0 "".

#[export] Instance EnforcerStatus_eq_dec : EqDecision EnforcerStatus.
Proof. solve_decision. Defined.

(** [EnforcerConfig]; [on_event] is the sink of the decoded events, and here
    only whether it is set matters: what it receives is the output of [run]. *)
Record EnforcerConfig := MkEnforcerConfig {
  ringbuf_bytes : Z;
  map_entries : Z;
  runtime_dir : string;
  on_event : bool;
}.
Definition EnforcerConfig_default : EnforcerConfig :=
  MkEnforcerConfig (Z.shiftl 1 20) 4096 "" false.

(** One turn of a backend's event loop: the stop token is seen,
    [ring_buffer__poll] fails, or it delivers some records (none when it times
    out). *)
Inductive ring_poll :=
| PollStop
| PollError (errno : Z)
| PollRecords (records : list (list Z)).

(** The virtual functions; [run] over the turns it makes yields the events
    given to [on_event], the new state and whether it has returned.  Each mutator returns the result and the new state.
    [destroy] is the destructor. *)
Class IEnforcer (E : Type) := {
  enf_load : E -> ResultVoid * E;
  enf_apply_policy : CompiledPolicy -> E -> ResultVoid * E;
  enf_status : E -> EnforcerStatus;
  enf_run : list ring_poll -> E -> list RawEvent * E * bool;
  enf_detach : E -> ResultVoid * E;
}.

(** ** What an installed policy decides

    The verdict (0, or -EACCES) that a compiled policy promises for an open
    of [res] by the executable [proc]: the procedure of the LSM program over
    the lists of the compiled policy, the first rule of a pair winning. *)
Definition rule_for (c : CompiledPolicy) (res proc : FileId) : option CompiledRule :=
  find_first (fun r => bool_decide (c_resource r = res /\ c_process r = proc)) (c_rules c).

Definition compiled_verdict (c : CompiledPolicy) (res proc : FileId) : Z :=
  if negb (FileId_valid res) then 0
  else if negb (bool_decide (res ∈ c_protected_resources c)) then 0
  else if negb (FileId_valid proc) then - EACCES
  else match rule_for c res proc with
       | Some r => if bool_decide (c_action r = Allow) then 0 else - EACCES
       | None => - EACCES
       end.

(** Actions a configuration can hold: the two enumerators (an unnamed one has
    another one-byte code). *)
Definition actions_wf (c : CompiledPolicy) : Prop :=
  Forall (fun r => forall v, c_action r = Action_unnamed v -> 1 < v < 2 ^ 8) (c_rules c).

(** The contract.  [enforced e res proc] is the verdict the host gives to an
    open of [res] by [proc] while the backend is in state [e]. *)
Class EnforcerLaws (E : Type) `{IEnforcer E} := {
  enforced : E -> FileId -> FileId -> Z;
  (* a successful install is what is enforced, if anything is *)
  apply_ok : forall c e e', enf_apply_policy c e = (ok_v, e') ->
    actions_wf c -> enforcing (enf_status e') = true ->
    forall res proc, enforced e' res proc = compiled_verdict c res proc;
  (* a state that does not enforce leaves every open to Linux *)
  not_enforcing : forall e, enforcing (enf_status e) = false ->
    forall res proc, enforced e res proc = 0;
  (* a successful install reports the policy it installed *)
  apply_status : forall c e e', enf_apply_policy c e = (ok_v, e') ->
    0 <= c_version c < 2 ^ 31 ->
    policy_version (enf_status e') = c_version c /\
    protected_count (enf_status e') = Z.of_nat (length (c_protected_resources c)) /\
    rule_count (enf_status e') = Z.of_nat (length (c_rules c));
  (* a failed install leaves the verdicts and the status as they were, or
     allows all *)
  apply_err : forall c e e' msg, enf_apply_policy c e = (Err msg, e') ->
    ((forall res proc, enforced e' res proc = enforced e res proc) /\ enf_status e' = enf_status e) \/
    enforcing (enf_status e') = false;
  (* loading does not enforce anything yet *)
  load_idle : forall e, enforcing (enf_status e) = false -> enforcing (enf_status (enf_load e).2) = false;
  (* running the event loop does not change what is decided or reported *)
  run_keeps : forall polls e, let e' := (enf_run polls e).1.2 in
    (forall res proc, enforced e' res proc = enforced e res proc) /\
    enforcing (enf_status e') = enforcing (enf_status e) /\
    attached (enf_status e') = attached (enf_status e);
  (* detaching succeeds; a detached backend enforces nothing, and installing a
     policy does not attach it again *)
  detached : E -> Prop;
  detach_ok : forall e, (enf_detach e).1 = ok_v;
  detach_detached : forall e, detached (enf_detach e).2;
  detached_apply : forall c e, detached e -> detached (enf_apply_policy c e).2;
  detached_off : forall e, detached e ->
    enforcing (enf_status e) = false /\ attached (enf_status e) = false;
}.

(** ** Lemmas on compiled_verdict *)

Lemma compiled_verdict_codes (c : CompiledPolicy) (res proc : FileId) :
  compiled_verdict c res proc = 0 \/ compiled_verdict c res proc = - EACCES.
Proof. unfold compiled_verdict. repeat case_match; auto. Qed.

(** ** NullEnforcer *)

Record NullEnforcer := MkNullEnforcer {
  null_cfg : EnforcerConfig;
  null_status : EnforcerStatus;
}.

Definition NullEnforcer_create (cfg : EnforcerConfig) : NullEnforcer :=
  MkNullEnforcer cfg EnforcerStatus_default.

Definition null_load (e : NullEnforcer) : ResultVoid * NullEnforcer :=
  let s := null_status e in
  (ok_v, MkNullEnforcer (null_cfg e)
     (MkEnforcerStatus (attached s) (enforcing s) "null" (policy_version s)
        (protected_count s) (rule_count s)
        "null backend: no kernel enforcement (non-Linux host)")).

Definition null_apply_policy (policy : CompiledPolicy) (e : NullEnforcer)
    : ResultVoid * NullEnforcer :=
  let s := null_status e in
  (ok_v, MkNullEnforcer (null_cfg e)
     (MkEnforcerStatus false false (backend s) (c_version policy)
        (Z.of_nat (length (c_protected_resources policy)))
        (Z.of_nat (length (c_rules policy))) (detail s))).

Definition null_detach (e : NullEnforcer) : ResultVoid * NullEnforcer :=
  let s := null_status e in
  (ok_v, MkNullEnforcer (null_cfg e)
     (MkEnforcerStatus false false (backend s) (policy_version s)
        (protected_count s) (rule_count s) (detail s))).

(** NullEnforcer::run: it only waits for the stop token. *)
Fixpoint null_run (polls : list ring_poll) (e : NullEnforcer) : list RawEvent * NullEnforcer * bool :=
  match polls with
  | [] => ([], e, false)
  | PollStop :: _ => ([], e, true)
  | _ :: polls => null_run polls e
  end.

Lemma null_run_state (polls : list ring_poll) (e : NullEnforcer) :
  (null_run polls e).1 = ([], e).
Proof. by induction polls as [|[| |] polls IH]. Qed.

(** create_enforcer of a build without eBPF. *)
Definition create_null_enforcer (cfg : EnforcerConfig) : NullEnforcer := NullEnforcer_create cfg.

#[export] Instance NullEnforcer_ops : IEnforcer NullEnforcer := {
  enf_load := null_load;
  enf_apply_policy := null_apply_policy;
  enf_status := null_status;
  enf_run := null_run;
  enf_detach := null_detach;
}.

(** Nothing is attached, so every open is left to Linux. *)
#[export] Instance NullEnforcer_laws : EnforcerLaws NullEnforcer.
Proof.
  refine {| enforced := fun _ _ _ => 0;
            detached := fun e => enforcing (null_status e) = false /\ attached (null_status e) = false |};
    cbn.
  - intros c e e' [= <-]. done.
  - done.
  - intros c e e' [= <-] _. done.
  - done.
  - done.
  - intros polls e. by rewrite null_run_state.
  - done.
  - done.
  - done.
  - done.
Defined.
