(* ===== verification/KernelIo.v ===== *)
(** * Sequences of kernel map operations

    User space changes the kernel maps one bpf(2) call at a time, and the LSM
    program can run between any two.  [kio M A] is a state-and-error monad
    over the maps [M] that also records every state the maps go through, in
    order; [wp] is its program logic: a predicate for the states passed
    through, one for the final state of a normal return, one for the final
    state of an error return. *)

From S2P Require Import Prelude.

Definition kio (M A : Type) : Type := M -> result A * M * list M.

#[export] Instance kio_ret (M : Type) : MRet (kio M) := fun A a m => (Ok a, m, []).
#[export] Instance kio_bind (M : Type) : MBind (kio M) :=
  fun A B f c m =>
    let '(r, m1, t1) := c m in
    match r with
    | Ok a => let '(r2, m2, t2) := f a m1 in (r2, m2, t1 ++ t2)
    | Err e => (Err e, m1, t1)
    end.

(** [return err(message);] *)
Definition kio_err {M A : Type} (message : string) : kio M A := fun m => (Err message, m, []).

(** One system call that leaves the maps in state [m'] and reports errno [e]:
    [e = 0] is success; [on_error] says what the caller returns otherwise. *)
Definition kio_call {M : Type} (call : M -> Z * M) (on_error : Z -> result unit) : kio M unit :=
  fun m => let '(e, m') := call m in
           (if (e =? 0)%Z then Ok tt else on_error e, m', [m']).

(** [for (const auto& x : l) ...], with an early return on error. *)
Fixpoint kio_iter {M A : Type} (f : A -> kio M unit) (l : list A) : kio M unit :=
  match l with
  | [] => mret tt
  | x :: l => _ ← f x; kio_iter f l
  end.

(** ** The program logic *)
Definition wp {M A : Type} (c : kio M A) (I : M -> Prop) (Q : A -> M -> Prop) (E : M -> Prop)
    (m : M) : Prop :=
  let '(r, m', t) := c m in
  Forall I t /\ match r with Ok a => Q a m' | Err _ => E m' end.

Lemma wp_elim {M A : Type} (c : kio M A) I Q E (m m' : M) r t :
  wp c I Q E m -> c m = (r, m', t) ->
  Forall I t /\ match r with Ok a => Q a m' | Err _ => E m' end.
Proof. unfold wp. intros H Hc. by rewrite Hc in H. Qed.

Lemma wp_ret {M A : Type} (a : A) I (Q : A -> M -> Prop) E (m : M) :
  Q a m -> wp (mret a) I Q E m.
Proof. by split. Qed.

Lemma wp_bind {M A B : Type} (c : kio M A) (f : A -> kio M B) I Q E (m : M) :
  wp c I (fun a => wp (f a) I Q E) E m -> wp (c ≫= f) I Q E m.
Proof.
  unfold wp. unfold mbind, kio_bind. destruct (c m) as [[[a|msg] m1] t1]; intros [Ht H]; [|done].
  destruct (f a m1) as [[r2 m2] t2]. destruct H as [Ht2 H]. split; [by apply Forall_app|done].
Qed.

Lemma wp_mono {M A : Type} (c : kio M A) I I' (Q Q' : A -> M -> Prop) (E E' : M -> Prop) (m : M) :
  (forall x, I x -> I' x) -> (forall a x, Q a x -> Q' a x) -> (forall x, E x -> E' x) ->
  wp c I Q E m -> wp c I' Q' E' m.
Proof.
  unfold wp. destruct (c m) as [[[a|msg] m1] t1]; intros HI HQ HE [Ht H];
    (split; [by eapply Forall_impl|auto]).
Qed.

Lemma wp_call {M : Type} (call : M -> Z * M) (on_error : Z -> result unit) I
    (Q : unit -> M -> Prop) E (m : M) :
  (forall e m', call m = (e, m') ->
     I m' /\ match (if (e =? 0)%Z then Ok tt else on_error e) with
             | Ok _ => Q tt m' | Err _ => E m' end) ->
  wp (kio_call call on_error) I Q E m.
Proof.
  unfold wp, kio_call. intros H. destruct (call m) as [e m'].
  destruct (H e m' eq_refl) as [HI H']. split; [by constructor|].
  by destruct (if (e =? 0)%Z then Ok tt else on_error e) as [[]|].
Qed.

(** A loop: an invariant indexed by the prefix already processed. *)
Lemma wp_iter {M A : Type} (f : A -> kio M unit) (Inv : list A -> M -> Prop) I E (l : list A)
    (m : M) :
  Inv [] m ->
  (forall pre x m1, (exists post, l = pre ++ x :: post) -> Inv pre m1 ->
     wp (f x) I (fun _ => Inv (pre ++ [x])) E m1) ->
  wp (kio_iter f l) I (fun _ => Inv l) E m.
Proof.
  intros H0 Hstep.
  assert (forall post pre m1, l = pre ++ post -> Inv pre m1 ->
            wp (kio_iter f post) I (fun _ => Inv l) E m1) as Hgo; [|by apply (Hgo l [])].
  induction post as [|x post IH]; intros pre m1 Hl Hp; cbn [kio_iter].
  - apply wp_ret. rewrite app_nil_r in Hl. by subst.
  - apply wp_bind. eapply wp_mono; [| |done|apply (Hstep pre x m1); [by exists post|done]]; [done|].
    intros [] m2 H2. apply (IH (pre ++ [x])); [by rewrite <- app_assoc|done].
Qed.

(** The final state is the last state passed through, if any. *)
Lemma kio_call_last {M : Type} (call : M -> Z * M) on_error (m : M) r m' t :
  kio_call call on_error m = (r, m', t) -> t = [m'].
Proof. unfold kio_call. destruct (call m). by intros [= _ <- <-]. Qed.
