(* ===== verification/EbpfManager.v ===== *)
(** * The Linux backend: include/fileguard/ebpf_manager.hpp and
    src/ebpf_manager_linux.cpp

    [LinuxEBPFEnforcer]: loading and attaching the program, replacing the
    contents of the kernel maps one bpf(2) call at a time, status, detaching,
    and decoding ring-buffer records.  libbpf and the kernel are parameters:
    the results of the skeleton calls are a [load_env], the maps are [BpfMap]
    operations with their laws. *)

From S2P Require Import Prelude Abi FileId Policy DecisionEngine PolicyCompiler BpfMap KernelProgram SecurityEvent Enforcer KernelIo.

Local Open Scope Z_scope.

(** Calls on the libbpf objects, as recorded by [load] and [detach]. *)
Inductive bpf_object_call :=
| skel_open
| map_set_max_entries (map_name : string) (n : Z)
| skel_load
| skel_attach
| skel_detach
| skel_destroy
| ring_new
| ring_free.

#[export] Instance bpf_object_call_eq_dec : EqDecision bpf_object_call.
Proof. solve_decision. Defined.

(** The results of the calls [load] makes: an errno or success, and the
    contents of /sys/kernel/security/lsm if it can be read. *)
Record load_env := MkLoadEnv {
  open_result : option Z;
  load_result : option Z;
  attach_result : option Z;
  lsm_file : option string;
  ring_result : option Z;
}.

(** [std::string::find(s) != npos] *)
Fixpoint contains (s text : string) : bool :=
  String.prefix s text ||
  match text with EmptyString => false | String _ text => contains s text end.

(** [strnlen(p, n)] and [std::string::assign(p, len)]. *)
Fixpoint strnlen (bs : list Z) (n : nat) : nat :=
  match n, bs with
  | S n, b :: bs => if b =? 0 then O else S (strnlen bs n)
  | _, _ => O
  end.
Definition string_of_bytes (bs : list Z) : string :=
  fold_right (fun b s => String (ascii_of_nat (Z.to_nat b)) s) EmptyString bs.

(** ** Emptying one map *)
Section ClearMap.
  Context {K V M : Type} `{Countable K} `{!BpfMap K V M} `{!BpfMapLaws K V M}.

(** The while loop of [clear_map]; [next] is the result of the last
    get_next_key.  The states of the map are collected; [None] is "the fuel
    ran out" ([clear_loop_total] below shows how much is enough). *)
Fixpoint clear_loop (fuel : nat) (m : M) (next : Z * Z + K) : option (list M * M * (Z * Z)) :=
  match next with
  | inl rc => Some ([], m, rc)
  | inr key =>
     match fuel with
     | O => None
     | S fuel =>
        let m' := (bpf_map_delete_elem m key).2 in
        match clear_loop fuel m' (bpf_map_get_next_key m' (Some key)) with
        | Some (states, m_end, rc) => Some (m' :: states, m_end, rc)
        | None => None
        end
     end
  end.

Definition clear_elems (m : M) : option (list M * M * (Z * Z)) :=
  clear_loop (size (map_view m)) m (bpf_map_get_next_key m None).
End ClearMap.

Section Manager.
  Context {P R C : Type}
    `{!BpfMap fileguard_file_id_t fileguard_protected_val_t P}
    `{!BpfMap fileguard_rule_key_t fileguard_rule_val_t R}
    `{!BpfMap Z fileguard_config_t C}
    `{!BpfMapLaws fileguard_file_id_t fileguard_protected_val_t P}
    `{!BpfMapLaws fileguard_rule_key_t fileguard_rule_val_t R}
    `{!BpfMapLaws Z fileguard_config_t C}.
  Context (strerror : Z -> string).
Abbreviation Maps := (KMaps P R C).

Definition bpf_err (e : Z) : string :=
  " (errno=" +:+ to_string_u e +:+ ": " +:+ strerror e +:+ ")".

(** [skel_] holds the loaded maps; [ring_] is "not null". *)
Record LinuxEBPFEnforcer := MkLinuxEBPFEnforcer {
  skel_ : option Maps;
  ring_ : bool;
  status_ : EnforcerStatus;
  cfg_ : EnforcerConfig;
}.

Definition LinuxEBPFEnforcer_create (cfg : EnforcerConfig) : LinuxEBPFEnforcer :=
  MkLinuxEBPFEnforcer None false EnforcerStatus_default cfg.

(** create_enforcer of a Linux build with eBPF. *)
Definition create_linux_enforcer (cfg : EnforcerConfig) : LinuxEBPFEnforcer := LinuxEBPFEnforcer_create cfg.

(** The capacities fileguard.bpf.c declares, and what [load] overrides. *)
Definition hash_max_entries (cfg : EnforcerConfig) : Z :=
  if 0 <? map_entries cfg then map_entries cfg else 8192.

Definition fresh_maps (cfg : EnforcerConfig) : Maps :=
  MkKMaps (bpf_create (hash_max_entries cfg)) (bpf_create (hash_max_entries cfg))
    (bpf_create 1).

(** LinuxEBPFEnforcer::load: the result, the new state and the calls made. *)
Definition ebpf_load (env : load_env) (self : LinuxEBPFEnforcer)
    : ResultVoid * LinuxEBPFEnforcer * list bpf_object_call :=
  if bool_decide (is_Some (skel_ self)) then (err "enforcer already loaded", self, [])
  else
    match open_result env with
    | Some e => (err ("fileguard_bpf__open failed: " +:+ bpf_err e), self, [skel_open])
    | None =>
      let calls := skel_open ::
        (if 0 <? map_entries (cfg_ self)
         then [map_set_max_entries "fileguard_protected" (map_entries (cfg_ self));
               map_set_max_entries "fileguard_rules" (map_entries (cfg_ self))] else []) ++
        (if 0 <? ringbuf_bytes (cfg_ self)
         then [map_set_max_entries "fileguard_events" (ringbuf_bytes (cfg_ self))] else []) in
      match load_result env with
      | Some e =>
         (err ("fileguard_bpf__load failed" +:+ bpf_err e +:+
               " — check the verifier log above; the kernel needs " +:+
               "CONFIG_BPF=y, CONFIG_BPF_LSM=y, CONFIG_BPF_RINGBUF=y, " +:+
               "CONFIG_DEBUG_INFO_BTF=y and CAP_BPF/CAP_SYS_ADMIN."),
          self, calls ++ [skel_load; skel_destroy])
      | None =>
        match attach_result env with
        | Some e =>
           (err ("fileguard_bpf__attach failed" +:+ bpf_err e +:+
                 " — check that the kernel was booted with the bpf LSM " +:+
                 "in the CONFIG_LSM=... ordering."),
            self, calls ++ [skel_load; skel_attach; skel_destroy])
        | None =>
          match lsm_file env with
          | None =>
             (err ("cannot read /sys/kernel/security/lsm — the kernel " +:+
                   "LSM framework (CONFIG_SECURITY) may be disabled. The " +:+
                   "security_file_open hook would never run. Refusing to " +:+
                   "claim enforcement (fail-open)."),
              self, calls ++ [skel_load; skel_attach; skel_detach; skel_destroy])
          | Some lsm_list =>
            if negb (contains "bpf" lsm_list) then
              (err ("the bpf LSM is not enabled on this kernel " +:+
                    "(CONFIG_LSM order: " +:+ lsm_list +:+
                    "). The security_file_open hook would never fire, so " +:+
                    "nothing would be enforced. Refusing to claim " +:+
                    "enforcement (fail-open)."),
               self, calls ++ [skel_load; skel_attach; skel_detach; skel_destroy])
            else
              match ring_result env with
              | Some e =>
                 (err ("ring_buffer__new failed" +:+ bpf_err e),
                  MkLinuxEBPFEnforcer (skel_ self) false (status_ self) (cfg_ self),
                  calls ++ [skel_load; skel_attach; ring_new; skel_destroy])
              | None =>
                 let s := status_ self in
                 (ok_v,
                  MkLinuxEBPFEnforcer (Some (fresh_maps (cfg_ self))) true
                    (MkEnforcerStatus true false "ebpf-lsm" (policy_version s)
                       (protected_count s) (rule_count s)
                       "LSM hook security_file_open attached")
                    (cfg_ self),
                  calls ++ [skel_load; skel_attach; ring_new])
              end
          end
        end
      end
    end.

(** Replacing one component of the maps. *)
Definition set_protected (m : Maps) (p : P) : Maps :=
  MkKMaps p (fileguard_rules m) (fileguard_config m).
Definition set_rules (m : Maps) (r : R) : Maps :=
  MkKMaps (fileguard_protected m) r (fileguard_config m).
Definition set_config (m : Maps) (c : C) : Maps :=
  MkKMaps (fileguard_protected m) (fileguard_rules m) c.

(** The tail of [clear_map], given the loop's result on one of the maps. *)
Definition clear_with {M' : Type} (map_name : string) (set : M' -> Maps)
    (loop : option (list M' * M' * (Z * Z))) : kio Maps unit := fun m =>
  match loop with
  | Some (states, m', (res, errno)) =>
     (if negb (res =? 0) && negb (res =? - ENOENT) then
        err ("clear_map: iteration failed for '" +:+ map_name +:+ "'" +:+ bpf_err errno)
      else ok_v,
      set m', set <$> states)
  | None => (err "clear_map: not reached", m, [])
  end.

Definition clear_map (map_name : string) : kio Maps unit := fun m =>
  let no_fd := "clear_map: cannot get fd for '" +:+ map_name +:+ "'" in
  if String.eqb map_name FG_MAP_PROTECTED then
    if bpf_map__fd (fileguard_protected m) <? 0 then kio_err no_fd m
    else clear_with map_name (set_protected m) (clear_elems (fileguard_protected m)) m
  else if String.eqb map_name FG_MAP_RULES then
    if bpf_map__fd (fileguard_rules m) <? 0 then kio_err no_fd m
    else clear_with map_name (set_rules m) (clear_elems (fileguard_rules m)) m
  else kio_err ("clear_map: unknown map '" +:+ map_name +:+ "'") m.

(** [bpf_map_update_elem(cfg_fd, &zero, &cfg, BPF_ANY)] *)
Definition update_config (cfg : fileguard_config_t) (what : string) : kio Maps unit :=
  kio_call
    (fun m => let '(e, c) := bpf_map_update_elem BPF_ANY (fileguard_config m) 0 cfg in
              (e, set_config m c))
    (fun e => err (what +:+ bpf_err e)).

Definition insert_protected (id : FileId) : kio Maps unit :=
  kio_call
    (fun m => let '(e, p) := bpf_map_update_elem BPF_NOEXIST (fileguard_protected m)
                               (to_abi id) (AbiProtectedVal 0) in
              (e, set_protected m p))
    (fun e => if e =? EEXIST then ok_v
              else err ("cannot insert protected resource" +:+ bpf_err e)).

Definition rule_key (rule : CompiledRule) : fileguard_rule_key_t :=
  AbiRuleKey (to_abi (c_resource rule)) (to_abi (c_process rule)).
Definition rule_val (rule : CompiledRule) : fileguard_rule_val_t :=
  AbiRuleVal (c_rule_id rule) (u32 (Action_code (c_action rule)))
    (u32 (Operation_code (c_operation rule))) 0.

Definition insert_rule (rule : CompiledRule) : kio Maps unit :=
  kio_call
    (fun m => let '(e, r) := bpf_map_update_elem BPF_NOEXIST (fileguard_rules m)
                               (rule_key rule) (rule_val rule) in
              (e, set_rules m r))
    (fun e => if e =? EEXIST then ok_v else err ("cannot insert policy rule" +:+ bpf_err e)).

(** The map operations of apply_policy, in order. *)
Definition install_maps (policy : CompiledPolicy) : kio Maps unit :=
  _ ← update_config (AbiConfig 0 0 0 0) "cannot pause enforcement (config map)";
  _ ← clear_map FG_MAP_PROTECTED;
  _ ← clear_map FG_MAP_RULES;
  _ ← kio_iter insert_protected (c_protected_resources policy);
  _ ← kio_iter insert_rule (c_rules policy);
  update_config (AbiConfig (u32 (c_version policy)) 1 0 0) "cannot enable policy (config map)".

(** LinuxEBPFEnforcer::apply_policy: the result, the new state and the
    states the kernel maps went through. *)
Definition ebpf_apply_policy (policy : CompiledPolicy) (self : LinuxEBPFEnforcer)
    : ResultVoid * LinuxEBPFEnforcer * list Maps :=
  match skel_ self with
  | None => (err "enforcer not loaded", self, [])
  | Some maps =>
     let '(r, maps', states) := install_maps policy maps in
     match r with
     | Err e => (Err e, MkLinuxEBPFEnforcer (Some maps') (ring_ self) (status_ self) (cfg_ self),
                 states)
     | Ok _ =>
        let s := status_ self in
        (ok_v,
         MkLinuxEBPFEnforcer (Some maps') (ring_ self)
           (MkEnforcerStatus (attached s) true (backend s) (c_version policy)
              (Z.of_nat (length (c_protected_resources policy)))
              (Z.of_nat (length (c_rules policy))) (detail s))
           (cfg_ self),
         states)
     end
  end.

(** LinuxEBPFEnforcer::status *)
Definition ebpf_status (self : LinuxEBPFEnforcer) : EnforcerStatus :=
  let s := status_ self in
  match skel_ self with
  | None => s
  | Some maps =>
     match bpf_map_lookup_elem (fileguard_config maps) 0 with
     | Some cfg => MkEnforcerStatus (attached s) (negb (cfg_enabled cfg =? 0)) (backend s)
                     (i32 (cfg_policy_version cfg)) (protected_count s) (rule_count s) (detail s)
     | None => s
     end
  end.

(** LinuxEBPFEnforcer::detach; also what the destructor does. *)
Definition ebpf_detach (self : LinuxEBPFEnforcer)
    : ResultVoid * LinuxEBPFEnforcer * list bpf_object_call :=
  let s := status_ self in
  (ok_v,
   MkLinuxEBPFEnforcer None false
     (MkEnforcerStatus false false (backend s) 0 (protected_count s) (rule_count s)
        "detached: enforcement removed (fail-open)")
     (cfg_ self),
   (if ring_ self then [ring_free] else []) ++
   (if bool_decide (is_Some (skel_ self)) then [skel_detach; skel_destroy] else [])).

Definition set_detail (d : string) (self : LinuxEBPFEnforcer) : LinuxEBPFEnforcer :=
  let s := status_ self in
  MkLinuxEBPFEnforcer (skel_ self) (ring_ self)
    (MkEnforcerStatus (attached s) (enforcing s) (backend s) (policy_version s)
       (protected_count s) (rule_count s) d) (cfg_ self).

(** The fields copied out of a ring-buffer record. *)
Definition raw_of_event (e : fileguard_event_t) : RawEvent :=
  MkRawEvent (ev_timestamp_ns e) (ev_pid e) (ev_tgid e) (ev_uid e) (ev_gid e)
    (from_abi (ev_res e)) (from_abi (ev_proc e)) (ev_rule_id e)
    (Operation_of_code (ev_operation e)) (Action_of_code (ev_action e))
    (Reason_of_code (ev_reason e))
    (string_of_bytes (take (strnlen (ev_comm e) 16) (ev_comm e))).

(** LinuxEBPFEnforcer::ring_callback: the event handed to on_event, if any.
    The record is [None] for a null pointer. *)
Definition ring_callback (data : option (list Z)) (self : LinuxEBPFEnforcer)
    : option RawEvent * LinuxEBPFEnforcer :=
  match data with
  | None => (None, set_detail "malformed ring buffer record" self)
  | Some bs =>
     if negb (length bs =? sizeof_event)%nat then
       (None, set_detail "malformed ring buffer record" self)
     else
       let e := decode_event bs in
       if negb (ev_magic e =? FG_MAGIC) then
         (None, set_detail "ring buffer magic mismatch" self)
       else (if on_event (cfg_ self) then Some (raw_of_event e) else None, self)
  end.

Fixpoint ring_callbacks (records : list (list Z)) (self : LinuxEBPFEnforcer)
    : list RawEvent * LinuxEBPFEnforcer :=
  match records with
  | [] => ([], self)
  | bs :: records =>
     let '(o, self1) := ring_callback (Some bs) self in
     let '(evs, self2) := ring_callbacks records self1 in
     (option_list o ++ evs, self2)
  end.

(** LinuxEBPFEnforcer::run over the polls it makes: the events delivered, in
    order, the final state, and whether the loop has returned. *)
Fixpoint poll_loop (polls : list ring_poll) (self : LinuxEBPFEnforcer)
    : list RawEvent * LinuxEBPFEnforcer * bool :=
  match polls with
  | [] => ([], self, false)
  | PollStop :: _ => ([], self, true)
  | PollError e :: _ => ([], set_detail ("ring buffer poll error" +:+ bpf_err e) self, true)
  | PollRecords records :: polls =>
     let '(evs, self1) := ring_callbacks records self in
     let '(evs', self2, returned) := poll_loop polls self1 in
     (evs ++ evs', self2, returned)
  end.

Definition ebpf_run (polls : list ring_poll) (self : LinuxEBPFEnforcer)
    : list RawEvent * LinuxEBPFEnforcer * bool :=
  if negb (ring_ self) then ([], self, true) else poll_loop polls self.
End Manager.
Arguments LinuxEBPFEnforcer P R C : clear implicits.
