(* ===== verification/EbpfInstall.v ===== *)
(** * Installing a policy in the kernel: proofs about apply_policy

    What [ebpf_apply_policy] (EbpfManager.v) leaves in the kernel maps, what
    the LSM program can observe between two of its map operations, and when
    it succeeds. *)

From S2P Require Import Prelude Abi FileId Policy PolicyCompiler BpfMap KernelProgram SecurityEvent Enforcer KernelIo EbpfManager.

Local Open Scope Z_scope.

(** ** Iterating and deleting *)
Section ClearMap.
  Context {K V M : Type} `{Countable K} `{!BpfMap K V M} `{!BpfMapLaws K V M}
    `{!BpfHashLaws K V M}.

Lemma clear_loop_total (fuel : nat) (m : M) (ok : option K) :
  match ok with None => True | Some k => map_view m !! k = None end ->
  (size (map_view m) <= fuel)%nat ->
  exists states m' rc e,
    clear_loop fuel m (bpf_map_get_next_key m ok) = Some (states, m', (rc, e)) /\
    rc < 0 /\ map_view m' = ∅ /\ length states = size (map_view m) /\ (exists ok', bpf_map_get_next_key m' ok' = inl (rc, e)).
Proof.
  revert m ok; induction fuel as [|fuel IH]; intros m ok Hok Hsize;
    pose proof (next_key_first m ok Hok) as Hnext;
    destruct (bpf_map_get_next_key m ok) as [[rc e]|key] eqn:Hn; cbn [clear_loop].
  1, 3: exists [], m, rc, e; split_and!;
    [done|by eapply next_key_nonzero|done|by rewrite Hnext, map_size_empty|by eauto].
  - destruct Hnext as [v Hv]. assert (size (map_view m) = 0%nat) as Hz by lia.
    apply map_size_empty_inv in Hz. by rewrite Hz, lookup_empty in Hv.
  - assert (size (map_view m) = S (size (map_view (bpf_map_delete_elem m key).2))) as Hsz.
    { rewrite delete_view, map_size_delete_Some by done.
      apply map_size_ne_0_lookup_2 in Hnext. lia. }
    destruct (IH (bpf_map_delete_elem m key).2 (Some key))
      as (st & m' & rc & e & -> & ? & ? & ? & ?).
    + by rewrite delete_view, lookup_delete_eq.
    + lia.
    + exists ((bpf_map_delete_elem m key).2 :: st), m', rc, e. cbn. split_and!; auto; lia.
Qed.

(** More fuel changes nothing. *)
Lemma clear_loop_mono (fuel fuel' : nat) (m : M) (next : Z * Z + K) r :
  (fuel <= fuel')%nat -> clear_loop fuel m next = Some r -> clear_loop fuel' m next = Some r.
Proof.
  revert fuel' m next r; induction fuel as [|fuel IH]; intros [|fuel'] m [rc|k] r Hle;
    cbn [clear_loop]; try done; try lia.
  destruct (clear_loop fuel _ _) as [[[st m'] rc]|] eqn:Hc; [|done].
  by rewrite (IH fuel' _ _ _ ltac:(lia) Hc).
Qed.

Lemma clear_elems_total (m : M) :
  exists states m' rc e,
    clear_elems m = Some (states, m', (rc, e)) /\ rc < 0 /\ map_view m' = ∅ /\
    (exists ok', bpf_map_get_next_key m' ok' = inl (rc, e)).
Proof.
  destruct (clear_loop_total (size (map_view m)) m None) as (st & m' & rc & e & ? & ? & ? & _ & ?);
    [done|done|by exists st, m', rc, e].
Qed.
End ClearMap.

(** ** The maps of a compiled policy *)

(** BPF_NOEXIST: the first value inserted for a key stays. *)
Definition insert_absent {K V : Type} `{Countable K} (k : K) (v : V) (m : gmap K V) : gmap K V :=
  match m !! k with Some _ => m | None => <[k := v]> m end.

Definition protected_entries (c : CompiledPolicy)
    : gmap fileguard_file_id_t fileguard_protected_val_t :=
  foldl (fun m id => insert_absent (to_abi id) (AbiProtectedVal 0) m) ∅ (c_protected_resources c).

Definition rule_entries (c : CompiledPolicy) : gmap fileguard_rule_key_t fileguard_rule_val_t :=
  foldl (fun m rule => insert_absent (rule_key rule) (rule_val rule) m) ∅ (c_rules c).

Lemma lookup_insert_absent {K V : Type} `{Countable K} (k k' : K) (v : V) (m : gmap K V) :
  insert_absent k v m !! k' =
  match m !! k' with Some w => Some w | None => if decide (k = k') then Some v else None end.
Proof.
  unfold insert_absent. destruct (m !! k) eqn:Hk.
  - case_decide; subst; [by rewrite Hk|by destruct (m !! k')].
  - case_decide; subst; [by rewrite lookup_insert_eq, Hk|].
    rewrite lookup_insert_ne by done. by destruct (m !! k').
Qed.

(** A table built by a loop of such inserts holds, for each key, the value of
    the first element of the list with that key. *)
Lemma lookup_foldl_absent {A K V : Type} `{Countable K} (key : A -> K) (val : A -> V)
    (l : list A) (m : gmap K V) (k : K) :
  foldl (fun m x => insert_absent (key x) (val x) m) m l !! k =
  match m !! k with
  | Some w => Some w
  | None => val <$> find_first (fun x => bool_decide (key x = k)) l
  end.
Proof.
  revert m; induction l as [|x l IH]; intros m; cbn; [by destruct (m !! k)|].
  rewrite IH, lookup_insert_absent. destruct (m !! k) as [w|] eqn:Hk; [done|].
  case_decide as Heq.
  - by rewrite bool_decide_true by done.
  - by rewrite bool_decide_false by done.
Qed.

Lemma lookup_protected_entries (c : CompiledPolicy) (id : FileId) :
  is_Some (protected_entries c !! to_abi id) <-> id ∈ c_protected_resources c.
Proof.
  unfold protected_entries. rewrite lookup_foldl_absent, lookup_empty, fmap_is_Some. split.
  - intros [x Hx]. apply find_first_elem in Hx as [Hin Heq%bool_decide_eq_true].
    by apply to_abi_inj in Heq as ->.
  - intros Hin. destruct (find_first _ _) eqn:Hf; [by eexists|].
    apply find_first_None in Hf. rewrite Forall_forall in Hf.
    specialize (Hf id Hin). by rewrite bool_decide_eq_false in Hf.
Qed.

Lemma lookup_rule_entries (c : CompiledPolicy) (res proc : FileId) :
  rule_entries c !! AbiRuleKey (to_abi res) (to_abi proc) = rule_val <$> rule_for c res proc.
Proof.
  unfold rule_entries, rule_for. rewrite lookup_foldl_absent, lookup_empty. f_equal.
  apply find_first_ext. intros r _. apply bool_decide_ext. unfold rule_key. split.
  - intros Heq. split; apply (inj to_abi); congruence.
  - by intros [-> ->].
Qed.

(** The kernel holds exactly the policy, enabled. *)
Definition installed (c : CompiledPolicy) (v : kernel_view) : Prop :=
  kv_protected v = protected_entries c /\
  kv_rules v = rule_entries c /\
  kv_config v !! 0 = Some (AbiConfig (u32 (c_version c)) 1 0 0).

(** Enforcement is switched off. *)
Definition paused (v : kernel_view) : Prop := kv_enabled v = false.

Lemma paused_allows (v : kernel_view) res proc : paused v -> kernel_verdict v res proc = 0.
Proof.
  intros Hp. apply kernel_verdict_unguarded. unfold kv_guards. intros [He _]. unfold paused in Hp.
  congruence.
Qed.

Lemma rule_action_allow (r : CompiledRule) :
  (forall v, c_action r = Action_unnamed v -> 1 < v < 2 ^ 32) ->
  (val_action (rule_val r) =? FG_ACTION_ALLOW) = bool_decide (c_action r = Allow).
Proof.
  intros Hact. unfold rule_val; cbn. destruct (c_action r) as [| |v]; cbn; [done..|].
  specialize (Hact v eq_refl). rewrite wrap_u_small by (unfold in_u; lia).
  rewrite bool_decide_false by done. by apply Z.eqb_neq; unfold FG_ACTION_ALLOW; lia.
Qed.

(** The LSM program over an installed policy decides as the policy says. *)
Lemma installed_verdict (c : CompiledPolicy) (v : kernel_view) (res proc : FileId) :
  actions_wf c -> installed c v ->
  kernel_verdict v (to_abi res) (to_abi proc) = compiled_verdict c res proc.
Proof.
  intros Hwf (Hp & Hr & Hc). unfold compiled_verdict.
  assert (kv_enabled v = true) as He by (unfold kv_enabled; by rewrite Hc).
  destruct (FileId_valid res) eqn:Hres; cbn [negb].
  2: { apply kernel_verdict_unguarded. unfold kv_guards. apply FileId_valid_false in Hres.
       cbn. intros (_ & Hn & _). done. }
  apply FileId_valid_spec in Hres. case_bool_decide as Hin; cbn [negb].
  2: { apply kernel_verdict_unguarded. unfold kv_guards.
       rewrite Hp, lookup_protected_entries. tauto. }
  rewrite kernel_verdict_guarded.
  2: { unfold kv_guards. rewrite Hp, lookup_protected_entries. by split_and!. }
  unfold guarded_verdict. rewrite Hr, lookup_rule_entries.
  destruct (FileId_valid proc) eqn:Hproc; cbn [negb].
  - apply FileId_valid_spec in Hproc. rewrite decide_False by done.
    destruct (rule_for c res proc) as [r|] eqn:Hrule; cbn [fmap option_fmap option_map]; [|done].
    rewrite rule_action_allow; [by case_bool_decide|].
    intros u Hu. unfold rule_for in Hrule. apply find_first_elem in Hrule as [Hrin _].
    unfold actions_wf in Hwf. rewrite Forall_forall in Hwf. specialize (Hwf r Hrin u Hu). lia.
  - apply FileId_valid_false in Hproc. by rewrite decide_True.
Qed.

(** ** The phases of apply_policy *)
Section Install.
  Context {P R C : Type}
    `{!BpfMap fileguard_file_id_t fileguard_protected_val_t P}
    `{!BpfMap fileguard_rule_key_t fileguard_rule_val_t R}
    `{!BpfMap Z fileguard_config_t C}
    `{!BpfMapLaws fileguard_file_id_t fileguard_protected_val_t P}
    `{!BpfMapLaws fileguard_rule_key_t fileguard_rule_val_t R}
    `{!BpfMapLaws Z fileguard_config_t C}
    `{!BpfHashLaws fileguard_file_id_t fileguard_protected_val_t P}
    `{!BpfHashLaws fileguard_rule_key_t fileguard_rule_val_t R}.
  Context (strerror : Z -> string).
  Abbreviation Maps := (KMaps P R C).
  Abbreviation Enforcer := (LinuxEBPFEnforcer P R C).

(** The states of phase 2: the config map is not touched. *)
Definition same_config (m m' : Maps) : Prop := fileguard_config m' = fileguard_config m.

Lemma wp_update_config (cfg : fileguard_config_t) (what : string) I (Q : unit -> Maps -> Prop) E
    (m : Maps) :
  (forall c, map_view c = <[0 := cfg]> (map_view (fileguard_config m)) ->
     I (set_config m c) /\ Q tt (set_config m c)) ->
  (forall c, map_view c = map_view (fileguard_config m) ->
     I (set_config m c) /\ E (set_config m c)) ->
  wp (update_config strerror cfg what) I Q E m.
Proof.
  intros Hok Hfail. apply wp_call. intros e m'.
  destruct (bpf_map_update_elem BPF_ANY (fileguard_config m) 0 cfg) as [e' c] eqn:Hu.
  intros [= <- <-]. destruct (Z.eqb_spec e' 0) as [->|He].
  - apply Hok. by eapply update_ok.
  - apply Hfail. by eapply update_fail.
Qed.

Lemma clear_with_spec {K V M' : Type} `{Countable K} `{!BpfMap K V M'} `{!BpfMapLaws K V M'}
    `{!BpfHashLaws K V M'} (name : string) (set : M' -> Maps) (x : M') (m : Maps)
    (I : Maps -> Prop) (Q : unit -> Maps -> Prop) (E : Maps -> Prop) :
  (forall y, I (set y)) ->
  (forall y, map_view y = ∅ -> Q tt (set y)) ->
  (forall y, map_view y = ∅ -> E (set y)) ->
  wp (clear_with strerror name set (clear_elems x)) I Q E m.
Proof.
  intros HI HQ HE.
  destruct (clear_elems_total x) as (st & m' & rc & e & Hc & Hrc & He & _).
  unfold wp, clear_with. rewrite Hc. split.
  - apply Forall_fmap, Forall_forall. auto.
  - destruct (negb _ && negb _); [by apply HE|by apply HQ].
Qed.

(** The maps of a loaded object have descriptors, so clear_map iterates. *)
Lemma wp_clear_protected_fd I (Q : unit -> Maps -> Prop) E (m : Maps) :
  wp (clear_with strerror FG_MAP_PROTECTED (set_protected m) (clear_elems (fileguard_protected m))) I Q E m ->
  wp (clear_map strerror FG_MAP_PROTECTED) I Q E m.
Proof. unfold wp, clear_map. cbn -[clear_with]. by rewrite (proj2 (Z.ltb_ge _ _)) by apply map_fd_valid. Qed.

Lemma wp_clear_rules_fd I (Q : unit -> Maps -> Prop) E (m : Maps) :
  wp (clear_with strerror FG_MAP_RULES (set_rules m) (clear_elems (fileguard_rules m))) I Q E m ->
  wp (clear_map strerror FG_MAP_RULES) I Q E m.
Proof. unfold wp, clear_map. cbn -[clear_with]. by rewrite (proj2 (Z.ltb_ge _ _)) by apply map_fd_valid. Qed.

Lemma wp_clear_protected (m : Maps) :
  wp (clear_map strerror FG_MAP_PROTECTED) (same_config m)
    (fun _ m' => map_view (fileguard_protected m') = ∅ /\ same_config m m') (same_config m) m.
Proof. by apply wp_clear_protected_fd, clear_with_spec. Qed.

Lemma wp_clear_rules (m : Maps) :
  wp (clear_map strerror FG_MAP_RULES) (same_config m)
    (fun _ m' => map_view (fileguard_rules m') = ∅ /\
       fileguard_protected m' = fileguard_protected m /\ same_config m m') (same_config m) m.
Proof. by apply wp_clear_rules_fd, clear_with_spec. Qed.

(** What BPF_NOEXIST with EEXIST ignored does to the map. *)
Lemma update_noexist_absent {K V M' : Type} `{Countable K} `{!BpfMap K V M'}
    `{!BpfMapLaws K V M'} (m m' : M') (k : K) (v : V) (e : Z) :
  bpf_map_update_elem BPF_NOEXIST m k v = (e, m') ->
  (e =? 0) || (e =? EEXIST) = true -> map_view m' = insert_absent k v (map_view m).
Proof.
  intros Hu He. pose proof (update_noexist m k v) as Hex. rewrite Hu in Hex. cbn in Hex.
  unfold insert_absent. destruct (Z.eqb_spec e 0) as [->|He0].
  - rewrite (update_ok _ _ _ _ _ Hu).
    destruct (map_view m !! k) eqn:Hk; [|done].
    by assert (0 = EEXIST) by (apply Hex; by eexists).
  - rewrite (update_fail _ _ _ _ _ _ Hu He0).
    destruct (Z.eqb_spec e EEXIST) as [Hee|]; [|done].
    by apply Hex in Hee as [w ->].
Qed.

Lemma wp_insert_protected (id : FileId) (m : Maps) :
  wp (insert_protected strerror id) (same_config m)
    (fun _ m' => map_view (fileguard_protected m') =
         insert_absent (to_abi id) (AbiProtectedVal 0) (map_view (fileguard_protected m)) /\
       fileguard_rules m' = fileguard_rules m /\ same_config m m')
    (same_config m) m.
Proof.
  apply wp_call. intros e m'.
  destruct (bpf_map_update_elem BPF_NOEXIST _ _ _) as [e' p] eqn:Hu. intros [= <- <-].
  split; [done|]. pose proof (update_noexist_absent _ _ _ _ _ Hu) as Habs.
  destruct (e' =? 0); cbn in *; [by rewrite Habs by done|].
  destruct (e' =? EEXIST); cbn in *; [by rewrite Habs by done|done].
Qed.

Lemma wp_insert_rule (rule : CompiledRule) (m : Maps) :
  wp (insert_rule strerror rule) (same_config m)
    (fun _ m' => map_view (fileguard_rules m') =
         insert_absent (rule_key rule) (rule_val rule) (map_view (fileguard_rules m)) /\
       fileguard_protected m' = fileguard_protected m /\ same_config m m')
    (same_config m) m.
Proof.
  apply wp_call. intros e m'.
  destruct (bpf_map_update_elem BPF_NOEXIST _ _ _) as [e' p] eqn:Hu. intros [= <- <-].
  split; [done|]. pose proof (update_noexist_absent _ _ _ _ _ Hu) as Habs.
  destruct (e' =? 0); cbn in *; [by rewrite Habs by done|].
  destruct (e' =? EEXIST); cbn in *; [by rewrite Habs by done|done].
Qed.

Lemma same_config_trans (m1 m2 m3 : Maps) :
  same_config m1 m2 -> same_config m2 m3 -> same_config m1 m3.
Proof. unfold same_config. congruence. Qed.

(** The two insertion loops, from an empty map. *)
Lemma wp_insert_all_protected (c : CompiledPolicy) (m : Maps) :
  map_view (fileguard_protected m) = ∅ ->
  wp (kio_iter (insert_protected strerror) (c_protected_resources c)) (same_config m)
    (fun _ m' => map_view (fileguard_protected m') = protected_entries c /\
       fileguard_rules m' = fileguard_rules m /\ same_config m m')
    (same_config m) m.
Proof.
  intros H0. unfold protected_entries.
  apply (wp_iter _ (fun pre m' =>
    map_view (fileguard_protected m') =
      foldl (fun m id => insert_absent (to_abi id) (AbiProtectedVal 0) m) ∅ pre /\
    fileguard_rules m' = fileguard_rules m /\ same_config m m')); [done|].
  intros pre id m1 _ (Hp & Hr & Hc).
  eapply wp_mono; [..|apply wp_insert_protected]; cbn beta.
  - intros m2. by apply same_config_trans.
  - intros [] m2 (Hp2 & Hr2 & Hc2). rewrite foldl_snoc, <- Hp.
    split_and!; [done|congruence|by eapply same_config_trans].
  - intros m2. by apply same_config_trans.
Qed.

Lemma wp_insert_all_rules (c : CompiledPolicy) (m : Maps) :
  map_view (fileguard_rules m) = ∅ ->
  wp (kio_iter (insert_rule strerror) (c_rules c)) (same_config m)
    (fun _ m' => map_view (fileguard_rules m') = rule_entries c /\
       fileguard_protected m' = fileguard_protected m /\ same_config m m')
    (same_config m) m.
Proof.
  intros H0. unfold rule_entries.
  apply (wp_iter _ (fun pre m' =>
    map_view (fileguard_rules m') =
      foldl (fun m rule => insert_absent (rule_key rule) (rule_val rule) m) ∅ pre /\
    fileguard_protected m' = fileguard_protected m /\ same_config m m')); [done|].
  intros pre id m1 _ (Hp & Hr & Hc).
  eapply wp_mono; [..|apply wp_insert_rule]; cbn beta.
  - intros m2. by apply same_config_trans.
  - intros [] m2 (Hp2 & Hr2 & Hc2). rewrite foldl_snoc, <- Hp.
    split_and!; [done|congruence|by eapply same_config_trans].
  - intros m2. by apply same_config_trans.
Qed.

(** A state whose config map is that of a paused state is paused. *)
Lemma same_config_paused (m m' : Maps) :
  paused (view_maps m) -> same_config m m' -> paused (view_maps m').
Proof. unfold paused, kv_enabled, same_config; cbn. by intros Hp ->. Qed.

(** What the LSM program can find at any point of the installation. *)
Definition install_window (c : CompiledPolicy) (m m' : Maps) : Prop :=
  view_maps m' = view_maps m \/ paused (view_maps m') \/ installed c (view_maps m').

Lemma wp_install_maps (c : CompiledPolicy) (m : Maps) :
  wp (install_maps strerror c) (install_window c m)
    (fun _ m' => installed c (view_maps m'))
    (fun m' => view_maps m' = view_maps m \/ paused (view_maps m')) m.
Proof.
  assert (forall m1 m2, paused (view_maps m1) -> same_config m1 m2 -> install_window c m m2)
    as Hwin by (intros; right; left; by eapply same_config_paused).
  unfold install_maps. apply wp_bind, wp_update_config.
  2: { intros c0 Hc0. assert (view_maps (set_config m c0) = view_maps m) as Heq
         by (unfold view_maps; cbn; by rewrite Hc0). by split; left. }
  intros c0 Hc0. set (m1 := set_config m c0).
  assert (paused (view_maps m1)) as Hp1.
  { unfold paused, kv_enabled, m1; cbn. by rewrite Hc0, lookup_insert_eq. }
  clearbody m1. clear Hc0 c0. split; [by right; left|].
  apply wp_bind. eapply wp_mono; [..|apply wp_clear_protected]; cbn beta.
  { intros x. by apply Hwin. }
  2: { intros x Hx. right. by eapply same_config_paused. }
  intros [] m2 [Hempty2 H2]. pose proof (same_config_paused _ _ Hp1 H2) as Hp2.
  apply wp_bind. eapply wp_mono; [..|apply wp_clear_rules]; cbn beta.
  { intros x. by apply Hwin. }
  2: { intros x Hx. right. by apply (same_config_paused m2). }
  intros [] m3 (Hempty3 & Hprot3 & H3). pose proof (same_config_paused _ _ Hp2 H3) as Hp3.
  rewrite <- Hprot3 in Hempty2. clear Hp1 Hp2 H2 H3 Hprot3 m1 m2.
  apply wp_bind. eapply wp_mono; [..|apply (wp_insert_all_protected c m3 Hempty2)]; cbn beta.
  { intros x. by apply Hwin. }
  2: { intros x Hx. right. by apply (same_config_paused m3). }
  intros [] m4 (Hprot4 & Hrules4 & H4). pose proof (same_config_paused _ _ Hp3 H4) as Hp4.
  rewrite <- Hrules4 in Hempty3.
  apply wp_bind. eapply wp_mono; [..|apply (wp_insert_all_rules c m4 Hempty3)]; cbn beta.
  { intros x. by apply Hwin. }
  2: { intros x Hx. right. by apply (same_config_paused m4). }
  intros [] m5 (Hrules5 & Hprot5 & H5). pose proof (same_config_paused _ _ Hp4 H5) as Hp5.
  rewrite <- Hprot5 in Hprot4.
  apply wp_update_config.
  - intros c1 Hc1. assert (installed c (view_maps (set_config m5 c1))) as Hi.
    { split_and!; cbn; [done|done|]. by rewrite Hc1, lookup_insert_eq. }
    split; [by right; right|done].
  - intros c1 Hc1. assert (paused (view_maps (set_config m5 c1))) as Hp.
    { unfold paused, kv_enabled in *; cbn in *. by rewrite Hc1. }
    split; right; auto.
Qed.
End Install.
