(* ===== verification/EbpfProperties.v ===== *)
(** * Properties of the Linux backend

    The theorems about [ebpf_apply_policy] (EbpfManager.v): what a successful
    call installs, what the LSM program can observe meanwhile, what a failed
    call leaves; and the two ways in which the installation can mislead. *)

From S2P Require Import Prelude Abi FileId Policy DecisionEngine PolicyCompiler BpfMap KernelProgram SecurityEvent Enforcer KernelIo EbpfManager EbpfInstall.

Local Open Scope Z_scope.

(** ** Concrete kernels for the witnesses *)

Abbreviation KM := (KMaps (HashMap fileguard_file_id_t fileguard_protected_val_t)
  (HashMap fileguard_rule_key_t fileguard_rule_val_t) (ArrayMap fileguard_config_t)).
Abbreviation LE := (LinuxEBPFEnforcer (HashMap fileguard_file_id_t fileguard_protected_val_t)
  (HashMap fileguard_rule_key_t fileguard_rule_val_t) (ArrayMap fileguard_config_t)).

Definition no_strerror (e : Z) : string := "".

Definition sample_compiled : CompiledPolicy :=
  MkCompiledPolicy 7 [MkFileId 8 1 1000]
    [MkCompiledRule 1 (MkFileId 8 1 1000) (MkFileId 8 1 2000) Open Allow].

(** The enforcer with [sample_compiled] installed and enabled. *)
Definition sample_enforcer : LE :=
  MkLinuxEBPFEnforcer (Some (sample_kmaps 1)) true
    (MkEnforcerStatus true true "ebpf-lsm" 7 1 1 "") EnforcerConfig_default.

Definition sample_apply : ResultVoid * LE * list KM :=
  ebpf_apply_policy no_strerror sample_compiled sample_enforcer.

Lemma sample_apply_ok : sample_apply.1.1 = ok_v.
Proof. vm_compute. reflexivity. Qed.

Lemma sample_apply_eq :
  ebpf_apply_policy no_strerror sample_compiled sample_enforcer =
  (sample_apply.1.1, sample_apply.1.2, sample_apply.2).
Proof. unfold sample_apply. by destruct (ebpf_apply_policy _ _ _) as [[? ?] ?]. Qed.

Lemma sample_installed : installed sample_compiled (view_maps (sample_kmaps 1)).
Proof.
  split_and!.
  - unfold protected_entries; cbn [foldl c_protected_resources sample_compiled].
    unfold insert_absent. by rewrite lookup_empty.
  - unfold rule_entries; cbn [foldl c_rules sample_compiled].
    unfold insert_absent. by rewrite lookup_empty.
  - reflexivity.
Qed.

Lemma forallb_verdicts (l : list KM) (env : hook_env) (f : file) :
  forallb (fun m => (fg_file_open m env f).1 =? 0) l = true ->
  Forall (fun m => (fg_file_open m env f).1 = 0) l.
Proof.
  intros Hl. apply Forall_forall. intros m Hm. apply Z.eqb_eq.
  rewrite forallb_forall in Hl. apply Hl. by apply list_elem_of_In.
Qed.

(** ** Emptying a map *)

(** Clear_map terminates and empties: on a hash map with [n] elements the
    loop of [clear_map] makes exactly [n] deletions, then get_next_key reports
    the end and the map is empty; fuel [n] is enough and more changes nothing. *)
Theorem clear_loop_empties {K V M : Type} `{Countable K} `{!BpfMap K V M} `{!BpfMapLaws K V M}
    `{!BpfHashLaws K V M} (m : M) :
  exists states m' rc,
    (forall fuel, (size (map_view m) <= fuel)%nat ->
       clear_loop fuel m (bpf_map_get_next_key m None) = Some (states, m', rc)) /\
    length states = size (map_view m) /\ map_view m' = ∅.
Proof.
  destruct (clear_loop_total (size (map_view m)) m None)
    as (st & m' & rc & e & Hc & _ & He & Hl & _); [done|done|].
  exists st, m', (rc, e). split_and!; [|done|done].
  intros fuel Hfuel. by apply (clear_loop_mono (size (map_view m))).
Qed.

Lemma clear_loop_empties_witness :
  exists states m' rc,
    (forall fuel, (size (map_view (fileguard_rules (sample_kmaps 1))) <= fuel)%nat ->
       clear_loop fuel (fileguard_rules (sample_kmaps 1))
         (bpf_map_get_next_key (fileguard_rules (sample_kmaps 1)) None) = Some (states, m', rc)) /\
    length states = size (map_view (fileguard_rules (sample_kmaps 1))) /\ map_view m' = ∅.
Proof. exact (clear_loop_empties (fileguard_rules (sample_kmaps 1))). Defined.

(** ** Installing a policy *)
Section Apply.
  Context {P R C : Type}
    `{!BpfMap fileguard_file_id_t fileguard_protected_val_t P}
    `{!BpfMap fileguard_rule_key_t fileguard_rule_val_t R}
    `{!BpfMap Z fileguard_config_t C}
    `{!BpfMapLaws fileguard_file_id_t fileguard_protected_val_t P}
    `{!BpfMapLaws fileguard_rule_key_t fileguard_rule_val_t R}
    `{!BpfMapLaws Z fileguard_config_t C}
    `{!BpfHashLaws fileguard_file_id_t fileguard_protected_val_t P}
    `{!BpfHashLaws fileguard_rule_key_t fileguard_rule_val_t R}.
  Context (strerror : Z -> string).
  Abbreviation Maps := (KMaps P R C).
  Abbreviation Linux := (LinuxEBPFEnforcer P R C).

(** [ebpf_apply_policy] on a loaded enforcer, in the program logic. *)
Lemma apply_policy_cases (c : CompiledPolicy) (self self' : Linux) (m : Maps) r states :
  skel_ self = Some m ->
  ebpf_apply_policy strerror c self = (r, self', states) ->
  Forall (install_window c m) states /\
  exists m', skel_ self' = Some m' /\ ring_ self' = ring_ self /\ cfg_ self' = cfg_ self /\
    match r with
    | Ok _ =>
       installed c (view_maps m') /\
       status_ self' = MkEnforcerStatus (attached (status_ self)) true
         (backend (status_ self)) (c_version c)
         (Z.of_nat (length (c_protected_resources c))) (Z.of_nat (length (c_rules c)))
         (detail (status_ self))
    | Err _ =>
       (view_maps m' = view_maps m \/ paused (view_maps m')) /\
       status_ self' = status_ self
    end.
Proof.
  intros Hs. unfold ebpf_apply_policy. rewrite Hs.
  destruct (install_maps strerror c m) as [[r0 m'] st] eqn:Hi.
  destruct (wp_elim _ _ _ _ _ _ _ _ (wp_install_maps strerror c m) Hi) as [Hst Hpost].
  destruct r0 as [[]|msg]; intros [= <- <- <-]; (split; [done|]); by exists m'.
Qed.

(** C4 (a successful install is exactly the policy): when [apply_policy]
    returns ok, the kernel's protected map has exactly the policy's
    identities, its rule map has for each (resource, process) pair the first
    rule of the policy for that pair, the config map says enabled with the
    policy's version, and the LSM program over these maps gives every open the
    verdict of the compiled policy; the status reports the policy. *)
Theorem apply_policy_installs (c : CompiledPolicy) (self self' : Linux) (states : list Maps) :
  ebpf_apply_policy strerror c self = (ok_v, self', states) ->
  exists m', skel_ self' = Some m' /\
    (forall id, is_Some (kv_protected (view_maps m') !! to_abi id) <->
                id ∈ c_protected_resources c) /\
    (forall res proc, kv_rules (view_maps m') !! AbiRuleKey (to_abi res) (to_abi proc) =
                      rule_val <$> rule_for c res proc) /\
    (actions_wf c -> forall env f,
       (fg_file_open m' env f).1 =
       compiled_verdict c (from_abi (opened_id f)) (from_abi (process_id (current_task env)))) /\
    (0 <= c_version c < 2 ^ 31 ->
     enforcing (ebpf_status self') = true /\ policy_version (ebpf_status self') = c_version c) /\
    protected_count (ebpf_status self') = Z.of_nat (length (c_protected_resources c)) /\
    rule_count (ebpf_status self') = Z.of_nat (length (c_rules c)).
Proof.
  intros Ha. destruct (skel_ self) as [m|] eqn:Hs.
  2: { unfold ebpf_apply_policy in Ha. by rewrite Hs in Ha. }
  destruct (apply_policy_cases _ _ _ _ _ _ Hs Ha) as (_ & m' & Hs' & _ & _ & Hi & Hst).
  exists m'. pose proof Hi as (Hp & Hr & Hc). split_and!.
  - done.
  - intros id. rewrite Hp. apply lookup_protected_entries.
  - intros res proc. rewrite Hr. apply lookup_rule_entries.
  - intros Hwf env f. rewrite fg_file_open_verdict, <- (installed_verdict c _ _ _ Hwf Hi).
    by rewrite !to_abi_from_abi.
  - intros Hv. unfold ebpf_status. rewrite Hs', lookup_view. cbn in Hc. rewrite Hc. cbn.
    split; [done|]. by apply i32_u32_nonneg.
  - unfold ebpf_status. rewrite Hs', Hst. by destruct (bpf_map_lookup_elem _ _).
  - unfold ebpf_status. rewrite Hs', Hst. by destruct (bpf_map_lookup_elem _ _).
Qed.

(** C8 (never partially enforcing): while [apply_policy] runs, in every state
    the kernel maps go through, whatever the result, an open that runs
    entirely in that state gets the verdict of the old maps, or of the new
    policy, or is allowed (the fail-open window).  A half-replaced map never
    decides. *)
Theorem apply_policy_never_partial (c : CompiledPolicy) (self self' : Linux) (m m' : Maps)
    (r : ResultVoid) (states : list Maps) (env : hook_env) (f : file) :
  skel_ self = Some m -> actions_wf c ->
  ebpf_apply_policy strerror c self = (r, self', states) ->
  m' ∈ states ->
  let verdict := (fg_file_open m' env f).1 in
  verdict = (fg_file_open m env f).1 \/ verdict = 0 \/
  verdict = compiled_verdict c (from_abi (opened_id f)) (from_abi (process_id (current_task env))).
Proof.
  intros Hs Hwf Ha Hin. cbn zeta.
  destruct (apply_policy_cases _ _ _ _ _ _ Hs Ha) as [Hwin _].
  rewrite Forall_forall in Hwin. rewrite !fg_file_open_verdict.
  destruct (Hwin m' Hin) as [->|[Hp|Hi]]; [by left|right; left|right; right].
  - by apply paused_allows.
  - rewrite <- (installed_verdict c _ _ _ Hwf Hi). by rewrite !to_abi_from_abi.
Qed.

(** C9 (a failed install): when [apply_policy] fails on a loaded enforcer,
    either no open's verdict has changed (pausing failed), or every open is
    allowed: enforcement is off until a later install, although the error was
    returned.  The version and counts the enforcer reports for the old policy
    are not updated. *)
Theorem apply_policy_failure (c : CompiledPolicy) (self self' : Linux) (m : Maps) (e : string)
    (states : list Maps) :
  skel_ self = Some m ->
  ebpf_apply_policy strerror c self = (Err e, self', states) ->
  exists m', skel_ self' = Some m' /\ status_ self' = status_ self /\
    ((forall env f, (fg_file_open m' env f).1 = (fg_file_open m env f).1) \/
     (forall env f, (fg_file_open m' env f).1 = 0)).
Proof.
  intros Hs Ha.
  destruct (apply_policy_cases _ _ _ _ _ _ Hs Ha) as (_ & m' & Hs' & _ & _ & Hview & Hst).
  exists m'. split_and!; [done..|].
  destruct Hview as [Heq|Hp]; [left|right]; intros env f; rewrite !fg_file_open_verdict.
  - by rewrite Heq.
  - by apply paused_allows.
Qed.
End Apply.

(** The hook looks up the config, the protected map and the rule map, once
    each and in this order.  When map operations run in between, it sees the
    three maps at three moments of their history. *)
Definition fg_file_open_interleaved {P R C : Type}
    `{!BpfMap fileguard_file_id_t fileguard_protected_val_t P}
    `{!BpfMap fileguard_rule_key_t fileguard_rule_val_t R} `{!BpfMap Z fileguard_config_t C}
    (at_config at_protected at_rules : KMaps P R C) (env : hook_env) (f : file)
    : Z * option fileguard_event_t :=
  fg_file_open (MkKMaps (fileguard_protected at_protected) (fileguard_rules at_rules)
                  (fileguard_config at_config)) env f.

(** C31 (the update window can deny): re-installing the very policy that is
    installed, a permitted open that reads "enabled" and the protected map
    before the update, and the rule map after it has been emptied, is refused
    (-EACCES), although the policy before, the policy after and every state in
    between allow it: pausing does not cover a hook that already passed the
    check. *)
Theorem apply_policy_torn_read :
  exists (before after : KM) (states : list KM) (self' : LE) (torn : KM) (env : hook_env) (f : file),
    skel_ sample_enforcer = Some before /\ installed sample_compiled (view_maps before) /\
    ebpf_apply_policy no_strerror sample_compiled sample_enforcer = (ok_v, self', states) /\
    skel_ self' = Some after /\ installed sample_compiled (view_maps after) /\
    torn ∈ states /\
    Forall (fun m => (fg_file_open m env f).1 = 0) (before :: states) /\
    (fg_file_open_interleaved before before torn env f).1 = - EACCES.
Proof.
  destruct (apply_policy_cases no_strerror sample_compiled sample_enforcer sample_apply.1.2
              (sample_kmaps 1) sample_apply.1.1 sample_apply.2 eq_refl sample_apply_eq)
    as (_ & after & Hs' & _ & _ & Hi).
  rewrite sample_apply_ok in Hi. destruct Hi as [Hi _].
  exists (sample_kmaps 1), after, sample_apply.2, sample_apply.1.2,
    (nth 2 sample_apply.2 (sample_kmaps 1)), (kenv 2000 0), (kfile 1000).
  split; [done|]. split; [exact sample_installed|].
  split; [rewrite <- sample_apply_ok; apply sample_apply_eq|].
  split; [exact Hs'|]. split; [exact Hi|].
  split; [apply list_elem_of_In, nth_In; vm_compute; lia|].
  split; [|vm_compute; reflexivity].
  apply forallb_verdicts. vm_compute. reflexivity.
Qed.

(** A kernel whose hash maps hold one element, and a policy for two files. *)
Definition small_maps : KM :=
  MkKMaps (MkHashMap 1 ∅) (MkHashMap 1 ∅) (MkArrayMap (AbiConfig 7 1 0 0)).
Definition small_enforcer : LE :=
  MkLinuxEBPFEnforcer (Some small_maps)
    true (MkEnforcerStatus true true "ebpf-lsm" 7 0 0 "") EnforcerConfig_default.
Definition large_compiled : CompiledPolicy :=
  MkCompiledPolicy 8 [MkFileId 8 1 1000; MkFileId 8 1 1001] [].
Definition small_apply : ResultVoid * LE * list KM :=
  ebpf_apply_policy no_strerror large_compiled small_enforcer.

Lemma small_apply_eq :
  ebpf_apply_policy no_strerror large_compiled small_enforcer =
  (Err "cannot insert protected resource (errno=7: )", small_apply.1.2, small_apply.2).
Proof.
  assert (small_apply.1.1 = Err "cannot insert protected resource (errno=7: )") as Hr
    by (vm_compute; reflexivity).
  rewrite <- Hr. unfold small_apply. by destruct (ebpf_apply_policy _ _ _) as [[? ?] ?].
Qed.

Lemma sample_apply_returns :
  ebpf_apply_policy no_strerror sample_compiled sample_enforcer =
  (ok_v, sample_apply.1.2, sample_apply.2).
Proof. rewrite <- sample_apply_ok. apply sample_apply_eq. Qed.

Lemma sample_compiled_actions : actions_wf sample_compiled.
Proof. by repeat constructor. Qed.

Lemma apply_policy_installs_witness :
  protected_count (ebpf_status sample_apply.1.2) = 1 /\
  policy_version (ebpf_status sample_apply.1.2) = 7.
Proof.
  destruct (apply_policy_installs no_strerror sample_compiled sample_enforcer sample_apply.1.2
              sample_apply.2 sample_apply_returns) as (m' & _ & _ & _ & _ & Hv & Hc & _).
  split; [exact Hc|]. apply Hv. vm_compute. intuition discriminate.
Defined.

Lemma apply_policy_never_partial_witness :
  let torn := nth 2 sample_apply.2 (sample_kmaps 1) in
  let verdict := (fg_file_open torn (kenv 3000 0) (kfile 1000)).1 in
  verdict = (fg_file_open (sample_kmaps 1) (kenv 3000 0) (kfile 1000)).1 \/ verdict = 0 \/
  verdict = compiled_verdict sample_compiled (from_abi (opened_id (kfile 1000)))
              (from_abi (process_id (current_task (kenv 3000 0)))).
Proof.
  apply (apply_policy_never_partial no_strerror sample_compiled sample_enforcer sample_apply.1.2
           (sample_kmaps 1) _ ok_v sample_apply.2);
    [reflexivity|exact sample_compiled_actions|exact sample_apply_returns|].
  apply list_elem_of_In, nth_In. vm_compute. lia.
Defined.

Lemma apply_policy_failure_witness :
  exists m', skel_ small_apply.1.2 = Some m' /\
    status_ small_apply.1.2 = status_ small_enforcer.
Proof.
  destruct (apply_policy_failure no_strerror large_compiled small_enforcer small_apply.1.2 _ _ _
              eq_refl small_apply_eq) as (m' & Hs & Hst & _).
  exists m'. split; [exact Hs|exact Hst].
Defined.


(** ** A libbpf that reports the end as -1 *)
Section Legacy.
  Context {P R C : Type}
    `{!BpfMap fileguard_file_id_t fileguard_protected_val_t P}
    `{!BpfMap fileguard_rule_key_t fileguard_rule_val_t R}
    `{!BpfMap Z fileguard_config_t C}
    `{!BpfMapLaws fileguard_file_id_t fileguard_protected_val_t P}
    `{!BpfMapLaws fileguard_rule_key_t fileguard_rule_val_t R}
    `{!BpfMapLaws Z fileguard_config_t C}
    `{!BpfHashLaws fileguard_file_id_t fileguard_protected_val_t P}
    `{!EndsWithMinusOne fileguard_file_id_t fileguard_protected_val_t P}
    `{!BpfArrayLaws fileguard_config_t C abi_config_zero}.
  Context (strerror : Z -> string).
  Abbreviation Linux := (LinuxEBPFEnforcer P R C).

(** No policy can be installed over libbpf 0.x: when the library reports
    the end of the iteration as -1 (libbpf before 1.0, which the build
    accepts), [clear_map] takes it for a failure: every [apply_policy] on a
    loaded enforcer fails, whatever the policy and even over empty maps, after
    it has switched enforcement off. *)
Theorem apply_policy_fails_on_old_libbpf (c : CompiledPolicy) (self : Linux) (m : KMaps P R C) :
  skel_ self = Some m ->
  exists e self' states,
    ebpf_apply_policy strerror c self = (Err e, self', states) /\
    enforcing (ebpf_status self') = false.
Proof.
  intros Hs. unfold ebpf_apply_policy. rewrite Hs.
  assert (wp (install_maps strerror c) (fun _ => True) (fun _ _ => False)
            (fun m' => paused (view_maps m')) m) as Hwp.
  { unfold install_maps. apply wp_bind, wp_call. intros e m'.
    destruct (bpf_map_update_elem BPF_ANY _ _ _) as [e' cfg] eqn:Hu. intros [= <- <-].
    pose proof (array_update (fileguard_config m) (AbiConfig 0 0 0 0)) as Hok.
    rewrite Hu in Hok. cbn in Hok. subst e'. split; [done|].
    apply update_ok in Hu. apply wp_bind.
    destruct (clear_elems_total (fileguard_protected m)) as (st & p & rc & e & Hc & _ & _ & ok & Hend).
    apply next_key_minus_one in Hend as ->.
    apply wp_clear_protected_fd. unfold wp, clear_with. cbn [set_config fileguard_protected]. rewrite Hc.
    split; [by apply Forall_forall|].
    unfold paused, kv_enabled; cbn. by rewrite Hu, lookup_insert_eq. }
  destruct (install_maps strerror c m) as [[r m'] st] eqn:Hi.
  destruct (wp_elim _ _ _ _ _ _ _ _ Hwp Hi) as [_ Hpost]. destruct r as [[]|e]; [done|].
  eexists e, _, st. split; [done|]. unfold ebpf_status; cbn. rewrite lookup_view.
  destruct (array_zero (fileguard_config m')) as [cfg Hcfg].
  rewrite Hcfg. unfold paused, kv_enabled in Hpost; cbn in Hpost. by rewrite Hcfg in Hpost.
Qed.
End Legacy.

Lemma apply_policy_fails_on_old_libbpf_witness :
  exists e self' states,
    ebpf_apply_policy no_strerror sample_compiled
      (MkLinuxEBPFEnforcer
         (Some (MkKMaps (MkLegacyMap (MkHashMap 8 ∅)) (MkLegacyMap (MkHashMap 8 ∅))
                  (MkArrayMap (AbiConfig 0 0 0 0)))) true EnforcerStatus_default
         EnforcerConfig_default) = (Err e, self', states) /\
    enforcing (ebpf_status self') = false.
Proof.
  apply (apply_policy_fails_on_old_libbpf no_strerror sample_compiled _
           (MkKMaps (MkLegacyMap (MkHashMap 8 ∅)) (MkLegacyMap (MkHashMap 8 ∅))
              (MkArrayMap (AbiConfig 0 0 0 0)))).
  reflexivity.
Defined.
