(* ===== verification/EbpfCapacity.v ===== *)
(** * Capacity of the kernel maps: when apply_policy succeeds

    The hash maps hold at most [max_entries] keys.  [fits] says the compiled
    policy has at most that many distinct identities and distinct
    (resource, process) pairs; installing succeeds exactly when it fits. *)

From S2P Require Import Prelude Abi FileId Policy PolicyCompiler BpfMap KernelProgram SecurityEvent Enforcer KernelIo EbpfManager EbpfInstall EbpfProperties.

Local Open Scope Z_scope.

(** ** One table *)
Section Table.
  Context {A K V M : Type} `{Countable K} `{!BpfMap K V M} `{!BpfMapLaws K V M}
    `{!BpfHashLaws K V M} `{!BpfHashCapacity K V M}.
  Context (key : A -> K) (val : A -> V).

Definition table (l : list A) : gmap K V :=
  foldl (fun m x => insert_absent (key x) (val x) m) ∅ l.

Lemma insert_absent_subseteq (k : K) (v : V) (m : gmap K V) : m ⊆ insert_absent k v m.
Proof.
  unfold insert_absent. destruct (m !! k) eqn:Hk; [done|]. by apply insert_subseteq.
Qed.

Lemma table_app (l1 l2 : list A) : table l1 ⊆ table (l1 ++ l2).
Proof.
  unfold table. rewrite foldl_app. generalize (foldl (fun m x => insert_absent (key x) (val x) m) ∅ l1).
  induction l2 as [|x l2 IH]; intros m; [done|]. cbn.
  etrans; [apply insert_absent_subseteq|apply IH].
Qed.

Definition bounded (m : M) : Prop := Z.of_nat (size (map_view m)) <= max_entries m.

(** One BPF_NOEXIST insertion of the loop: it is accepted, or the whole list
    does not fit. *)
Lemma insert_step (m m' : M) (e : Z) (pre post : list A) (x : A) :
  bpf_map_update_elem BPF_NOEXIST m (key x) (val x) = (e, m') ->
  map_view m = table pre -> bounded m ->
  ((e =? 0) || (e =? EEXIST) = true /\ map_view m' = table (pre ++ [x]) /\
   bounded m' /\ max_entries m' = max_entries m) \/
  ((e =? 0) || (e =? EEXIST) = false /\
   max_entries m < Z.of_nat (size (table (pre ++ x :: post)))).
Proof.
  unfold bounded. intros Hu Hv Hb.
  assert (table (pre ++ [x]) = insert_absent (key x) (val x) (table pre)) as Htab.
  { unfold table. by rewrite foldl_snoc. }
  assert (max_entries m' = max_entries m) as Hmax.
  { rewrite <- (update_max BPF_NOEXIST m (key x) (val x)). by rewrite Hu. }
  destruct ((e =? 0) || (e =? EEXIST)) eqn:He; [left|right].
  - assert (map_view m' = table (pre ++ [x])) as Hv'
      by (rewrite Htab, <- Hv; by eapply update_noexist_absent).
    split_and!; [done|done| |done]. rewrite Hv', Hmax, Htab.
    unfold insert_absent. rewrite <- Hv. destruct (map_view m !! key x) eqn:Hk; [done|].
    rewrite map_size_insert_None by done.
    destruct (decide (Z.of_nat (size (map_view m)) < max_entries m)) as [|Hn]; [lia|].
    apply (update_full BPF_NOEXIST m (key x) (val x)) in Hk; [|lia].
    rewrite Hu in Hk. cbn in Hk. by subst e.
  - split; [done|].
    assert (map_view m !! key x = None) as Hk.
    { apply eq_None_not_Some. intros Hs. apply (update_noexist m (key x) (val x)) in Hs.
      rewrite Hu in Hs. cbn in Hs. by subst e. }
    destruct (decide (Z.of_nat (size (map_view m)) < max_entries m)) as [Hn|Hn].
    { apply (update_room BPF_NOEXIST m (key x) (val x)) in Hn; [|done].
      rewrite Hu in Hn. cbn in Hn. by subst e. }
    assert (table (pre ++ [x]) ⊆ table (pre ++ x :: post)) as Hsub
      by (replace (pre ++ x :: post) with ((pre ++ [x]) ++ post)
            by (by rewrite <- app_assoc); apply table_app).
    apply map_subseteq_size in Hsub. rewrite Htab in Hsub.
    unfold insert_absent in Hsub. rewrite <- Hv, Hk in Hsub.
    rewrite map_size_insert_None in Hsub by done. lia.
Qed.

(** Deleting keeps the capacity. *)
Lemma clear_elems_max (m m' : M) states rc :
  clear_elems m = Some (states, m', rc) -> max_entries m' = max_entries m.
Proof.
  unfold clear_elems. generalize (bpf_map_get_next_key m None). intros next.
  generalize (size (map_view m)). intros fuel. revert m next states.
  induction fuel as [|fuel IH]; intros m [rc'|k] states; cbn [clear_loop];
    try (by intros [= <- <- <-]).
  destruct (clear_loop fuel _ _) as [[[st m1] rc1]|] eqn:Hc; [|done].
  intros [= <- <- <-]. apply IH in Hc. by rewrite Hc, delete_max.
Qed.
End Table.

Section Capacity.
  Context {P R C : Type}
    `{!BpfMap fileguard_file_id_t fileguard_protected_val_t P}
    `{!BpfMap fileguard_rule_key_t fileguard_rule_val_t R}
    `{!BpfMap Z fileguard_config_t C}
    `{!BpfMapLaws fileguard_file_id_t fileguard_protected_val_t P}
    `{!BpfMapLaws fileguard_rule_key_t fileguard_rule_val_t R}
    `{!BpfMapLaws Z fileguard_config_t C}
    `{!BpfHashLaws fileguard_file_id_t fileguard_protected_val_t P}
    `{!BpfHashLaws fileguard_rule_key_t fileguard_rule_val_t R}
    `{!BpfHashCapacity fileguard_file_id_t fileguard_protected_val_t P}
    `{!BpfHashCapacity fileguard_rule_key_t fileguard_rule_val_t R}
    `{!EndsWithEnoent fileguard_file_id_t fileguard_protected_val_t P}
    `{!EndsWithEnoent fileguard_rule_key_t fileguard_rule_val_t R}
    `{!BpfArrayLaws fileguard_config_t C abi_config_zero}.
  Context (strerror : Z -> string).
Abbreviation Maps := (KMaps P R C).
Abbreviation Linux := (LinuxEBPFEnforcer P R C).

(** The capacities of two states agree, and their non-hash parts are not
    compared. *)
Definition same_capacity (m m' : Maps) : Prop :=
  max_entries (fileguard_protected m') = max_entries (fileguard_protected m) /\
  max_entries (fileguard_rules m') = max_entries (fileguard_rules m).

Definition fits (c : CompiledPolicy) (m : Maps) : Prop :=
  Z.of_nat (size (protected_entries c)) <= max_entries (fileguard_protected m) /\
  Z.of_nat (size (rule_entries c)) <= max_entries (fileguard_rules m).

Lemma wp_update_config_cap (cfg : fileguard_config_t) (what : string) I
    (Q : unit -> Maps -> Prop) E (m : Maps) :
  (forall c, I (set_config m c)) -> (forall c, Q tt (set_config m c)) ->
  wp (update_config strerror cfg what) I Q E m.
Proof.
  intros HI HQ. apply wp_call. intros e m'.
  destruct (bpf_map_update_elem BPF_ANY (fileguard_config m) 0 cfg) as [e' c] eqn:Hu.
  intros [= <- <-]. pose proof (array_update (fileguard_config m) cfg) as Hok.
  rewrite Hu in Hok. cbn in Hok. subst e'. split; [apply HI|apply HQ].
Qed.

Lemma wp_clear_with_cap {K V M' : Type} `{Countable K} `{!BpfMap K V M'} `{!BpfMapLaws K V M'}
    `{!BpfHashLaws K V M'} `{!BpfHashCapacity K V M'} `{!EndsWithEnoent K V M'}
    (name : string) (set : M' -> Maps) (x : M') (m : Maps)
    (Q : unit -> Maps -> Prop) (E : Maps -> Prop) :
  (forall y, map_view y = ∅ -> max_entries y = max_entries x -> Q tt (set y)) ->
  wp (clear_with strerror name set (clear_elems x)) (fun _ => True) Q E m.
Proof.
  intros HQ. destruct (clear_elems_total x) as (st & m' & rc & e & Hc & Hrc & He & ok & Hend).
  unfold wp, clear_with. rewrite Hc. apply next_key_end in Hend as ->.
  split; [by apply Forall_forall|]. apply HQ; [done|]. by eapply clear_elems_max.
Qed.

Lemma wp_insert_all_protected_cap (c : CompiledPolicy) (m : Maps) :
  map_view (fileguard_protected m) = ∅ ->
  0 <= max_entries (fileguard_protected m) ->
  wp (kio_iter (insert_protected strerror) (c_protected_resources c)) (fun _ => True)
    (fun _ m' => Z.of_nat (size (protected_entries c)) <= max_entries (fileguard_protected m) /\
       fileguard_rules m' = fileguard_rules m)
    (fun _ => max_entries (fileguard_protected m) < Z.of_nat (size (protected_entries c))) m.
Proof.
  intros H0 Hpos. eapply (wp_mono _ _ _ _ _ _ _ _ (fun _ H => H)); [|exact (fun _ H => H)|].
  2: apply (wp_iter _ (fun pre m' =>
       map_view (fileguard_protected m') = table to_abi (fun _ => AbiProtectedVal 0) pre /\
       bounded (fileguard_protected m') /\
       max_entries (fileguard_protected m') = max_entries (fileguard_protected m) /\
       fileguard_rules m' = fileguard_rules m)).
  - intros [] m' (Hv & Hb & Hmax & Hr). split; [|done]. unfold bounded in Hb.
    rewrite Hv, Hmax in Hb. exact Hb.
  - unfold bounded. rewrite H0, map_size_empty. done.
  - intros pre id m1 [post Hl] (Hv & Hb & Hmax & Hr). apply wp_call. intros e m'.
    destruct (bpf_map_update_elem BPF_NOEXIST _ _ _) as [e' p] eqn:Hu. intros [= <- <-].
    split; [done|].
    destruct (insert_step to_abi (fun _ => AbiProtectedVal 0) _ _ _ pre post id Hu Hv Hb)
      as [(He & Hv' & Hb' & Hmax')|(He & Hover)].
    + destruct (e' =? 0), (e' =? EEXIST); cbn in *; try done; split_and!; try done; congruence.
    + rewrite Hmax, <- Hl in Hover. by destruct (e' =? 0), (e' =? EEXIST).
Qed.

Lemma wp_insert_all_rules_cap (c : CompiledPolicy) (m : Maps) :
  map_view (fileguard_rules m) = ∅ ->
  0 <= max_entries (fileguard_rules m) ->
  wp (kio_iter (insert_rule strerror) (c_rules c)) (fun _ => True)
    (fun _ m' => Z.of_nat (size (rule_entries c)) <= max_entries (fileguard_rules m))
    (fun _ => max_entries (fileguard_rules m) < Z.of_nat (size (rule_entries c))) m.
Proof.
  intros H0 Hpos. eapply (wp_mono _ _ _ _ _ _ _ _ (fun _ H => H)); [|exact (fun _ H => H)|].
  2: apply (wp_iter _ (fun pre m' =>
       map_view (fileguard_rules m') = table rule_key rule_val pre /\
       bounded (fileguard_rules m') /\
       max_entries (fileguard_rules m') = max_entries (fileguard_rules m))).
  - intros [] m' (Hv & Hb & Hmax). unfold bounded in Hb. rewrite Hv, Hmax in Hb. exact Hb.
  - unfold bounded. rewrite H0, map_size_empty. done.
  - intros pre rule m1 [post Hl] (Hv & Hb & Hmax). apply wp_call. intros e m'.
    destruct (bpf_map_update_elem BPF_NOEXIST _ _ _) as [e' p] eqn:Hu. intros [= <- <-].
    split; [done|].
    destruct (insert_step rule_key rule_val _ _ _ pre post rule Hu Hv Hb)
      as [(He & Hv' & Hb' & Hmax')|(He & Hover)].
    + destruct (e' =? 0), (e' =? EEXIST); cbn in *; try done; split_and!; try done; congruence.
    + rewrite Hmax, <- Hl in Hover. by destruct (e' =? 0), (e' =? EEXIST).
Qed.

Lemma wp_install_maps_cap (c : CompiledPolicy) (m : Maps) :
  0 <= max_entries (fileguard_protected m) -> 0 <= max_entries (fileguard_rules m) ->
  wp (install_maps strerror c) (fun _ => True) (fun _ _ => fits c m) (fun _ => ~ fits c m) m.
Proof.
  intros Hpos1 Hpos2. unfold install_maps, fits. apply wp_bind, wp_update_config_cap; [done|].
  intros cfg. apply wp_bind, wp_clear_protected_fd, wp_clear_with_cap. intros p Hp Hpmax.
  apply wp_bind, wp_clear_rules_fd, wp_clear_with_cap. intros r Hr Hrmax. cbn in Hpmax, Hrmax.
  apply wp_bind. eapply wp_mono; [done| | |apply wp_insert_all_protected_cap]; cbn beta.
  2: { cbn. intros _. lia. }
  2: done.
  2: { cbn. lia. }
  cbn [fileguard_protected set_rules set_protected]. intros [] m4 [Hfit1 Hrules].
  cbn in Hrules. rewrite <- Hrules in Hr, Hrmax.
  apply wp_bind. eapply wp_mono; [done| | |apply wp_insert_all_rules_cap]; cbn beta.
  - intros [] m5 Hfit2. apply wp_update_config_cap; [done|]. intros _. lia.
  - intros _. lia.
  - done.
  - lia.
Qed.

(** C27 (when a policy can be installed): on a loaded enforcer whose libbpf
    reports the end of a map as -ENOENT, [apply_policy] succeeds exactly when
    the policy's distinct protected identities fit in the protected map and
    its distinct (resource, process) pairs fit in the rule map; duplicates
    (several rules for one pair) never make it fail. *)
Theorem apply_policy_succeeds_iff (c : CompiledPolicy) (self : Linux) (m : Maps) :
  skel_ self = Some m ->
  0 <= max_entries (fileguard_protected m) -> 0 <= max_entries (fileguard_rules m) ->
  ((ebpf_apply_policy strerror c self).1.1 = ok_v <->
   Z.of_nat (size (protected_entries c)) <= max_entries (fileguard_protected m) /\
   Z.of_nat (size (rule_entries c)) <= max_entries (fileguard_rules m)).
Proof.
  intros Hs Hp Hr. unfold ebpf_apply_policy. rewrite Hs.
  destruct (install_maps strerror c m) as [[r m'] st] eqn:Hi.
  destruct (wp_elim _ _ _ _ _ _ _ _ (wp_install_maps_cap c m Hp Hr) Hi) as [_ Hpost].
  destruct r as [[]|e]; cbn; [done|]. split; [done|]. by intros Hfits.
Qed.
End Capacity.

Lemma apply_policy_succeeds_iff_witness :
  (ebpf_apply_policy no_strerror large_compiled small_enforcer).1.1 = ok_v <->
  Z.of_nat (size (protected_entries large_compiled)) <= max_entries (fileguard_protected small_maps) /\
  Z.of_nat (size (rule_entries large_compiled)) <= max_entries (fileguard_rules small_maps).
Proof.
  exact (apply_policy_succeeds_iff no_strerror large_compiled small_enforcer small_maps eq_refl
           (Nat2Z.is_nonneg _) (Nat2Z.is_nonneg _)).
Defined.
