(* ===== verification/EbpfLifecycle.v ===== *)
(** * Loading, detaching and reading the ring buffer

    When [load] claims enforcement and what it releases otherwise, what the
    ring-buffer callback makes of the record the LSM program submitted, and
    the Linux backend as an instance of the enforcer contract. *)

From S2P Require Import Prelude Abi FileId Policy DecisionEngine PolicyCompiler BpfMap KernelProgram SecurityEvent Enforcer KernelIo EbpfManager EbpfInstall EbpfProperties.

Local Open Scope Z_scope.

(** ** Strings and bytes *)

Lemma prefix_spec (s t : string) : String.prefix s t = true <-> exists post, t = s +:+ post.
Proof.
  revert t; induction s as [|c s IH]; intros t; cbn.
  - split; [by exists t|by intros _; destruct t].
  - destruct t as [|d t]; [split; [done|by intros [post Hp]]|].
    cbn. destruct (ascii_dec c d) as [->|Hne].
    + rewrite IH. split; intros [post Hp]; exists post.
      * by rewrite Hp, str_app_cons.
      * rewrite str_app_cons in Hp. by simplify_eq.
    + split; [done|]. intros [post Hp]. rewrite str_app_cons in Hp. by simplify_eq.
Qed.

Lemma contains_spec (s t : string) :
  contains s t = true <-> exists pre post, t = pre +:+ s +:+ post.
Proof.
  induction t as [|c t IH]; cbn [contains]; rewrite orb_true_iff, prefix_spec.
  - split; [intros [[post Hp]|]; [by exists "", post|done]|].
    intros (pre & post & Hp). left. exists post. destruct pre; [done|].
    by rewrite str_app_cons in Hp.
  - rewrite IH. split.
    + intros [[post Hp]|(pre & post & ->)]; [by exists "", post|].
      exists (String c pre), post. by rewrite str_app_cons.
    + intros ([|d pre] & post & Hp); [by left; exists post|right].
      rewrite str_app_cons in Hp. simplify_eq. by exists pre, post.
Qed.

Lemma contains_spec_lsm (lsm : option string) :
  (exists l, lsm = Some l /\ contains "bpf" l = true) <->
  (exists pre post, lsm = Some (pre +:+ "bpf" +:+ post)).
Proof.
  split.
  - intros (l & -> & (pre & post & ->)%contains_spec). by exists pre, post.
  - intros (pre & post & ->). eexists. split; [done|]. apply contains_spec. by exists pre, post.
Qed.

(** ** Load and detach *)
Section Lifecycle.
  Context {P R C : Type}
    `{!BpfMap fileguard_file_id_t fileguard_protected_val_t P}
    `{!BpfMap fileguard_rule_key_t fileguard_rule_val_t R}
    `{!BpfMap Z fileguard_config_t C}
    `{!BpfMapLaws fileguard_file_id_t fileguard_protected_val_t P}
    `{!BpfMapLaws fileguard_rule_key_t fileguard_rule_val_t R}
    `{!BpfMapLaws Z fileguard_config_t C}
    `{!BpfHashLaws fileguard_file_id_t fileguard_protected_val_t P}
    `{!BpfHashLaws fileguard_rule_key_t fileguard_rule_val_t R}
    `{!BpfArrayLaws fileguard_config_t C abi_config_zero}.
  Context (strerror : Z -> string).
  Abbreviation Maps := (KMaps P R C).
  Abbreviation Linux := (LinuxEBPFEnforcer P R C).

(** Everything [load] needs from libbpf and the kernel. *)
Definition load_possible (env : load_env) : Prop :=
  open_result env = None /\ load_result env = None /\ attach_result env = None /\
  (exists pre post, lsm_file env = Some (pre +:+ "bpf" +:+ post)) /\
  ring_result env = None.

Lemma load_possible_alt (env : load_env) :
  load_possible env <->
  open_result env = None /\ load_result env = None /\ attach_result env = None /\
  (exists l, lsm_file env = Some l /\ contains "bpf" l = true) /\ ring_result env = None.
Proof. unfold load_possible. by rewrite contains_spec_lsm. Qed.

(** A skeleton is destroyed as often as it is opened. *)
Definition count_call (c : bpf_object_call) (l : list bpf_object_call) : nat :=
  length (filter (fun x => x = c) l).

Lemma fresh_maps_view (cfg : EnforcerConfig) :
  kv_protected (view_maps (fresh_maps (P:=P) (R:=R) (C:=C) cfg)) = ∅ /\
  kv_rules (view_maps (fresh_maps (P:=P) (R:=R) (C:=C) cfg)) = ∅ /\
  kv_config (view_maps (fresh_maps (P:=P) (R:=R) (C:=C) cfg)) !! 0 = Some abi_config_zero.
Proof. cbn. rewrite !create_view, array_create. done. Qed.

Lemma fresh_maps_status (s : EnforcerStatus) (cfg : EnforcerConfig) :
  ebpf_status (MkLinuxEBPFEnforcer (Some (fresh_maps (P:=P) (R:=R) (C:=C) cfg)) true s cfg) =
  MkEnforcerStatus (attached s) false (backend s) 0 (protected_count s) (rule_count s) (detail s).
Proof.
  unfold ebpf_status; cbn. by rewrite lookup_view, array_create.
Qed.

(** C26 (load never claims more than there is): on an enforcer that is not
    loaded, [load] succeeds exactly when the skeleton opens, loads and
    attaches, /sys/kernel/security/lsm can be read and names bpf, and the ring
    buffer is created.  Then the maps are empty, every open is still allowed
    and the status says attached and not enforcing.  Otherwise the enforcer is
    unchanged, and the skeleton, if it was opened, has been destroyed exactly
    once. *)
Theorem load_exact (env : load_env) (self : Linux) :
  skel_ self = None -> ring_ self = false ->
  let '(r, self', calls) := ebpf_load strerror env self in
  (r = ok_v <-> load_possible env) /\
  (r = ok_v ->
     count_call skel_destroy calls = 0%nat /\
     attached (ebpf_status self') = true /\ enforcing (ebpf_status self') = false /\
     exists m, skel_ self' = Some m /\ ring_ self' = true /\
       kv_protected (view_maps m) = ∅ /\ kv_rules (view_maps m) = ∅ /\
       forall henv f, (fg_file_open m henv f).1 = 0) /\
  (r <> ok_v ->
     self' = self /\
     count_call skel_destroy calls = if decide (open_result env = None) then 1%nat else 0%nat).
Proof.
  intros Hs Hr. destruct self as [sk rg st cfg]; cbn in Hs, Hr; subst sk rg.
  pose proof (load_possible_alt env) as Halt. revert Halt. generalize (load_possible env).
  intros possible Halt. destruct env as [op lo at_ lsm ri]. unfold ebpf_load; cbn [skel_ open_result load_result
    attach_result lsm_file ring_result cfg_ status_ ring_] in *.
  rewrite bool_decide_false by (by intros []).
  destruct op; [split_and!; [split; [done|naive_solver]|done|done]|].
  destruct lo; [split_and!; [split; [done|naive_solver]|done|]|].
  { intros _. split; [done|]. by destruct (0 <? _), (0 <? _). }
  destruct at_; [split_and!; [split; [done|naive_solver]|done|]|].
  { intros _. split; [done|]. by destruct (0 <? _), (0 <? _). }
  destruct lsm as [lsm|]; [|split_and!; [split; [done|naive_solver]|done|]].
  2: { intros _. split; [done|]. by destruct (0 <? _), (0 <? _). }
  destruct (contains "bpf" lsm) eqn:Hl; cbn [negb];
    [|split_and!; [split; [done|naive_solver congruence]|done|]].
  2: { intros _. split; [done|]. by destruct (0 <? _), (0 <? _). }
  destruct ri; [split_and!; [split; [done|naive_solver]|done|]|].
  { intros _. split; [done|]. by destruct (0 <? _), (0 <? _). }
  split_and!; [split; [by intros _; apply Halt; eauto 10|done]| |done].
  intros _. rewrite fresh_maps_status. split_and!; [by destruct (0 <? _), (0 <? _)|done..|].
  eexists. destruct (fresh_maps_view cfg) as (Hp & Hru & Hc).
  split_and!; [done..|]. intros henv f. rewrite fg_file_open_verdict. apply paused_allows.
  unfold paused, kv_enabled. by rewrite Hc.
Qed.
End Lifecycle.

Lemma load_exact_witness :
  load_possible (MkLoadEnv None None None (Some "lockdown,capability,bpf") None).
Proof.
  pose proof (load_exact (P:=HashMap fileguard_file_id_t fileguard_protected_val_t)
    (R:=HashMap fileguard_rule_key_t fileguard_rule_val_t) (C:=ArrayMap fileguard_config_t)
    no_strerror (MkLoadEnv None None None (Some "lockdown,capability,bpf") None)
    (LinuxEBPFEnforcer_create EnforcerConfig_default) eq_refl eq_refl) as H.
  exact (proj1 (proj1 H) eq_refl).
Defined.

(** ** From the LSM program to user space *)

(** The ranges of what the hook's environment supplies. *)
Definition hook_env_wf (env : hook_env) : Prop :=
  in_u 64 (ktime_ns env) /\ length (current_comm env) = 16%nat /\
  Forall (in_u 8) (current_comm env) /\
  (forall slot, ringbuf_reserve env = Some slot -> event_wf slot).

Lemma opened_id_wf (f : file) : abi_file_id_wf (opened_id f).
Proof.
  unfold opened_id, fg_file_id. destruct (f_inode f) as [i|]; [|by vm_compute].
  split_and!; cbn; by apply wrap_u_in.
Qed.

Section RingBuffer.
  Context {P R C : Type}
    `{!BpfMap fileguard_file_id_t fileguard_protected_val_t P}
    `{!BpfMap fileguard_rule_key_t fileguard_rule_val_t R}
    `{!BpfMap Z fileguard_config_t C}
    `{!BpfMapLaws fileguard_file_id_t fileguard_protected_val_t P}
    `{!BpfMapLaws fileguard_rule_key_t fileguard_rule_val_t R}
    `{!BpfMapLaws Z fileguard_config_t C}.
Abbreviation Maps := (KMaps P R C).
Abbreviation Linux := (LinuxEBPFEnforcer P R C).

Lemma fill_event_wf (env : hook_env) (f : file) (slot : fileguard_event_t) :
  hook_env_wf env -> ringbuf_reserve env = Some slot ->
  event_wf (fill_event env (opened_id f) slot).
Proof.
  intros (Ht & Hl & Hc & Hslot) Hs. specialize (Hslot slot Hs).
  unfold event_wf in *; cbn. destruct_and!.
  split_and!; try done; try (by apply wrap_u_in); apply opened_id_wf.
Qed.

Lemma fg_decision_wf (m : Maps) res proc (e e' : fileguard_event_t) :
  (forall k rule, kv_rules (view_maps m) !! k = Some rule -> in_u 32 (val_rule_id rule)) ->
  event_wf e -> (fg_decision m res proc (Some e)).2 = Some e' -> event_wf e'.
Proof.
  intros Hrules He. unfold fg_decision. rewrite lookup_view.
  assert (forall a r x, event_wf x -> event_wf (ev_set_reason r (ev_set_action a x))) as Hset.
  { intros a r x Hx. unfold event_wf in *; cbn. destruct_and!.
    split_and!; try done; by apply wrap_u_in. }
  destruct (abi_ino proc =? 0); cbn; [intros [= <-]; by apply Hset|].
  destruct (map_view (fileguard_rules m) !! _) as [rule|] eqn:Hr; cbn; intros [= <-];
    [|by apply Hset].
  apply Hset. specialize (Hrules _ rule Hr). unfold event_wf in *; cbn. destruct_and!.
  by split_and!.
Qed.

Lemma submitted_event_wf (m : Maps) (env : hook_env) (f : file) (e : fileguard_event_t) :
  hook_env_wf env ->
  (forall k rule, kv_rules (view_maps m) !! k = Some rule -> in_u 32 (val_rule_id rule)) ->
  (fg_file_open m env f).2 = Some e -> event_wf e.
Proof.
  intros Henv Hrules. destruct (decide (kv_guards (view_maps m) (opened_id f))) as [Hg|Hg].
  2: by rewrite fg_file_open_unguarded.
  rewrite fg_file_open_guarded by done.
  destruct (ringbuf_reserve env) as [slot|] eqn:Hs; cbn [fmap option_fmap option_map].
  - apply fg_decision_wf; [done|]. by apply fill_event_wf.
  - unfold fg_decision. by repeat case_match.
Qed.

Lemma ring_callback_encoded (padding : list Z) (e : fileguard_event_t) (self : Linux) :
  length padding = 4%nat -> event_wf e -> ev_magic e = FG_MAGIC ->
  on_event (cfg_ self) = true ->
  ring_callback (Some (encode_event padding e)) self = (Some (raw_of_event e), self).
Proof.
  intros Hp Hwf Hm Hon. unfold ring_callback.
  assert (length (ev_comm e) = 16%nat) as Hl by (unfold event_wf in Hwf; by destruct_and!).
  rewrite length_encode_event, decode_encode_event by done.
  rewrite Nat.eqb_refl, Hm, Z.eqb_refl, Hon. done.
Qed.

Lemma Action_of_code_allow (v : Z) : Action_of_code v = Allow <-> v = FG_ACTION_ALLOW.
Proof.
  unfold Action_of_code, FG_ACTION_ALLOW. destruct (Z.eqb_spec v 0); [done|].
  destruct (v =? 1); split; done.
Qed.

(** C25 (what user space learns): the record the LSM program submits for an
    open, laid out in the ring buffer with any padding bytes, is decoded by
    the callback into exactly one event: its pid, tgid, uid, gid, time and
    resource identity are those of the open, its reason is the kernel's, its
    comm is the task's up to the first NUL, and its action is ALLOW exactly
    when the open was allowed; for a rule decision its rule id is the rule's. *)
Theorem ring_callback_delivers (m : Maps) (env : hook_env) (f : file) (e : fileguard_event_t)
    (padding : list Z) (self : Linux) :
  hook_env_wf env ->
  (forall k rule, kv_rules (view_maps m) !! k = Some rule ->
     in_u 32 (val_rule_id rule) /\ in_u 8 (val_action rule)) ->
  (fg_file_open m env f).2 = Some e ->
  length padding = 4%nat -> on_event (cfg_ self) = true ->
  let proc := process_id (current_task env) in
  exists raw,
    ring_callback (Some (encode_event padding e)) self = (Some raw, self) /\
    raw_timestamp_ns raw = ktime_ns env /\
    raw_pid raw = u32 (current_pid_tgid env) /\
    raw_tgid raw = u32 (Z.shiftr (current_pid_tgid env) 32) /\
    raw_uid raw = u32 (current_uid_gid env) /\
    raw_gid raw = u32 (Z.shiftr (current_uid_gid env) 32) /\
    raw_resource raw = from_abi (opened_id f) /\
    raw_operation raw = Open /\
    raw_reason raw = Reason_of_code (guarded_verdict (view_maps m) (opened_id f) proc).2 /\
    (raw_action raw = Allow <-> (fg_file_open m env f).1 = 0) /\
    (forall rule, kv_rules (view_maps m) !! AbiRuleKey (opened_id f) proc = Some rule ->
       abi_ino proc <> 0 -> raw_rule_id raw = val_rule_id rule) /\
    raw_comm raw = string_of_bytes (take (strnlen (current_comm env) 16) (current_comm env)).
Proof.
  intros Henv Hrules He Hp Hon. cbn zeta.
  destruct (fg_file_open_event m env f) as [_ Hev].
  destruct (Hev e He) as (Hm & Hres & Hop & Ht & Hc & Hpid & Htgid & Huid & Hgid & Hr & Hrule & Ha).
  assert (event_wf e) as Hwf.
  { eapply submitted_event_wf; [done| |done]. intros k rule Hk. by apply (Hrules k). }
  exists (raw_of_event e). split; [by apply ring_callback_encoded|].
  unfold raw_of_event; cbn. rewrite Hres, Hop, Hr, Hc, Action_of_code_allow.
  split_and!; try done.
  - apply Ha. intros rule Hk. by apply (Hrules _ rule Hk).
  - intros rule Hk Hino. by apply (Hrule rule Hk Hino).
Qed.

(** Malformed records are dropped: a null or wrongly sized record, or one
    with another magic number, delivers no event and only changes the status
    detail; every other record delivers exactly one event. *)
Theorem ring_callback_rejects (data : option (list Z)) (self : Linux) :
  on_event (cfg_ self) = true ->
  let '(o, self') := ring_callback data self in
  (o = None <->
   data = None \/ exists bs, data = Some bs /\
     (length bs <> sizeof_event \/ field_value 0 4 bs <> FG_MAGIC)) /\
  skel_ self' = skel_ self /\ (o <> None -> self' = self).
Proof.
  intros Hon. unfold ring_callback. destruct data as [bs|]; [|by split_and!; [split; auto|..]].
  destruct (Nat.eqb_spec (length bs) sizeof_event) as [Hl|Hl]; cbn [negb].
  - change (ev_magic (decode_event bs)) with (field_value 0 4 bs).
    destruct (Z.eqb_spec (field_value 0 4 bs) FG_MAGIC) as [Hm|Hm]; cbn [negb].
    + rewrite Hon. split_and!; [split; [done|naive_solver]|done|done].
    + split_and!; [split; [|done]|done|done]. intros _. right. eauto.
  - split_and!; [split; [|done]|done|done]. intros _. right. eauto.
Qed.
End RingBuffer.

Definition sample_listener : LE :=
  MkLinuxEBPFEnforcer (Some (sample_kmaps 1)) true EnforcerStatus_default
    (MkEnforcerConfig 0 0 "" true).

Definition sample_record : fileguard_event_t :=
  ev_set_reason FG_REASON_DEFAULT_DENY (ev_set_action FG_ACTION_DENY
    (fill_event (kenv 3000 0) (opened_id (kfile 1000)) sample_slot)).

Lemma ring_callback_delivers_witness :
  exists raw,
    ring_callback (Some (encode_event [0; 0; 0; 0] sample_record)) sample_listener =
      (Some raw, sample_listener) /\
    raw_resource raw = MkFileId 8 1 1000 /\ raw_comm raw = "cat".
Proof.
  destruct (ring_callback_delivers (sample_kmaps 1) (kenv 3000 0) (kfile 1000) sample_record
              [0; 0; 0; 0] sample_listener) as (raw & Hr & _ & _ & _ & _ & _ & Hres & _ & _ & _ & _ & Hc).
  - split; [|split; [|split]].
    + apply (bool_decide_unpack _). vm_compute. exact I.
    + reflexivity.
    + apply (bool_decide_unpack _). vm_compute. exact I.
    + intros slot Hslot. injection Hslot as <-. apply (bool_decide_unpack _). vm_compute. exact I.
  - intros k rule Hk. cbn in Hk. apply lookup_singleton_Some in Hk as [_ <-].
    split; apply (bool_decide_unpack _); vm_compute; exact I.
  - vm_compute. reflexivity.
  - reflexivity.
  - reflexivity.
  - exists raw. split; [exact Hr|]. split; [rewrite Hres; reflexivity|rewrite Hc; reflexivity].
Defined.

Lemma ring_callback_rejects_witness :
  (ring_callback (Some []) sample_listener).1 = None.
Proof.
  pose proof (ring_callback_rejects (Some []) sample_listener eq_refl) as H.
  destruct (ring_callback (Some []) sample_listener) as [o self'] eqn:Hr.
  apply (proj1 H). right. exists []. split; [reflexivity|left; discriminate].
Defined.

(** ** The Linux backend meets the contract *)
Section LinuxEnforcer.
  Context {P R C : Type}
    `{!BpfMap fileguard_file_id_t fileguard_protected_val_t P}
    `{!BpfMap fileguard_rule_key_t fileguard_rule_val_t R}
    `{!BpfMap Z fileguard_config_t C}
    `{!BpfMapLaws fileguard_file_id_t fileguard_protected_val_t P}
    `{!BpfMapLaws fileguard_rule_key_t fileguard_rule_val_t R}
    `{!BpfMapLaws Z fileguard_config_t C}
    `{!BpfHashLaws fileguard_file_id_t fileguard_protected_val_t P}
    `{!BpfHashLaws fileguard_rule_key_t fileguard_rule_val_t R}
    `{!BpfArrayLaws fileguard_config_t C abi_config_zero}.
  Context (strerror : Z -> string) (env : load_env).
  Abbreviation Linux := (LinuxEBPFEnforcer P R C).

Definition linux_ops : IEnforcer Linux := {|
  enf_load := fun self => (ebpf_load strerror env self).1;
  enf_apply_policy := fun c self => (ebpf_apply_policy strerror c self).1;
  enf_status := ebpf_status;
  enf_run := ebpf_run strerror;
  enf_detach := fun self => (ebpf_detach self).1;
|}.

(** What the kernel decides while the enforcer is in a given state: the
    program runs as long as the skeleton is loaded. *)
Definition linux_enforced (self : Linux) (res proc : FileId) : Z :=
  match skel_ self with
  | Some m => kernel_verdict (view_maps m) (to_abi res) (to_abi proc)
  | None => 0
  end.

Lemma linux_status_enforcing (self : Linux) (m : KMaps P R C) :
  skel_ self = Some m -> enforcing (ebpf_status self) = kv_enabled (view_maps m).
Proof.
  intros Hs. unfold ebpf_status, kv_enabled. rewrite Hs, lookup_view. cbn.
  destruct (array_zero (fileguard_config m)) as [cfg ->]. done.
Qed.

(** The event loop only writes the [detail] of the status. *)
Definition same_but_detail (self self' : Linux) : Prop :=
  skel_ self' = skel_ self /\ ring_ self' = ring_ self /\ cfg_ self' = cfg_ self /\
  exists d, status_ self' = status_ (set_detail d self).

Lemma same_but_detail_refl (self : Linux) : same_but_detail self self.
Proof. split_and!; try done. exists (detail (status_ self)). cbn. by destruct (status_ self). Qed.

Lemma same_but_detail_trans (a b c : Linux) :
  same_but_detail a b -> same_but_detail b c -> same_but_detail a c.
Proof.
  intros (E1 & E2 & E3 & d1 & D1) (F1 & F2 & F3 & d2 & D2). split_and!; try congruence.
  exists d2. rewrite D2. cbn. by rewrite D1.
Qed.

Lemma set_detail_same (d : string) (self : Linux) : same_but_detail self (set_detail d self).
Proof. split_and!; try done. by exists d. Qed.

Lemma ring_callback_same (data : option (list Z)) (self : Linux) :
  same_but_detail self (ring_callback data self).2.
Proof.
  unfold ring_callback. destruct data as [bs|]; [|apply set_detail_same].
  destruct (negb (_ =? _)%nat); [apply set_detail_same|].
  destruct (negb (_ =? _)); [apply set_detail_same|apply same_but_detail_refl].
Qed.

Lemma ring_callbacks_same (records : list (list Z)) (self : Linux) :
  same_but_detail self (ring_callbacks records self).2.
Proof.
  revert self; induction records as [|bs records IH]; intros self; cbn [ring_callbacks]; [apply same_but_detail_refl|].
  pose proof (ring_callback_same (Some bs) self) as H1.
  destruct (ring_callback (Some bs) self) as [o self1]. specialize (IH self1).
  destruct (ring_callbacks records self1) as [evs self2]. by eapply same_but_detail_trans.
Qed.

Lemma ebpf_run_same (polls : list ring_poll) (self : Linux) :
  same_but_detail self (ebpf_run strerror polls self).1.2.
Proof.
  unfold ebpf_run. destruct (negb (ring_ self)); [apply same_but_detail_refl|].
  revert self; induction polls as [|[|e|records] polls IH]; intros self; cbn [poll_loop];
    [apply same_but_detail_refl..|apply set_detail_same|].
  pose proof (ring_callbacks_same records self) as H1.
  destruct (ring_callbacks records self) as [evs self1]. specialize (IH self1).
  destruct (poll_loop strerror polls self1) as [[evs' self2] b]. by eapply same_but_detail_trans.
Qed.

(** The status only reads the configuration entry of the maps. *)
Lemma linux_status_view (self self' : Linux) (m m' : KMaps P R C) :
  skel_ self = Some m -> skel_ self' = Some m' -> status_ self' = status_ self ->
  map_view (fileguard_config m') = map_view (fileguard_config m) -> ebpf_status self' = ebpf_status self.
Proof. intros H1 H2 H3 H4. unfold ebpf_status. by rewrite H1, H2, H3, !lookup_view, H4. Qed.

Lemma ebpf_load_idle (self : Linux) :
  enforcing (ebpf_status self) = false -> enforcing (ebpf_status (ebpf_load strerror env self).1.2) = false.
Proof.
  intros He. unfold ebpf_load. destruct (bool_decide _); [done|].
  destruct (open_result env); [done|]. destruct (load_result env); [done|].
  destruct (attach_result env); [done|]. destruct (lsm_file env) as [l|]; [|done].
  destruct (negb _); [done|]. destruct (ring_result env); [done|].
  cbn [fst snd]. by rewrite fresh_maps_status.
Qed.

Definition linux_laws : @EnforcerLaws Linux linux_ops.
Proof.
  refine {| enforced := linux_enforced;
            detached := fun self => skel_ self = None /\ enforcing (status_ self) = false /\
                                    attached (status_ self) = false |}; cbn.
  - intros c e e' Ha Hwf _ res proc.
    destruct (ebpf_apply_policy strerror c e) as [[r e0] st] eqn:He. injection Ha as -> ->.
    destruct (skel_ e) as [m|] eqn:Hs; [|by unfold ebpf_apply_policy in He; rewrite Hs in He].
    destruct (apply_policy_cases strerror _ _ _ _ _ _ Hs He) as (_ & m' & Hs' & _ & _ & Hi & _).
    unfold linux_enforced. rewrite Hs'. by apply installed_verdict.
  - intros e He res proc. unfold linux_enforced. destruct (skel_ e) as [m|] eqn:Hs; [|done].
    apply paused_allows. unfold paused. by rewrite <- (linux_status_enforcing e m Hs).
  - intros c e e' Ha Hv.
    destruct (ebpf_apply_policy strerror c e) as [[r e0] st] eqn:He. injection Ha as -> ->.
    destruct (skel_ e) as [m|] eqn:Hs; [|by unfold ebpf_apply_policy in He; rewrite Hs in He].
    destruct (apply_policy_cases strerror _ _ _ _ _ _ Hs He)
      as (_ & m' & Hs' & _ & _ & (_ & _ & Hc) & Hst).
    unfold ebpf_status. rewrite Hs', lookup_view, Hst. cbn in Hc. rewrite Hc. cbn.
    split; [by apply i32_u32_nonneg|done].
  - intros c e e' msg Ha.
    destruct (ebpf_apply_policy strerror c e) as [[r e0] st] eqn:He. injection Ha as -> ->.
    destruct (skel_ e) as [m|] eqn:Hs.
    2: { left. unfold ebpf_apply_policy in He. rewrite Hs in He. by simplify_eq. }
    destruct (apply_policy_cases strerror _ _ _ _ _ _ Hs He)
      as (_ & m' & Hs' & _ & _ & [Heq|Hp] & Hst).
    + left. split.
      * intros res proc. unfold linux_enforced. by rewrite Hs, Hs', Heq.
      * eapply linux_status_view; [done..|]. by injection Heq.
    + right. by rewrite (linux_status_enforcing e' m' Hs').
  - intros e. apply ebpf_load_idle.
  - intros polls e. destruct (ebpf_run_same polls e) as (H1 & _ & _ & d & H2). unfold linux_enforced, ebpf_status.
    rewrite H1, H2. split; [done|]. destruct (skel_ e) as [m|]; [|done]. by destruct (bpf_map_lookup_elem _ _).
  - done.
  - done.
  - intros c e (Hs & Hd). unfold ebpf_apply_policy. by rewrite Hs.
  - intros e (Hs & He & Ha). unfold ebpf_status. by rewrite Hs.
Defined.
End LinuxEnforcer.
