(* ===== verification/Json.v ===== *)
(** * nlohmann::json, as an interface

    The JSON library is third-party code: its values are a type [J] with the
    operations the sources call ([Json]), and what the sources rely on is the
    class of laws [JsonLaws], which relates every operation to the value it
    denotes ([jview]).  [jval] at the end is one type that satisfies the laws.

    Code that calls the library can throw, and code that returns a [Result]
    can return an error: [call] is the type of the calls that can do both. *)

From S2P Require Import Prelude.

Local Open Scope Z_scope.

(** ** Calls that return a [Result] and may throw *)
Inductive call (A : Type) : Type :=
| Value (a : A)
| Error (message : string)
| Raise (what : string).
Arguments Value {A} a.
Arguments Error {A} message.
Arguments Raise {A} what.

#[export] Instance call_ret : MRet call := @Value.
#[export] Instance call_bind : MBind call :=
  fun A B f c => match c with
                 | Value a => f a
                 | Error m => Error m
                 | Raise w => Raise w
                 end.

#[export] Instance call_fmap : FMap call :=
  fun A B f c => match c with
                 | Value a => Value (f a)
                 | Error m => Error m
                 | Raise w => Raise w
                 end.

Definition of_result {A : Type} (r : result A) : call A :=
  match r with Ok a => Value a | Err m => Error m end.
Definition of_outcome {A : Type} (o : outcome A) : call A :=
  match o with Return a => Value a | Throw w => Raise w end.

Fixpoint call_mapM {A B : Type} (f : A -> call B) (l : list A) : call (list B) :=
  match l with
  | [] => Value []
  | x :: l => y ← f x; ys ← call_mapM f l; Value (y :: ys)
  end.

Lemma call_bind_Value {A B : Type} (f : A -> call B) (c : call A) (b : B) :
  c ≫= f = Value b <-> exists a, c = Value a /\ f a = Value b.
Proof.
  destruct c as [a|m|w]; cbn; split; try done; [by eauto|by intros (a' & [= <-] & ?)|..];
    by intros (? & ? & _).
Qed.

Lemma call_bind_Raise {A B : Type} (f : A -> call B) (c : call A) (w : string) :
  c ≫= f = Raise w <-> c = Raise w \/ exists a, c = Value a /\ f a = Raise w.
Proof.
  destruct c as [a|m|w']; cbn; split; try done; naive_solver.
Qed.

Lemma call_mapM_Value {A B : Type} (f : A -> call B) (l : list A) (k : list B) :
  call_mapM f l = Value k <-> Forall2 (fun x y => f x = Value y) l k.
Proof.
  revert k; induction l as [|x l IH]; intros k; cbn.
  - split; [by intros [= <-]|by inversion 1].
  - rewrite call_bind_Value. setoid_rewrite call_bind_Value. setoid_rewrite IH. split.
    + intros (y & Hy & ys & Hys & [= <-]). by constructor.
    + inversion 1; subst; eauto.
Qed.

Lemma call_fmap_Value {A B : Type} (f : A -> B) (c : call A) (b : B) :
  f <$> c = Value b <-> exists a, c = Value a /\ f a = b.
Proof. destruct c; cbn; naive_solver. Qed.

Lemma of_result_Value {A : Type} (r : result A) (a : A) : of_result r = Value a <-> r = Ok a.
Proof. destruct r; cbn; naive_solver. Qed.

Lemma call_mapM_Raise {A B : Type} (f : A -> call B) (l : list A) (w : string) :
  call_mapM f l = Raise w -> exists x, x ∈ l /\ f x = Raise w.
Proof.
  induction l as [|x l IH]; cbn; [done|].
  intros [Hx|(y & _ & H)]%call_bind_Raise; [by exists x; split; [constructor|]|].
  apply call_bind_Raise in H as [H|(ys & _ & ?)]; [|done].
  destruct (IH H) as (x' & Hin & Hx'). exists x'. split; [by constructor|done].
Qed.

(** ** The library *)

(** The value a JSON document denotes.  A number is represented by its integer
    part, which is what the integer conversions of the library start from. *)
Inductive jview (J : Type) : Type :=
| JNull
| JBool (b : bool)
| JNumber (z : Z)
| JString (s : string)
| JArray (items : list J)
| JObject (members : list (string * J)).
Arguments JNull {J}.
Arguments JBool {J} b.
Arguments JNumber {J} z.
Arguments JString {J} s.
Arguments JArray {J} items.
Arguments JObject {J} members.

Definition assoc {A : Type} (k : string) (l : list (string * A)) : option A :=
  snd <$> find_first (fun p => String.eqb p.1 k) l.

Class Json (J : Type) := {
  json_parse : string -> string + J;                     (* json::parse; what() *)
  json_dump : J -> outcome string;                       (* dump() *)
  json_is_object : J -> bool;
  json_is_array : J -> bool;
  json_is_string : J -> bool;
  json_contains : J -> string -> bool;
  json_find : J -> string -> option J;                   (* find / operator[] on objects *)
  json_items : J -> list J;                              (* iteration over an array *)
  json_get_string : J -> outcome string;                 (* get<std::string>() *)
  json_value_string : J -> string -> string -> outcome string;   (* value(key, default) *)
  json_value_int : J -> string -> Z -> outcome Z;        (* int default *)
  json_value_uint : J -> string -> Z -> outcome Z;       (* unsigned default *)
  json_value_bool : J -> string -> bool -> outcome bool;
  json_null : J;                                         (* constructors of values *)
  json_bool : bool -> J;
  json_number : Z -> J;
  json_string : string -> J;
  json_array : list J -> J;
  json_object : list (string * J) -> J;
}.

(** [value(key, default)] on a JSON value, by the type of the default:
    type_error if the value is not an object, the default if the key is
    absent, type_error if the member has another type. *)
Definition value_law {J A : Type} (view : J -> jview J) (conv : jview J -> option A)
    (j : J) (key : string) (default : A) (r : outcome A) : Prop :=
  match view j with
  | JObject ms =>
     match assoc key ms with
     | None => r = Return default
     | Some v => match conv (view v) with
                 | Some a => r = Return a
                 | None => exists w, r = Throw w
                 end
     end
  | _ => exists w, r = Throw w
  end.

Definition conv_string {J : Type} (v : jview J) : option string :=
  match v with JString s => Some s | _ => None end.
Definition conv_bool {J : Type} (v : jview J) : option bool :=
  match v with JBool b => Some b | _ => None end.
(** Arithmetic conversions accept numbers and booleans. *)
Definition conv_arith {J : Type} (wrap : Z -> Z) (v : jview J) : option Z :=
  match v with
  | JNumber z => Some (wrap z)
  | JBool b => Some (if b then 1 else 0)
  | _ => None
  end.

(** Bytes that are well-formed UTF-8. *)
Fixpoint utf8_tail (n : nat) (bs : list Z) : bool :=
  match bs with
  | [] => (n =? 0)%nat
  | b :: bs =>
     match n with
     | S n => (128 <=? b) && (b <? 192) && utf8_tail n bs
     | O => if b <? 128 then utf8_tail 0 bs
            else if (194 <=? b) && (b <? 224) then utf8_tail 1 bs
            else if (224 <=? b) && (b <? 240) then utf8_tail 2 bs
            else if (240 <=? b) && (b <? 245) then utf8_tail 3 bs
            else false
     end
  end.
Definition bytes_of_string (s : string) : list Z :=
  (fun c => Z.of_nat (nat_of_ascii c)) <$> String.list_ascii_of_string s.
Definition has_newline (s : string) : bool :=
  negb (str_all (fun c => negb (Ascii.eqb c (ascii_of_nat 10))) s).

Class JsonLaws (J : Type) `{Json J} := {
  json_view : J -> jview J;
  is_object_view : forall j, json_is_object j = match json_view j with JObject _ => true | _ => false end;
  is_array_view : forall j, json_is_array j = match json_view j with JArray _ => true | _ => false end;
  is_string_view : forall j, json_is_string j = match json_view j with JString _ => true | _ => false end;
  contains_view : forall j k, json_contains j k =
    match json_view j with JObject ms => bool_decide (is_Some (assoc k ms)) | _ => false end;
  find_view : forall j k ms, json_view j = JObject ms -> json_find j k = assoc k ms;
  items_view : forall j l, json_view j = JArray l -> json_items j = l;
  get_string_view : forall j, match json_view j with
    | JString s => json_get_string j = Return s
    | _ => exists w, json_get_string j = Throw w end;
  value_string_view : forall j k d, value_law json_view conv_string j k d (json_value_string j k d);
  value_int_view : forall j k d, value_law json_view (conv_arith i32) j k d (json_value_int j k d);
  value_uint_view : forall j k d, value_law json_view (conv_arith u32) j k d (json_value_uint j k d);
  value_bool_view : forall j k d, value_law json_view conv_bool j k d (json_value_bool j k d);
  view_bool : forall b, json_view (json_bool b) = JBool b;
  view_number : forall z, json_view (json_number z) = JNumber z;
  view_string : forall s, json_view (json_string s) = JString s;
  view_array : forall l, json_view (json_array l) = JArray l;
  view_object : forall ms, NoDup ms.*1 -> json_view (json_object ms) = JObject ms;
  (* dump() writes one line, and throws for a string that is not UTF-8 *)
  dump_one_line : forall j s, json_dump j = Return s -> has_newline s = false;
  dump_bad_utf8 : forall ms k s, (k, json_string s) ∈ ms ->
    utf8_tail 0 (bytes_of_string s) = false -> exists w, json_dump (json_object ms) = Throw w;
}.

(** ** A type that satisfies the laws

    [parses] is the table of the texts a witness needs; [dump] renders every
    document alike. *)
Inductive jval : Type :=
| VNull
| VBool (b : bool)
| VNumber (z : Z)
| VString (s : string)
| VArray (items : list jval)
| VObject (members : list (string * jval)).

Definition jval_view (j : jval) : jview jval :=
  match j with
  | VNull => JNull
  | VBool b => JBool b
  | VNumber z => JNumber z
  | VString s => JString s
  | VArray l => JArray l
  | VObject ms => JObject ms
  end.

Definition jval_value {A : Type} (conv : jview jval -> option A) (j : jval) (k : string) (d : A)
    : outcome A :=
  match j with
  | VObject ms =>
     match assoc k ms with
     | None => Return d
     | Some v => match conv (jval_view v) with
                 | Some a => Return a
                 | None => Throw "type_error.302"
                 end
     end
  | _ => Throw "type_error.306"
  end.

Definition jval_dumps (j : jval) : bool :=
  match j with
  | VObject ms =>
     forallb (fun p => match p.2 with
                       | VString s => utf8_tail 0 (bytes_of_string s)
                       | _ => true end) ms
  | _ => true
  end.

Section Concrete.
  Context (parses : string -> string + jval).

Definition jval_json : Json jval := {|
  json_parse := parses;
  json_dump := fun j => if jval_dumps j then Return "{}" else Throw "type_error.316";
  json_is_object := fun j => match j with VObject _ => true | _ => false end;
  json_is_array := fun j => match j with VArray _ => true | _ => false end;
  json_is_string := fun j => match j with VString _ => true | _ => false end;
  json_contains := fun j k =>
    match j with VObject ms => bool_decide (is_Some (assoc k ms)) | _ => false end;
  json_find := fun j k => match j with VObject ms => assoc k ms | _ => None end;
  json_items := fun j => match j with VArray l => l | _ => [] end;
  json_get_string := fun j => match j with VString s => Return s | _ => Throw "type_error.302" end;
  json_value_string := jval_value conv_string;
  json_value_int := jval_value (conv_arith i32);
  json_value_uint := jval_value (conv_arith u32);
  json_value_bool := jval_value conv_bool;
  json_null := VNull;
  json_bool := VBool;
  json_number := VNumber;
  json_string := VString;
  json_array := VArray;
  json_object := VObject;
|}.

Lemma jval_value_law {A : Type} (conv : jview jval -> option A) (j : jval) (k : string) (d : A) :
  value_law jval_view conv j k d (jval_value conv j k d).
Proof.
  unfold value_law, jval_value. destruct j; cbn; eauto.
  destruct (assoc k members) as [v|]; [|done]. destruct (conv (jval_view v)); eauto.
Qed.

Definition jval_laws : @JsonLaws jval jval_json.
Proof.
  refine (@Build_JsonLaws jval jval_json jval_view _ _ _ _ _ _ _ _ _ _ _ _ _ _ _ _ _ _);
    cbn; try (by intros; eauto); try (by intros; apply jval_value_law).
  - by intros [].
  - by intros [].
  - by intros [].
  - by intros [] ?.
  - by intros [] k ms [= ->].
  - by intros [] l [= ->].
  - intros []; cbn; eauto.
  - intros j s. destruct (jval_dumps j); [|done]. by intros [= <-].
  - intros ms k s Hin Hbad. assert (jval_dumps (VObject ms) = false) as Hd; [|cbn in Hd; rewrite Hd; eauto].
    cbn. apply not_true_iff_false. rewrite forallb_forall. intros Hall.
    apply list_elem_of_In in Hin. specialize (Hall _ Hin). cbn in Hall. congruence.
Defined.
End Concrete.

(** ** Reading back what was built *)
Section ReadBack.
  Context {J : Type} `{!Json J} `{!JsonLaws J}.

Lemma value_law_object {A : Type} (conv : jview J -> option A) ms k (v : J) (d a : A) r :
  NoDup ms.*1 -> assoc k ms = Some v -> conv (json_view v) = Some a ->
  value_law json_view conv (json_object ms) k d r -> r = Return a.
Proof. intros Hnd Hk Ha. unfold value_law. by rewrite view_object, Hk, Ha. Qed.

Lemma value_string_object ms k (s d : string) :
  NoDup ms.*1 -> assoc k ms = Some (json_string s) ->
  json_value_string (json_object ms) k d = Return s.
Proof.
  intros Hnd Hk. eapply (value_law_object conv_string ms k _ d s); [done|done| |].
  - by rewrite view_string.
  - apply value_string_view.
Qed.

Lemma value_bool_object ms k (b d : bool) :
  NoDup ms.*1 -> assoc k ms = Some (json_bool b) ->
  json_value_bool (json_object ms) k d = Return b.
Proof.
  intros Hnd Hk. eapply (value_law_object conv_bool ms k _ d b); [done|done| |].
  - by rewrite view_bool.
  - apply value_bool_view.
Qed.

Lemma value_int_object ms k (z d : Z) :
  NoDup ms.*1 -> assoc k ms = Some (json_number z) ->
  json_value_int (json_object ms) k d = Return (i32 z).
Proof.
  intros Hnd Hk. eapply (value_law_object (conv_arith i32) ms k _ d); [done|done| |].
  - by rewrite view_number.
  - apply value_int_view.
Qed.

Lemma value_uint_object ms k (z d : Z) :
  NoDup ms.*1 -> assoc k ms = Some (json_number z) ->
  json_value_uint (json_object ms) k d = Return (u32 z).
Proof.
  intros Hnd Hk. eapply (value_law_object (conv_arith u32) ms k _ d); [done|done| |].
  - by rewrite view_number.
  - apply value_uint_view.
Qed.

(** A typed read of a value that is not an object always throws. *)
Lemma value_string_not_object (j : J) k d :
  json_is_object j = false -> exists w, json_value_string j k d = Throw w.
Proof.
  rewrite is_object_view. pose proof (value_string_view j k d) as Hv. unfold value_law in Hv.
  by destruct (json_view j).
Qed.

Lemma is_object_object ms : NoDup ms.*1 -> json_is_object (J:=J) (json_object ms) = true.
Proof. intros. by rewrite is_object_view, view_object. Qed.

Lemma is_array_array (l : list J) : json_is_array (json_array l) = true.
Proof. by rewrite is_array_view, view_array. Qed.

Lemma items_array (l : list J) : json_items (json_array l) = l.
Proof. apply items_view, view_array. Qed.

Lemma is_string_string (s : string) : json_is_string (J:=J) (json_string s) = true.
Proof. by rewrite is_string_view, view_string. Qed.

Lemma get_string_string (s : string) : json_get_string (J:=J) (json_string s) = Return s.
Proof. pose proof (get_string_view (json_string (J:=J) s)) as H. by rewrite view_string in H. Qed.

Lemma find_object ms k : NoDup ms.*1 -> json_find (J:=J) (json_object ms) k = assoc k ms.
Proof. intros. by apply find_view, view_object. Qed.

Lemma contains_object ms k :
  NoDup ms.*1 -> json_contains (J:=J) (json_object ms) k = bool_decide (is_Some (assoc k ms)).
Proof. intros. by rewrite contains_view, view_object. Qed.
End ReadBack.

Create Rewrite HintDb json.
#[export] Hint Rewrite @is_array_array @items_array @is_string_string @get_string_string
  using (typeclasses eauto) : json.

(** Solves the duplicate-freedom of a literal list of member names. *)
Ltac solve_nodup := apply (bool_decide_unpack _); vm_compute; exact I.
