(* ===== verification/JsonText.v ===== *)
(** * JSON texts

    The laws of Json.v leave open what json::parse and dump() do to a text.
    Here is one more instance of them, which reads and writes real texts, so
    that the development can be run on documents as they are stored: the
    policies of tests/ (RepositoryTests.v) and the requests and replies of the
    control socket.  It knows integers only, and escapes only below \u0100;
    members are written in the order of their keys, as the library does. *)

From S2P Require Import Prelude Json.

Local Open Scope Z_scope.

(** ** Writing *)
Definition quote : string := String (ascii_of_nat 34) "".

Definition hex_digit (n : nat) : ascii := ascii_of_nat (if (n <? 10)%nat then n + 48 else n + 87).

Definition backslash (t : string) : string := String (ascii_of_nat 92) t.

Definition write_char (c : ascii) : string :=
  let n := nat_of_ascii c in
  if (n =? 34)%nat then backslash quote
  else if (n =? 92)%nat then backslash (backslash "")
  else if (n =? 8)%nat then backslash "b"
  else if (n =? 12)%nat then backslash "f"
  else if (n =? 10)%nat then backslash "n"
  else if (n =? 13)%nat then backslash "r"
  else if (n =? 9)%nat then backslash "t"
  else if (n <? 32)%nat then backslash ("u00" +:+ String (hex_digit (n / 16)) (String (hex_digit (n mod 16)) ""))
  else String c "".

Fixpoint write_chars (s : string) : string :=
  match s with EmptyString => "" | String c s => write_char c +:+ write_chars s end.
Definition write_string (s : string) : string := quote +:+ write_chars s +:+ quote.

Fixpoint join (l : list string) : string :=
  match l with
  | [] => ""
  | [s] => s
  | s :: l => s +:+ "," +:+ join l
  end.

Definition write_number (z : Z) : string :=
  if z <? 0 then "-" +:+ to_string_u (- z) else to_string_u z.

(** The members of an object by their keys, as std::map keeps them. *)
Fixpoint insert_member (m : string * string) (ms : list (string * string)) : list (string * string) :=
  match ms with
  | [] => [m]
  | m' :: ms => if String.leb m.1 m'.1 then m :: m' :: ms else m' :: insert_member m ms
  end.
Definition sort_members (ms : list (string * string)) : list (string * string) := foldr insert_member [] ms.
Definition write_member (m : string * string) : string := write_string m.1 +:+ ":" +:+ m.2.

Fixpoint write_json (j : jval) : string :=
  match j with
  | VNull => "null"
  | VBool b => if b then "true" else "false"
  | VNumber z => write_number z
  | VString s => write_string s
  | VArray l => "[" +:+ join (map write_json l) +:+ "]"
  | VObject ms => "{" +:+ join (map write_member (sort_members (map (fun p => (p.1, write_json p.2)) ms))) +:+ "}"
  end.

(** All strings are well-formed UTF-8. *)
Fixpoint utf8_json (j : jval) : bool :=
  match j with
  | VString s => utf8_tail 0 (bytes_of_string s)
  | VArray l => forallb utf8_json l
  | VObject ms => forallb (fun p => utf8_tail 0 (bytes_of_string p.1) && utf8_json p.2) ms
  | _ => true
  end.

(** ** Reading *)
Fixpoint skip_ws (s : string) : string :=
  match s with
  | EmptyString => EmptyString
  | String c s' =>
     let n := nat_of_ascii c in
     if ((n =? 32) || (n =? 9) || (n =? 10) || (n =? 13))%nat then skip_ws s' else s
  end.

(** The rest of [s] after the word [w]. *)
Fixpoint strip (w s : string) : option string :=
  match w, s with
  | EmptyString, _ => Some s
  | String a w, String b s => if Ascii.eqb a b then strip w s else None
  | String _ _, EmptyString => None
  end.

Definition hex_value (c : ascii) : option nat :=
  let n := nat_of_ascii c in
  if ((48 <=? n) && (n <=? 57))%nat then Some (n - 48)%nat
  else if ((97 <=? n) && (n <=? 102))%nat then Some (n - 87)%nat
  else if ((65 <=? n) && (n <=? 70))%nat then Some (n - 55)%nat
  else None.

(** The character after a backslash, and what follows it. *)
Definition read_escape (s : string) : option (ascii * string) :=
  match s with
  | EmptyString => None
  | String c s =>
     let n := nat_of_ascii c in
     if ((n =? 34) || (n =? 92) || (n =? 47))%nat then Some (c, s)
     else if (n =? 98)%nat then Some (ascii_of_nat 8, s)
     else if (n =? 102)%nat then Some (ascii_of_nat 12, s)
     else if (n =? 110)%nat then Some (ascii_of_nat 10, s)
     else if (n =? 114)%nat then Some (ascii_of_nat 13, s)
     else if (n =? 116)%nat then Some (ascii_of_nat 9, s)
     else if (n =? 117)%nat then
       match strip "00" s with
       | Some (String a (String b s)) =>
          ha ← hex_value a; hb ← hex_value b; Some (ascii_of_nat (16 * ha + hb), s)
       | _ => None
       end
     else None
  end.

(** The string up to the closing quote; [fuel] bounds its characters. *)
Fixpoint read_chars (fuel : nat) (s : string) : option (string * string) :=
  match fuel, s with
  | S fuel, String c s =>
     let n := nat_of_ascii c in
     if (n =? 34)%nat then Some ("", s)
     else if (n =? 92)%nat then
       x ← read_escape s; y ← read_chars fuel x.2; Some (String x.1 y.1, y.2)
     else if (n <? 32)%nat then None
     else y ← read_chars fuel s; Some (String c y.1, y.2)
  | _, _ => None
  end.

Fixpoint read_digits (s : string) (acc : Z) : Z * string :=
  match s with
  | EmptyString => (acc, EmptyString)
  | String c s' =>
     let n := nat_of_ascii c in
     if ((48 <=? n) && (n <=? 57))%nat then read_digits s' (10 * acc + Z.of_nat (n - 48)) else (acc, s)
  end.

(** What is expected: a value, the rest of an array, the rest of an object. *)
Inductive reading := ReadValue | ReadItems | ReadMembers.

Fixpoint read_json (fuel : nat) (what : reading) (s : string) : option (jval * string) :=
  match fuel with
  | O => None
  | S fuel =>
    match what with
    | ReadValue =>
       let s := skip_ws s in
       match s with
       | EmptyString => None
       | String c rest =>
          let n := nat_of_ascii c in
          if (n =? 34)%nat then x ← read_chars fuel rest; Some (VString x.1, x.2)
          else if (n =? 91)%nat then
            match strip "]" (skip_ws rest) with Some rest => Some (VArray [], rest) | None => read_json fuel ReadItems rest end
          else if (n =? 123)%nat then
            match strip "}" (skip_ws rest) with Some rest => Some (VObject [], rest) | None => read_json fuel ReadMembers rest end
          else if ((48 <=? n) && (n <=? 57))%nat then let '(z, rest) := read_digits s 0 in Some (VNumber z, rest)
          else if (n =? 45)%nat then
            match rest with
            | String d _ => if ((48 <=? nat_of_ascii d) && (nat_of_ascii d <=? 57))%nat
                            then let '(z, rest) := read_digits rest 0 in Some (VNumber (- z), rest) else None
            | EmptyString => None
            end
          else match strip "null" s, strip "true" s, strip "false" s with
               | Some rest, _, _ => Some (VNull, rest)
               | _, Some rest, _ => Some (VBool true, rest)
               | _, _, Some rest => Some (VBool false, rest)
               | _, _, _ => None
               end
       end
    | ReadItems =>
       x ← read_json fuel ReadValue s;
       let rest := skip_ws x.2 in
       match strip "," rest, strip "]" rest with
       | Some rest, _ =>
          y ← read_json fuel ReadItems rest;
          match y.1 with VArray l => Some (VArray (x.1 :: l), y.2) | _ => None end
       | _, Some rest => Some (VArray [x.1], rest)
       | _, _ => None
       end
    | ReadMembers =>
       rest ← strip quote (skip_ws s);
       k ← read_chars fuel rest;
       rest ← strip ":" (skip_ws k.2);
       x ← read_json fuel ReadValue rest;
       let rest := skip_ws x.2 in
       match strip "," rest, strip "}" rest with
       | Some rest, _ =>
          y ← read_json fuel ReadMembers rest;
          match y.1 with VObject ms => Some (VObject ((k.1, x.1) :: ms), y.2) | _ => None end
       | _, Some rest => Some (VObject [(k.1, x.1)], rest)
       | _, _ => None
       end
    end
  end.

(** Every call takes a character or goes from a list to its first item. *)
Definition parse_text (s : string) : string + jval :=
  match read_json (2 * String.length s + 2) ReadValue s with
  | Some (j, rest) => if str_empty (skip_ws rest) then inr j else inl "parse_error.101"
  | None => inl "parse_error.101"
  end.

(** ** The instance *)
Definition dump_text (j : jval) : outcome string :=
  if utf8_json j then Return (write_json j) else Throw "type_error.316".

Definition text_json : Json jval := {|
  json_parse := parse_text;
  json_dump := dump_text;
  json_is_object := @json_is_object jval (jval_json parse_text);
  json_is_array := @json_is_array jval (jval_json parse_text);
  json_is_string := @json_is_string jval (jval_json parse_text);
  json_contains := @json_contains jval (jval_json parse_text);
  json_find := @json_find jval (jval_json parse_text);
  json_items := @json_items jval (jval_json parse_text);
  json_get_string := @json_get_string jval (jval_json parse_text);
  json_value_string := jval_value conv_string;
  json_value_int := jval_value (conv_arith i32);
  json_value_uint := jval_value (conv_arith u32);
  json_value_bool := jval_value conv_bool;
  json_null := VNull;
  json_bool := VBool;
  json_number := VNumber;
  json_string := VString;
  json_array := VArray;
  json_object := VObject;
|}.

(** ** It satisfies the laws *)
Definition no_newline_in (s : string) : bool := str_all (fun c => negb (Ascii.eqb c (ascii_of_nat 10))) s.

Lemma no_newline_app s t : no_newline_in (s +:+ t) = no_newline_in s && no_newline_in t.
Proof. apply str_all_app. Qed.

Lemma write_char_one_line c : no_newline_in (write_char c) = true.
Proof. by destruct c as [[] [] [] [] [] [] [] []]; vm_compute. Qed.

Lemma write_string_one_line s : no_newline_in (write_string s) = true.
Proof.
  unfold write_string. rewrite !no_newline_app, andb_true_r. cbn.
  induction s as [|c s IH]; [done|]. cbn [write_chars]. by rewrite no_newline_app, write_char_one_line.
Qed.

Lemma write_number_one_line z : no_newline_in (write_number z) = true.
Proof.
  assert (forall n, no_newline_in (to_string_u n) = true) as Hn.
  { intros n. eapply str_all_impl, to_string_u_digits. intros c Hc.
    destruct (Ascii.eqb_spec c (ascii_of_nat 10)) as [->|]; [by vm_compute in Hc|done]. }
  unfold write_number. destruct (z <? 0); [rewrite no_newline_app|]; cbn; apply Hn.
Qed.

Lemma join_one_line l : Forall (fun s => no_newline_in s = true) l -> no_newline_in (join l) = true.
Proof.
  induction 1 as [|s l Hs Hl IH]; [done|]. destruct l as [|t l]; [done|].
  cbn [join] in *. by rewrite !no_newline_app, Hs, IH.
Qed.

Lemma insert_member_Forall (P : string * string -> Prop) m ms :
  P m -> Forall P ms -> Forall P (insert_member m ms).
Proof.
  intros Hm Hms. induction Hms as [|m' ms Hm' Hms IH]; cbn; [by apply Forall_singleton|].
  destruct (String.leb m.1 m'.1); rewrite ?Forall_cons; done.
Qed.

Lemma sort_members_Forall (P : string * string -> Prop) ms : Forall P ms -> Forall P (sort_members ms).
Proof. induction 1; cbn; [done|by apply insert_member_Forall]. Qed.

(** Induction through the arrays and objects of a value. *)
Lemma jval_nested_ind (P : jval -> Prop) :
  P VNull -> (forall b, P (VBool b)) -> (forall z, P (VNumber z)) -> (forall s, P (VString s)) ->
  (forall l, Forall P l -> P (VArray l)) -> (forall ms, Forall (fun p => P p.2) ms -> P (VObject ms)) ->
  forall j, P j.
Proof.
  intros Hnull Hbool Hnum Hstr Harr Hobj. fix IH 1. intros [|b|z|s|l|ms]; [exact Hnull|apply Hbool|apply Hnum|apply Hstr|..].
  - apply Harr. induction l as [|j l IHl]; constructor; [apply IH|exact IHl].
  - apply Hobj. induction ms as [|[k j] ms IHl]; constructor; [apply IH|exact IHl].
Qed.

Lemma write_json_one_line j : no_newline_in (write_json j) = true.
Proof.
  induction j as [|b|z|s|l IH|ms IH] using jval_nested_ind; [done|by destruct b|apply write_number_one_line|apply write_string_one_line|..];
    cbn [write_json]; rewrite !no_newline_app; apply andb_true_iff; (split; [done|]);
    apply andb_true_iff; (split; [|done]); apply join_one_line; rewrite Forall_map.
  - done.
  - apply sort_members_Forall, Forall_map. eapply Forall_impl; [exact IH|]. intros p Hp. unfold write_member.
    cbn in Hp |- *. by rewrite !no_newline_app, write_string_one_line, Hp.
Qed.

Definition text_laws : @JsonLaws jval text_json.
Proof.
  refine (@Build_JsonLaws jval text_json jval_view _ _ _ _ _ _ _ _ _ _ _ _ _ _ _ _ _ _);
    cbn; try (by intros; eauto); try (by intros; apply jval_value_law).
  - by intros [].
  - by intros [].
  - by intros [].
  - by intros [] ?.
  - by intros [] k ms [= ->].
  - by intros [] l [= ->].
  - intros []; cbn; eauto.
  - unfold dump_text. intros j s. destruct (utf8_json j); [|done]. intros [= <-].
    pose proof (write_json_one_line j) as Hw. unfold has_newline. unfold no_newline_in in Hw. by rewrite Hw.
  - intros ms k s Hin Hbad. unfold dump_text.
    assert (utf8_json (VObject ms) = false) as Hd; [|cbn in Hd; cbn; rewrite Hd; eauto].
    cbn. apply not_true_iff_false. rewrite forallb_forall. intros Hall.
    apply list_elem_of_In in Hin. specialize (Hall _ Hin). cbn in Hall.
    apply andb_true_iff in Hall as [_ Hall]. congruence.
Defined.
