(* ===== verification/ConfigParser.v ===== *)
(** * Reading a policy: include/fileguard/config_parser.hpp and
    src/config_parser.cpp

    [from_json] is the single input path of policy documents.  Every early
    return and every library call that can throw is kept: a call has a value,
    an error message, or an exception that escapes ([call]). *)

From S2P Require Import Prelude Policy Json.

Local Open Scope Z_scope.

(** What [std::ifstream] and [ss << in.rdbuf()] make of a file: it cannot be
    opened, reading fails, or its bytes. *)
Inductive file_read :=
| CannotOpen
| ReadError
| Contents (text : string).

Section ConfigParser.
  Context {J : Type} `{!Json J}.

Definition parse_operation (j : J) : call Operation :=
  if negb (json_is_string j) then Error "'operation' must be a string"
  else
    op ← of_outcome (json_get_string j);
    if String.eqb op "OPEN" then Value Open
    else Error ("unsupported operation '" +:+ op +:+ "' (MVP supports OPEN only)").

Definition parse_action (j : J) : call Action :=
  if negb (json_is_string j) then Error "'action' must be a string"
  else
    a ← of_outcome (json_get_string j);
    if String.eqb a "ALLOW" then Value Allow
    else if String.eqb a "DENY" then Value Deny
    else Error ("invalid action '" +:+ a +:+ "' (expected ALLOW or DENY)").

Definition parse_process (j : J) : call ProcessIdentity :=
  if negb (json_is_object j) then
    Error "'process' must be an object with 'type' and 'value'"
  else
    type ← of_outcome (json_value_string j "type" "");
    if negb (String.eqb type "exe_path") then
      Error ("unsupported process identity type '" +:+ type +:+ "' (MVP supports exe_path only)")
    else
      match json_find j "value" with
      | None => Error "'process.value' must be a non-empty path"
      | Some value =>
         if negb (json_is_string value) then Error "'process.value' must be a non-empty path"
         else
           v ← of_outcome (json_get_string value);
           if str_empty v then Error "'process.value' must be a non-empty path"
           else if negb (is_absolute v) then
             Error ("process path must be absolute: '" +:+ v +:+ "'")
           else Value (MkProcessIdentity ExePath v)
      end.

(** [if (j.contains(key)) { auto x = parse(j[key]); if (!x) return err(...) }]:
    the parsed member, or [default] without one. *)
Definition member {A : Type} (j : J) (key : string) (parse : J -> call A) (default : A) : call A :=
  if json_contains j key then
    match json_find j key with
    | Some v => parse v
    | None => Value default
    end
  else Value default.

Definition parse_defaults (defaults : J) : call Action :=
  if negb (json_is_object defaults) then Error "'defaults' must be an object"
  else member defaults "action" parse_action Deny.

Definition parse_resource (item : J) : call ResourceIdentity :=
  if negb (json_is_object item) then Error "each protected resource must be an object"
  else
    path ← of_outcome (json_value_string item "path" "");
    if str_empty path || negb (is_absolute path) then
      Error ("protected resource path must be absolute: '" +:+ path +:+ "'")
    else
      op ← member item "operation" (fun v => Some <$> parse_operation v) None;
      Value (MkResourceIdentity path op).

Definition parse_rule (item : J) : call PolicyRule :=
  if negb (json_is_object item) then Error "each rule must be an object"
  else
    id ← of_outcome (json_value_string item "id" "");
    resource ← of_outcome (json_value_string item "resource" "");
    op ← member item "operation" parse_operation Open;
    proc ← member item "process" parse_process ProcessIdentity_default;
    act ← member item "action" parse_action Allow;
    Value (MkPolicyRule id (MkResourceIdentity resource None) proc op act).

Definition parse_list {A : Type} (what : string) (parse : J -> call A) (l : J)
    : call (list A) :=
  if negb (json_is_array l) then Error ("'" +:+ what +:+ "' must be an array")
  else call_mapM parse (json_items l).

(** ConfigParser::from_json *)
Definition from_json (json_text : string) : call Policy :=
  match json_parse json_text with
  | inl what => Error ("policy JSON parse error: " +:+ what)
  | inr root =>
     if negb (json_is_object root) then Error "policy must be a JSON object"
     else
       version ← of_outcome (json_value_int root "version" 0);
       default_action ← member root "defaults" parse_defaults Deny;
       protected_resources ← member root "protected_resources"
                               (parse_list "protected_resources" parse_resource) [];
       rules ← member root "rules" (parse_list "rules" parse_rule) [];
       let policy := MkPolicy version default_action protected_resources rules in
       _ ← of_result (validate policy);
       Value policy
  end.

(** ConfigParser::from_file *)
Definition from_file (read : string -> file_read) (path : string) : call Policy :=
  match read path with
  | CannotOpen => Error ("cannot open policy file '" +:+ path +:+ "'")
  | ReadError => Error ("error reading policy file '" +:+ path +:+ "'")
  | Contents text => from_json text
  end.
End ConfigParser.

(** ** What is accepted *)

Definition named_action (a : Action) : Prop := a = Allow \/ a = Deny.

(** The policies a configuration can express: well formed, with enumerator
    actions, absolute process paths and a 32-bit version. *)
Record policy_expressible (p : Policy) : Prop := {
  ex_wf : policy_wf p;
  ex_version : version p < 2 ^ 31;
  ex_default : named_action (default_action p);
  ex_actions : Forall (fun r => named_action (rule_action r)) (rules p);
  ex_processes : Forall (fun r => is_absolute (proc_value (rule_process r)) = true) (rules p);
  ex_rule_ops : Forall (fun r => res_operation (rule_resource r) = None) (rules p);
}.

Section Accepted.
  Context {J : Type} `{!Json J} `{!JsonLaws J}.

Lemma member_Value {A : Type} (j : J) (key : string) (parse : J -> call A) (d a : A) :
  member j key parse d = Value a -> a = d \/ exists v, parse v = Value a.
Proof.
  unfold member. destruct (json_contains j key); [|by intros [= ->]; left].
  destruct (json_find j key) as [v|]; [by right; exists v|by intros [= ->]; left].
Qed.

Lemma parse_action_Value (j : J) (a : Action) : parse_action j = Value a -> named_action a.
Proof.
  unfold parse_action, named_action. destruct (negb _); [done|].
  intros (s & _ & H)%call_bind_Value. repeat case_match; simplify_eq; auto.
Qed.

Lemma parse_operation_Value (j : J) (op : Operation) : parse_operation j = Value op -> op = Open.
Proof.
  unfold parse_operation. destruct (negb _); [done|].
  intros (s & _ & H)%call_bind_Value. by case_match; simplify_eq.
Qed.

Lemma parse_process_Value (j : J) (p : ProcessIdentity) :
  parse_process j = Value p -> is_absolute (proc_value p) = true.
Proof.
  unfold parse_process. destruct (negb _); [done|].
  intros (t & _ & H)%call_bind_Value. destruct (negb _); [done|].
  destruct (json_find j "value") as [v|]; [|done]. destruct (negb _); [done|].
  apply call_bind_Value in H as (s & _ & H). destruct (str_empty s); [done|].
  destruct (is_absolute s) eqn:Hs; [|done]. by simplify_eq/=.
Qed.

Lemma parse_rule_Value (j : J) (r : PolicyRule) :
  parse_rule j = Value r ->
  named_action (rule_action r) /\ res_operation (rule_resource r) = None /\
  (proc_value (rule_process r) = "" \/ is_absolute (proc_value (rule_process r)) = true).
Proof.
  unfold parse_rule. destruct (negb _); [done|].
  intros (id & _ & H)%call_bind_Value. apply call_bind_Value in H as (res & _ & H).
  apply call_bind_Value in H as (op & _ & H).
  apply call_bind_Value in H as (pr & Hpr & H).
  apply call_bind_Value in H as (a & Ha & H). simplify_eq; cbn. split_and!.
  - apply member_Value in Ha as [->|(v & Hv)]; [by left|by eapply parse_action_Value].
  - done.
  - apply member_Value in Hpr as [->|(v & Hv)]; [by left|right; by eapply parse_process_Value].
Qed.

Lemma json_value_int_range (j : J) (k : string) (d z : Z) :
  in_s 32 d -> json_value_int j k d = Return z -> in_s 32 z.
Proof.
  intros Hd Hz. pose proof (value_int_view j k d) as Hv. rewrite Hz in Hv.
  unfold value_law in Hv. destruct (json_view j); try (by destruct Hv).
  destruct (assoc k members) as [v|]; [|by simplify_eq].
  destruct (json_view v); cbn in Hv; try (by destruct Hv); simplify_eq;
    [by destruct b|by apply wrap_s_in].
Qed.
End Accepted.

(** ** Writing a policy as a document *)
Section Encode.
  Context {J : Type} `{!Json J}.

Definition resource_json (r : ResourceIdentity) : J :=
  json_object (("path", json_string (res_path r)) ::
    match res_operation r with Some _ => [("operation", json_string "OPEN")] | None => [] end).

Definition process_json (p : ProcessIdentity) : J :=
  json_object [("type", json_string "exe_path"); ("value", json_string (proc_value p))].

Definition rule_json (r : PolicyRule) : J :=
  json_object [("id", json_string (rule_id r)); ("resource", json_string (res_path (rule_resource r)));
               ("operation", json_string "OPEN"); ("process", process_json (rule_process r));
               ("action", json_string (action_name (rule_action r)))].

Definition policy_json (p : Policy) : J :=
  json_object [("version", json_number (version p));
               ("defaults", json_object [("action", json_string (action_name (default_action p)))]);
               ("protected_resources", json_array (resource_json <$> protected_resources p));
               ("rules", json_array (rule_json <$> rules p))].
End Encode.

Section RoundTrip.
  Context {J : Type} `{!Json J} `{!JsonLaws J}.

Lemma member_view {A : Type} (j : J) ms key (parse : J -> call A) (d : A) :
  json_view j = JObject ms ->
  member j key parse d = match assoc key ms with Some v => parse v | None => Value d end.
Proof.
  intros Hj. unfold member. rewrite contains_view, Hj, (find_view j key ms) by done.
  by destruct (assoc key ms).
Qed.

Lemma parse_list_view {A : Type} (what : string) (parse : J -> call A) (l : J) (items : list J) :
  json_view l = JArray items -> parse_list what parse l = call_mapM parse items.
Proof. intros Hl. unfold parse_list. by rewrite is_array_view, Hl, (items_view l items). Qed.

Lemma parse_resource_throws (item path : J) (fields : list (string * J)) :
  json_view item = JObject fields -> assoc "path" fields = Some path ->
  conv_string (json_view path) = None -> exists w, parse_resource item = Raise w.
Proof.
  intros Hi Hp Hconv. unfold parse_resource. rewrite is_object_view, Hi. cbn.
  pose proof (value_string_view item "path" "") as Hpath. unfold value_law in Hpath.
  rewrite Hi, Hp, Hconv in Hpath. destruct Hpath as [w ->]. by exists w.
Qed.

Lemma member_object {A : Type} ms key (parse : J -> call A) (d : A) :
  NoDup ms.*1 ->
  member (json_object ms) key parse d =
  match assoc key ms with Some v => parse v | None => Value d end.
Proof.
  intros Hnd. unfold member. rewrite contains_object, find_object by done.
  by destruct (assoc key ms).
Qed.

Lemma parse_action_json (a : Action) :
  named_action a -> parse_action (J:=J) (json_string (action_name a)) = Value a.
Proof.
  intros Ha. unfold parse_action. rewrite is_string_string, get_string_string.
  by destruct Ha as [-> | ->].
Qed.

Lemma parse_operation_json : parse_operation (J:=J) (json_string "OPEN") = Value Open.
Proof. unfold parse_operation. by rewrite is_string_string, get_string_string. Qed.

Lemma is_absolute_front (s : string) : is_absolute s = true -> str_empty s = false.
Proof. by destruct s. Qed.

Lemma parse_process_json (p : ProcessIdentity) :
  proc_type p = ExePath -> is_absolute (proc_value p) = true ->
  parse_process (J:=J) (process_json p) = Value p.
Proof.
  intros Ht Ha. unfold parse_process, process_json.
  rewrite is_object_object by solve_nodup. cbn [negb].
  rewrite (value_string_object _ "type" "exe_path") by (solve_nodup || done).
  cbn [of_outcome mbind call_bind]. rewrite find_object by solve_nodup.
  cbn. rewrite is_string_string, get_string_string. cbn.
  rewrite (is_absolute_front _ Ha), Ha. destruct p; cbn in *. by subst.
Qed.

Lemma parse_resource_json (r : ResourceIdentity) :
  resource_wf r -> parse_resource (J:=J) (resource_json r) = Value r.
Proof.
  intros [Ha Hop]. unfold parse_resource, resource_json. destruct r as [path [op|]]; cbn in *.
  - destruct Hop as [|[= ->]]; [done|].
    rewrite is_object_object by solve_nodup. cbn [negb].
    rewrite (value_string_object _ "path" path) by (solve_nodup || done). cbn.
    rewrite (is_absolute_front _ Ha), Ha. cbn.
    rewrite member_object by solve_nodup. cbn. by rewrite parse_operation_json.
  - rewrite is_object_object by solve_nodup. cbn [negb].
    rewrite (value_string_object _ "path" path) by (solve_nodup || done). cbn.
    rewrite (is_absolute_front _ Ha), Ha. cbn. by rewrite member_object by solve_nodup.
Qed.

Lemma parse_rule_json (r : PolicyRule) (paths : list string) :
  rule_wf paths r -> named_action (rule_action r) ->
  is_absolute (proc_value (rule_process r)) = true -> res_operation (rule_resource r) = None ->
  parse_rule (J:=J) (rule_json r) = Value r.
Proof.
  intros (_ & _ & _ & Ht & _ & Hop) Hact Habs Hres. unfold parse_rule, rule_json.
  rewrite is_object_object by solve_nodup. cbn [negb].
  rewrite (value_string_object _ "id" (rule_id r)) by (solve_nodup || done).
  rewrite (value_string_object _ "resource" (res_path (rule_resource r))) by (solve_nodup || done).
  rewrite !member_object by solve_nodup. cbn.
  rewrite parse_operation_json, parse_process_json, parse_action_json by done. cbn.
  destruct r as [id [path o] pr op act]; cbn in *. by subst.
Qed.
End RoundTrip.

(** ** Properties *)
Section Properties.
  Context {J : Type} `{!Json J} `{!JsonLaws J}.

(** A parsed policy is valid: whatever the text, a policy [from_json]
    returns passes [Policy::validate], has only the enumerators as actions,
    absolute process paths and a non-negative 32-bit version: a document can
    never install anything else. *)
Lemma from_json_sound (text : string) (p : Policy) :
  from_json (J:=J) text = Value p -> policy_expressible p.
Proof.
  unfold from_json. destruct (json_parse text) as [|root]; [done|].
  destruct (negb _); [done|]. intros H.
  apply call_bind_Value in H as (ver & Hver & H). apply call_bind_Value in H as (def & Hdef & H).
  apply call_bind_Value in H as (res & Hres & H). apply call_bind_Value in H as (rls & Hrls & H).
  apply call_bind_Value in H as ([] & Hval & [= <-]).
  apply of_result_Value, validate_Ok_unit in Hval.
  assert (forall r, r ∈ rls -> exists v : J, parse_rule v = Value r) as Hparsed.
  { apply member_Value in Hrls as [->|(v & Hv)]; [by intros r ?%elem_of_nil|].
    unfold parse_list in Hv. destruct (negb _); [done|]. apply call_mapM_Value in Hv.
    intros r Hr. apply list_elem_of_lookup in Hr as [i Hi].
    eapply Forall2_lookup_r in Hv as (x & _ & Hx); eauto. }
  split; cbn.
  - done.
  - destruct (json_value_int root "version" 0) eqn:Hi; [|done]. cbn in Hver. simplify_eq.
    apply (json_value_int_range root "version" 0 ver) in Hi; [|done]. unfold in_s in Hi. lia.
  - apply member_Value in Hdef as [->|(v & Hv)]; [by right|].
    unfold parse_defaults in Hv. destruct (negb _); [done|].
    apply member_Value in Hv as [->|(a & Ha)]; [by right|by eapply parse_action_Value].
  - apply Forall_forall. intros r Hr. destruct (Hparsed r Hr) as [v Hv]. by eapply parse_rule_Value.
  - apply Forall_forall. intros r Hr. destruct (Hparsed r Hr) as [v Hv].
    apply parse_rule_Value in Hv as (_ & _ & [He|Ha]); [|done].
    pose proof (wf_rules _ Hval) as Hwf. rewrite Forall_forall in Hwf.
    by destruct (Hwf r Hr) as (_ & _ & _ & _ & Hne & _).
  - apply Forall_forall. intros r Hr. destruct (Hparsed r Hr) as [v Hv]. by eapply parse_rule_Value.
Qed.

(** C22 (every expressible policy can be written): a text that the JSON library
    parses to the document [policy_json p] of an expressible policy [p] is
    read back by [from_json] as exactly [p]. *)
Theorem from_json_roundtrip (text : string) (p : Policy) :
  policy_expressible p -> json_parse text = inr (policy_json (J:=J) p) ->
  from_json (J:=J) text = Value p.
Proof.
  intros [Hwf Hver Hdef Hacts Hprocs Hops] Hparse. unfold from_json. rewrite Hparse.
  unfold policy_json. rewrite is_object_object by solve_nodup. cbn [negb].
  rewrite (value_int_object _ "version" (version p)) by (solve_nodup || done).
  cbn [of_outcome mbind call_bind]. rewrite wrap_s_small by
    (try done; pose proof (wf_version _ Hwf); unfold in_s; lia).
  rewrite !member_object by solve_nodup. cbn.
  unfold parse_defaults, parse_list.
  rewrite is_object_object, member_object by solve_nodup. cbn.
  rewrite parse_action_json by done. cbn. rewrite !is_array_array, !items_array. cbn.
  assert (call_mapM parse_resource (resource_json (J:=J) <$> protected_resources p) =
          Value (protected_resources p)) as ->.
  { apply call_mapM_Value, Forall2_fmap_l, Forall_Forall2_diag, Forall_forall.
    intros r Hr. apply parse_resource_json. pose proof (wf_resources _ Hwf) as Hrw.
    rewrite Forall_forall in Hrw. by apply Hrw. }
  assert (call_mapM parse_rule (rule_json (J:=J) <$> rules p) = Value (rules p)) as ->.
  { apply call_mapM_Value, Forall2_fmap_l, Forall_Forall2_diag, Forall_forall.
    intros r Hr. pose proof (wf_rules _ Hwf) as Hrw. rewrite Forall_forall in Hrw, Hacts, Hprocs, Hops.
    eapply parse_rule_json; eauto. }
  cbn. assert (validate p = ok_v) as Hv by by apply validate_iff_wf.
  destruct p as [v d rs rl]; cbn in *. by rewrite Hv.
Qed.

(** Mistyped documents escape as exceptions: the error channel does not
    cover the library's type errors.  A well-formed document whose "version"
    is a string, an array, an object or null, or whose first protected
    resource has a "path" that is not a string, makes [from_json] throw
    instead of returning an error. *)
Theorem from_json_throws (text : string) (root v : J) (ms : list (string * J)) :
  json_parse text = inr root -> json_view root = JObject ms ->
  (assoc "version" ms = Some v /\ conv_arith i32 (json_view v) = None) \/
  (assoc "version" ms = None /\ assoc "defaults" ms = None /\
   exists l item rest fields path,
     assoc "protected_resources" ms = Some l /\ json_view l = JArray (item :: rest) /\
     json_view item = JObject fields /\ assoc "path" fields = Some path /\
     conv_string (json_view path) = None) ->
  exists w, from_json (J:=J) text = Raise w.
Proof.
  intros Hparse Hroot Hcase. unfold from_json. rewrite Hparse, is_object_view, Hroot. cbn [negb].
  pose proof (value_int_view root "version" 0) as Hver. unfold value_law in Hver.
  rewrite Hroot in Hver.
  destruct Hcase as [(Hv & Hconv)|(Hv & Hd & l & item & rest & fields & path & Hl & Hlv & Hi & Hp & Hconv)];
    rewrite Hv in Hver.
  - rewrite Hconv in Hver. destruct Hver as [w ->]. by exists w.
  - rewrite Hver. cbn [of_outcome mbind call_bind].
    rewrite (member_view root ms "defaults"), Hd by done. cbn [mbind call_bind].
    rewrite (member_view root ms "protected_resources"), Hl by done.
    rewrite (parse_list_view _ _ l (item :: rest)) by done. cbn [call_mapM].
    destruct (parse_resource_throws item path fields Hi Hp Hconv) as [w ->]. by exists w.
Qed.
End Properties.

(** ** Concrete documents *)

Definition policy_text : string := "policy".
Definition sample_json_policy : Policy :=
  MkPolicy 3 Deny [MkResourceIdentity "/protected/secret.txt" (Some Open)]
    [MkPolicyRule "allow-backup" (MkResourceIdentity "/protected/secret.txt" None)
       (MkProcessIdentity ExePath "/usr/local/bin/backup-agent") Open Allow].
Definition no_texts (text : string) : string + jval := inl "parse error".
Definition sample_texts (text : string) : string + jval :=
  if String.eqb text policy_text then inr (@policy_json jval (jval_json no_texts) sample_json_policy)
  else if String.eqb text "mistyped" then inr (VObject [("version", VString "3")])
  else inl "parse error".
Definition sample_json : Json jval := jval_json sample_texts.
Definition sample_json_laws : @JsonLaws jval sample_json := jval_laws sample_texts.

Lemma sample_expressible : policy_expressible sample_json_policy.
Proof.
  split; cbn.
  - apply validate_iff_wf. vm_compute. reflexivity.
  - done.
  - by right.
  - repeat constructor.
  - by repeat constructor.
  - by repeat constructor.
Qed.

Lemma from_json_roundtrip_witness :
  @from_json jval sample_json policy_text = Value sample_json_policy.
Proof.
  apply (@from_json_roundtrip jval sample_json sample_json_laws policy_text sample_json_policy
           sample_expressible).
  reflexivity.
Defined.

Lemma from_json_sound_witness : policy_expressible sample_json_policy.
Proof.
  apply (@from_json_sound jval sample_json sample_json_laws policy_text sample_json_policy).
  vm_compute. reflexivity.
Defined.

Lemma from_json_throws_witness : exists w, @from_json jval sample_json "mistyped" = Raise w.
Proof.
  apply (@from_json_throws jval sample_json sample_json_laws "mistyped"
           (VObject [("version", VString "3")]) (VString "3") [("version", VString "3")]
           eq_refl eq_refl).
  left. split; reflexivity.
Defined.

(** A rule without an "action" member is an ALLOW rule. *)
Example rule_without_action :
  @parse_rule jval sample_json
    (VObject [("id", VString "r"); ("resource", VString "/a");
              ("process", VObject [("type", VString "exe_path"); ("value", VString "/b")])]) =
  Value (MkPolicyRule "r" (MkResourceIdentity "/a" None) (MkProcessIdentity ExePath "/b") Open Allow).
Proof. vm_compute. reflexivity. Qed.
