(* ===== verification/EventSink.v ===== *)
(** * Event sinks: include/fileguard/event_sink.hpp and src/event_sink.cpp

    The console table, the NDJSON log and the set of sinks.  A sink's state is
    what has been written to its stream; writing the JSON form of an event can
    throw ([outcome]), as [dump()] does for bytes that are not UTF-8. *)

From S2P Require Import Prelude Policy DecisionEngine SecurityEvent Json.

Definition kPidW : nat := 8.
Definition kUidW : nat := 6.
Definition kCommW : nat := 16.
Definition kProcW : nat := 36.
Definition kFileW : nat := 44.
Definition kOpW : nat := 6.
Definition kActionW : nat := 7.
Definition kReasonW : nat := 20.

Definition str_take (n : nat) (s : string) : string := String.substring 0 n s.

Definition truncate (s : string) (w : nat) : string :=
  if (String.length s <=? w)%nat then s
  else if (w <=? 3)%nat then str_take w s
  else str_take (w - 3) s +:+ "...".

Fixpoint str_repeat (n : nat) (c : ascii) : string :=
  match n with O => "" | S n => String c (str_repeat n c) end.

(** [out << std::left << std::setw(w) << s]: padded on the right to at least
    [w] characters. *)
Definition setw_left (w : nat) (s : string) : string :=
  s +:+ str_repeat (w - String.length s) " ".

Definition newline : string := String (ascii_of_nat 10) "".

Definition console_header : string :=
  setw_left kPidW "PID" +:+ setw_left kUidW "UID" +:+ setw_left kCommW "COMM" +:+
  setw_left kProcW "PROCESS" +:+ setw_left kFileW "FILE" +:+ setw_left kOpW "OP" +:+
  setw_left kActionW "ACTION" +:+ setw_left kReasonW "REASON" +:+ newline +:+
  str_repeat (kPidW + kUidW + kCommW + kProcW + kFileW + kOpW + kActionW + kReasonW) "-" +:+
  newline.

Definition console_row (e : SecurityEvent) : string :=
  setw_left kPidW (to_string_u (se_pid e)) +:+ setw_left kUidW (to_string_u (se_uid e)) +:+
  setw_left kCommW (truncate (se_comm e) kCommW) +:+
  setw_left kProcW (truncate (se_process_path e) kProcW) +:+
  setw_left kFileW (truncate (se_resource_path e) kFileW) +:+
  setw_left kOpW (operation_name (se_operation e)) +:+
  setw_left kActionW (action_name (se_action e)) +:+
  setw_left kReasonW (reason_name (se_reason e)) +:+ newline.

Record ConsoleSink := MkConsoleSink { console_out : string; header_printed_ : bool }.

Definition console_write (s : ConsoleSink) (e : SecurityEvent) : ConsoleSink :=
  let out := if header_printed_ s then console_out s else console_out s +:+ console_header in
  MkConsoleSink (out +:+ console_row e) true.

Section JsonSink.
  Context {J : Type} `{!Json J}.

(** The JSON object of an event, as the log and the event stream write it. *)
Definition event_object (e : SecurityEvent) : J :=
  json_object
    [("timestamp", json_string (se_timestamp e));
     ("pid", json_number (se_pid e));
     ("tgid", json_number (se_tgid e));
     ("uid", json_number (se_uid e));
     ("gid", json_number (se_gid e));
     ("comm", json_string (se_comm e));
     ("process", json_string (se_process_path e));
     ("resource", json_string (se_resource_path e));
     ("operation", json_string (operation_name (se_operation e)));
     ("action", json_string (action_name (se_action e)));
     ("reason", json_string (reason_name (se_reason e)));
     ("rule_id", json_number (se_rule_id e))].

Definition json_write (out : string) (e : SecurityEvent) : outcome string :=
  text ← json_dump (event_object e);
  Return (out +:+ text +:+ newline).

(** The sinks a [SinkSet] can hold. *)
Inductive ISink :=
| SinkConsole (s : ConsoleSink)
| SinkJson (out : string).

Definition sink_write (e : SecurityEvent) (s : ISink) : outcome ISink :=
  match s with
  | SinkConsole c => Return (SinkConsole (console_write c e))
  | SinkJson out => out' ← json_write out e; Return (SinkJson out')
  end.

(** SinkSet::write: every sink in turn. *)
Fixpoint sinks_write (sinks_ : list ISink) (e : SecurityEvent) : outcome (list ISink) :=
  match sinks_ with
  | [] => Return []
  | s :: sinks_ =>
     s' ← sink_write e s;
     rest ← sinks_write sinks_ e;
     Return (s' :: rest)
  end.

Definition sinks_add (sinks_ : list ISink) (s : ISink) : list ISink := sinks_ ++ [s].

Definition sink_output (s : ISink) : string :=
  match s with SinkConsole c => console_out c | SinkJson out => out end.
End JsonSink.

(** ** Lemmas *)

Lemma str_repeat_length (n : nat) (c : ascii) : String.length (str_repeat n c) = n.
Proof. induction n as [|n IH]; cbn; auto. Qed.

Lemma setw_left_length (w : nat) (s : string) :
  String.length (setw_left w s) = Nat.max w (String.length s).
Proof. unfold setw_left. rewrite str_length_app, str_repeat_length. lia. Qed.

Lemma str_take_length (n : nat) (s : string) :
  n <= String.length s -> String.length (str_take n s) = n.
Proof.
  unfold str_take. revert s; induction n as [|n IH]; intros [|c s] Hn; cbn in *; try lia.
  rewrite IH; lia.
Qed.

Lemma str_take_prefix (n : nat) (s : string) : exists rest, s = str_take n s +:+ rest.
Proof.
  unfold str_take. revert s; induction n as [|n IH]; intros [|c s]; cbn.
  - by exists "".
  - by exists (String c s).
  - by exists "".
  - destruct (IH s) as [rest Hr]. exists rest. by rewrite str_app_cons, <- Hr.
Qed.

Lemma truncate_length (s : string) (w : nat) : String.length (truncate s w) <= w.
Proof.
  unfold truncate. destruct (Nat.leb_spec (String.length s) w); [done|].
  destruct (Nat.leb_spec w 3).
  - rewrite str_take_length; lia.
  - rewrite str_length_app, str_take_length by lia. cbn. lia.
Qed.

Lemma setw_truncate_length (s : string) (w : nat) :
  String.length (setw_left w (truncate s w)) = w.
Proof. rewrite setw_left_length. pose proof (truncate_length s w). lia. Qed.

Lemma operation_name_length (op : Operation) : String.length (operation_name op) <= kOpW.
Proof. unfold operation_name, kOpW. case_bool_decide; cbn; lia. Qed.
Lemma action_name_length (a : Action) : String.length (action_name a) <= kActionW.
Proof. unfold action_name, kActionW. case_bool_decide; cbn; lia. Qed.
Lemma reason_name_length (r : Reason) : String.length (reason_name r) <= kReasonW.
Proof. unfold kReasonW. destruct r; cbn; lia. Qed.

(** ** Properties *)

(** The table stays aligned: for a pid of at most 8 digits and a uid of
    at most 6, a console row consists of eight fields of exactly the widths of
    the header, whatever the length of the command name and the paths, and
    each field that was cut keeps a prefix of the original; the header and its
    rule have the same width. *)
Theorem console_row_aligned (e : SecurityEvent) :
  (0 <= se_pid e < 10 ^ 8)%Z -> (0 <= se_uid e < 10 ^ 6)%Z ->
  String.length (console_row e) = 143 + 1 /\
  String.length console_header = 2 * (143 + 1) /\
  exists pid uid op act rsn,
    console_row e =
      pid +:+ uid +:+ setw_left 16 (truncate (se_comm e) 16) +:+
      setw_left 36 (truncate (se_process_path e) 36) +:+
      setw_left 44 (truncate (se_resource_path e) 44) +:+ op +:+ act +:+ rsn +:+ newline /\
    (String.length pid, String.length uid, String.length op, String.length act,
     String.length rsn) = (8, 6, 6, 7, 20) /\
    forall s w, String.length (setw_left w (truncate s w)) = w /\
      (3 < w -> w < String.length s ->
       exists shown rest, truncate s w = shown +:+ "..." /\ s = shown +:+ rest).
Proof.
  intros Hpid Huid.
  pose proof (to_string_u_length 8 (se_pid e) ltac:(lia) Hpid) as Hp.
  pose proof (to_string_u_length 6 (se_uid e) ltac:(lia) Huid) as Hu.
  pose proof (operation_name_length (se_operation e)) as Ho.
  pose proof (action_name_length (se_action e)) as Ha.
  pose proof (reason_name_length (se_reason e)) as Hr.
  unfold kOpW, kActionW, kReasonW in *. split_and!.
  - unfold console_row. rewrite !str_length_app, !setw_truncate_length, !setw_left_length.
    unfold kPidW, kUidW, kCommW, kProcW, kFileW, kOpW, kActionW, kReasonW. cbn [newline String.length].
    lia.
  - reflexivity.
  - unfold console_row, kPidW, kUidW, kCommW, kProcW, kFileW, kOpW, kActionW, kReasonW.
    do 5 eexists. split; [reflexivity|]. split.
    + rewrite !setw_left_length. repeat f_equal; lia.
    + intros s w. split; [apply setw_truncate_length|]. intros Hw Hs. unfold truncate.
      destruct (Nat.leb_spec (String.length s) w); [lia|].
      destruct (Nat.leb_spec w 3); [lia|].
      destruct (str_take_prefix (w - 3) s) as [rest Hrest]. by exists (str_take (w - 3) s), rest.
Qed.

Definition sample_event : SecurityEvent :=
  MkSecurityEvent "2026-08-18 12:34:56.789" 1234 1234 0 0 "cat" "/usr/bin/cat"
    "/protected/secret.txt" Open Deny Reason_DefaultDeny 0.

Lemma console_row_aligned_witness : String.length (console_row sample_event) = 144.
Proof.
  destruct (console_row_aligned sample_event) as [Hl _].
  - vm_compute. split; [discriminate|reflexivity].
  - vm_compute. split; [discriminate|reflexivity].
  - exact Hl.
Defined.
