(* ===== verification/Controller.v ===== *)
(** * The controller: include/fileguard/controller.hpp and src/controller.cpp

    [PolicyManager] and [Controller]: the pipeline from a policy document to
    the enforcement backend, and from the backend's raw events through the
    queue to the sinks and stream clients.  The backend is any [IEnforcer] and a
    stream client any [EventStreamClient], as in the code; the C library's local
    time is a parameter.

    The two worker threads appear as what they do: [emit_event] is one call of
    the producer, [consumer_loop] the consumer's loop, and joining them in
    [request_stop] runs the consumer until it has drained the stopped queue. *)

From S2P Require Import Prelude Abi FileId Policy DecisionEngine PolicyCompiler PathResolver SpscQueue SecurityEvent Enforcer Json ConfigParser EventSink.

Local Open Scope Z_scope.

(** ** PolicyManager *)
Record PolicyManager := MkPolicyManager { current_ : option Policy }.

Definition manager_install (m : PolicyManager) (policy : option Policy)
    : ResultVoid * PolicyManager :=
  match policy with
  | None => (err "cannot install a null policy", m)
  | Some p =>
     match validate p with
     | Err e => (err e, m)
     | Ok _ => (ok_v, MkPolicyManager (Some p))
     end
  end.

Definition manager_version (m : PolicyManager) : Z :=
  match current_ m with Some p => version p | None => 0 end.

(** ** Event times *)

(** Signed decimal rendering. *)
Definition to_string_s (z : Z) : string :=
  if z <? 0 then "-" +:+ to_string_u (- z) else to_string_u z.

(** [std::setfill('0') << std::setw(w) << z] *)
Definition setw_zeros (w : nat) (s : string) : string :=
  str_repeat (w - String.length s) "0" +:+ s.

Section EventTime.
  (** localtime_r and strftime on a number of seconds. *)
  Context (put_time : Z -> string).

(** C++ leaves an overflow of the sum undefined; [event_time_is_wall_time]
    (EventPath.v) gives a range of clocks in which there is none. *)
Definition format_event_time (timestamp_ns offset_ns : Z) : string :=
  let wall_ns := i64 (timestamp_ns + offset_ns) in
  let secs := Z.quot wall_ns 1000000000 in
  let ms := Z.quot (Z.rem wall_ns 1000000000) 1000000 in
  put_time secs +:+ "." +:+ setw_zeros 3 (to_string_s ms).
End EventTime.

(** boot_wall_offset_ns: the wall clock's nanoseconds since the epoch, less
    what clock_gettime(CLOCK_BOOTTIME) returns. *)
Definition boot_wall_offset_ns (wall tv_sec tv_nsec : Z) : Z :=
  let boot := i64 (i64 (tv_sec * 1000000000) + tv_nsec) in
  i64 (wall - boot).

Record ControllerConfig := MkControllerConfig {
  policy_file : string;
  ctl_runtime_dir : string;
  console_output : bool;
  json_log : string;
  event_queue_capacity : nat;
  enforcer : EnforcerConfig;
}.

(** EventStreamClient: push changes the client, and can throw. *)
Class EventStreamClient (Cl : Type) := {
  client_push : Cl -> SecurityEvent -> outcome Cl;
  client_closed : Cl -> bool;
}.

Section Controller.
  Context {E : Type} `{!IEnforcer E}.
  Context {Cl : Type} `{!EventStreamClient Cl}.
  Context {J : Type} `{!Json J}.
  Context (create_enforcer : EnforcerConfig -> E).
  (** The default file resolver and the file system it reads. *)
  Context (file_resolver : FileResolver) (read : string -> file_read).
  Context (put_time : Z -> string).

(** [ring_thread_] and [consumer_thread_] are started and joined together:
    [threads_] is "joinable". *)
Record Controller := MkController {
  cfg_ : ControllerConfig;
  policy_manager_ : PolicyManager;
  enforcer_ : option E;
  resolver_ : option PathResolver;
  queue_ : SpscQueue SecurityEvent;
  sinks_ : list ISink;
  boot_offset_ns_ : Z;
  clients_ : list (nat * Cl);  (* by object identity *)
  started_ : bool;
  threads_ : bool;
}.

Definition with_policy (c : Controller) (m : PolicyManager) : Controller :=
  MkController (cfg_ c) m (enforcer_ c) (resolver_ c) (queue_ c) (sinks_ c) (boot_offset_ns_ c)
    (clients_ c) (started_ c) (threads_ c).
Definition with_enforcer (c : Controller) (e : option E) : Controller :=
  MkController (cfg_ c) (policy_manager_ c) e (resolver_ c) (queue_ c) (sinks_ c)
    (boot_offset_ns_ c) (clients_ c) (started_ c) (threads_ c).
Definition with_resolver (c : Controller) (r : option PathResolver) : Controller :=
  MkController (cfg_ c) (policy_manager_ c) (enforcer_ c) r (queue_ c) (sinks_ c)
    (boot_offset_ns_ c) (clients_ c) (started_ c) (threads_ c).
Definition with_queue (c : Controller) (q : SpscQueue SecurityEvent) : Controller :=
  MkController (cfg_ c) (policy_manager_ c) (enforcer_ c) (resolver_ c) q (sinks_ c)
    (boot_offset_ns_ c) (clients_ c) (started_ c) (threads_ c).
Definition with_outputs (c : Controller) (s : list ISink) (cl : list (nat * Cl)) : Controller :=
  MkController (cfg_ c) (policy_manager_ c) (enforcer_ c) (resolver_ c) (queue_ c) s
    (boot_offset_ns_ c) cl (started_ c) (threads_ c).
Definition with_started (c : Controller) (started threads : bool) : Controller :=
  MkController (cfg_ c) (policy_manager_ c) (enforcer_ c) (resolver_ c) (queue_ c) (sinks_ c)
    (boot_offset_ns_ c) (clients_ c) started threads.

(** Controller::Controller; [log_opens] says whether the JSON log could be
    opened, [boot_offset] is boot_wall_offset_ns().  The queue's constructor
    throws for a capacity below 2. *)
Definition Controller_create (cfg : ControllerConfig) (log_opens : bool) (boot_offset : Z)
    : outcome Controller :=
  q ← SpscQueue_new (event_queue_capacity cfg);
  let sinks := if console_output cfg then sinks_add [] (SinkConsole (MkConsoleSink "" false)) else [] in
  let sinks := if str_empty (json_log cfg) then sinks
               else if log_opens then sinks_add sinks (SinkJson "") else sinks in
  Return (MkController cfg (MkPolicyManager None) None None q sinks boot_offset [] false false).

(** The reverse resolver of a policy: protected resources, then processes. *)
Definition build_resolver (policy : Policy) (compiled : CompiledPolicy) : PathResolver :=
  resolver_add_all PathResolver_empty
    (zip (c_protected_resources compiled) (res_path <$> protected_resources policy) ++
     zip (c_process <$> c_rules compiled)
         ((fun r => proc_value (rule_process r)) <$> rules policy)).

(** Controller::load_policy *)
Definition load_policy (policy : option Policy) (c : Controller) : ResultVoid * Controller :=
  match policy with
  | None => (err "cannot install a null policy", c)
  | Some p =>
    match validate p with
    | Err e => (err e, c)
    | Ok _ =>
      match compile file_resolver p with
      | Err e => (err e, c)
      | Ok compiled =>
        let '(applied, c1) :=
          match enforcer_ c with
          | None => (ok_v, c)
          | Some e => let '(r, e') := enf_apply_policy compiled e in
                      (r, with_enforcer c (Some e'))
          end in
        match applied with
        | Err e => (err ("kernel policy install failed: " +:+ e), c1)
        | Ok _ =>
          let c2 := with_resolver c1 (Some (build_resolver p compiled)) in
          let '(r, m) := manager_install (policy_manager_ c2) (Some p) in
          match r with
          | Err e => (err e, with_policy c2 m)
          | Ok _ => (ok_v, with_policy c2 m)
          end
        end
      end
    end
  end.

(** Controller::start; the policy file's parser can throw. *)
Definition start (c : Controller) : outcome (ResultVoid * Controller) :=
  if started_ c then Return (err "controller already started", c)
  else
    let c := with_started c true (threads_ c) in
    let ecfg := enforcer (cfg_ c) in
    let e := create_enforcer (MkEnforcerConfig (ringbuf_bytes ecfg) (map_entries ecfg)
                                (runtime_dir ecfg) true) in
    let '(loaded, e) := enf_load e in
    let c := with_enforcer c (Some e) in
    match loaded with
    | Err m => Return (err m, c)
    | Ok _ =>
      let finish c := (ok_v, with_started c true true) in
      if str_empty (policy_file (cfg_ c)) then Return (finish c)
      else
        match from_file (J:=J) read (policy_file (cfg_ c)) with
        | Raise w => Throw w
        | Error m => Return (err m, c)
        | Value p =>
          let '(r, c) := load_policy (Some p) c in
          match r with
          | Err m => Return (err m, c)
          | Ok _ => Return (finish c)
          end
        end
    end.

(** Controller::status *)
Definition controller_status (c : Controller) : EnforcerStatus :=
  match enforcer_ c with
  | None => MkEnforcerStatus false false "unloaded" 0 0 0 ""
  | Some e => enf_status e
  end.

Definition add_event_stream_client (id : nat) (client : Cl) (c : Controller) : Controller :=
  with_outputs c (sinks_ c) (clients_ c ++ [(id, client)]).
Definition remove_event_stream_client (id : nat) (c : Controller) : Controller :=
  with_outputs c (sinks_ c) (filter (fun p => p.1 <> id) (clients_ c)).

(** The event [emit_event] queues. *)
Definition enrich (c : Controller) (raw : RawEvent) : SecurityEvent :=
  let render id := match resolver_ c with
                   | Some r => resolver_resolve r id
                   | None => FileId_to_string id
                   end in
  MkSecurityEvent
    (format_event_time put_time (i64 (raw_timestamp_ns raw)) (boot_offset_ns_ c))
    (raw_pid raw) (raw_tgid raw) (raw_uid raw) (raw_gid raw) (raw_comm raw)
    (render (raw_process raw)) (render (raw_resource raw))
    (raw_operation raw) (raw_action raw) (raw_reason raw) (raw_rule_id raw).

(** Controller::emit_event; [None] means the producer blocks on a full queue. *)
Definition emit_event (c : Controller) (raw : RawEvent) : option Controller :=
  with_queue c <$> queue_push (queue_ c) (enrich c raw).

(** The calls of [on_event] a backend makes, one after the other. *)
Fixpoint emit_events (c : Controller) (raws : list RawEvent) : option Controller :=
  match raws with
  | [] => Some c
  | raw :: raws => c' ← emit_event c raw; emit_events c' raws
  end.

(** Controller::ring_poll_loop over the turns of the backend's loop, with
    whether it has returned; [None]: the thread is blocked in emit_event. *)
Definition ring_poll_loop (polls : list ring_poll) (c : Controller) : option (Controller * bool) :=
  match enforcer_ c with
  | Some e =>
     let '(raws, e', returned) := enf_run polls e in
     c' ← emit_events (with_enforcer c (Some e')) raws;
     Some (c', returned)
  | None => Some (c, existsb (fun p => match p with PollStop => true | _ => false end) polls)
  end.

(** The client loop of the consumer: closed clients are erased, the others
    get the event. *)
Fixpoint push_clients (ev : SecurityEvent) (l : list (nat * Cl)) : outcome (list (nat * Cl)) :=
  match l with
  | [] => Return []
  | (id, cl) :: l =>
     if client_closed cl then push_clients ev l
     else
       cl' ← client_push cl ev;
       rest ← push_clients ev l;
       Return ((id, cl') :: rest)
  end.

(** One event through the sinks and the clients. *)
Definition deliver (c : Controller) (ev : SecurityEvent) : outcome Controller :=
  sinks ← sinks_write (J:=J) (sinks_ c) ev;
  clients ← push_clients ev (clients_ c);
  Return (with_outputs c sinks clients).

(** How a run of the consumer's loop ends: it returns (stopped and drained),
    or it is blocked in pop(); [LoopFuel] is "not enough iterations given". *)
Inductive loop_end := LoopReturned | LoopBlocked | LoopFuel.

(** Controller::consumer_loop *)
Fixpoint consumer_loop (fuel : nat) (c : Controller) : outcome (loop_end * Controller) :=
  match fuel with
  | O => Return (LoopFuel, c)
  | S fuel =>
     match queue_pop (queue_ c) with
     | None => Return (LoopBlocked, c)
     | Some (None, q) => Return (LoopReturned, with_queue c q)
     | Some (Some ev, q) =>
        c' ← deliver (with_queue c q) ev;
        consumer_loop fuel c'
     end
  end.

(** Controller::request_stop; joining the consumer runs its loop to the end. *)
Definition request_stop (c : Controller) : outcome (ResultVoid * Controller) :=
  if negb (started_ c) then Return (ok_v, c)
  else
    let c := with_started c false (threads_ c) in
    let c := with_queue c (queue_request_stop (queue_ c)) in
    c ← (if threads_ c then
           r ← consumer_loop (S (queue_capacity (queue_ c))) c; Return r.2
         else Return c);
    let c := with_started c false false in
    match enforcer_ c with
    | None => Return (ok_v, c)
    | Some e =>
       let '(r, e') := enf_detach e in
       let c := with_enforcer c (Some e') in
       match r with Err m => Return (err m, c) | Ok _ => Return (ok_v, c) end
    end.
End Controller.
Arguments Controller E Cl : clear implicits.
