(* ===== verification/LoadSteps.v ===== *)
(** * load_policy, one critical section at a time

    Controller::load_policy (src/controller.cpp) can be called by several
    threads at once.  Validation and compilation work on the caller's own data;
    the kernel's maps, the resolver and the current policy are replaced in
    three critical sections, under [state_mu_] of the backend, [resolver_mu_]
    and [mu_] of the policy manager.  A [loader] is a call between two of
    them. *)

From S2P Require Import Prelude FileId Policy PolicyCompiler PathResolver Enforcer Json ConfigParser EventSink Controller.

(** Where one call stands. *)
Inductive loader :=
| LoadCalled (policy : option Policy)
| LoadApplied (p : Policy) (compiled : CompiledPolicy)   (* apply_policy has returned *)
| LoadResolved (p : Policy)                              (* resolver_ has been replaced *)
| LoadReturned (r : ResultVoid).

Definition load_returned (l : loader) : bool :=
  match l with LoadReturned _ => true | _ => false end.

Section Loads.
Context {E : Type} `{!IEnforcer E} {Cl : Type} (file_resolver : FileResolver).
Implicit Types (c : Controller E Cl) (p : Policy) (l : loader).

(** Up to the return of apply_policy. *)
Definition load_apply (policy : option Policy) c : loader * Controller E Cl :=
  match policy with
  | None => (LoadReturned (err "cannot install a null policy"), c)
  | Some p =>
    match validate p with
    | Err e => (LoadReturned (err e), c)
    | Ok _ =>
      match compile file_resolver p with
      | Err e => (LoadReturned (err e), c)
      | Ok compiled =>
        match enforcer_ c with
        | None => (LoadApplied p compiled, c)
        | Some e =>
          let '(r, e') := enf_apply_policy compiled e in
          match r with
          | Err m => (LoadReturned (err ("kernel policy install failed: " +:+ m)), with_enforcer c (Some e'))
          | Ok _ => (LoadApplied p compiled, with_enforcer c (Some e'))
          end
        end
      end
    end
  end.

(** One critical section of a call. *)
Definition load_advance l c : loader * Controller E Cl :=
  match l with
  | LoadCalled policy => load_apply policy c
  | LoadApplied p compiled => (LoadResolved p, with_resolver c (Some (build_resolver p compiled)))
  | LoadResolved p =>
     let '(r, m) := manager_install (policy_manager_ c) (Some p) in
     (LoadReturned (match r with Err e => err e | Ok _ => ok_v end), with_policy c m)
  | LoadReturned _ => (l, c)
  end.

(** Left alone, a call is [load_policy]. *)
Fixpoint load_alone (n : nat) l c : loader * Controller E Cl :=
  match n with
  | O => (l, c)
  | S n => let '(l', c') := load_advance l c in load_alone n l' c'
  end.

Lemma load_alone_returned n r c : load_alone n (LoadReturned r) c = (LoadReturned r, c).
Proof. by induction n. Qed.

Lemma load_alone_is_load_policy (policy : option Policy) c :
  load_alone 3 (LoadCalled policy) c =
  ((LoadReturned (load_policy file_resolver policy c).1), (load_policy file_resolver policy c).2).
Proof.
  change (load_alone 3 (LoadCalled policy) c)
    with (let '(l', c') := load_apply policy c in load_alone 2 l' c').
  unfold load_policy, load_apply. destruct policy as [p|]; [|done].
  destruct (validate p) as [[]|m] eqn:Hv; [|done].
  destruct (compile file_resolver p) as [compiled|m]; [|done].
  destruct (enforcer_ c) as [e|]; cbn; unfold manager_install; rewrite ?Hv; [|done].
  destruct (enf_apply_policy compiled e) as [[[]|m] e']; cbn; unfold manager_install; by rewrite ?Hv.
Qed.

End Loads.
