(* ===== verification/Pipeline.v ===== *)
(** * The event pipeline under concurrency

    The controller's threads: the ring poller running [emit_event], the
    consumer running [consumer_loop], and the threads that load policies, add
    and remove stream clients and request the stop.  [pipe_step] is one step
    of one of them, cut where the sources lock or release a mutex; any thread
    can take the next step.  What is proved holds for every interleaving. *)

From S2P Require Import Prelude FileId Policy PathResolver SpscQueue SecurityEvent Enforcer Json EventSink Controller.

(** Where the consumer's loop is: before pop, after pop, after the sinks. *)
Inductive consumer_at :=
| AtPop
| AtSinks (ev : SecurityEvent)
| AtClients (ev : SecurityEvent)
| AtEnd.

Section Pipeline.
Context {E Cl J : Type} `{!Json J}.
Context `{!EventStreamClient Cl}.
Context (put_time : Z -> string).

(** The controller, the event the poller has built and not yet queued, the
    consumer's position; and the history: the events built, the events
    accepted by the queue, those written to the sinks, those pushed to the
    clients, and the clients registered with how many events had been pushed
    before. *)
Record pipe := MkPipe {
  ctl : Controller E Cl;
  producer : option SecurityEvent;
  consumer : consumer_at;
  built : list SecurityEvent;
  accepted : list SecurityEvent;
  written : list SecurityEvent;
  pushed : list SecurityEvent;
  registered : list (nat * Cl * nat);
}.

Definition set_ctl (s : pipe) (c : Controller E Cl) : pipe :=
  MkPipe c (producer s) (consumer s) (built s) (accepted s) (written s) (pushed s) (registered s).

Inductive pipe_step : pipe -> pipe -> Prop :=
(* emit_event up to the push: the resolver is read under its mutex *)
| step_build s raw :
   producer s = None ->
   pipe_step s (MkPipe (ctl s) (Some (enrich put_time (ctl s) raw)) (consumer s)
     (built s ++ [enrich put_time (ctl s) raw]) (accepted s) (written s) (pushed s) (registered s))
(* queue_.push, which drops the event once the queue is stopped *)
| step_queue s ev q :
   producer s = Some ev -> queue_push (queue_ (ctl s)) ev = Some q ->
   pipe_step s (MkPipe (with_queue (ctl s) q) None (consumer s) (built s)
     (if stop_ (queue_ (ctl s)) then accepted s else accepted s ++ [ev])
     (written s) (pushed s) (registered s))
(* queue_.pop *)
| step_pop s ev q :
   consumer s = AtPop -> queue_pop (queue_ (ctl s)) = Some (Some ev, q) ->
   pipe_step s (MkPipe (with_queue (ctl s) q) (producer s) (AtSinks ev) (built s) (accepted s)
     (written s) (pushed s) (registered s))
| step_end s q :
   consumer s = AtPop -> queue_pop (queue_ (ctl s)) = Some (None, q) ->
   pipe_step s (MkPipe (with_queue (ctl s) q) (producer s) AtEnd (built s) (accepted s)
     (written s) (pushed s) (registered s))
(* sinks_.write *)
| step_sinks s ev sinks :
   consumer s = AtSinks ev -> sinks_write (J:=J) (sinks_ (ctl s)) ev = Return sinks ->
   pipe_step s (MkPipe (with_outputs (ctl s) sinks (clients_ (ctl s))) (producer s) (AtClients ev)
     (built s) (accepted s) (written s ++ [ev]) (pushed s) (registered s))
(* the loop over the clients, under their mutex *)
| step_clients s ev clients :
   consumer s = AtClients ev ->
   push_clients ev (clients_ (ctl s)) = Return clients ->
   pipe_step s (MkPipe (with_outputs (ctl s) (sinks_ (ctl s)) clients) (producer s) AtPop
     (built s) (accepted s) (written s) (pushed s ++ [ev]) (registered s))
(* the other threads *)
| step_resolver s r :
   pipe_step s (set_ctl s (with_resolver (ctl s) r))
| step_policy s m :
   pipe_step s (set_ctl s (with_policy (ctl s) m))
| step_enforcer s e :
   pipe_step s (set_ctl s (with_enforcer (ctl s) e))
| step_add s id cl :
   pipe_step s (MkPipe (add_event_stream_client id cl (ctl s)) (producer s) (consumer s) (built s)
     (accepted s) (written s) (pushed s) (registered s ++ [(id, cl, length (pushed s))]))
| step_remove s id :
   pipe_step s (set_ctl s (remove_event_stream_client id (ctl s)))
| step_stop s :
   pipe_step s (set_ctl s (with_queue (ctl s) (queue_request_stop (queue_ (ctl s))))).

(** What writing events in order makes of the sinks. *)
Fixpoint sinks_run (sinks : list ISink) (evs : list SecurityEvent) : outcome (list ISink) :=
  match evs with
  | [] => Return sinks
  | ev :: evs => sinks' ← sinks_write (J:=J) sinks ev; sinks_run sinks' evs
  end.

(** What pushing events in order makes of a client. *)
Fixpoint client_run (cl : Cl) (evs : list SecurityEvent) : outcome Cl :=
  match evs with
  | [] => Return cl
  | ev :: evs => cl' ← client_push cl ev; client_run cl' evs
  end.

(** The event the consumer holds: popped, not yet written; written, not yet
    pushed. *)
Definition before_sinks (s : pipe) : list SecurityEvent :=
  match consumer s with AtSinks ev => [ev] | _ => [] end.
Definition before_clients (s : pipe) : list SecurityEvent :=
  match consumer s with AtClients ev => [ev] | _ => [] end.

Record pipe_inv (sinks0 : list ISink) (s : pipe) : Prop := {
  inv_queue : queue_wf (queue_ (ctl s));
  inv_accepted : accepted s = written s ++ before_sinks s ++ queue_contents (queue_ (ctl s));
  inv_pushed : written s = pushed s ++ before_clients s;
  inv_sinks : sinks_run sinks0 (written s) = Return (sinks_ (ctl s));
  inv_clients : forall id cl, (id, cl) ∈ clients_ (ctl s) ->
    exists cl0 n, (id, cl0, n) ∈ registered s /\ n <= length (pushed s) /\
      client_run cl0 (drop n (pushed s)) = Return cl;
  inv_built : exists dropped, built s = accepted s ++ dropped ++ option_list (producer s) /\
    (stop_ (queue_ (ctl s)) = false -> dropped = []);
  inv_end : consumer s = AtEnd -> stop_ (queue_ (ctl s)) = true /\ queue_contents (queue_ (ctl s)) = [];
}.

Lemma sinks_run_app sinks evs ev sinks1 :
  sinks_run sinks evs = Return sinks1 -> sinks_run sinks (evs ++ [ev]) = sinks_write sinks1 ev.
Proof.
  revert sinks; induction evs as [|e evs IH]; intros sinks; cbn.
  - intros [= <-]. by destruct (sinks_write sinks ev).
  - intros (s' & -> & H)%outcome_bind_Return. cbn [mbind outcome_bind]. by apply IH.
Qed.

Lemma client_run_app cl evs ev cl1 :
  client_run cl evs = Return cl1 -> client_run cl (evs ++ [ev]) = client_push cl1 ev.
Proof.
  revert cl; induction evs as [|e evs IH]; intros cl; cbn.
  - intros [= <-]. by destruct (client_push cl ev).
  - intros (s' & -> & H)%outcome_bind_Return. cbn [mbind outcome_bind]. by apply IH.
Qed.

(** Every client left by the loop was there, open, and got the event. *)
Lemma push_clients_elem ev l l' id cl' :
  push_clients ev l = Return l' -> (id, cl') ∈ l' ->
  exists cl, (id, cl) ∈ l /\ client_push cl ev = Return cl'.
Proof.
  revert l'; induction l as [|[i cl] l IH]; intros l'; cbn.
  - intros [= <-] H. by apply elem_of_nil in H.
  - destruct (client_closed cl).
    + intros H Hin. destruct (IH l' H Hin) as (c & Hc & Hp). exists c. split; [by right|done].
    + intros (c1 & H1 & H)%outcome_bind_Return. apply outcome_bind_Return in H as (rest & Hr & [= <-]).
      intros [[= -> ->]|Hin]%elem_of_cons; [exists cl; split; [by left|done]|].
      destruct (IH rest Hr Hin) as (c & Hc & Hp). exists c. split; [by right|done].
Qed.

(** ** The invariant is kept *)

Lemma step_consumer_inv (sinks0 : list ISink) s s' :
  pipe_inv sinks0 s -> pipe_step s s' -> consumer s <> consumer s' -> pipe_inv sinks0 s'.
Proof.
  intros [Hq Ha Hp Hs Hc (dr & Hb & Hst) He] Hstep Hne.
  unfold before_sinks, before_clients in *.
  destruct Hstep as [| |s ev q Hat Hpop|s q Hat Hpop|s ev sinks Hat Hw|s ev clients Hat Hpush| | | | | |];
    try done; rewrite Hat in *.
  - destruct (queue_pop_contents _ _ _ Hq Hpop) as (Hq' & Hst' & Hct).
    split; cbn; try done.
    + by rewrite Ha, Hct.
    + exists dr. by rewrite Hst'.
  - destruct (queue_pop_contents _ _ _ Hq Hpop) as (Hq' & Hst' & Hstop & Hct & ->).
    split; cbn; try done. by exists dr.
  - split; cbn; try done.
    + rewrite Ha. by rewrite <- app_assoc.
    + by rewrite Hp, app_nil_r.
    + by rewrite (sinks_run_app sinks0 _ ev _ Hs).
    + by exists dr.
  - split; cbn; try done.
    + by rewrite app_nil_r.
    + intros id cl Hin. destruct (push_clients_elem ev _ _ id cl Hpush Hin) as (c0 & Hc0 & Hpc).
      destruct (Hc id c0 Hc0) as (cl0 & n & Hreg & Hn & Hrun).
      exists cl0, n. rewrite length_app. split_and!; [done|lia|].
      rewrite drop_app_le by done. by rewrite (client_run_app cl0 _ ev _ Hrun).
    + by exists dr.
Qed.

(** The steps of the other threads leave the consumer where it is. *)
Lemma step_other_inv (sinks0 : list ISink) s s' :
  pipe_inv sinks0 s -> pipe_step s s' -> consumer s = consumer s' -> pipe_inv sinks0 s'.
Proof.
  intros [Hq Ha Hp Hs Hc (dr & Hb & Hst) He] Hstep Heq.
  unfold before_sinks, before_clients in *.
  destruct Hstep as [s raw Hn|s ev q Hn Hpush|s ev q Hat Hpop|s q Hat Hpop|s ev sinks Hat Hw
    |s ev clients Hat Hpu|s r|s m|s e|s id cl|s id|s]; cbn in Heq; try congruence.
  - split; cbn; try done. rewrite Hn in Hb. exists dr. split; [|done].
    rewrite Hb. cbn. by rewrite app_nil_r, <- app_assoc.
  - destruct (queue_push_contents _ _ _ Hq Hpush) as (Hq' & Hst' & Hct). rewrite Hn in Hb.
    split; cbn; try done.
    + rewrite Hct, Ha. destruct (stop_ (queue_ (ctl s))); [done|]. by rewrite <- !app_assoc.
    + destruct (stop_ (queue_ (ctl s))) eqn:Hstop.
      * exists (dr ++ [ev]). rewrite Hst'. split; [|done]. by rewrite Hb, app_nil_r.
      * exists []. rewrite (Hst eq_refl) in Hb. by rewrite Hb, app_nil_r.
    + intros Hend. destruct (He Hend) as [Hs1 Hs2]. rewrite Hst', Hct, Hs1. done.
  - split; cbn; try done. by exists dr.
  - split; cbn; try done. by exists dr.
  - split; cbn; try done. by exists dr.
  - split; cbn; try done; [|by exists dr].
    intros i c [Hin|Hin]%elem_of_app.
    + destruct (Hc i c Hin) as (cl0 & n & Hreg & Hn & Hrun). exists cl0, n.
      split_and!; [set_solver|done|done].
    + apply list_elem_of_singleton in Hin as [= -> ->]. exists cl, (length (pushed s)).
      rewrite drop_all. split_and!; [set_solver|done|done].
  - split; cbn; try done; [|by exists dr].
    intros i c Hin. apply list_elem_of_filter in Hin as [_ Hin]. by apply Hc.
  - split; cbn; try done.
    + by exists dr.
    + intros Hend. by destruct (He Hend).
Qed.

#[local] Instance consumer_at_eq_dec : EqDecision consumer_at.
Proof. solve_decision. Defined.

Lemma pipe_step_inv (sinks0 : list ISink) s s' :
  pipe_inv sinks0 s -> pipe_step s s' -> pipe_inv sinks0 s'.
Proof.
  intros Hi Hstep. destruct (decide (consumer s = consumer s')).
  - by eapply step_other_inv.
  - by eapply step_consumer_inv.
Qed.

(** The pipeline of a controller whose threads have just been started. *)
Definition pipe_init (c : Controller E Cl) : pipe :=
  MkPipe c None AtPop [] [] [] [] ((fun p => (p.1, p.2, 0)) <$> clients_ c).

Lemma pipe_init_inv c :
  queue_wf (queue_ c) -> queue_contents (queue_ c) = [] -> pipe_inv (sinks_ c) (pipe_init c).
Proof.
  intros Hq Hc. split; cbn; try done.
  - intros id cl Hin. exists cl, 0. split_and!; [|done|done].
    apply list_elem_of_fmap. by exists (id, cl).
  - by exists [].
Qed.

(** C10 (events survive every interleaving): from the start of the threads,
    whatever the order in which the ring poller, the consumer and the threads
    that load policies, add and remove clients and stop the controller take
    their steps: the events written to the sinks are, in order and without
    loss or repetition, the events the queue accepted, up to the one the
    consumer holds and those still queued; the sinks hold exactly what
    writing them in order produces; each registered client has been pushed
    exactly the events since its registration; every event built was
    accepted unless the queue was stopped; and when the consumer has ended,
    every accepted event has been written and pushed. *)
Theorem pipeline_preserves_events (c : Controller E Cl) s :
  queue_wf (queue_ c) -> queue_contents (queue_ c) = [] ->
  rtc pipe_step (pipe_init c) s ->
  accepted s = written s ++ before_sinks s ++ queue_contents (queue_ (ctl s)) /\
  written s = pushed s ++ before_clients s /\
  sinks_run (sinks_ c) (written s) = Return (sinks_ (ctl s)) /\
  (forall id cl, (id, cl) ∈ clients_ (ctl s) ->
     exists cl0 n, (id, cl0, n) ∈ registered s /\ n <= length (pushed s) /\
       client_run cl0 (drop n (pushed s)) = Return cl) /\
  (stop_ (queue_ (ctl s)) = false -> built s = accepted s ++ option_list (producer s)) /\
  (consumer s = AtEnd -> pushed s = accepted s /\ written s = accepted s).
Proof.
  intros Hq Hc Hreach. assert (pipe_inv (sinks_ c) s) as [_ Ha Hp Hs Hcl (dr & Hb & Hst) He].
  { pose proof (pipe_init_inv c Hq Hc) as Hi. clear Hq Hc. revert Hi.
    generalize (sinks_ c) as sinks0. intros sinks0.
    induction Hreach as [|x y z Hxy _ IH]; [done|]. intros Hi. by apply IH, (pipe_step_inv _ x). }
  split_and!; try done.
  - intros Hf. by rewrite Hb, (Hst Hf).
  - intros Hend. destruct (He Hend) as [_ Hempty]. unfold before_sinks, before_clients in *.
    rewrite Hend, Hempty in *. rewrite !app_nil_r in *. by rewrite Ha, Hp.
Qed.
End Pipeline.
Arguments pipe E Cl : clear implicits.

(** ** A run: one event from the ring buffer to the console, then the stop *)
Definition pipe_controller : Controller NullEnforcer nat :=
  MkController (MkControllerConfig "" "/tmp/fileguard" true "" 8 EnforcerConfig_default)
    (MkPolicyManager None) (Some (NullEnforcer_create EnforcerConfig_default)) None
    (MkSpscQueue (replicate 3 SecurityEvent_default) 0 0 false)
    [SinkConsole (MkConsoleSink "" true)] 0 [(4, 0)] true true.

Definition pipe_raw : RawEvent :=
  MkRawEvent 0 1 1 0 0 (MkFileId 1 2 1000) (MkFileId 1 2 2000) 1 Policy.Open Policy.Allow
    DecisionEngine.Reason_PolicyRule "cat".
Definition pipe_event : SecurityEvent := enrich (fun _ => "") pipe_controller pipe_raw.
Definition count_client : EventStreamClient nat := {|
  client_push := fun n _ => Return (S n);
  client_closed := fun _ => false;
|}.
Definition no_json : Json jval := jval_json (fun _ => inl "").

(** What the console has printed after the event. *)
Definition pipe_printed : list ISink :=
  match @sinks_write jval no_json (sinks_ pipe_controller) pipe_event with
  | Return sinks => sinks
  | Throw _ => []
  end.

Lemma pipe_printed_eq : @sinks_write jval no_json (sinks_ pipe_controller) pipe_event = Return pipe_printed.
Proof. vm_compute. reflexivity. Qed.

(** The queue during the run. *)
Definition pipe_queue (h t : nat) (stopped : bool) : SpscQueue SecurityEvent :=
  MkSpscQueue [pipe_event; SecurityEvent_default; SecurityEvent_default] h t stopped.

Lemma pipe_run :
  exists s, rtc (@pipe_step NullEnforcer nat jval no_json count_client (fun _ => ""))
              (pipe_init pipe_controller) s /\
    consumer s = AtEnd /\ accepted s = [pipe_event] /\ clients_ (ctl s) = [(4, 1)].
Proof.
  exists (MkPipe (with_outputs (with_queue pipe_controller (pipe_queue 1 1 true)) pipe_printed [(4, 1)])
       None AtEnd [pipe_event] [pipe_event] [pipe_event] [pipe_event] [(4, 0, 0)]).
  split; [|by split_and!].
  eapply rtc_l; [apply (step_build _ _ pipe_raw); reflexivity|].
  eapply rtc_l; [apply (step_queue _ _ pipe_event (pipe_queue 1 0 false)); reflexivity|].
  eapply rtc_l; [apply (step_pop _ _ pipe_event (pipe_queue 1 1 false)); reflexivity|].
  eapply rtc_l; [apply (step_sinks _ _ pipe_event pipe_printed); [reflexivity|exact pipe_printed_eq]|].
  eapply rtc_l; [apply (step_clients _ _ pipe_event [(4, 1)]); reflexivity|].
  eapply rtc_l; [apply step_stop|].
  eapply rtc_l; [apply (step_end _ _ (pipe_queue 1 1 true)); reflexivity|].
  apply rtc_refl.
Qed.

Lemma pipeline_preserves_events_witness :
  exists s, written s = [pipe_event] /\ pushed s = [pipe_event] /\
    clients_ (ctl (E:=NullEnforcer) (Cl:=nat) s) = [(4, 1)].
Proof.
  destruct pipe_run as (s & Hrun & Hend & Hacc & Hcl).
  destruct (@pipeline_preserves_events NullEnforcer nat jval no_json count_client
    (fun _ => "") pipe_controller s) as (_ & _ & _ & _ & _ & H); [|reflexivity|exact Hrun|].
  { split; [apply (bool_decide_unpack _); vm_compute; exact I|].
    split; apply (bool_decide_unpack _); vm_compute; exact I. }
  destruct (H Hend) as [Hp Hw]. exists s. rewrite Hp, Hw, Hacc, Hcl. split_and!; reflexivity.
Defined.
