(* ===== verification/Agreement.v ===== *)
(** * The kernel's decisions and the decision engine

    ebpf/fileguard.bpf.c promises to decide in lock-step with
    [DecisionEngine].  The kernel decides on identities, the engine on paths;
    here the two are compared through [PolicyCompiler::compile], for accesses
    whose path and executable have no alias in the policy. *)

From S2P Require Import Prelude Abi BpfMap FileId Policy DecisionEngine PolicyCompiler Enforcer.

Local Open Scope Z_scope.

(** The request the engine gets for an open of [path] by [exe]. *)
Definition open_request (path exe : string) : AccessRequest :=
  MkAccessRequest path (MkProcessIdentity ExePath exe) Open.

(** No other protected path resolves to the identity of the opened file, and
    no other executable of the rules to that of the process (no hard links or
    symbolic links between them). *)
Definition no_alias (r : FileResolver) (p : Policy) (path exe : string) (res proc : FileId) : Prop :=
  (forall q, q ∈ res_path <$> protected_resources p -> r q = Ok res -> q = path) /\
  (forall rule, rule ∈ rules p -> r (proc_value (rule_process rule)) = Ok proc ->
     proc_value (rule_process rule) = exe).

Lemma find_first_Forall2 {A B : Type} (R : A -> B -> Prop) (f : A -> bool) (g : B -> bool)
    (l : list A) (k : list B) :
  Forall2 (fun x y => R x y /\ f x = g y) l k ->
  match find_first f l, find_first g k with
  | Some x, Some y => R x y
  | None, None => True
  | _, _ => False
  end.
Proof.
  induction 1 as [|x y l k [HR Hfg] _ IH]; cbn; [done|].
  rewrite Hfg. by destruct (g y).
Qed.

Section Agreement.
  Context (r : FileResolver) (p : Policy) (c : CompiledPolicy) (path exe : string)
    (res proc : FileId).
  Context (Hcompile : compile r p = Ok c) (Hres : resolves r path res) (Hproc : resolves r exe proc)
    (Halias : no_alias r p path exe res proc).

Lemma protected_agree :
  bool_decide (res ∈ c_protected_resources c) = is_protected p path.
Proof using Hcompile Hres Halias.
  apply eq_true_iff_eq. rewrite bool_decide_eq_true, is_protected_spec.
  apply compile_Ok in Hcompile as (_ & _ & Hids & _). destruct Halias as [Hpaths _]. split.
  - intros Hin. apply list_elem_of_lookup in Hin as [i Hi].
    destruct (Forall2_lookup_r _ _ _ _ _ Hids Hi) as (q & Hq & [Hrq _]).
    assert (q ∈ res_path <$> protected_resources p) as Hqin by (by eapply list_elem_of_lookup_2).
    by rewrite <- (Hpaths q Hqin Hrq).
  - intros Hin. apply list_elem_of_lookup in Hin as [i Hi].
    destruct (Forall2_lookup_l _ _ _ _ _ Hids Hi) as (id & Hid & Hrid).
    rewrite (resolves_functional r path _ _ Hres Hrid). by eapply list_elem_of_lookup_2.
Qed.

Lemma rules_agree :
  match rule_for c res proc, find_rule p path (MkProcessIdentity ExePath exe) Open with
  | Some cr, Some rule => c_action cr = rule_action rule
  | None, None => True
  | _, _ => False
  end.
Proof using Hcompile Hres Hproc Halias.
  pose proof Hcompile as Hc. apply compile_Ok in Hc as (Hwf & _ & _ & Hlen & Hrules).
  destruct Halias as [Hpaths Hexes]. unfold rule_for, find_rule.
  apply (find_first_Forall2 (fun cr rule => c_action cr = rule_action rule)).
  apply Forall2_same_length_lookup. split; [done|].
  intros i cr rule Hcr Hrule. destruct (Hrules i rule cr Hrule Hcr) as (Hr & Hp & _ & Ha & _).
  split; [done|]. apply list_elem_of_lookup_2 in Hrule.
  pose proof (wf_rules _ Hwf) as Hrw. rewrite Forall_forall in Hrw.
  destruct (Hrw rule Hrule) as (_ & Hin & _ & Ht & _ & Hop).
  apply eq_true_iff_eq. rewrite bool_decide_eq_true, rule_matches_spec. split.
  - intros [Er Ep]. rewrite Er in Hr. rewrite Ep in Hp.
    split_and!; [by apply Hpaths; [|apply Hr]| |done].
    rewrite <- (Hexes rule Hrule); [|apply Hp]. rewrite <- Ht. by destruct (rule_process rule).
  - intros (Hpath & Hpr & _). rewrite Hpath in Hr. rewrite Hpr in Hp. cbn in Hp.
    split; by eapply resolves_functional.
Qed.

(** The verdict of the compiled policy, in terms of the engine's lookups. *)
Lemma compiled_verdict_lookup :
  compiled_verdict c res proc =
  if is_protected p path then
    match find_rule p path (MkProcessIdentity ExePath exe) Open with
    | Some rule => if bool_decide (rule_action rule = Allow) then 0 else - EACCES
    | None => - EACCES
    end
  else 0.
Proof using Hcompile Hres Hproc Halias.
  unfold compiled_verdict. destruct Hres as [_ ->]. destruct Hproc as [_ ->]. cbn [negb].
  rewrite protected_agree. pose proof rules_agree as Hr.
  destruct (is_protected p path); cbn [negb]; [|done].
  destruct (rule_for c res proc), (find_rule p path _ Open); try done. by rewrite Hr.
Qed.
End Agreement.

(** The same case analysis is the decision engine's, under a default that is
    not ALLOW. *)
Lemma evaluate_verdict (p : Policy) (path exe : string) :
  default_action p <> Allow ->
  (if is_protected p path then
     match find_rule p path (MkProcessIdentity ExePath exe) Open with
     | Some rule => if bool_decide (rule_action rule = Allow) then 0 else - EACCES
     | None => - EACCES
     end
   else 0) =
  if decide (action (evaluate p (open_request path exe)) = Allow) then 0 else - EACCES.
Proof.
  intros Hdef. unfold evaluate, open_request; cbn.
  destruct (is_protected p path); cbn [negb]; [|by rewrite decide_True].
  destruct (find_rule p path _ Open) as [rule|]; cbn.
  - by rewrite bool_decide_decide; repeat case_decide.
  - by rewrite decide_False.
Qed.

(** C23 (kernel and decision engine agree): for a policy whose default action
    is not ALLOW and an access without aliases, the verdict the compiled
    policy gives to the identities is 0 exactly when the decision engine
    allows the paths, and -EACCES otherwise. *)
Theorem compiled_verdict_agrees (r : FileResolver) (p : Policy) (c : CompiledPolicy)
    (path exe : string) (res proc : FileId) :
  compile r p = Ok c -> resolves r path res -> resolves r exe proc ->
  no_alias r p path exe res proc -> default_action p <> Allow ->
  compiled_verdict c res proc =
  if decide (action (evaluate p (open_request path exe)) = Allow) then 0 else - EACCES.
Proof.
  intros Hc Hres Hproc Hal Hdef. rewrite (compiled_verdict_lookup r p c path exe) by done.
  by apply evaluate_verdict.
Qed.

(** Default ALLOW is not enforced: for a policy whose default action is
    ALLOW, an access to a protected file that no rule covers is allowed by the
    decision engine and refused by the kernel: the configured default never
    reaches the maps. *)
Theorem default_allow_diverges (r : FileResolver) (p : Policy) (c : CompiledPolicy)
    (path exe : string) (res proc : FileId) :
  compile r p = Ok c -> resolves r path res -> resolves r exe proc ->
  no_alias r p path exe res proc -> default_action p = Allow ->
  path ∈ res_path <$> protected_resources p ->
  Forall (fun rule => ~ rule_covers (open_request path exe) rule) (rules p) ->
  action (evaluate p (open_request path exe)) = Allow /\ compiled_verdict c res proc = - EACCES.
Proof.
  intros Hc Hres Hproc Hal Hdef Hprot Hrules.
  apply is_protected_spec in Hprot.
  assert (find_rule p path (MkProcessIdentity ExePath exe) Open = None) as Hnone.
  { apply find_first_None. eapply Forall_impl; [exact Hrules|]. intros rule.
    apply (rule_covers_false (open_request path exe)). }
  rewrite (compiled_verdict_lookup r p c path exe), Hprot, Hnone by done.
  split; [|done]. unfold evaluate, open_request; cbn. by rewrite Hprot, Hnone.
Qed.

(** ** A concrete system *)
Definition agreement_compiled : CompiledPolicy :=
  MkCompiledPolicy 7 [MkFileId 1 2 1000]
    [MkCompiledRule 1 (MkFileId 1 2 1000) (MkFileId 1 2 2000) Open Allow].

Lemma sample_no_alias :
  no_alias sample_resolver compiler_policy "/protected/secret.txt" "/usr/local/bin/backup-agent"
    (MkFileId 1 2 1000) (MkFileId 1 2 2000).
Proof.
  split.
  - intros q Hq _. cbn in Hq. by apply list_elem_of_singleton in Hq.
  - intros rule Hr _. cbn in Hr. apply list_elem_of_singleton in Hr. by subst.
Qed.

Lemma compiled_verdict_agrees_witness :
  compiled_verdict agreement_compiled (MkFileId 1 2 1000) (MkFileId 1 2 2000) = 0.
Proof.
  rewrite (compiled_verdict_agrees sample_resolver compiler_policy agreement_compiled
             "/protected/secret.txt" "/usr/local/bin/backup-agent" _ _
             eq_refl (conj eq_refl eq_refl) (conj eq_refl eq_refl) sample_no_alias
             ltac:(discriminate)).
  reflexivity.
Defined.

Definition allow_policy : Policy :=
  MkPolicy 7 Allow [MkResourceIdentity "/protected/secret.txt" (Some Open)] [].

Lemma default_allow_diverges_witness :
  action (evaluate allow_policy (open_request "/protected/secret.txt" "/usr/local/bin/backup-agent"))
    = Allow /\
  compiled_verdict (MkCompiledPolicy 7 [MkFileId 1 2 1000] []) (MkFileId 1 2 1000)
    (MkFileId 1 2 2000) = - EACCES.
Proof.
  apply (default_allow_diverges sample_resolver allow_policy
           (MkCompiledPolicy 7 [MkFileId 1 2 1000] []) "/protected/secret.txt"
           "/usr/local/bin/backup-agent" (MkFileId 1 2 1000) (MkFileId 1 2 2000)
           eq_refl (conj eq_refl eq_refl) (conj eq_refl eq_refl)).
  - split.
    + intros q Hq _. cbn in Hq. by apply list_elem_of_singleton in Hq.
    + intros rule Hr. by apply elem_of_nil in Hr.
  - reflexivity.
  - apply list_elem_of_singleton. reflexivity.
  - constructor.
Defined.
