(* ===== verification/ControllerProperties.v ===== *)
(** * Properties of the controller

    Installing a policy (atomic in user space, in step with the backend), the
    event pipeline from [emit_event] to the sinks and clients, and shutdown.
    They are proved against the backend's contract [EnforcerLaws]. *)

From S2P Require Import Prelude Abi BpfMap FileId Policy DecisionEngine PolicyCompiler PathResolver SpscQueue SecurityEvent Enforcer.
From S2P Require Import KernelProgram EbpfManager EbpfInstall EbpfProperties EbpfLifecycle.
From S2P Require Import Json ConfigParser EventSink Controller Agreement.

Local Open Scope Z_scope.

Section Install.
  Context {E : Type} `{!IEnforcer E} `{!EnforcerLaws E} {Cl : Type}.
  Context (file_resolver : FileResolver).
  Implicit Types (c : Controller E Cl) (p : Policy).

(** The two ways out of [load_policy] on a controller with a backend. *)
Lemma load_policy_Ok p c c' (e : E) :
  enforcer_ c = Some e -> load_policy file_resolver (Some p) c = (ok_v, c') ->
  exists compiled e',
    compile file_resolver p = Ok compiled /\ enf_apply_policy compiled e = (ok_v, e') /\
    enforcer_ c' = Some e' /\ current_ (policy_manager_ c') = Some p /\
    resolver_ c' = Some (build_resolver p compiled).
Proof.
  intros He. unfold load_policy. destruct (validate p) as [[]|m] eqn:Hv; [|done].
  destruct (compile file_resolver p) as [compiled|m]; [|done]. rewrite He.
  destruct (enf_apply_policy compiled e) as [[[]|m] e'] eqn:Ha; [|done].
  unfold manager_install. rewrite Hv. intros [= <-]. by exists compiled, e'.
Qed.

Lemma load_policy_Err (po : option Policy) c c' (m : string) :
  load_policy file_resolver po c = (Err m, c') ->
  (c' = c \/
   exists compiled e e' m', enforcer_ c = Some e /\ enf_apply_policy compiled e = (Err m', e') /\
     c' = with_enforcer c (Some e')).
Proof.
  unfold load_policy. destruct po as [p|]; [|by intros [= _ <-]; left].
  destruct (validate p) as [[]|e1] eqn:Hv; [|by intros [= _ <-]; left].
  destruct (compile file_resolver p) as [compiled|e1]; [|by intros [= _ <-]; left].
  destruct (enforcer_ c) as [e|] eqn:He.
  - destruct (enf_apply_policy compiled e) as [[[]|m'] e'] eqn:Ha.
    + unfold manager_install. rewrite Hv. done.
    + intros [= _ <-]. right. by exists compiled, e, e', m'.
  - unfold manager_install. rewrite Hv. done.
Qed.

Lemma named_actions_wf p compiled :
  compile file_resolver p = Ok compiled ->
  Forall (fun rule => named_action (rule_action rule)) (rules p) -> actions_wf compiled.
Proof.
  intros Hc Hn. apply compile_Ok in Hc as (_ & _ & _ & Hlen & Hr).
  apply Forall_lookup_2. intros i cr Hi v Hv.
  destruct (lookup_lt_is_Some_2 (rules p) i) as [rule Hrule].
  { rewrite <- Hlen. by eapply lookup_lt_Some. }
  destruct (Hr i rule cr Hrule Hi) as (_ & _ & _ & Ha & _).
  rewrite Forall_lookup in Hn. destruct (Hn i rule Hrule); congruence.
Qed.

(** The bindings of the reverse resolver: each path of the policy under the
    identity it resolved to. *)
Lemma resolver_bindings p compiled (id : FileId) (q : string) :
  compile file_resolver p = Ok compiled ->
  (id, q) ∈ zip (c_protected_resources compiled) (res_path <$> protected_resources p) ++
            zip (c_process <$> c_rules compiled)
                ((fun r => proc_value (rule_process r)) <$> rules p) <->
  file_resolver q = Ok id /\
  q ∈ (res_path <$> protected_resources p) ++ ((fun r => proc_value (rule_process r)) <$> rules p).
Proof.
  intros Hc. apply compile_Ok in Hc as (_ & _ & Hids & Hlen & Hr).
  assert (Forall2 (fun q id => file_resolver q = Ok id)
            ((fun r => proc_value (rule_process r)) <$> rules p)
            (c_process <$> c_rules compiled)) as Hprocs.
  { apply Forall2_fmap, Forall2_same_length_lookup. split; [done|].
    intros i rule cr Hrule Hcr. by destruct (Hr i rule cr Hrule Hcr) as (_ & [Hp _] & _). }
  assert (Forall2 (fun q id => file_resolver q = Ok id) (res_path <$> protected_resources p)
            (c_protected_resources compiled)) as Hids'
    by (eapply Forall2_impl; [exact Hids|by intros ?? []]).
  assert (forall (qs : list string) (ids : list FileId),
            Forall2 (fun q id => file_resolver q = Ok id) qs ids ->
            ((id, q) ∈ zip ids qs <-> file_resolver q = Ok id /\ q ∈ qs)) as Hzip.
  { induction 1 as [|q' id' qs ids Hq _ IH]; cbn.
    - split; [by intros ?%elem_of_nil|by intros [_ ?%elem_of_nil]].
    - rewrite !elem_of_cons, IH. split.
      + intros [[= -> ->]|[? ?]]; auto.
      + intros [Hr' [->|?]]; [left; congruence|by right]. }
  rewrite !elem_of_app, (Hzip _ _ Hids'), (Hzip _ _ Hprocs). tauto.
Qed.

Lemma build_resolver_renders p compiled :
  compile file_resolver p = Ok compiled ->
  let paths := (res_path <$> protected_resources p) ++
               ((fun rule => proc_value (rule_process rule)) <$> rules p) in
  (forall q1 q2 id, q1 ∈ paths -> q2 ∈ paths ->
     file_resolver q1 = Ok id -> file_resolver q2 = Ok id -> q1 = q2) ->
  forall q id, q ∈ paths -> file_resolver q = Ok id ->
  resolver_resolve (build_resolver p compiled) id = q.
Proof.
  intros Hc paths Hinj q id Hq Hid. apply resolve_add_all_functional.
  - by apply resolver_bindings.
  - intros q' Hq'. apply resolver_bindings in Hq' as [Hid' Hq']; [|done]. by apply (Hinj q' q id).
Qed.

(** A successful [load_policy] installs the compiled policy in the backend, and
    the status reports the policy. *)
Lemma load_policy_status p c c' (e : E) :
  enforcer_ c = Some e -> load_policy file_resolver (Some p) c = (ok_v, c') -> version p < 2 ^ 31 ->
  exists compiled e', compile file_resolver p = Ok compiled /\
    enf_apply_policy compiled e = (ok_v, e') /\ enforcer_ c' = Some e' /\
    policy_version (controller_status c') = version p /\
    protected_count (controller_status c') = Z.of_nat (length (protected_resources p)) /\
    rule_count (controller_status c') = Z.of_nat (length (rules p)).
Proof.
  intros He Hl Hver. destruct (load_policy_Ok p c c' e He Hl)
    as (compiled & e' & Hc & Ha & He' & Hcur & _).
  pose proof Hc as Hok. apply compile_Ok in Hok as (Hpwf & Hcv & Hids & Hlen & _).
  destruct (apply_status compiled e e' Ha) as (Hv & Hpc & Hrc).
  { rewrite Hcv. split; [apply (wf_version _ Hpwf)|done]. }
  exists compiled, e'. unfold controller_status. rewrite He'. split_and!; try done.
  - congruence.
  - rewrite Hpc. f_equal. apply Forall2_length in Hids. by rewrite length_fmap in Hids.
  - rewrite Hrc. by rewrite Hlen.
Qed.

(** What an enforcing backend holds after applying a compiled policy decides
    as the decision engine does on the paths. *)
Lemma load_policy_enforces p compiled (e e' : E) (path exe : string) (res proc : FileId) :
  compile file_resolver p = Ok compiled -> enf_apply_policy compiled e = (ok_v, e') ->
  Forall (fun rule => named_action (rule_action rule)) (rules p) ->
  default_action p <> Allow -> enforcing (enf_status e') = true ->
  resolves file_resolver path res -> resolves file_resolver exe proc ->
  no_alias file_resolver p path exe res proc ->
  enforced e' res proc =
  if decide (action (evaluate p (open_request path exe)) = Allow) then 0 else - EACCES.
Proof.
  intros Hc Ha Hn Hdef Henf Hres Hproc Hal.
  rewrite (apply_ok compiled e e' Ha (named_actions_wf p compiled Hc Hn) Henf).
  rewrite (compiled_verdict_lookup file_resolver p compiled path exe) by done.
  by apply evaluate_verdict.
Qed.

(** C28 (a rejected policy): when [load_policy] fails, the policy manager, the
    event resolver, the queue, the sinks and the clients are untouched; the
    backend either gives every open the verdict it gave before or has stopped
    enforcing.  The latter is possible, so the running policy can be lost in
    the kernel although the call failed. *)
Theorem load_policy_failure (po : option Policy) c c' (m : string) :
  load_policy file_resolver po c = (Err m, c') ->
  policy_manager_ c' = policy_manager_ c /\ resolver_ c' = resolver_ c /\
  queue_ c' = queue_ c /\ sinks_ c' = sinks_ c /\ clients_ c' = clients_ c /\
  started_ c' = started_ c /\
  (enforcer_ c' = enforcer_ c \/
   exists e e', enforcer_ c = Some e /\ enforcer_ c' = Some e' /\
     ((forall res proc, enforced e' res proc = enforced e res proc) \/
      (enforcing (enf_status e') = false /\ forall res proc, enforced e' res proc = 0))).
Proof.
  intros [->|(compiled & e & e' & m' & He & Ha & ->)]%load_policy_Err; [by auto 10|].
  split_and!; try done. right. exists e, e'. split_and!; [done|done|].
  destruct (apply_err compiled e e' m' Ha) as [[Heq _]|Hoff]; [by left|right].
  split; [done|]. by apply not_enforcing.
Qed.

(** Events carry the configured paths: after a successful [load_policy]
    whose paths have pairwise distinct identities, an event about a protected
    resource and an executable of the policy is rendered with exactly the
    configured paths. *)
Theorem load_policy_renders p c c' (e : E) (put_time : Z -> string) (raw : RawEvent)
    (path exe : string) :
  enforcer_ c = Some e -> load_policy file_resolver (Some p) c = (ok_v, c') ->
  let paths := (res_path <$> protected_resources p) ++
               ((fun rule => proc_value (rule_process rule)) <$> rules p) in
  (forall q1 q2 id, q1 ∈ paths -> q2 ∈ paths ->
     file_resolver q1 = Ok id -> file_resolver q2 = Ok id -> q1 = q2) ->
  path ∈ paths -> exe ∈ paths ->
  file_resolver path = Ok (raw_resource raw) -> file_resolver exe = Ok (raw_process raw) ->
  se_resource_path (enrich put_time c' raw) = path /\ se_process_path (enrich put_time c' raw) = exe.
Proof.
  intros He Hl paths Hinj Hp Hx Hrp Hrx. destruct (load_policy_Ok p c c' e He Hl)
    as (compiled & e' & Hc & _ & _ & _ & Hres).
  unfold enrich; cbn. rewrite Hres.
  split; [apply (build_resolver_renders p compiled Hc Hinj path _ Hp Hrp)
         |apply (build_resolver_renders p compiled Hc Hinj exe _ Hx Hrx)].
Qed.
End Install.

(** ** The event pipeline *)
Section Pipeline.
  Context {E : Type} `{!IEnforcer E} `{!EnforcerLaws E}.
  Context {Cl : Type} `{!EventStreamClient Cl}.
  Context {J : Type} `{!Json J} `{!JsonLaws J}.
  Implicit Types (c : Controller E Cl) (ev : SecurityEvent).

Abbreviation deliver := (deliver (J:=J)).
Abbreviation consumer_loop := (consumer_loop (J:=J)).
Abbreviation request_stop := (request_stop (J:=J)).

(** What a sequence of events, delivered in order, makes of the sinks and the
    clients. *)
Fixpoint outputs_all (sinks : list ISink) (clients : list (nat * Cl)) (evs : list SecurityEvent)
    : outcome (list ISink * list (nat * Cl)) :=
  match evs with
  | [] => Return (sinks, clients)
  | ev :: evs =>
     sinks' ← sinks_write (J:=J) sinks ev;
     clients' ← push_clients ev clients;
     outputs_all sinks' clients' evs
  end.

Lemma consumer_loop_run (fuel : nat) c :
  queue_wf (queue_ c) -> (length (queue_contents (queue_ c)) < fuel)%nat ->
  exists q', queue_wf q' /\ queue_contents q' = [] /\ stop_ q' = stop_ (queue_ c) /\
    consumer_loop fuel c =
    (outs ← outputs_all (sinks_ c) (clients_ c) (queue_contents (queue_ c));
     Return (if stop_ (queue_ c) then LoopReturned else LoopBlocked,
             with_outputs (with_queue c q') outs.1 outs.2)).
Proof.
  revert c; induction fuel as [|fuel IH]; intros c Hwf Hfuel; [lia|].
  cbn [Controller.consumer_loop]. unfold queue_pop.
  destruct (queue_empty (queue_ c)) eqn:He.
  - apply queue_empty_spec in He as Hc; [|done]. rewrite Hc. cbn [outputs_all mbind outcome_bind].
    exists (queue_ c). split_and!; [done..|]. rewrite orb_false_r.
    destruct c; cbn. by destruct (stop_ queue_).
  - rewrite orb_true_r. pose proof (queue_take_contents (queue_ c) Hwf He) as Htake.
    destruct (queue_take (queue_ c)) as [ev q] eqn:Hq. cbn in Htake.
    pose proof (queue_take_wf (queue_ c) Hwf) as Hwf'. rewrite Hq in Hwf'. cbn in Hwf'.
    assert (stop_ q = stop_ (queue_ c)) as Hstop
      by (unfold queue_take in Hq; by injection Hq as _ <-).
    destruct (drained_queue q Hwf') as (D1 & D2 & D3).
    rewrite Htake in Hfuel. cbn in Hfuel.
    rewrite Htake. cbn [outputs_all]. unfold Controller.deliver. cbn [with_queue sinks_ clients_].
    destruct (sinks_write (sinks_ c) ev) as [sinks'|w]; cbn [mbind outcome_bind].
    2: { eexists. split_and!; [exact D1|exact D2|by rewrite D3|reflexivity]. }
    destruct (push_clients ev (clients_ c)) as [clients'|w];
      cbn [mbind outcome_bind].
    2: { eexists. split_and!; [exact D1|exact D2|by rewrite D3|reflexivity]. }
    destruct (IH (with_outputs (with_queue c q) sinks' clients')) as (q' & Hwf2 & Hc2 & Hs2 & Hloop);
      [done|cbn; lia|].
    exists q'. split_and!; [done|done|by rewrite Hs2|]. rewrite <- Hstop. exact Hloop.
Qed.

(** The consumer drains the queue in order: with more iterations than
    queued events, the consumer's loop delivers exactly the queued events, in
    order, to every sink and to every client that is not closed, and then
    returns if the queue was stopped and blocks otherwise; it leaves the queue
    empty and touches nothing else.  If writing an event throws, the loop
    throws. *)
Theorem consumer_loop_drains (fuel : nat) c :
  queue_wf (queue_ c) -> (length (queue_contents (queue_ c)) < fuel)%nat ->
  match outputs_all (sinks_ c) (clients_ c) (queue_contents (queue_ c)) with
  | Return (sinks, clients) =>
     exists q', queue_contents q' = [] /\ stop_ q' = stop_ (queue_ c) /\
       consumer_loop fuel c =
       Return (if stop_ (queue_ c) then LoopReturned else LoopBlocked,
               with_outputs (with_queue c q') sinks clients)
  | Throw w => consumer_loop fuel c = Throw w
  end.
Proof.
  intros Hwf Hfuel. destruct (consumer_loop_run fuel c Hwf Hfuel) as (q' & _ & Hc & Hs & ->).
  destruct (outputs_all _ _ _) as [[sinks clients]|w]; cbn; [by exists q'|done].
Qed.

(** C33 (orderly shutdown): stopping a running controller delivers every event
    that is still queued, in order, leaves the queue stopped and empty, joins
    the threads and detaches the backend, so nothing is enforced afterwards;
    stopping again does nothing. *)
Theorem request_stop_drains c sinks clients :
  started_ c = true -> threads_ c = true -> queue_wf (queue_ c) ->
  outputs_all (sinks_ c) (clients_ c) (queue_contents (queue_ c)) = Return (sinks, clients) ->
  exists c', request_stop c = Return (ok_v, c') /\
    started_ c' = false /\ threads_ c' = false /\
    sinks_ c' = sinks /\ clients_ c' = clients /\
    queue_contents (queue_ c') = [] /\ stop_ (queue_ c') = true /\
    enforcing (controller_status c') = false /\ attached (controller_status c') = false /\
    request_stop c' = Return (ok_v, c').
Proof.
  intros Hs Ht Hwf Hout. unfold Controller.request_stop. rewrite Hs. cbn [negb]. cbv zeta.
  set (c0 := with_queue (with_started c false (threads_ c))
               (queue_request_stop (queue_ (with_started c false (threads_ c))))).
  destruct (consumer_loop_run (S (queue_capacity (queue_ c))) c0) as (q' & _ & Hq & Hst & Hrun).
  { done. }
  { cbn. pose proof (queue_contents_bound (queue_ c) Hwf) as Hb.
    unfold queue_capacity. change (queue_contents (queue_request_stop (queue_ c)))
      with (queue_contents (queue_ c)). lia. }
  replace (threads_ c0) with true by (symmetry; exact Ht). change (queue_capacity (queue_ c0)) with (queue_capacity (queue_ c)).
  rewrite Hrun. change (outputs_all (sinks_ c0) (clients_ c0) (queue_contents (queue_ c0)))
    with (outputs_all (sinks_ c) (clients_ c) (queue_contents (queue_ c))).
  rewrite Hout. cbn.
  destruct (enforcer_ c) as [e|] eqn:He.
  - destruct (enf_detach e) as [r e'] eqn:Hd. pose proof (detach_ok e) as Hok.
    pose proof (detached_off _ (detach_detached e)) as [Ho1 Ho2]. rewrite Hd in Hok, Ho1, Ho2. cbn in Hok, Ho1, Ho2.
    subst r. eexists. split; [reflexivity|]. by split_and!.
  - eexists. split; [reflexivity|]. unfold controller_status; cbn. rewrite He. by split_and!.
Qed.

(** A command name can stop event processing: an event whose command name
    is not UTF-8 (any process can choose such a name) makes the JSON log throw
    in the consumer thread, where nothing catches it; no later event is
    delivered. *)
Theorem consumer_throws_on_bad_comm (fuel : nat) c ev (evs : list SecurityEvent) (out : string)
    (rest : list ISink) :
  queue_wf (queue_ c) -> queue_contents (queue_ c) = ev :: evs ->
  (length (queue_contents (queue_ c)) < fuel)%nat ->
  sinks_ c = SinkJson out :: rest ->
  utf8_tail 0 (bytes_of_string (se_comm ev)) = false ->
  exists w, consumer_loop fuel c = Throw w.
Proof.
  intros Hwf Hc Hfuel Hsinks Hbad.
  destruct (consumer_loop_run fuel c Hwf Hfuel) as (q' & _ & _ & _ & ->).
  rewrite Hc, Hsinks. cbn [outputs_all sinks_write sink_write]. unfold json_write.
  assert (exists w, json_dump (J:=J) (event_object ev) = Throw w) as [w ->]; [|by exists w].
  apply (dump_bad_utf8 _ "comm" (se_comm ev)); [|done]. set_solver.
Qed.
End Pipeline.

(** ** A concrete controller over the Linux backend *)
Definition no_env : load_env := MkLoadEnv None None None (Some "bpf") None.
Definition sample_ops : IEnforcer LE := linux_ops no_strerror no_env.
Definition sample_laws : @EnforcerLaws LE sample_ops := linux_laws no_strerror no_env.

(** An enforcer that has loaded and holds no policy. *)
Definition loaded_enforcer : LE :=
  (ebpf_load no_strerror no_env (LinuxEBPFEnforcer_create EnforcerConfig_default)).1.2.

Definition sample_config : ControllerConfig :=
  MkControllerConfig "" "/tmp/fileguard" true "" 8 EnforcerConfig_default.

Definition controller_over (e : LE) (q : SpscQueue SecurityEvent) (sinks : list ISink)
    : Controller LE nat :=
  MkController sample_config (MkPolicyManager None) (Some e) None q sinks 0 [] true true.

Definition empty_queue : SpscQueue SecurityEvent :=
  MkSpscQueue (replicate 4 SecurityEvent_default) 0 0 false.

Definition loaded_controller : Controller LE nat :=
  (@load_policy LE sample_ops nat sample_resolver (Some compiler_policy)
     (controller_over loaded_enforcer empty_queue [])).2.

Lemma loaded_controller_eq :
  @load_policy LE sample_ops nat sample_resolver (Some compiler_policy)
    (controller_over loaded_enforcer empty_queue []) = (ok_v, loaded_controller).
Proof.
  assert ((@load_policy LE sample_ops nat sample_resolver (Some compiler_policy)
    (controller_over loaded_enforcer empty_queue [])).1 = ok_v) as <- by (vm_compute; reflexivity).
  unfold loaded_controller. by destruct (load_policy _ _ _).
Qed.

(** The same controller over maps too small for the policy: the call fails
    and the backend has stopped enforcing. *)
Definition two_files : Policy :=
  MkPolicy 8 Deny [MkResourceIdentity "/protected/secret.txt" None;
                   MkResourceIdentity "/usr/local/bin/backup-agent" None] [].

Definition failed_controller : Controller LE nat :=
  (@load_policy LE sample_ops nat sample_resolver (Some two_files)
     (controller_over small_enforcer empty_queue [])).2.

Lemma failed_controller_eq :
  @load_policy LE sample_ops nat sample_resolver (Some two_files)
    (controller_over small_enforcer empty_queue []) =
  (Err "kernel policy install failed: cannot insert protected resource (errno=7: )",
   failed_controller).
Proof.
  assert ((@load_policy LE sample_ops nat sample_resolver (Some two_files)
    (controller_over small_enforcer empty_queue [])).1 =
    Err "kernel policy install failed: cannot insert protected resource (errno=7: )") as <-
    by (vm_compute; reflexivity).
  unfold failed_controller. by destruct (load_policy _ _ _).
Qed.

Lemma load_policy_failure_witness :
  policy_manager_ failed_controller = MkPolicyManager None /\
  enforcing (@controller_status LE sample_ops nat
               (controller_over small_enforcer empty_queue [])) = true /\
  enforcing (@controller_status LE sample_ops nat failed_controller) = false.
Proof.
  destruct (@load_policy_failure LE sample_ops sample_laws nat sample_resolver (Some two_files)
    (controller_over small_enforcer empty_queue []) failed_controller _ failed_controller_eq) as (Hm & _).
  split; [exact Hm|]. split; vm_compute; reflexivity.
Defined.

Lemma load_policy_renders_witness :
  se_resource_path (enrich (fun _ => "") loaded_controller
    (MkRawEvent 0 1 1 0 0 (MkFileId 1 2 1000) (MkFileId 1 2 2000) 1 Open Allow Reason_PolicyRule ""))
  = "/protected/secret.txt".
Proof.
  refine (proj1 (@load_policy_renders LE sample_ops nat sample_resolver compiler_policy
    (controller_over loaded_enforcer empty_queue []) loaded_controller loaded_enforcer (fun _ => "")
    (MkRawEvent 0 1 1 0 0 (MkFileId 1 2 1000) (MkFileId 1 2 2000) 1 Open Allow Reason_PolicyRule "")
    "/protected/secret.txt" "/usr/local/bin/backup-agent" eq_refl loaded_controller_eq _ _ _ _ _)).
  - intros q1 q2 id H1 H2. cbn in H1, H2. unfold sample_resolver.
    rewrite !elem_of_cons, elem_of_nil in H1, H2.
    destruct H1 as [->|[->|[]]], H2 as [->|[->|[]]]; cbn; congruence.
  - apply elem_of_cons. left. reflexivity.
  - apply elem_of_cons. right. apply elem_of_cons. left. reflexivity.
  - reflexivity.
  - reflexivity.
Defined.

(** A stopped queue holding one event, and a console. *)
Definition one_event_queue (e : SecurityEvent) (stopped : bool) : SpscQueue SecurityEvent :=
  MkSpscQueue [e; SecurityEvent_default; SecurityEvent_default] 1 0 stopped.
Definition console : list ISink := [SinkConsole (MkConsoleSink "" true)].
Definition running_controller (e : SecurityEvent) (sinks : list ISink) : Controller LE nat :=
  controller_over loaded_enforcer (one_event_queue e false) sinks.
Definition nat_client : EventStreamClient nat := {|
  client_push := fun n _ => Return (S n);
  client_closed := fun _ => false;
|}.

Lemma one_event_wf (e : SecurityEvent) (b : bool) : queue_wf (one_event_queue e b).
Proof. unfold queue_wf. cbn. lia. Qed.

Lemma consumer_loop_drains_witness :
  exists q', queue_contents q' = [] /\
    @consumer_loop LE nat nat_client jval sample_json 2
      (running_controller sample_event console) =
    Return (LoopBlocked, with_outputs (with_queue (running_controller sample_event console) q')
      [SinkConsole (MkConsoleSink (console_row sample_event) true)] []).
Proof.
  destruct (@consumer_loop_drains LE nat nat_client jval sample_json 2
    (running_controller sample_event console) (one_event_wf sample_event false)
    ltac:(cbn; lia)) as (q' & Hq & _ & Hl).
  exists q'. split; [exact Hq|exact Hl].
Defined.

Lemma request_stop_drains_witness :
  exists c', @request_stop LE sample_ops nat nat_client jval sample_json
               (running_controller sample_event console) = Return (ok_v, c') /\
    sinks_ c' = [SinkConsole (MkConsoleSink (console_row sample_event) true)].
Proof.
  destruct (@request_stop_drains LE sample_ops sample_laws nat nat_client
    jval sample_json (running_controller sample_event console)
    [SinkConsole (MkConsoleSink (console_row sample_event) true)] []
    eq_refl eq_refl (one_event_wf sample_event false) eq_refl) as (c' & Hr & _ & _ & Hs & _).
  exists c'. split; [exact Hr|exact Hs].
Defined.

Definition bad_comm_event : SecurityEvent :=
  MkSecurityEvent "" 1 1 0 0 (String (ascii_of_nat 255) "") "" "" Open Deny Reason_DefaultDeny 0.

Lemma consumer_throws_on_bad_comm_witness :
  exists w, @consumer_loop LE nat nat_client jval sample_json 5
              (running_controller bad_comm_event [SinkJson ""]) = Throw w.
Proof.
  apply (@consumer_throws_on_bad_comm LE nat nat_client jval sample_json
    sample_json_laws 5 (running_controller bad_comm_event [SinkJson ""]) bad_comm_event [] "" []
    (one_event_wf bad_comm_event false) eq_refl); [cbn; lia|reflexivity|reflexivity].
Defined.
