(* ===== verification/ConcurrentLoads.v ===== *)
(** * Concurrent policy loads

    Every connection of the daemon has its own thread, and each can call
    Controller::load_policy (src/controller.cpp).  Validation and compilation
    work on the caller's own data; the kernel's maps, the resolver and the
    current policy are replaced in three critical sections, under [state_mu_]
    of the backend, [resolver_mu_] and [mu_] of the policy manager.  The calls
    are the [loader]s of LoadSteps.v, and any of them can go on next. *)

From stdpp Require Import relations.
From S2P Require Import Prelude Abi FileId Policy DecisionEngine PolicyCompiler PathResolver Enforcer.
From S2P Require Import EbpfProperties EbpfLifecycle Json ConfigParser EventSink Controller LoadSteps Agreement ControllerProperties.

Section Loads.
Context {E : Type} `{!IEnforcer E} {Cl : Type} (file_resolver : FileResolver).
Implicit Types (c : Controller E Cl) (p : Policy) (l : loader).

Inductive loads_step : list loader * Controller E Cl -> list loader * Controller E Cl -> Prop :=
| loads_step_at ls c i l l' c' :
    ls !! i = Some l -> load_returned l = false -> load_advance file_resolver l c = (l', c') ->
    loads_step (ls, c) (<[i := l']> ls, c').

(** A policy one of the calls is for, that passes the checks. *)
Definition accepted_load (policies : list (option Policy)) (p : Policy) (compiled : CompiledPolicy) : Prop :=
  Some p ∈ policies /\ validate p = ok_v /\ compile file_resolver p = Ok compiled.
End Loads.

Section Invariant.
Context {E : Type} `{!IEnforcer E} `{!EnforcerLaws E} {Cl : Type} (file_resolver : FileResolver).
Context (policies : list (option Policy)) (c0 : Controller E Cl) (e0 : E).
Context (Hnamed : Forall (fun o => forall p, o = Some p ->
  Forall (fun rule => named_action (rule_action rule)) (rules p)) policies).
Implicit Types (c : Controller E Cl) (e : E) (p : Policy) (l : loader).
Abbreviation accepted := (accepted_load file_resolver policies).

(** What a call has found out. *)
Definition loader_ok l : Prop :=
  match l with
  | LoadCalled policy => policy ∈ policies
  | LoadApplied p compiled => accepted p compiled
  | LoadResolved p => exists compiled, accepted p compiled
  | LoadReturned _ => True
  end.

Definition applied l : Prop :=
  match l with LoadCalled _ | LoadReturned (Err _) => False | _ => True end.
Definition resolved l : Prop :=
  match l with LoadResolved _ | LoadReturned (Ok _) => True | _ => False end.
Definition installed l : Prop :=
  match l with LoadReturned (Ok _) => True | _ => False end.

Definition kernel_holds e : Prop :=
  (forall res proc, enforced e res proc = 0%Z) \/
  exists p compiled, accepted p compiled /\
    forall res proc, enforced e res proc = compiled_verdict compiled res proc.

Record loads_inv (ls : list loader) c : Prop := {
  li_ok : Forall loader_ok ls;
  li_kernel : exists e, enforcer_ c = Some e /\
    (kernel_holds e \/
     (forall res proc, enforced e res proc = enforced e0 res proc) /\ Forall (fun l => ~ applied l) ls);
  li_resolver :
    (exists p compiled, accepted p compiled /\ resolver_ c = Some (build_resolver p compiled)) \/
    resolver_ c = resolver_ c0 /\ Forall (fun l => ~ resolved l) ls;
  li_current :
    (exists p compiled, accepted p compiled /\ current_ (policy_manager_ c) = Some p) \/
    policy_manager_ c = policy_manager_ c0 /\ Forall (fun l => ~ installed l) ls;
}.

Lemma loads_init_inv : enforcer_ c0 = Some e0 -> loads_inv (LoadCalled <$> policies) c0.
Proof using Type.
  intros He. split.
  - apply Forall_fmap, Forall_forall. by intros o Ho.
  - exists e0. split; [done|]. right. split; [done|]. apply Forall_fmap, Forall_forall. by intros o _ [].
  - right. split; [done|]. apply Forall_fmap, Forall_forall. by intros o _ [].
  - right. split; [done|]. apply Forall_fmap, Forall_forall. by intros o _ [].
Qed.

(** After a successful install the kernel decides as that policy does. *)
Lemma apply_kernel_holds p compiled e e' :
  accepted p compiled -> enf_apply_policy compiled e = (ok_v, e') -> kernel_holds e'.
Proof using All.
  intros (Hin & Hv & Hc) Ha. destruct (enforcing (enf_status e')) eqn:Henf.
  - right. exists p, compiled. split; [done|]. apply (apply_ok compiled e e' Ha); [|done].
    apply (named_actions_wf file_resolver p compiled Hc).
    rewrite Forall_forall in Hnamed. by apply (Hnamed _ Hin).
  - left. by apply not_enforcing.
Qed.

(** A failed one leaves the verdicts, or allows everything. *)
Lemma apply_err_holds compiled e e' m :
  enf_apply_policy compiled e = (Err m, e') ->
  kernel_holds e' \/ forall res proc, enforced e' res proc = enforced e res proc.
Proof using Type.
  intros Ha. destruct (apply_err compiled e e' m Ha) as [[Heq _]|Hoff]; [by right|].
  left. left. by apply not_enforcing.
Qed.

Lemma kernel_holds_ext e e' :
  (forall res proc, enforced e' res proc = enforced e res proc) -> kernel_holds e -> kernel_holds e'.
Proof using Type.
  intros Heq [H0|(p & compiled & Ha & Hv)]; [left|right; exists p, compiled; split; [done|]];
    intros res proc; by rewrite Heq.
Qed.

Lemma insert_not (P : loader -> Prop) ls i l :
  Forall (fun l => ~ P l) ls -> ~ P l -> Forall (fun l => ~ P l) (<[i := l]> ls).
Proof using Type. intros. by apply Forall_insert. Qed.

(** The first critical section. *)
Lemma loads_apply_inv ls c i policy l' c' :
  loads_inv ls c -> ls !! i = Some (LoadCalled policy) -> load_apply file_resolver policy c = (l', c') ->
  loads_inv (<[i := l']> ls) c'.
Proof using All.
  intros [Hok (e & He & Hk) Hres Hcur] Hi.
  assert (policy ∈ policies) as Hin by exact (Forall_lookup_1 _ _ _ _ Hok Hi).
  assert (forall m c1, enforcer_ c1 = enforcer_ c -> resolver_ c1 = resolver_ c ->
    policy_manager_ c1 = policy_manager_ c -> loads_inv (<[i := LoadReturned (Err m)]> ls) c1) as Hsame.
  { intros m c1 E1 E2 E3. split; rewrite ?E1, ?E2, ?E3.
    - by apply Forall_insert.
    - exists e. split; [done|]. destruct Hk as [Hk|[Hk Hn]]; [by left|right]. split; [done|]. by apply insert_not; [|intros []].
    - destruct Hres as [Hr|[Hr Hn]]; [by left|right]. split; [done|]. by apply insert_not; [|intros []].
    - destruct Hcur as [Hr|[Hr Hn]]; [by left|right]. split; [done|]. by apply insert_not; [|intros []]. }
  unfold load_apply. destruct policy as [p|]; [|intros [= <- <-]; by apply Hsame].
  destruct (validate p) as [[]|m] eqn:Hv; [|intros [= <- <-]; by apply Hsame].
  destruct (compile file_resolver p) as [compiled|m] eqn:Hc; [|intros [= <- <-]; by apply Hsame].
  rewrite He. destruct (enf_apply_policy compiled e) as [r e'] eqn:Ha.
  destruct r as [[]|m]; intros [= <- <-].
  - assert (accepted p compiled) as Hacc by done. split; cbn.
    + by apply Forall_insert.
    + exists e'. split; [done|]. left. by apply (apply_kernel_holds p compiled e).
    + destruct Hres as [Hr|[Hr Hn]]; [by left|right]. split; [done|]. by apply insert_not; [|intros []].
    + destruct Hcur as [Hr|[Hr Hn]]; [by left|right]. split; [done|]. by apply insert_not; [|intros []].
  - destruct (Hsame ("kernel policy install failed: " +:+ m) c eq_refl eq_refl eq_refl)
      as [S1 _ S3 S4]. split; [done| |done|done]. cbn. exists e'. split; [done|].
    destruct (apply_err_holds compiled e e' m Ha) as [Hh|Heq]; [by left|].
    destruct Hk as [Hk|[Hk Hn]]; [left; by apply (kernel_holds_ext e)|right].
    split; [intros res proc; by rewrite Heq|]. by apply insert_not; [|intros []].
Qed.

Lemma loads_advance_inv ls c i l l' c' :
  loads_inv ls c -> ls !! i = Some l -> load_advance file_resolver l c = (l', c') ->
  loads_inv (<[i := l']> ls) c'.
Proof using All.
  intros Hinv Hi. destruct l as [policy|p compiled|p|r]; cbn [load_advance].
  - by apply loads_apply_inv.
  - intros [= <- <-]. destruct Hinv as [Hok (e & He & Hk) Hres Hcur].
    assert (accepted p compiled) as Hacc by exact (Forall_lookup_1 _ _ _ _ Hok Hi). split; cbn.
    + apply Forall_insert; [done|]. by exists compiled.
    + exists e. split; [done|]. destruct Hk as [Hk|[Hk Hn]]; [by left|].
      by destruct (Forall_lookup_1 _ _ _ _ Hn Hi).
    + left. by exists p, compiled.
    + destruct Hcur as [Hr|[Hr Hn]]; [by left|right]. split; [done|]. by apply insert_not; [|intros []].
  - destruct Hinv as [Hok (e & He & Hk) Hres Hcur].
    destruct (Forall_lookup_1 _ _ _ _ Hok Hi) as (compiled & Hin & Hv & Hc).
    unfold manager_install. rewrite Hv. cbn. intros [= <- <-]. split; cbn.
    + by apply Forall_insert.
    + exists e. split; [done|]. destruct Hk as [Hk|[Hk Hn]]; [by left|].
      by destruct (Forall_lookup_1 _ _ _ _ Hn Hi).
    + destruct Hres as [Hr|[Hr Hn]]; [by left|]. by destruct (Forall_lookup_1 _ _ _ _ Hn Hi).
    + left. by exists p, compiled.
  - intros [= <- <-]. by rewrite list_insert_id.
Qed.

Lemma loads_reachable_inv ls c :
  enforcer_ c0 = Some e0 ->
  rtc (loads_step file_resolver) (LoadCalled <$> policies, c0) (ls, c) -> loads_inv ls c.
Proof using All.
  intros He0 Hr. pose proof (loads_init_inv He0) as H0.
  remember (LoadCalled <$> policies, c0) as s eqn:Hs. remember (ls, c) as s' eqn:Hs'.
  assert (loads_inv s.1 s.2) as H1 by by rewrite Hs. clear H0 Hs.
  assert (loads_inv s'.1 s'.2) as H2; [|by rewrite Hs' in H2]. clear Hs'.
  induction Hr as [|s s1 s2 [ls1 c1 i l l' c1' Hi Hn Hl] Hr IH]; [done|].
  apply IH. by apply (loads_advance_inv ls1 c1 i l).
Qed.
End Invariant.

Section Properties.
Context {E : Type} `{!IEnforcer E} `{!EnforcerLaws E} {Cl : Type} (file_resolver : FileResolver).
Implicit Types (c : Controller E Cl) (e : E) (p : Policy).

(** What concurrent loads can leave behind: however the calls of
    load_policy interleave, at every moment the kernel's verdicts are those
    from before, those of a policy of one of the calls that passed validation
    and compilation, or "allow"; the resolver and the current policy are the
    ones from before or those of such a policy; and once a call has returned
    ok, none of the three is still the one from before. *)
Theorem concurrent_loads_safe (policies : list (option Policy)) c c' e (ls : list loader) :
  Forall (fun o => forall p, o = Some p ->
    Forall (fun rule => named_action (rule_action rule)) (rules p)) policies ->
  enforcer_ c = Some e ->
  rtc (loads_step file_resolver) (LoadCalled <$> policies, c) (ls, c') ->
  exists e', enforcer_ c' = Some e' /\
    let kernel := kernel_holds file_resolver policies e' in
    let resolver := exists p compiled, accepted_load file_resolver policies p compiled /\
                      resolver_ c' = Some (build_resolver p compiled) in
    let current := exists p compiled, accepted_load file_resolver policies p compiled /\
                     current_ (policy_manager_ c') = Some p in
    (kernel \/ forall res proc, enforced e' res proc = enforced e res proc) /\
    (resolver \/ resolver_ c' = resolver_ c) /\
    (current \/ policy_manager_ c' = policy_manager_ c) /\
    (LoadReturned ok_v ∈ ls -> kernel /\ resolver /\ current).
Proof.
  intros Hn He Hr.
  destruct (loads_reachable_inv file_resolver policies c e Hn ls c' He Hr)
    as [_ (e' & He' & Hk) Hres Hcur].
  exists e'. split; [done|]. cbv zeta. split_and!; [(clear -Hk Hres Hcur; naive_solver)..|].
  intros (i & Hi)%list_elem_of_lookup_1. clear Hn. split_and!.
  - destruct Hk as [Hk|[_ Hk]]; [done|]. by destruct (Forall_lookup_1 _ _ _ _ Hk Hi).
  - destruct Hres as [Hq|[_ Hq]]; [done|]. by destruct (Forall_lookup_1 _ _ _ _ Hq Hi).
  - destruct Hcur as [Hq|[_ Hq]]; [done|]. by destruct (Forall_lookup_1 _ _ _ _ Hq Hi).
Qed.

(** The first call is overtaken between its critical sections. *)
Lemma overtaken_load p1 p2 c c1 c2 e :
  enforcer_ c = Some e ->
  load_policy file_resolver (Some p1) c = (ok_v, c1) ->
  load_policy file_resolver (Some p2) c1 = (ok_v, c2) ->
  exists c', rtc (loads_step file_resolver) (LoadCalled <$> [Some p1; Some p2], c)
               ([LoadReturned ok_v; LoadReturned ok_v], c') /\
    enforcer_ c' = enforcer_ c2 /\ policy_manager_ c' = policy_manager_ c1 /\
    resolver_ c' = resolver_ c1.
Proof using Type.
  intros He. unfold load_policy.
  destruct (validate p1) as [[]|] eqn:Hv1; [|done].
  destruct (compile file_resolver p1) as [k1|] eqn:Hc1; [|done]. rewrite He.
  destruct (enf_apply_policy k1 e) as [[[]|] e1] eqn:Ha1; [|done].
  unfold manager_install. rewrite Hv1. intros [= <-]. cbn [enforcer_ with_policy with_resolver with_enforcer].
  destruct (validate p2) as [[]|] eqn:Hv2; [|done].
  destruct (compile file_resolver p2) as [k2|] eqn:Hc2; [|done].
  destruct (enf_apply_policy k2 e1) as [[[]|] e2] eqn:Ha2; [|done]. intros [= <-].
  eexists. split.
  { eapply rtc_l; [eapply (loads_step_at _ _ _ 0 (LoadCalled (Some p1))); [done..|]|].
    { cbn. by rewrite Hv1, Hc1, He, Ha1. }
    eapply rtc_l; [eapply (loads_step_at _ _ _ 1 (LoadCalled (Some p2))); [done..|]|].
    { cbn. by rewrite Hv2, Hc2, Ha2. }
    eapply rtc_l; [by eapply (loads_step_at _ _ _ 1 (LoadApplied p2 k2))|].
    eapply rtc_l; [eapply (loads_step_at _ _ _ 1 (LoadResolved p2)); [done..|]|].
    { cbn. unfold manager_install. by rewrite Hv2. }
    eapply rtc_l; [by eapply (loads_step_at _ _ _ 0 (LoadApplied p1 k1))|].
    eapply rtc_l; [eapply (loads_step_at _ _ _ 0 (LoadResolved p1)); [done..|]|].
    { cbn. unfold manager_install. by rewrite Hv1. }
    cbn. apply rtc_refl. }
  done.
Qed.

(** A load is not one step: for any two policies that load one after the
    other, two concurrent calls can both return ok and leave the second policy
    in the kernel and in the reported status, while the first is the current
    policy that `policy list` shows and whose paths the events are rendered
    with; nothing corrects this later. *)
Theorem concurrent_loads_diverge p1 p2 c c1 c2 e :
  enforcer_ c = Some e ->
  load_policy file_resolver (Some p1) c = (ok_v, c1) ->
  load_policy file_resolver (Some p2) c1 = (ok_v, c2) ->
  (version p2 < 2 ^ 31)%Z ->
  exists c' compiled1, rtc (loads_step file_resolver) (LoadCalled <$> [Some p1; Some p2], c)
               ([LoadReturned ok_v; LoadReturned ok_v], c') /\
    policy_version (controller_status c') = version p2 /\
    enforcer_ c' = enforcer_ c2 /\
    current_ (policy_manager_ c') = Some p1 /\
    compile file_resolver p1 = Ok compiled1 /\ resolver_ c' = Some (build_resolver p1 compiled1).
Proof using All.
  intros He H1 H2 Hver. destruct (overtaken_load p1 p2 c c1 c2 e He H1 H2) as (c' & Hr & Hk & Hm & Hrs).
  destruct (load_policy_Ok file_resolver p1 c c1 e He H1) as (k1 & e1 & Hc1 & _ & He1 & Hcur1 & Hres1).
  destruct (load_policy_status file_resolver p2 c1 c2 e1 He1 H2 Hver) as (k2 & e2 & _ & _ & _ & Hpv & _).
  exists c', k1. split_and!; [done| |done|by rewrite Hm|done|by rewrite Hrs].
  unfold controller_status in *. by rewrite Hk.
Qed.
End Properties.

(** ** Two loads over the Linux backend *)
Definition next_policy : Policy :=
  MkPolicy 9 Deny [MkResourceIdentity "/usr/local/bin/backup-agent" None] [].

Definition first_controller : Controller LE nat := controller_over loaded_enforcer empty_queue [].
Definition second_controller : Controller LE nat :=
  (@load_policy LE sample_ops nat sample_resolver (Some next_policy) loaded_controller).2.

Lemma second_controller_eq :
  @load_policy LE sample_ops nat sample_resolver (Some next_policy) loaded_controller =
  (ok_v, second_controller).
Proof.
  assert ((@load_policy LE sample_ops nat sample_resolver (Some next_policy) loaded_controller).1 = ok_v) as <-
    by (vm_compute; reflexivity).
  unfold second_controller. by destruct (load_policy _ _ _).
Qed.

Lemma concurrent_loads_diverge_witness :
  exists c', rtc (@loads_step LE sample_ops nat sample_resolver)
      (LoadCalled <$> [Some compiler_policy; Some next_policy], first_controller)
      ([LoadReturned ok_v; LoadReturned ok_v], c') /\
    policy_version (@controller_status LE sample_ops nat c') = 9%Z /\
    manager_version (policy_manager_ c') = 7%Z.
Proof.
  destruct (@concurrent_loads_diverge LE sample_ops sample_laws nat sample_resolver
    compiler_policy next_policy first_controller loaded_controller second_controller loaded_enforcer
    eq_refl loaded_controller_eq second_controller_eq ltac:(cbn; lia))
    as (c' & k1 & Hr & Hv & _ & Hc & _).
  exists c'. split; [exact Hr|]. split; [exact Hv|]. unfold manager_version. rewrite Hc. reflexivity.
Defined.

Lemma sample_policies_named :
  Forall (fun o => forall p, o = Some p ->
    Forall (fun rule => named_action (rule_action rule)) (rules p)) [Some compiler_policy; Some next_policy].
Proof.
  apply Forall_cons. split; [|apply Forall_cons; split; [|apply Forall_nil; exact I]];
    intros p [= <-]; cbn; [|apply Forall_nil; exact I].
  apply Forall_cons. split; [left; reflexivity|apply Forall_nil; exact I].
Qed.

Lemma concurrent_loads_safe_witness :
  exists c' p compiled, rtc (@loads_step LE sample_ops nat sample_resolver)
      (LoadCalled <$> [Some compiler_policy; Some next_policy], first_controller)
      ([LoadReturned ok_v; LoadReturned ok_v], c') /\
    accepted_load sample_resolver [Some compiler_policy; Some next_policy] p compiled /\
    current_ (policy_manager_ c') = Some p.
Proof.
  destruct (@overtaken_load LE sample_ops nat sample_resolver
    compiler_policy next_policy first_controller loaded_controller second_controller loaded_enforcer
    eq_refl loaded_controller_eq second_controller_eq) as (c' & Hr & _).
  destruct (@concurrent_loads_safe LE sample_ops sample_laws nat sample_resolver
    [Some compiler_policy; Some next_policy] first_controller c' loaded_enforcer _
    sample_policies_named eq_refl Hr) as (e' & _ & _ & _ & _ & Hall).
  destruct Hall as (_ & _ & p & compiled & Hacc & Hcur); [apply elem_of_cons; left; reflexivity|].
  exists c', p, compiled. split; [exact Hr|]. split; [exact Hacc|exact Hcur].
Defined.
