(* ===== verification/EventPath.v ===== *)
(** * The path of an event: from an open in the kernel to the controller's queue

    The polling thread of src/controller.cpp over the ring-buffer loop of
    src/ebpf_manager_linux.cpp: the records the LSM program submits become
    queued events, in order, and polling changes nothing else; and the time an
    event is shown with. *)

From S2P Require Import Prelude Abi BpfMap FileId Policy DecisionEngine PolicyCompiler PathResolver SpscQueue SecurityEvent Enforcer.
From S2P Require Import KernelProgram EbpfManager EbpfProperties EbpfLifecycle Json EventSink Controller ControllerProperties.

Local Open Scope Z_scope.

(** ** The polling thread over any backend *)
Section Polling.
Context {E : Type} `{!IEnforcer E} `{!EnforcerLaws E} {Cl : Type} (put_time : Z -> string).
Implicit Types (c : Controller E Cl) (raws : list RawEvent).

Lemma queue_push_room {T : Type} `{!Inhabited T} (q : SpscQueue T) (x : T) :
  queue_wf q -> stop_ q = false -> (length (queue_contents q) < length (slots_ q) - 1)%nat ->
  exists q', queue_push q x = Some q' /\ queue_wf q' /\ stop_ q' = false /\
    length (slots_ q') = length (slots_ q) /\ queue_contents q' = queue_contents q ++ [x].
Proof using Type.
  intros Hwf Hs Hroom. unfold queue_push. rewrite Hs, queue_full_length by done.
  rewrite (proj2 (Nat.eqb_neq _ _)) by lia. cbn. eexists. split; [reflexivity|].
  split_and!; [by apply queue_store_wf|done|cbn; by rewrite length_insert|].
  apply queue_store_contents; [done|]. rewrite queue_full_length by done. apply Nat.eqb_neq. lia.
Qed.

(** With room in the queue the events are queued in order. *)
Lemma emit_events_room c raws :
  queue_wf (queue_ c) -> stop_ (queue_ c) = false ->
  (length (queue_contents (queue_ c)) + length raws <= length (slots_ (queue_ c)) - 1)%nat ->
  exists q, emit_events put_time c raws = Some (with_queue c q) /\ queue_wf q /\ stop_ q = false /\
    queue_contents q = queue_contents (queue_ c) ++ (enrich put_time c <$> raws).
Proof using Type.
  revert c; induction raws as [|raw raws IH]; intros c Hwf Hs Hroom; cbn [emit_events].
  { exists (queue_ c). rewrite app_nil_r. split_and!; try done. by destruct c. }
  cbn in Hroom.
  destruct (queue_push_room (queue_ c) (enrich put_time c raw) Hwf Hs ltac:(lia)) as (q & Hp & W & S & L & Q).
  unfold emit_event. rewrite Hp. cbn [fmap option_fmap option_map mbind option_bind].
  destruct (IH (with_queue c q)) as (q' & He & W' & S' & Q'); [done|done|cbn; rewrite Q, length_app, L; cbn; lia|].
  exists q'. rewrite He. split_and!; [done..|]. rewrite Q'. cbn. rewrite Q, <- app_assoc. done.
Qed.

(** The polling thread of a controller whose queue has room. *)
Lemma ring_poll_loop_room c e (polls : list ring_poll) :
  enforcer_ c = Some e -> queue_wf (queue_ c) -> stop_ (queue_ c) = false ->
  let '(raws, e', returned) := enf_run polls e in
  (length (queue_contents (queue_ c)) + length raws <= length (slots_ (queue_ c)) - 1)%nat ->
  exists q, ring_poll_loop put_time polls c = Some (with_queue (with_enforcer c (Some e')) q, returned) /\
    queue_wf q /\ stop_ q = false /\
    queue_contents q = queue_contents (queue_ c) ++ (enrich put_time c <$> raws).
Proof using Type.
  intros He Hwf Hs. destruct (enf_run polls e) as [[raws e'] returned] eqn:Hr. intros Hroom.
  unfold ring_poll_loop. rewrite He, Hr.
  destruct (emit_events_room (with_enforcer c (Some e')) raws Hwf Hs Hroom) as (q & Hq & W & S & Q).
  exists q. rewrite Hq. done.
Qed.

Lemma emit_events_keeps c c' raws :
  emit_events put_time c raws = Some c' ->
  enforcer_ c' = enforcer_ c /\ policy_manager_ c' = policy_manager_ c /\ resolver_ c' = resolver_ c.
Proof using Type.
  revert c; induction raws as [|raw raws IH]; intros c; cbn; [by intros [= <-]|].
  intros (c1 & (q & _ & ->)%fmap_Some & H)%bind_Some. by apply IH in H.
Qed.

(** Polling does not touch what is decided. *)
Theorem ring_poll_loop_keeps c c' e (polls : list ring_poll) (returned : bool) :
  enforcer_ c = Some e -> ring_poll_loop put_time polls c = Some (c', returned) ->
  exists e', enforcer_ c' = Some e' /\
    (forall res proc, enforced e' res proc = enforced e res proc) /\
    enforcing (controller_status c') = enforcing (controller_status c) /\
    policy_manager_ c' = policy_manager_ c /\ resolver_ c' = resolver_ c.
Proof.
  intros He. unfold ring_poll_loop, controller_status. rewrite He.
  pose proof (run_keeps polls e) as (H1 & H2 & _). destruct (enf_run polls e) as [[raws e'] ret]. cbn in H1, H2.
  intros (c1 & (E1 & E2 & E3)%emit_events_keeps & [= <- _])%bind_Some.
  exists e'. rewrite E1, E2, E3. done.
Qed.
End Polling.

(** ** The time of an event *)

(** The offset captured at startup turns the kernel's boot time into the wall
    clock: an event is shown at the time of day at which it happened. *)
Theorem event_time_is_wall_time (put_time : Z -> string) (t wall tv_sec tv_nsec : Z) :
  let boot := tv_sec * 1000000000 + tv_nsec in
  0 <= t < 2 ^ 62 -> 0 <= boot < 2 ^ 62 -> 0 <= tv_sec -> 0 <= tv_nsec -> 0 <= wall < 2 ^ 62 ->
  boot <= wall + t ->
  let shown := wall + (t - boot) in
  exists ms, format_event_time put_time (i64 t) (boot_wall_offset_ns wall tv_sec tv_nsec) =
    put_time (shown / 1000000000) +:+ "." +:+ ms /\ String.length ms = 3%nat /\
    ms = setw_zeros 3 (to_string_u (shown mod 1000000000 / 1000000)).
Proof.
  cbv zeta. intros Ht Hb Hs Hn Hw Hle. unfold format_event_time, boot_wall_offset_ns.
  assert (forall z, - 2 ^ 63 <= z < 2 ^ 63 -> i64 z = z) as Hi by (intros z Hz; apply wrap_s_small; split; lia).
  assert (0 <= tv_sec * 1000000000 < 2 ^ 62) as Hsec by lia.
  rewrite (Hi t), (Hi (tv_sec * 1000000000)), (Hi (tv_sec * 1000000000 + tv_nsec)) by lia.
  rewrite (Hi (wall - _)), (Hi (t + _)) by lia.
  replace (t + (wall - (tv_sec * 1000000000 + tv_nsec)))
    with (wall + (t - (tv_sec * 1000000000 + tv_nsec))) by lia.
  set (z := wall + (t - (tv_sec * 1000000000 + tv_nsec))). assert (0 <= z) as Hz by lia.
  rewrite Z.quot_div_nonneg, Z.rem_mod_nonneg, Z.quot_div_nonneg by (try apply Z.mod_pos_bound; lia).
  pose proof (Z.mod_pos_bound z 1000000000 ltac:(lia)) as Hm.
  assert (0 <= z mod 1000000000 / 1000000 < 1000) as Hms.
  { split; [apply Z.div_pos; lia|]. apply Z.div_lt_upper_bound; lia. }
  eexists. split; [reflexivity|]. unfold to_string_s. rewrite (proj2 (Z.ltb_ge _ _)) by lia. split; [|done].
  unfold setw_zeros. pose proof (to_string_u_length 3 (z mod 1000000000 / 1000000) ltac:(lia) ltac:(lia)) as Hlen.
  rewrite str_length_app, str_repeat_length. lia.
Qed.

(** ** The polling thread over the Linux backend *)
Section Linux.
Context {P R C : Type}
    `{!BpfMap fileguard_file_id_t fileguard_protected_val_t P}
    `{!BpfMap fileguard_rule_key_t fileguard_rule_val_t R}
    `{!BpfMap Z fileguard_config_t C}
    `{!BpfMapLaws fileguard_file_id_t fileguard_protected_val_t P}
    `{!BpfMapLaws fileguard_rule_key_t fileguard_rule_val_t R}
    `{!BpfMapLaws Z fileguard_config_t C}.
Context (strerror : Z -> string) (lenv : load_env) (put_time : Z -> string).
Abbreviation Maps := (KMaps P R C).
Abbreviation Linux := (LinuxEBPFEnforcer P R C).

(** An open of a file in a task, and the padding bytes of its record. *)
Record open_call := MkOpenCall { oc_env : hook_env; oc_file : file; oc_padding : list Z }.

Definition open_call_wf (o : open_call) : Prop := hook_env_wf (oc_env o) /\ length (oc_padding o) = 4%nat.

(** What the LSM program submits for it, and the record. *)
Definition submitted (m : Maps) (o : open_call) : option fileguard_event_t :=
  (fg_file_open m (oc_env o) (oc_file o)).2.
Definition record_of (m : Maps) (o : open_call) : option (list Z) :=
  encode_event (oc_padding o) <$> submitted m o.

Lemma ring_callbacks_opens (m : Maps) (opens : list open_call) (self : Linux) :
  Forall open_call_wf opens ->
  (forall k rule, kv_rules (view_maps m) !! k = Some rule -> in_u 32 (val_rule_id rule)) ->
  on_event (EbpfManager.cfg_ self) = true ->
  ring_callbacks (omap (record_of m) opens) self = (raw_of_event <$> omap (submitted m) opens, self).
Proof using All.
  intros Ho Hrules Hon. induction Ho as [|o opens [Henv Hp] _ IH]; [done|].
  cbn. unfold record_of at 1. destruct (submitted m o) as [e|] eqn:He; [|done].
  cbn [fmap option_fmap option_map ring_callbacks].
  rewrite (ring_callback_encoded (oc_padding o) e self); try done.
  - by rewrite IH.
  - by eapply submitted_event_wf.
  - destruct (fg_file_open_event m (oc_env o) (oc_file o)) as [_ Hev]. by destruct (Hev e He).
Qed.

(** C24 (from the open to the queue): let tasks open files while the kernel's
    maps are [m], and the polling thread then take the records the LSM program
    has submitted.  If the queue has room for them, it holds, after what it
    held before and in the order of the opens, exactly one event for each
    open that was decided and given a ring-buffer slot, with the data of that
    record rendered by the current resolver; the thread returns when it sees
    the stop token, and the backend is as before. *)
Theorem opens_reach_queue {Cl : Type} (m : Maps) (opens : list open_call)
    (c : Controller Linux Cl) (self : Linux) :
  Forall open_call_wf opens ->
  (forall k rule, kv_rules (view_maps m) !! k = Some rule -> in_u 32 (val_rule_id rule)) ->
  enforcer_ c = Some self -> ring_ self = true -> on_event (EbpfManager.cfg_ self) = true ->
  queue_wf (queue_ c) -> stop_ (queue_ c) = false ->
  let events := omap (submitted m) opens in
  (length (queue_contents (queue_ c)) + length events <= length (slots_ (queue_ c)) - 1)%nat ->
  exists c', @ring_poll_loop Linux (linux_ops strerror lenv) Cl put_time
      [PollRecords (omap (record_of m) opens); PollStop] c = Some (c', true) /\
    enforcer_ c' = Some self /\
    queue_contents (queue_ c') =
      queue_contents (queue_ c) ++ ((fun e => enrich put_time c (raw_of_event e)) <$> events).
Proof using All.
  intros Ho Hrules He Hring Hon Hwf Hs events Hroom.
  assert (ebpf_run strerror [PollRecords (omap (record_of m) opens); PollStop] self =
    (raw_of_event <$> events, self, true)) as Hrun.
  { unfold ebpf_run. rewrite Hring. cbn [negb poll_loop].
    rewrite ring_callbacks_opens by done. by rewrite app_nil_r. }
  pose proof (@ring_poll_loop_room Linux (linux_ops strerror lenv) Cl put_time c self
    [PollRecords (omap (record_of m) opens); PollStop] He Hwf Hs) as H.
  cbn [enf_run linux_ops] in H. rewrite Hrun in H. rewrite length_fmap in H.
  destruct (H Hroom) as (q & Hq & _ & _ & Hc). eexists. split; [exact Hq|]. split; [done|].
  cbn. by rewrite Hc, <- list_fmap_compose.
Qed.
End Linux.

(** ** Two opens of the protected file *)
Definition two_opens : list open_call :=
  [MkOpenCall (kenv 3000 0) (kfile 1000) [0; 0; 0; 0]; MkOpenCall (kenv 3000 0) (kfile 1000) [0; 0; 0; 0]].

Lemma opens_reach_queue_witness :
  exists c', @ring_poll_loop LE sample_ops nat (fun _ => "")
      [PollRecords (omap (record_of (sample_kmaps 1)) two_opens); PollStop]
      (controller_over sample_listener empty_queue []) = Some (c', true) /\
    length (queue_contents (queue_ c')) = 2%nat.
Proof.
  destruct (opens_reach_queue no_strerror no_env (fun _ => "") (sample_kmaps 1) two_opens
    (controller_over sample_listener empty_queue []) sample_listener) as (c' & Hr & _ & Hc).
  - assert (open_call_wf (MkOpenCall (kenv 3000 0) (kfile 1000) [0; 0; 0; 0])) as Ho.
    { split; [|reflexivity]. split; [|split; [|split]].
      - apply (bool_decide_unpack _). vm_compute. exact I.
      - reflexivity.
      - apply (bool_decide_unpack _). vm_compute. exact I.
      - intros slot Hslot. injection Hslot as <-. apply (bool_decide_unpack _). vm_compute. exact I. }
    apply Forall_cons. split; [exact Ho|]. apply Forall_cons. split; [exact Ho|apply Forall_nil; exact I].
  - intros k rule Hk. cbn in Hk. apply lookup_singleton_Some in Hk as [_ <-].
    apply (bool_decide_unpack _). vm_compute. exact I.
  - reflexivity.
  - reflexivity.
  - reflexivity.
  - split; [apply (bool_decide_unpack _); vm_compute; exact I|].
    split; apply (bool_decide_unpack _); vm_compute; exact I.
  - reflexivity.
  - vm_compute. repeat constructor.
  - exists c'. split; [exact Hr|]. rewrite Hc. vm_compute. reflexivity.
Defined.
