(* ===== verification/Daemon.v ===== *)
(** * The daemon: include/fileguard/daemon.hpp and src/daemon.cpp

    The control socket: framing of requests, the request handler, event
    streaming to socket clients, and the life cycle of the server.  The
    sockets API appears as the results its calls return; what the daemon
    sends is an output of the functions. *)

From S2P Require Import Prelude FileId Policy PolicyCompiler SpscQueue SecurityEvent Enforcer Json ConfigParser EventSink Controller.

Local Open Scope Z_scope.

Definition EINTR : Z := 4.

(** ** Sending *)

(** One return of [send]: a number of bytes taken, or an errno. *)
Inductive send_result := Sent (n : nat) | SendError (errno : Z).

Definition str_drop (n : nat) (s : string) : string := String.substring n (String.length s - n) s.

(** write_all on the calls' results: [Some b] is the value returned, [None]
    that the results are exhausted (send blocks); with the bytes taken and the
    results left. *)
Fixpoint write_all (sends : list send_result) (data : string)
    : option bool * string * list send_result :=
  if str_empty data then (Some true, "", sends)
  else
    match sends with
    | [] => (None, "", [])
    | SendError e :: sends =>
       if e =? EINTR then write_all sends data else (Some false, "", sends)
    | Sent n :: sends =>
       let '(r, sent, rest) := write_all sends (str_drop n data) in
       (r, str_take n data +:+ sent, rest)
    end.

(** ** Stream clients *)
Section Stream.
  Context {J : Type} `{!Json J}.

(** json_of *)
Definition json_of (e : SecurityEvent) : outcome string := json_dump (J:=J) (event_object e).

#[local] Instance string_inhabited : Inhabited string := populate "".

Record SocketStreamClient := MkSocketStreamClient {
  fd_ : Z;
  client_queue_ : SpscQueue string;
  closed_ : bool;
  dropped_ : Z;  (* uint64_t *)
}.

Definition SocketStreamClient_create (fd : Z) : outcome SocketStreamClient :=
  q ← SpscQueue_new 1024;
  Return (MkSocketStreamClient fd q false 0).

(** SocketStreamClient::push *)
Definition stream_push (c : SocketStreamClient) (event : SecurityEvent)
    : outcome SocketStreamClient :=
  if closed_ c then Return c
  else
    text ← json_of event;
    let '(pushed, q) := queue_try_push (client_queue_ c) text in
    Return (MkSocketStreamClient (fd_ c) q (closed_ c)
              (if pushed then dropped_ c else u64 (dropped_ c + 1))).

(** SocketStreamClient::closed *)
Definition stream_closed (c : SocketStreamClient) : bool := closed_ c.

(** class SocketStreamClient : public EventStreamClient *)
#[export] Instance SocketStreamClient_events : EventStreamClient SocketStreamClient := {|
  client_push := stream_push;
  client_closed := stream_closed;
|}.

(** SocketStreamClient::shutdown *)
Definition stream_shutdown (c : SocketStreamClient) : SocketStreamClient :=
  MkSocketStreamClient (fd_ c) (queue_request_stop (client_queue_ c)) true (dropped_ c).

(** SocketStreamClient::writer_loop over the results of its sends: the bytes
    written, the client, and whether the loop has returned. *)
Fixpoint writer_loop (fuel : nat) (sends : list send_result) (c : SocketStreamClient)
    : string * SocketStreamClient * bool :=
  let finish c := MkSocketStreamClient (fd_ c) (client_queue_ c) true (dropped_ c) in
  match fuel with
  | O => ("", c, false)
  | S fuel =>
     if closed_ c then ("", finish c, true)
     else
       match queue_pop (client_queue_ c) with
       | None => ("", c, false)
       | Some (None, q) =>
          ("", finish (MkSocketStreamClient (fd_ c) q (closed_ c) (dropped_ c)), true)
       | Some (Some line, q) =>
          let c := MkSocketStreamClient (fd_ c) q (closed_ c) (dropped_ c) in
          match write_all sends line with
          | (Some true, sent, rest) =>
             let '(out, c', returned) := writer_loop fuel rest c in (sent +:+ out, c', returned)
          | (Some false, sent, _) => (sent, finish c, true)
          | (None, sent, _) => (sent, c, false)
          end
       end
  end.
End Stream.

(** ** Framing of requests *)

(** [buf.find('\n')], [buf.substr(0, nl)] and [buf.erase(0, nl + 1)]: the
    complete lines of a buffer, and what is left. *)
Fixpoint split_lines (s : string) : list string * string :=
  match s with
  | EmptyString => ([], EmptyString)
  | String c s =>
     let '(lines, rest) := split_lines s in
     if Ascii.eqb c (ascii_of_nat 10) then (EmptyString :: lines, rest)
     else match lines with
          | [] => ([], String c rest)
          | l :: lines => (String c l :: lines, rest)
          end
  end.

(** The lines one received chunk completes, empty ones skipped, and the new
    buffer. *)
Definition frame (buf chunk : string) : list string * string :=
  let '(lines, rest) := split_lines (buf +:+ chunk) in
  (filter (fun l => str_empty l = false) lines, rest).

Fixpoint frame_all (buf : string) (chunks : list string) : list string * string :=
  match chunks with
  | [] => ([], buf)
  | chunk :: chunks =>
     let '(lines, buf) := frame buf chunk in
     let '(more, buf) := frame_all buf chunks in
     (lines ++ more, buf)
  end.

Record DaemonConfig := MkDaemonConfig {
  dcfg_controller : ControllerConfig;
  dcfg_socket_path : string;
  dcfg_pid_file : string;
}.

(** One turn of the loop of [handle_client]. *)
Inductive client_event :=
| PollTimeout
| PollFails (errno : Z)
| RecvData (chunk : string)
| RecvEnds.                  (* recv returned 0 or an error *)

(** How [handle_client] ends: the loop ended and the socket was closed, the
    connection was handed to the streaming mode, or it is still waiting. *)
Inductive client_end := ClientClosed | ClientStreaming | ClientWaiting.

Section Daemon.
  Context {E : Type} `{!IEnforcer E} {J : Type} `{!Json J}.
  Context (file_resolver : FileResolver).

(** The client objects live in the controller's list; [stream_clients_] holds
    their identities. *)
Record Daemon := MkDaemon {
  dmn_cfg : DaemonConfig;
  controller_ : Controller E SocketStreamClient;
  running_ : bool;
  stream_clients_ : list nat;
}.

Definition with_controller (d : Daemon) (c : Controller E SocketStreamClient) : Daemon :=
  MkDaemon (dmn_cfg d) c (running_ d) (stream_clients_ d).
Definition with_running (d : Daemon) (b : bool) : Daemon :=
  MkDaemon (dmn_cfg d) (controller_ d) b (stream_clients_ d).

(** Calling shutdown() on the clients with the given identities. *)
Definition shutdown_clients (ids : list nat) (c : Controller E SocketStreamClient)
    : Controller E SocketStreamClient :=
  with_outputs c (sinks_ c)
    ((fun p => if bool_decide (p.1 ∈ ids) then (p.1, stream_shutdown p.2) else p) <$> clients_ c).

(** Daemon::stop *)
Definition daemon_stop (d : Daemon) : ResultVoid * Daemon :=
  if negb (running_ d) then (ok_v, with_running d false)
  else (ok_v, MkDaemon (dmn_cfg d) (shutdown_clients (stream_clients_ d) (controller_ d)) false []).

Definition reply_error (message : string) : J :=
  json_object [("ok", json_bool false); ("error", json_string message)].

Definition status_json (s : EnforcerStatus) : J :=
  json_object
    [("ok", json_bool true);
     ("status", json_object
        [("attached", json_bool (attached s));
         ("enforcing", json_bool (enforcing s));
         ("backend", json_string (backend s));
         ("policy_version", json_number (policy_version s));
         ("protected_count", json_number (protected_count s));
         ("rule_count", json_number (rule_count s));
         ("detail", json_string (detail s))])].

Definition rule_summary_json (r : PolicyRule) : J :=
  json_object
    [("id", json_string (rule_id r));
     ("resource", json_string (res_path (rule_resource r)));
     ("operation", json_string (operation_name (rule_operation r)));
     ("process", json_string (proc_value (rule_process r)));
     ("action", json_string (action_name (rule_action r)))].

(** Daemon::handle_request *)
Definition handle_request (req : J) (d : Daemon) : outcome (J * Daemon) :=
  cmd ← json_value_string req "cmd" "";
  if String.eqb cmd "status" then Return (status_json (controller_status (controller_ d)), d)
  else if String.eqb cmd "list" then
    let manager := policy_manager_ (controller_ d) in
    let rules := match current_ manager with Some p => rule_summary_json <$> rules p | None => [] end in
    let resources := match current_ manager with
                     | Some p => (fun r => json_string (res_path r)) <$> protected_resources p
                     | None => [] end in
    Return (json_object [("ok", json_bool true);
                         ("version", json_number (manager_version manager));
                         ("rules", json_array rules);
                         ("protected_resources", json_array resources)], d)
  else if String.eqb cmd "load_policy" then
    match (if json_contains req "policy" then json_find req "policy" else None) with
    | None => Return (reply_error "load_policy requires a 'policy' object", d)
    | Some p =>
      if negb (json_is_object p) then Return (reply_error "load_policy requires a 'policy' object", d)
      else
        text ← json_dump p;
        match from_json (J:=J) text with
        | Raise w => Throw w
        | Error m => Return (reply_error m, d)
        | Value policy =>
           let '(r, c) := load_policy file_resolver (Some policy) (controller_ d) in
           match r with
           | Err m => Return (reply_error m, with_controller d c)
           | Ok _ => Return (json_object [("ok", json_bool true);
                       ("policy_version", json_number (manager_version (policy_manager_ c)))],
                       with_controller d c)
           end
        end
    end
  else if String.eqb cmd "stream" then
    Return (json_object [("ok", json_bool true); ("stream", json_bool true)], d)
  else if String.eqb cmd "stop" then
    let d := with_running d false in
    let d := (daemon_stop d).2 in
    Return (json_object [("ok", json_bool true); ("message", json_string "stopping")], d)
  else Return (reply_error ("unknown command '" +:+ cmd +:+ "'"), d).

(** Daemon::handle_line: whether the client loop goes on, the daemon, and the
    text written to the socket.  An exception of [handle_request] becomes a
    reply; one thrown after the try block escapes. *)
Definition handle_line (line : string) (d : Daemon) : outcome (bool * Daemon * string) :=
  match json_parse line with
  | inl _ =>
     text ← json_dump (J:=J) (reply_error "malformed request");
     Return (true, d, text +:+ newline)
  | inr req =>
     let '(resp, d) := match handle_request req d with
                       | Return rd => rd
                       | Throw w => (reply_error ("internal error: " +:+ w), d)
                       end in
     cmd ← json_value_string req "cmd" "";
     stream ← (if String.eqb cmd "stream" then json_value_bool resp "ok" false else Return false);
     text ← json_dump resp;
     Return (negb stream, d, text +:+ newline)
  end.

(** The policy a line asks handle_request to load, if it gets as far as calling
    load_policy, and the reply to what that returns ([handle_load_line] in
    DaemonProperties.v: with load_policy in between, they are handle_line). *)
Definition load_request (line : string) : option Policy :=
  match json_parse (J:=J) line with
  | inl _ => None
  | inr req =>
    match json_value_string req "cmd" "" with
    | Throw _ => None
    | Return cmd =>
      if String.eqb cmd "load_policy" then
        match (if json_contains req "policy" then json_find req "policy" else None) with
        | None => None
        | Some p =>
          if negb (json_is_object p) then None
          else match json_dump p with
               | Throw _ => None
               | Return text =>
                  match from_json (J:=J) text with Value policy => Some policy | _ => None end
               end
        end
      else None
    end
  end.

(** [policy_manager_] is read again for the reply, after load_policy. *)
Definition load_reply (r : ResultVoid) (manager : PolicyManager) : J :=
  match r with
  | Err m => reply_error m
  | Ok _ => json_object [("ok", json_bool true);
              ("policy_version", json_number (manager_version manager))]
  end.

(** The inner loop of [handle_client]: the lines of the buffer in turn. *)
Fixpoint handle_lines (lines : list string) (d : Daemon) : outcome (bool * Daemon * string) :=
  match lines with
  | [] => Return (true, d, "")
  | line :: lines =>
     r ← handle_line line d;
     let '(go_on, d, out) := r in
     if (go_on : bool) then
       r ← handle_lines lines d;
       let '(go_on, d, more) := r in Return (go_on, d, out +:+ more)
     else Return (false, d, out)
  end.

(** Daemon::handle_client over what the socket delivers. *)
Fixpoint handle_client (events : list client_event) (buf : string) (d : Daemon)
    : outcome (client_end * Daemon * string) :=
  if negb (running_ d) then Return (ClientClosed, d, "")
  else
    match events with
    | [] => Return (ClientWaiting, d, "")
    | PollTimeout :: events => handle_client events buf d
    | PollFails e :: events =>
       if e =? EINTR then handle_client events buf d else Return (ClientClosed, d, "")
    | RecvEnds :: _ => Return (ClientClosed, d, "")
    | RecvData chunk :: events =>
       let '(lines, buf) := frame buf chunk in
       r ← handle_lines lines d;
       let '(go_on, d, out) := r in
       if (go_on : bool) then
         r ← handle_client events buf d;
         let '(e, d, more) := r in Return (e, d, out +:+ more)
       else Return (ClientStreaming, d, out)
    end.

(** Daemon::enter_stream_mode, up to the loop that waits for the client: the
    object [id] is created over the socket and registered twice. *)
Definition stream_enter (id : nat) (fd : Z) (d : Daemon) : outcome Daemon :=
  client ← SocketStreamClient_create fd;
  Return (MkDaemon (dmn_cfg d) (add_event_stream_client id client (controller_ d)) (running_ d)
            (stream_clients_ d ++ [id])).

(** The waiting loop: it ends when the daemon stops or the client leaves. *)
Fixpoint stream_wait (running : bool) (events : list client_event) : bool :=
  if negb running then true
  else
    match events with
    | [] => false
    | PollTimeout :: events => stream_wait running events
    | PollFails e :: events => if e =? EINTR then stream_wait running events else true
    | RecvData _ :: events => stream_wait running events
    | RecvEnds :: _ => true
    end.

(** The end of [enter_stream_mode]: the client is unregistered and shut down,
    and the function's own reference to it is the last one, so its destructor
    runs on return (ConnectionLife.v shows that it is); the descriptors closed are those of the function itself
    and of that destructor. *)
Definition client_destructor_closes (fd : Z) : list Z := if 0 <=? fd then [fd] else [].

Definition stream_leave (id : nat) (fd : Z) (d : Daemon) : Daemon * list Z :=
  (MkDaemon (dmn_cfg d) (remove_event_stream_client id (controller_ d)) (running_ d)
     (filter (fun i => i <> id) (stream_clients_ d)),
   [fd] ++ client_destructor_closes fd).

(** Daemon::Daemon *)
Definition Daemon_create (cfg : DaemonConfig) (log_opens : bool) (boot_offset : Z) : outcome Daemon :=
  c ← Controller_create (dcfg_controller cfg) log_opens boot_offset;
  Return (MkDaemon cfg c false []).

(** ** Daemon::run *)

Inductive sys_call :=
| CallUnlink (path : string)
| CallSocket
| CallBind (path : string)
| CallChmod (path : string) (mode : Z)
| CallListen
| CallWritePid (path : string)
| CallCloseListen.

(** The errnos of the calls that fail, and whether the pid file opens. *)
Record run_env := MkRunEnv {
  socket_errno : option Z;
  bind_errno : option Z;
  listen_errno : option Z;
  pid_file_opens : bool;
}.

(** sizeof(sockaddr_un::sun_path) on Linux. *)
Definition sun_path_size : nat := 108.

Definition run_start (strerror : Z -> string) (create_enforcer : EnforcerConfig -> E)
    (read : string -> file_read) (env : run_env) (d : Daemon)
    : outcome (ResultVoid * Daemon * list sys_call) :=
  let path := dcfg_socket_path (dmn_cfg d) in
  let pid_file := dcfg_pid_file (dmn_cfg d) in
  if (sun_path_size <=? String.length path)%nat then
    Return (err ("socket path too long: '" +:+ path +:+ "'"), d, [])
  else
    match socket_errno env with
    | Some e => Return (err ("socket(2) failed: " +:+ strerror e), d, [CallUnlink path; CallSocket])
    | None =>
      match bind_errno env with
      | Some e =>
         Return (err ("bind(" +:+ path +:+ ") failed: " +:+ strerror e +:+
                      " — is another fileguard daemon running?"), d,
                 [CallUnlink path; CallSocket; CallBind path; CallCloseListen])
      | None =>
        match listen_errno env with
        | Some e =>
           Return (err ("listen failed: " +:+ strerror e), d,
                   [CallUnlink path; CallSocket; CallBind path; CallChmod path 384; CallListen;
                    CallCloseListen; CallUnlink path])
        | None =>
          let calls := [CallUnlink path; CallSocket; CallBind path; CallChmod path 384; CallListen] ++
                       (if negb (str_empty pid_file) && pid_file_opens env
                        then [CallWritePid pid_file] else []) in
          r ← start (J:=J) create_enforcer file_resolver read (controller_ d);
          let '(started, c) := (r : ResultVoid * Controller E SocketStreamClient) in
          match started with
          | Err m =>
             Return (err m, with_controller d c,
                     calls ++ [CallCloseListen; CallUnlink path] ++
                     (if negb (str_empty pid_file) then [CallUnlink pid_file] else []))
          | Ok _ => Return (ok_v, with_running (with_controller d c) true, calls)
          end
        end
      end
    end.

(** One iteration of the server thread's loop: what poll and accept give it,
    and whether it goes on, ends, or starts a thread for a connection. *)
Inductive accept_event :=
| AcceptTimeout
| AcceptPollFails (errno : Z)
| AcceptFails
| Accepted (fd : Z).

Inductive accept_next := AcceptContinue | AcceptBreak | AcceptClient (fd : Z).

Definition accept_turn (ev : accept_event) : accept_next :=
  match ev with
  | AcceptTimeout => AcceptContinue
  | AcceptPollFails e => if e =? EINTR then AcceptContinue else AcceptBreak
  | AcceptFails => AcceptContinue
  | Accepted fd => AcceptClient fd
  end.

(** What the server thread does after its loop. *)
Definition accept_close (d : Daemon) : list sys_call :=
  [CallCloseListen; CallUnlink (dcfg_socket_path (dmn_cfg d))].

(** The end of [run], after the server thread has been joined. *)
Definition run_finish (d : Daemon) : outcome (ResultVoid * Daemon * list sys_call) :=
  let pid_file := dcfg_pid_file (dmn_cfg d) in
  r ← request_stop (J:=J) (controller_ d);
  let '(stopped, c) := (r : ResultVoid * Controller E SocketStreamClient) in
  match stopped with
  | Err m => Return (err m, with_controller d c, [])
  | Ok _ => Return (ok_v, with_controller d c,
                    if negb (str_empty pid_file) then [CallUnlink pid_file] else [])
  end.

(** Daemon::~Daemon, then the controller's destructor. *)
Definition daemon_destroy (d : Daemon) : outcome Daemon :=
  let d := (daemon_stop d).2 in
  r ← request_stop (J:=J) (controller_ d);
  Return (with_controller d r.2).
End Daemon.
Arguments Daemon E : clear implicits.
