(* ===== verification/DaemonProperties.v ===== *)
(** * Properties of the daemon

    Framing of requests, sending, event streaming, request handling and the
    start-up of the server. *)

From S2P Require Import Prelude FileId Policy PolicyCompiler SpscQueue SecurityEvent Enforcer Json ConfigParser EventSink Controller Daemon.

Local Open Scope Z_scope.

(** ** Framing *)

Fixpoint str_concat (l : list string) : string :=
  match l with [] => "" | s :: l => s +:+ str_concat l end.
Definition line_of (l : string) : string := l +:+ newline.
Definition no_newline (s : string) : bool :=
  str_all (fun c => negb (Ascii.eqb c (ascii_of_nat 10))) s.

Lemma str_concat_app (l k : list string) : str_concat (l ++ k) = str_concat l +:+ str_concat k.
Proof. induction l as [|s l IH]; [done|]. cbn. rewrite IH. by rewrite str_app_assoc. Qed.

(** Splitting is what it should be: the pieces put together give the text, and
    none of them contains the separator. *)
Lemma split_lines_spec (s : string) lines rest :
  split_lines s = (lines, rest) ->
  s = str_concat (line_of <$> lines) +:+ rest /\
  Forall (fun l => no_newline l = true) lines /\ no_newline rest = true.
Proof.
  revert lines rest; induction s as [|c s IH]; intros lines rest; cbn.
  { by intros [= <- <-]. }
  destruct (split_lines s) as [ls r] eqn:Hs. destruct (IH _ _ eq_refl) as (-> & Hl & Hr).
  destruct (Ascii.eqb_spec c (ascii_of_nat 10)) as [->|Hc].
  { intros [= <- <-]. split_and!; [|by constructor|done]. reflexivity. }
  assert (negb (Ascii.eqb c (ascii_of_nat 10)) = true) as Hc'
    by (by apply negb_true_iff, Ascii.eqb_neq).
  destruct ls as [|l ls]; intros [= <- <-].
  - split_and!; [done|done|]. unfold no_newline; cbn [str_all]. by rewrite Hc'.
  - apply Forall_cons in Hl as [Hl Hls]. split_and!; [done| |done].
    constructor; [|done]. unfold no_newline; cbn [str_all]. by rewrite Hc'.
Qed.

Lemma split_lines_app (s t : string) :
  split_lines (s +:+ t) =
  let '(l1, r1) := split_lines s in
  let '(l2, r2) := split_lines (r1 +:+ t) in (l1 ++ l2, r2).
Proof.
  induction s as [|c s IH].
  { cbn [split_lines]. rewrite !str_app_nil_l. by destruct (split_lines t). }
  rewrite str_app_cons. cbn [split_lines]. rewrite IH. destruct (split_lines s) as [l1 r1] eqn:Hs.
  destruct (Ascii.eqb_spec c (ascii_of_nat 10)) as [->|Hc].
  { by destruct (split_lines (r1 +:+ t)). }
  destruct l1 as [|l l1].
  - rewrite str_app_cons. cbn [split_lines]. rewrite (proj2 (Ascii.eqb_neq _ _) Hc).
    by destruct (split_lines (r1 +:+ t)) as [[|l2 ls2] r2].
  - by destruct (split_lines (r1 +:+ t)).
Qed.

(** A buffer that holds no complete line. *)
Lemma split_lines_partial (s : string) : no_newline s = true -> split_lines s = ([], s).
Proof.
  induction s as [|c s IH]; [done|]. unfold no_newline; cbn [str_all split_lines].
  intros [Hc Hs]%andb_true_iff. rewrite IH by done. apply negb_true_iff in Hc. by rewrite Hc.
Qed.

(** Splitting a text that was put together from lines. *)
Lemma split_lines_line (l t : string) :
  no_newline l = true ->
  split_lines (line_of l +:+ t) = let '(ls, r) := split_lines t in (l :: ls, r).
Proof.
  unfold line_of, newline. induction l as [|c l IH]; intros Hl.
  - rewrite str_app_nil_l, str_app_cons, str_app_nil_l. cbn [split_lines]. by destruct (split_lines t).
  - unfold no_newline in Hl. cbn [str_all] in Hl. apply andb_true_iff in Hl as [Hc Hl].
    rewrite !str_app_cons. cbn [split_lines]. rewrite (IH Hl). apply negb_true_iff in Hc.
    destruct (split_lines t) as [ls r]. by rewrite Hc.
Qed.

Lemma split_lines_join (lines : list string) (rest : string) :
  Forall (fun l => no_newline l = true) lines -> no_newline rest = true ->
  split_lines (str_concat (line_of <$> lines) +:+ rest) = (lines, rest).
Proof.
  intros Hl Hr. induction Hl as [|l lines Hl _ IH]; [by apply split_lines_partial|].
  cbn [fmap list_fmap str_concat]. rewrite str_app_assoc, split_lines_line by done.
  change (list_fmap string string line_of lines) with (line_of <$> lines). by rewrite IH.
Qed.

Lemma frame_all_from (chunks : list string) (buf : string) :
  no_newline buf = true -> frame_all buf chunks = frame buf (str_concat chunks).
Proof.
  revert buf; induction chunks as [|chunk chunks IH]; intros buf Hbuf.
  { unfold frame. cbn. by rewrite str_app_nil_r, split_lines_partial. }
  cbn [frame_all str_concat]. unfold frame at 1 2.
  rewrite <- str_app_assoc, (split_lines_app (buf +:+ chunk)).
  destruct (split_lines (buf +:+ chunk)) as [l1 r1] eqn:H1.
  apply split_lines_spec in H1 as (_ & _ & Hr1).
  rewrite IH by done. unfold frame.
  destruct (split_lines (r1 +:+ str_concat chunks)) as [l2 r2]. by rewrite filter_app.
Qed.

(** ** Sending *)

Lemma str_take_drop (n : nat) (s : string) : s = str_take n s +:+ str_drop n s.
Proof.
  revert s; induction n as [|n IH]; intros s.
  - unfold str_take, str_drop. rewrite Nat.sub_0_r.
    assert (String.substring 0 0 s = "") as -> by (by destruct s). rewrite str_app_nil_l.
    induction s as [|c s IHs]; [done|]. cbn. by rewrite <- IHs.
  - destruct s as [|c s]; [done|].
    change (str_take (S n) (String c s)) with (String c (str_take n s)).
    change (str_drop (S n) (String c s)) with (str_drop n s).
    by rewrite str_app_cons, <- IH.
Qed.

Lemma str_drop_length (n : nat) (s : string) :
  String.length (str_drop n s) = (String.length s - n)%nat.
Proof.
  pose proof (str_take_drop n s) as Hs. apply (f_equal String.length) in Hs.
  rewrite str_length_app in Hs. destruct (decide (n <= String.length s)%nat) as [Hn|Hn].
  - rewrite str_take_length in Hs by done. lia.
  - unfold str_drop. replace (String.length s - n)%nat with 0%nat by lia.
    clear Hs. revert n Hn. induction s as [|c s IH]; intros [|n] Hn; cbn in *; try done; try lia.
    apply IH. lia.
Qed.

Lemma str_empty_length (s : string) : str_empty s = bool_decide (String.length s = 0%nat).
Proof. by destruct s. Qed.

Lemma write_all_spec (sends : list send_result) (data : string) r sent rest :
  write_all sends data = (r, sent, rest) ->
  exists tail, data = sent +:+ tail /\
    (r = Some true <-> str_empty tail = true) /\
    (r = None -> rest = []).
Proof.
  revert data r sent rest; induction sends as [|[n|e] sends IH]; intros data r sent rest; cbn;
    destruct (str_empty data) eqn:He.
  all: try (intros [= <- <- <-]; exists data; rewrite He; split_and!; done).
  - destruct (write_all sends (str_drop n data)) as [[r' sent'] rest'] eqn:Hw.
    intros [= <- <- <-]. destruct (IH _ _ _ _ Hw) as (tail & Ht & Hr & Hn). exists tail.
    split_and!; [|done|done]. by rewrite str_app_assoc, <- Ht, <- str_take_drop.
  - destruct (e =? EINTR); [by apply IH|].
    intros [= <- <- <-]. exists data. rewrite He. split_and!; done.
Qed.

Lemma surjective_pairing_3 {A B C : Type} (p : A * B * C) : p = (p.1.1, p.1.2, p.2).
Proof. by destruct p as [[a b] c]. Qed.

(** A call of [send] that makes progress or was interrupted. *)
Definition send_ok (s : send_result) : Prop :=
  match s with Sent n => (0 < n)%nat | SendError e => e = EINTR end.
Fixpoint sent_calls (l : list send_result) : nat :=
  match l with
  | [] => 0
  | Sent _ :: l => S (sent_calls l)
  | SendError _ :: l => sent_calls l
  end.

Lemma write_all_progress (sends : list send_result) (data : string) :
  Forall send_ok sends -> (String.length data <= sent_calls sends)%nat ->
  exists rest, write_all sends data = (Some true, data, rest) /\ Forall send_ok rest /\
    (sent_calls sends <= sent_calls rest + String.length data)%nat.
Proof.
  intros Hok. revert data; induction Hok as [|s sends Hs Hok IH]; intros data Hlen.
  { destruct data; [|cbn in Hlen; lia]. exists []. cbn. auto. }
  cbn [write_all]. destruct (str_empty data) eqn:He.
  { destruct data; [|done]. exists (s :: sends). split_and!; [done|by constructor|lia]. }
  rewrite str_empty_length in He. apply bool_decide_eq_false in He.
  destruct s as [n|e]; cbn [sent_calls send_ok] in *.
  - pose proof (str_drop_length n data) as Hd.
    destruct (IH (str_drop n data)) as (rest & -> & Hrest & Hc); [lia|].
    exists rest. rewrite <- str_take_drop. split_and!; [done|done|lia].
  - subst e. cbn [Z.eqb].
    destruct (IH data Hlen) as (rest & -> & ? & ?). by exists rest.
Qed.

(** Write_all: what it has sent is always a prefix of the data, and it
    returns true exactly when it has sent all of it; when every call of send
    takes at least one byte or is interrupted by a signal, [length data] calls
    that take bytes suffice for it to return true. *)
Theorem write_all_delivers (sends : list send_result) (data : string) r sent rest :
  write_all sends data = (r, sent, rest) ->
  (exists tail, data = sent +:+ tail /\ (r = Some true <-> tail = "")) /\
  (Forall send_ok sends -> (String.length data <= sent_calls sends)%nat ->
   r = Some true /\ sent = data).
Proof.
  intros Hw. split.
  - destruct (write_all_spec _ _ _ _ _ Hw) as (tail & Ht & Hr & _). exists tail.
    split; [done|]. rewrite Hr. by destruct tail.
  - intros Hok Hlen. destruct (write_all_progress sends data Hok Hlen) as (rest' & Hw' & _).
    rewrite Hw in Hw'. by injection Hw' as -> -> _.
Qed.

Lemma write_all_delivers_witness :
  let sends := [Sent 2; SendError EINTR; Sent 1; Sent 5; Sent 1; Sent 1; Sent 1] in
  (write_all sends "hello").1.1 = Some true /\ (write_all sends "hello").1.2 = "hello".
Proof.
  cbv zeta.
  destruct (write_all_delivers _ "hello" _ _ _
    (surjective_pairing_3 (write_all [Sent 2; SendError EINTR; Sent 1; Sent 5; Sent 1; Sent 1; Sent 1] "hello"))) as [_ H].
  apply H; [repeat constructor|vm_compute; repeat constructor].
Defined.

(** ** Stream clients *)
Section Stream.
Context {J : Type} `{!Json J} `{!JsonLaws J}.
Implicit Types (c : SocketStreamClient).

(** The events pushed to a client, one after the other. *)
Fixpoint push_all (evs : list SecurityEvent) (c : SocketStreamClient) : outcome SocketStreamClient :=
  match evs with
  | [] => Return c
  | ev :: evs => c' ← stream_push (J:=J) c ev; push_all evs c'
  end.

(** A client whose queue holds [texts], of capacity [n], with [k] drops. *)
Definition client_holds (n : nat) (texts : list string) (k : Z) (c : SocketStreamClient) : Prop :=
  queue_wf (client_queue_ c) /\ queue_contents (client_queue_ c) = texts /\
  length (slots_ (client_queue_ c)) = n /\ stop_ (client_queue_ c) = false /\
  closed_ c = false /\ dropped_ c = k.

Lemma push_holds n texts k c ev text :
  client_holds n texts k c -> json_of (J:=J) ev = Return text ->
  exists c', stream_push (J:=J) c ev = Return c' /\
    if (length texts <? n - 1)%nat then client_holds n (texts ++ [text]) k c'
    else client_holds n texts (u64 (k + 1)) c'.
Proof.
  intros (Hwf & Hc & Hn & Hs & Hcl & Hd) Ht. unfold stream_push. rewrite Hcl, Ht. cbn [mbind outcome_bind].
  pose proof (queue_full_length _ Hwf) as Hfull. unfold queue_full in Hfull.
  pose proof (queue_contents_bound _ Hwf) as Hb. rewrite Hc, Hn in *.
  unfold queue_try_push. rewrite Hfull.
  destruct (Nat.eqb_spec (length texts) (n - 1)) as [He|He].
  - eexists. split; [reflexivity|]. rewrite (proj2 (Nat.ltb_ge _ _)) by lia.
    by split_and!; cbn; try done; rewrite Hd.
  - eexists. split; [reflexivity|]. rewrite (proj2 (Nat.ltb_lt _ _)) by lia.
    split_and!; cbn; try done.
    + by apply queue_store_wf.
    + rewrite queue_store_contents, Hc; [done..|].
      unfold queue_full. by rewrite Hfull.
    + by rewrite length_insert.
Qed.

Lemma push_all_holds n texts k c evs ts :
  client_holds n texts k c -> Forall2 (fun ev t => json_of (J:=J) ev = Return t) evs ts ->
  (2 <= n)%nat -> 0 <= k -> k + Z.of_nat (length evs) < 2 ^ 64 ->
  exists c', push_all evs c = Return c' /\
    client_holds n (texts ++ take (n - 1 - length texts) ts)
      (k + Z.of_nat (length ts - (n - 1 - length texts))) c'.
Proof.
  intros Hc Hall Hn. revert texts k c Hc; induction Hall as [|ev t evs ts Ht Hall IH];
    intros texts k c Hc Hk Hb.
  { exists c. cbn. rewrite take_nil, app_nil_r, Z.add_0_r. done. }
  destruct (push_holds n texts k c ev t Hc Ht) as (c1 & Hp & H1).
  cbn [push_all]. rewrite Hp. cbn [mbind outcome_bind].
  pose proof (proj1 Hc) as Hwf. pose proof (queue_contents_bound _ Hwf) as Hle.
  destruct Hc as (_ & Hct & Hlen & _). rewrite Hct, Hlen in Hle.
  destruct (Nat.ltb_spec (length texts) (n - 1)).
  - destruct (IH _ _ _ H1 Hk) as (c' & Hc' & Hh); [cbn in Hb; lia|]. exists c'. split; [done|].
    rewrite length_app in Hh. cbn [length] in *. rewrite <- app_assoc in Hh.
    replace (n - 1 - length texts)%nat with (S (n - 1 - (length texts + 1))) by lia. cbn [take].
    done.
  - rewrite wrap_u_small in H1 by (unfold in_u; cbn [length] in Hb; lia).
    destruct (IH _ _ _ H1) as (c' & Hc' & Hh); [lia|cbn [length] in Hb; lia|]. exists c'.
    split; [done|]. replace (n - 1 - length texts)%nat with 0%nat in * by lia. cbn [take length] in *.
    by replace (k + Z.of_nat (S (length ts) - 0)) with (k + 1 + Z.of_nat (length ts - 0)) by lia.
Qed.
(** The writer, while send makes progress, writes the queued texts and waits. *)
Lemma writer_drains n texts k c (fuel : nat) (sends : list send_result) :
  client_holds n texts k c -> Forall send_ok sends ->
  (String.length (str_concat texts) <= sent_calls sends)%nat -> (length texts < fuel)%nat ->
  exists c', writer_loop fuel sends c = (str_concat texts, c', false) /\ client_holds n [] k c'.
Proof.
  revert c fuel sends; induction texts as [|t texts IH]; intros c fuel sends Hc Hok Hlen Hfuel;
    (destruct fuel as [|fuel]; [cbn in Hfuel; lia|]); pose proof Hc as (Hwf & Hct & Hn & Hs & Hcl & Hd).
  - exists c. split; [|done]. cbn [writer_loop]. rewrite Hcl. unfold queue_pop.
    by rewrite Hs, (proj2 (queue_empty_spec _ Hwf) Hct).
  - assert (queue_empty (client_queue_ c) = false) as He.
    { apply not_true_iff_false. rewrite queue_empty_spec by done. by rewrite Hct. }
    cbn [writer_loop]. rewrite Hcl. unfold queue_pop. rewrite Hs, He. cbn [negb orb].
    pose proof (queue_take_contents _ Hwf He) as Htk. pose proof (queue_take_wf _ Hwf) as Hwf'.
    destruct (queue_take (client_queue_ c)) as [x q] eqn:Hq. cbn [fst snd] in *.
    rewrite Hct in Htk. injection Htk as <- Hrest.
    cbn [str_concat] in Hlen. rewrite str_length_app in Hlen.
    destruct (write_all_progress sends t Hok) as (rest & -> & Hrok & Hcount); [lia|].
    assert (length (slots_ q) = n /\ stop_ q = false) as [Hn' Hs'].
    { unfold queue_take in Hq. injection Hq as _ <-. by cbn. }
    destruct (IH (MkSocketStreamClient (fd_ c) q false (dropped_ c)) fuel rest)
      as (c' & -> & Hc'); [by split_and!|done|lia|cbn in Hfuel; lia|].
    by exists c'.
Qed.

Lemma json_of_no_newline (ts : list string) (evs : list SecurityEvent) :
  Forall2 (fun ev t => json_of (J:=J) ev = Return t) evs ts ->
  no_newline (str_concat ts) = true.
Proof.
  induction 1 as [|ev t evs ts Ht _ IH]; [done|]. cbn [str_concat].
  unfold no_newline in *. rewrite str_all_app, IH, andb_true_r.
  unfold json_of in Ht. apply dump_one_line in Ht. unfold has_newline in Ht.
  by apply negb_false_iff in Ht.
Qed.

(** C35 (what a stream client sends): of the events pushed to a new client
    before its writer runs, the first 1023 are queued and every further one is
    counted in [dropped_]; the writer then sends the JSON texts of the queued
    events, in order and with nothing in between, and no byte it sends is a
    newline. *)
Theorem stream_client_delivers (fd : Z) c (evs : list SecurityEvent) (ts : list string) :
  SocketStreamClient_create fd = Return c ->
  Forall2 (fun ev t => json_of (J:=J) ev = Return t) evs ts ->
  Z.of_nat (length evs) < 2 ^ 64 ->
  exists c1, push_all evs c = Return c1 /\
    dropped_ c1 = Z.of_nat (length evs - 1023) /\
    forall fuel sends,
      Forall send_ok sends ->
      (String.length (str_concat (take 1023 ts)) <= sent_calls sends)%nat -> (1023 < fuel)%nat ->
      let '(sent, c2, returned) := writer_loop fuel sends c1 in
      sent = str_concat (take 1023 ts) /\ returned = false /\
      queue_contents (client_queue_ c2) = [] /\ no_newline sent = true.
Proof.
  intros Hnew Hall Hlen.
  assert (client_holds 1024 [] 0 c) as Hc.
  { unfold SocketStreamClient_create in Hnew. apply outcome_bind_Return in Hnew as (q & Hq & [= <-]).
    by apply SpscQueue_new_wf in Hq as (? & ? & ? & ?). }
  destruct (push_all_holds 1024 [] 0 c evs ts Hc Hall) as (c1 & Hp & H1); [lia..|].
  pose proof (Forall2_length _ _ _ Hall) as Hl.
  replace (1024 - 1 - length (@nil string))%nat with 1023%nat in H1 by done. cbn [app] in H1.
  exists c1. split; [done|]. split.
  { destruct H1 as (_ & _ & _ & _ & _ & ->). by rewrite Hl. }
  intros fuel sends Hok Hs Hfuel.
  destruct (writer_drains 1024 (take 1023 ts) _ c1 fuel sends H1 Hok Hs) as (c2 & -> & H2).
  { rewrite length_take. lia. }
  destruct H2 as (_ & H2 & _). split_and!; [done..|].
  by apply (json_of_no_newline _ (take 1023 evs)), Forall2_take.
Qed.
End Stream.

Lemma stream_client_delivers_witness :
  let J := jval_json (fun _ => inl "") in
  exists c, SocketStreamClient_create 7 = Return c /\
  exists c1, push_all (J:=jval) [sample_event; sample_event] c = Return c1 /\ dropped_ c1 = 0.
Proof.
  pose (J := jval_json (fun _ => inl "")). pose (L := jval_laws (fun _ => inl "")).
  destruct (SocketStreamClient_create 7) as [c|w] eqn:Hc; [|vm_compute in Hc; discriminate].
  exists c. split; [reflexivity|].
  destruct (stream_client_delivers (J:=jval) 7 c [sample_event; sample_event] ["{}"; "{}"] Hc)
    as (c1 & Hp & Hd & _); [repeat constructor|reflexivity|].
  exists c1. split; [exact Hp|exact Hd].
Defined.

(** After [shutdown] the writer returns at once: what is still queued is not
    sent. *)
Lemma stream_shutdown_discards (c : SocketStreamClient) (fuel : nat) (sends : list send_result) :
  (writer_loop (S fuel) sends (stream_shutdown c)).1.1 = "" /\
  (writer_loop (S fuel) sends (stream_shutdown c)).2 = true.
Proof. done. Qed.

(** ** Requests *)
Section Requests.
Context {E : Type} `{!IEnforcer E} {J : Type} `{!Json J} `{!JsonLaws J}.
Context (file_resolver : FileResolver).
Implicit Types (d : Daemon E) (req resp : J).

Lemma load_policy_current (p : Policy) (c c' : Controller E SocketStreamClient) :
  load_policy file_resolver (Some p) c = (ok_v, c') -> current_ (policy_manager_ c') = Some p.
Proof.
  unfold load_policy. destruct (validate p) as [[]|] eqn:Hv; [|done].
  destruct (compile file_resolver p) as [compiled|]; [|done].
  destruct (match enforcer_ c with Some e => _ | None => _ end) as [[[]|] c1]; [|done].
  unfold manager_install. rewrite Hv. by intros [= <-].
Qed.

Lemma load_policy_rejected (po : option Policy) (c c' : Controller E SocketStreamClient) m :
  load_policy file_resolver po c = (Err m, c') -> policy_manager_ c' = policy_manager_ c.
Proof.
  unfold load_policy. destruct po as [p|]; [|by intros [= _ <-]].
  destruct (validate p) as [[]|] eqn:Hv; [|by intros [= _ <-]].
  destruct (compile file_resolver p) as [compiled|]; [|by intros [= _ <-]].
  destruct (enforcer_ c) as [e|]; cbn.
  - destruct (enf_apply_policy compiled e) as [[[]|] e'].
    + unfold manager_install. by rewrite Hv.
    + by intros [= _ <-].
  - unfold manager_install. by rewrite Hv.
Qed.

Lemma reply_error_not_ok (m : string) :
  json_value_bool (J:=J) (reply_error m) "ok" false = Return false.
Proof. unfold reply_error. apply value_bool_object; [solve_nodup|done]. Qed.

(** The answer to a load_policy request: a refusal that leaves the policy
    manager as it was, or an installed policy. *)
Lemma handle_load_request req d resp d' :
  json_value_string req "cmd" "" = Return "load_policy" ->
  handle_request file_resolver req d = Return (resp, d') ->
  (policy_manager_ (controller_ d') = policy_manager_ (controller_ d) /\
   json_value_bool resp "ok" false = Return false) \/
  (exists doc text p,
     json_find req "policy" = Some doc /\ json_dump doc = Return text /\
     from_json (J:=J) text = Value p /\
     load_policy file_resolver (Some p) (controller_ d) = (ok_v, controller_ d') /\
     current_ (policy_manager_ (controller_ d')) = Some p /\
     resp = json_object [("ok", json_bool true); ("policy_version", json_number (version p))]).
Proof.
  intros Hcmd. unfold handle_request. rewrite Hcmd. cbn [mbind outcome_bind String.eqb Ascii.eqb Bool.eqb].
  destruct (if json_contains req "policy" then _ else None) as [doc|] eqn:Hdoc;
    [|intros [= <- <-]; left; split; [done|apply reply_error_not_ok]].
  destruct (json_is_object doc); cbn [negb];
    [|intros [= <- <-]; left; split; [done|apply reply_error_not_ok]].
  intros (text & Htext & H)%outcome_bind_Return.
  destruct (from_json text) as [p|m|w] eqn:Hp; [| |done].
  - destruct (load_policy file_resolver (Some p) (controller_ d)) as [[[]|m] c] eqn:Hl;
      injection H as <- <-; cbn.
    + right. exists doc, text, p. pose proof (load_policy_current _ _ _ Hl) as Hcur.
      destruct (json_contains req "policy"); [|done]. split_and!; try done.
      unfold manager_version. by rewrite Hcur.
    + left. split; [by apply (load_policy_rejected _ _ _ _ Hl)|apply reply_error_not_ok].
  - injection H as <- <-. left. split; [done|apply reply_error_not_ok].
Qed.

(** C29 (only an accepted load changes the policy): a request that
    [handle_request] answers either leaves the policy manager as it was, and
    then a load_policy request is answered with ok = false; or it is a
    load_policy request whose policy object the parser accepted and the
    controller installed, and then that policy is the current one and the
    reply is ok with its version. *)
Theorem handle_request_policy req d resp d' :
  handle_request file_resolver req d = Return (resp, d') ->
  (policy_manager_ (controller_ d') = policy_manager_ (controller_ d) /\
   (json_value_string req "cmd" "" = Return "load_policy" ->
    json_value_bool resp "ok" false = Return false)) \/
  (exists doc text p,
     json_value_string req "cmd" "" = Return "load_policy" /\
     json_find req "policy" = Some doc /\ json_dump doc = Return text /\
     from_json (J:=J) text = Value p /\
     load_policy file_resolver (Some p) (controller_ d) = (ok_v, controller_ d') /\
     current_ (policy_manager_ (controller_ d')) = Some p /\
     resp = json_object [("ok", json_bool true); ("policy_version", json_number (version p))]).
Proof.
  intros H. destruct (decide (json_value_string req "cmd" "" = Return "load_policy")) as [Hl|Hl].
  { destruct (handle_load_request _ _ _ _ Hl H) as [[? ?]|(doc & text & p & ? & ? & ? & ? & ? & ?)];
      [by left|right; by exists doc, text, p]. }
  left. split; [|done]. unfold handle_request in H.
  apply outcome_bind_Return in H as (cmd & Hcmd & H). rewrite Hcmd in Hl.
  destruct (String.eqb_spec cmd "status"); [by simplify_eq|].
  destruct (String.eqb_spec cmd "list"); [by simplify_eq|].
  destruct (String.eqb_spec cmd "load_policy"); [congruence|].
  destruct (String.eqb_spec cmd "stream"); [by simplify_eq|].
  destruct (String.eqb_spec cmd "stop"); by simplify_eq/=.
Qed.

(** A stop request does not close the stream clients: the request only
    clears [running_], because stop() then finds it cleared and returns
    before its loop; the same call on a daemon that is still running closes
    every registered stream client and forgets them. *)
Theorem stop_request_skips_clients req d :
  json_value_string req "cmd" "" = Return "stop" ->
  handle_request file_resolver req d =
    Return (json_object [("ok", json_bool true); ("message", json_string "stopping")],
            with_running d false) /\
  (running_ d = true ->
   stream_clients_ (daemon_stop d).2 = [] /\ running_ (daemon_stop d).2 = false /\
   forall id client, (id, client) ∈ clients_ (controller_ (daemon_stop d).2) ->
     id ∈ stream_clients_ d -> closed_ client = true).
Proof.
  intros Hcmd. split; [unfold handle_request; by rewrite Hcmd|].
  intros Hr. unfold daemon_stop. rewrite Hr. cbn. split_and!; [done..|].
  intros id client [[id' cl] [Heq Hin]]%list_elem_of_fmap Hid. cbn in Heq.
  case_bool_decide; by simplify_eq/=.
Qed.

(** A request that is not an object ends the process: a line that parses
    to a value that is not an object, or to an object whose "cmd" is not a
    string, makes [handle_line] throw on every daemon: [req.value] is called
    again outside the try block that guarded [handle_request], and the
    exception leaves the client's thread. *)
Theorem handle_line_throws (line : string) (j : J) d :
  json_parse line = inr j ->
  (json_is_object j = false \/
   exists ms v, json_view j = JObject ms /\ assoc "cmd" ms = Some v /\
     conv_string (json_view v) = None) ->
  exists w, handle_line file_resolver line d = Throw w.
Proof.
  intros Hj Hbad. unfold handle_line. rewrite Hj.
  assert (exists w, json_value_string j "cmd" "" = Throw w) as [w Hw].
  { destruct Hbad as [Hobj|(ms & v & Hv & Hcmd & Hconv)].
    - by apply value_string_not_object.
    - pose proof (value_string_view j "cmd" "") as H. unfold value_law in H.
      by rewrite Hv, Hcmd, Hconv in H. }
  exists w. destruct (handle_request file_resolver j d) as [[resp d']|w']; by rewrite Hw.
Qed.
(** No request sets [running_]. *)
Lemma handle_request_running req d resp d' :
  handle_request file_resolver req d = Return (resp, d') -> running_ d' = true -> running_ d = true.
Proof.
  unfold handle_request. intros (cmd & _ & H)%outcome_bind_Return.
  destruct (String.eqb cmd "status"); [by simplify_eq|].
  destruct (String.eqb cmd "list"); [by simplify_eq|].
  destruct (String.eqb cmd "load_policy").
  { destruct (if json_contains req "policy" then _ else None) as [doc|]; [|by simplify_eq].
    destruct (negb _); [by simplify_eq|]. apply outcome_bind_Return in H as (text & _ & H).
    destruct (from_json text) as [p|m|w]; [|by simplify_eq|done].
    destruct (load_policy file_resolver (Some p) (controller_ d)) as [[u|m] c]; by simplify_eq/=. }
  destruct (String.eqb cmd "stream"); [by simplify_eq|].
  destruct (String.eqb cmd "stop"); [by simplify_eq/=|by simplify_eq].
Qed.

Lemma handle_line_running line d go_on d' out :
  handle_line file_resolver line d = Return (go_on, d', out) -> running_ d' = true -> running_ d = true.
Proof.
  unfold handle_line. destruct (json_parse line) as [w|j].
  { by intros (text & _ & [= _ <- _])%outcome_bind_Return. }
  destruct (handle_request file_resolver j d) as [[resp d1]|w] eqn:Hr.
  - intros (cmd & _ & H)%outcome_bind_Return. apply outcome_bind_Return in H as (st & _ & H).
    apply outcome_bind_Return in H as (text & _ & [= _ <- _]). by apply (handle_request_running _ _ _ _ Hr).
  - intros (cmd & _ & H)%outcome_bind_Return. apply outcome_bind_Return in H as (st & _ & H).
    by apply outcome_bind_Return in H as (text & _ & [= _ <- _]).
Qed.

(** A line that asks for a load: load_policy, and then the reply. *)
Lemma handle_load_line line p d :
  load_request (J:=J) line = Some p ->
  handle_line file_resolver line d =
  (let '(r, c) := load_policy file_resolver (Some p) (controller_ d) in
   text ← json_dump (load_reply r (policy_manager_ c));
   Return (true, with_controller d c, text +:+ newline)).
Proof.
  unfold load_request, handle_line, handle_request. destruct (json_parse line) as [w|req]; [done|].
  destruct (json_value_string req "cmd" "") as [cmd|w] eqn:Hcmd; [|done].
  destruct (String.eqb_spec cmd "load_policy") as [->|]; [|done]. cbn [mbind outcome_bind String.eqb Ascii.eqb Bool.eqb].
  destruct (if json_contains req "policy" then _ else None) as [doc|]; [|done].
  destruct (negb _); [done|]. destruct (json_dump doc) as [text|w]; [|done]. cbn [mbind outcome_bind].
  destruct (from_json text) as [p'|m|w]; [|done..]. intros [= ->].
  by destruct (load_policy file_resolver (Some p) (controller_ d)) as [[[]|m] c].
Qed.

Lemma load_request_sound (line : string) p : load_request (J:=J) line = Some p -> policy_expressible p.
Proof.
  unfold load_request. destruct (json_parse line) as [w|req]; [done|].
  destruct (json_value_string req "cmd" "") as [cmd|w]; [|done]. destruct (String.eqb cmd "load_policy"); [|done].
  destruct (if json_contains req "policy" then _ else None) as [doc|]; [|done].
  destruct (negb _); [done|]. destruct (json_dump doc) as [text|w]; [|done].
  destruct (from_json text) as [p'|m|w] eqn:Hp; [|done..]. intros [= ->]. by apply (from_json_sound text).
Qed.

(** Any other line leaves the daemon as it is, or clears [running_]. *)
Lemma handle_plain_line line d go_on d' out :
  load_request (J:=J) line = None ->
  handle_line file_resolver line d = Return (go_on, d', out) -> d' = d \/ d' = with_running d false.
Proof.
  unfold load_request, handle_line. destruct (json_parse line) as [w|req].
  { intros _ (text & _ & [= _ <- _])%outcome_bind_Return. by left. }
  intros Hl. destruct (handle_request file_resolver req d) as [[resp d1]|w] eqn:Hr;
    intros (cmd & Hcmd & H)%outcome_bind_Return; apply outcome_bind_Return in H as (st & _ & H);
    apply outcome_bind_Return in H as (text & _ & [= _ <- _]); [|by left].
  rewrite Hcmd in Hl. unfold handle_request in Hr. rewrite Hcmd in Hr. cbn [mbind outcome_bind] in Hr.
  destruct (String.eqb cmd "status"); [by simplify_eq; left|].
  destruct (String.eqb cmd "list"); [by simplify_eq; left|].
  destruct (String.eqb cmd "load_policy").
  { destruct (if json_contains req "policy" then _ else None) as [doc|]; [|by simplify_eq; left].
    destruct (negb _); [by simplify_eq; left|]. destruct (json_dump doc) as [t|w]; [|done]. cbn in Hr.
    destruct (from_json t) as [p'|m|w]; [done|by simplify_eq; left|done]. }
  destruct (String.eqb cmd "stream"); [by simplify_eq; left|].
  destruct (String.eqb cmd "stop"); simplify_eq/=; [by right|by left].
Qed.

Lemma handle_lines_running lines d go_on d' out :
  handle_lines file_resolver lines d = Return (go_on, d', out) -> running_ d' = true -> running_ d = true.
Proof.
  revert d go_on d' out; induction lines as [|l lines IH]; intros d go_on d' out; cbn.
  { by intros [= _ <- _]. }
  intros ([[b d1] o1] & H1 & H)%outcome_bind_Return Hr. apply (handle_line_running _ _ _ _ _ H1).
  destruct b; [|by simplify_eq]. apply outcome_bind_Return in H as ([[b2 d2] o2] & H2 & [= <- <- <-]).
  by apply (IH d1 b2 d2 o2).
Qed.

Lemma handle_lines_app l1 l2 d d' out :
  handle_lines file_resolver (l1 ++ l2) d = Return (true, d', out) ->
  exists d1 out1 out2, handle_lines file_resolver l1 d = Return (true, d1, out1) /\
    handle_lines file_resolver l2 d1 = Return (true, d', out2) /\ out = out1 +:+ out2.
Proof.
  revert d out; induction l1 as [|l l1 IH]; intros d out; cbn.
  { intros H. by exists d, "", out. }
  intros ([[b d1] o1] & H1 & H)%outcome_bind_Return. rewrite H1.
  destruct b; [|by simplify_eq]. apply outcome_bind_Return in H as ([[b2 d2] o2] & H2 & [= -> <- <-]).
  destruct (IH d1 o2 H2) as (d3 & out1 & out2 & H3 & H4 & ->).
  exists d3, (o1 +:+ out1), out2. cbn [mbind outcome_bind]. rewrite H3. cbn [mbind outcome_bind].
  by rewrite str_app_assoc.
Qed.

Lemma handle_client_chunks (chunks : list string) (buf : string) d d' out :
  handle_lines file_resolver (frame_all buf chunks).1 d = Return (true, d', out) ->
  running_ d' = true ->
  handle_client file_resolver ((RecvData <$> chunks) ++ [RecvEnds]) buf d =
    Return (ClientClosed, d', out).
Proof.
  revert buf d out; induction chunks as [|chunk chunks IH]; intros buf d out; cbn.
  { intros [= <- <-] ->. done. }
  destruct (frame buf chunk) as [lines rest]. specialize (IH rest).
  destruct (frame_all rest chunks) as [more rest']. cbn in *. intros H Hr.
  rewrite (handle_lines_running _ _ _ _ _ H Hr). cbn [negb].
  destruct (handle_lines_app _ _ _ _ _ H) as (d1 & out1 & out2 & -> & H2 & ->).
  cbn [mbind outcome_bind]. by rewrite (IH d1 out2 H2 Hr).
Qed.

(** C34 (requests are framed by newlines, however they arrive): cut the bytes a
    client sends at its newlines; whatever the sizes of the chunks in which
    recv delivers them, the client loop handles exactly the non-empty lines,
    in order, one reply each, and ignores the unterminated rest: if handling
    the lines one after the other goes through and leaves the daemon running,
    the loop ends when the client disconnects with the same daemon and the
    same replies sent. *)
Theorem handle_client_frames (chunks lines : list string) (rest : string) d d' out :
  str_concat chunks = str_concat (line_of <$> lines) +:+ rest ->
  Forall (fun l => no_newline l = true) lines -> no_newline rest = true ->
  handle_lines file_resolver (filter (fun l => str_empty l = false) lines) d = Return (true, d', out) ->
  running_ d' = true ->
  handle_client file_resolver ((RecvData <$> chunks) ++ [RecvEnds]) "" d =
    Return (ClientClosed, d', out).
Proof.
  intros Hchunks Hlines Hrest Hh Hr. apply handle_client_chunks; [|done].
  rewrite frame_all_from by done. unfold frame.
  by rewrite str_app_nil_l, Hchunks, split_lines_join.
Qed.
End Requests.

(** ** Start-up and the end of a stream *)
Section Life.
Context {E : Type} `{!IEnforcer E} {J : Type} `{!Json J}.
Context (file_resolver : FileResolver).
Implicit Types (d : Daemon E).

(** Starting the server: run refuses a socket path that does not fit
    sun_path before any system call; otherwise its first call removes whatever
    is at the socket path, before it can know whether another daemon serves
    there.  On success the daemon is running and the listening socket open; on
    every failure [running_] is unchanged, and once the socket exists it is
    closed; a failure after listening removes the socket file and the pid file
    too. *)
Theorem run_start_cleanup strerror create_enforcer read env d r d' calls :
  run_start (J:=J) file_resolver strerror create_enforcer read env d = Return (r, d', calls) ->
  let path := dcfg_socket_path (dmn_cfg d) in
  let pid := dcfg_pid_file (dmn_cfg d) in
  (calls = [] <-> (sun_path_size <= String.length path)%nat) /\
  (calls <> [] -> head calls = Some (CallUnlink path)) /\
  match r with
  | Ok _ => running_ d' = true /\ CallListen ∈ calls /\ CallCloseListen ∉ calls
  | Err _ =>
     running_ d' = running_ d /\
     (calls <> [] -> socket_errno env = None -> CallCloseListen ∈ calls) /\
     (CallListen ∈ calls -> listen_errno env = None ->
      exists before, calls = before ++ [CallCloseListen; CallUnlink path] ++
                               (if str_empty pid then [] else [CallUnlink pid]))
  end.
Proof.
  cbv zeta. unfold run_start. destruct (Nat.leb_spec sun_path_size (String.length (dcfg_socket_path (dmn_cfg d)))) as [Hle|Hlt].
  { intros [= <- <- <-]. split_and!; try done. by intros ?%elem_of_nil. }
  assert (forall x (l : list sys_call), x :: l = [] <->
            (sun_path_size <= String.length (dcfg_socket_path (dmn_cfg d)))%nat) as Hne
    by (intros; split; [done|lia]).
  destruct (socket_errno env) as [e|].
  { intros [= <- <- <-]. split_and!; try done. by rewrite !elem_of_cons, elem_of_nil; intros; naive_solver. }
  destruct (bind_errno env) as [e|].
  { intros [= <- <- <-]. split_and!; try done; [set_solver|].
    rewrite !elem_of_cons, elem_of_nil. naive_solver. }
  destruct (listen_errno env) as [e|].
  { intros [= <- <- <-]. split_and!; try done. set_solver. }
  intros ([started c] & _ & H)%outcome_bind_Return. cbn [app] in H.
  destruct started as [u|m]; injection H as <- <- <-; cbn [app ok_v]; split_and!; try done.
  - set_solver.
  - destruct (_ && _); set_solver.
  - set_solver.
  - intros _ _. eexists (CallUnlink _ :: CallSocket :: CallBind _ :: CallChmod _ _ :: CallListen ::
      (if negb (str_empty (dcfg_pid_file (dmn_cfg d))) && pid_file_opens env
       then [CallWritePid (dcfg_pid_file (dmn_cfg d))] else [])).
    cbn [app]. by destruct (str_empty (dcfg_pid_file (dmn_cfg d))).
Qed.

(** The end of a stream closes its descriptor twice: entering and leaving
    the streaming mode restores the registered clients, and closes the
    client's descriptor both in [enter_stream_mode] and in the destructor of
    the client object; between the two calls the number can have been reused
    for another connection. *)
Theorem stream_leave_closes_twice (id : nat) (fd : Z) d d1 :
  0 <= fd -> id ∉ (clients_ (controller_ d)).*1 -> id ∉ stream_clients_ d ->
  stream_enter id fd d = Return d1 ->
  stream_clients_ d1 = stream_clients_ d ++ [id] /\
  clients_ (controller_ (stream_leave id fd d1).1) = clients_ (controller_ d) /\
  stream_clients_ (stream_leave id fd d1).1 = stream_clients_ d /\
  (stream_leave id fd d1).2 = [fd; fd].
Proof.
  intros Hfd Hc Hs (client & _ & [= <-])%outcome_bind_Return. cbn. split_and!; [done| | |].
  - rewrite filter_app, filter_cons_False, app_nil_r by naive_solver. apply filter_all.
    apply Forall_forall. intros [i cl] Hin Heq. apply Hc, list_elem_of_fmap. by exists (i, cl).
  - rewrite filter_app, filter_cons_False, app_nil_r by naive_solver. apply filter_all.
    apply Forall_forall. intros i Hin Heq. by subst.
  - unfold client_destructor_closes. by rewrite (proj2 (Z.leb_le _ _) Hfd).
Qed.
End Life.

(** ** A concrete daemon over the null backend *)
Definition sample_load_request : jval :=
  VObject [("cmd", VString "load_policy"); ("policy", VObject [])].

Definition daemon_texts (text : string) : string + jval :=
  if String.eqb text "{}" then inr (@policy_json jval (jval_json no_texts) sample_json_policy)
  else if String.eqb text "1" then inr (VNumber 1)
  else if String.eqb text "load" then inr sample_load_request
  else inl "parse error".
Definition daemon_json : Json jval := jval_json daemon_texts.
Definition daemon_json_laws : @JsonLaws jval daemon_json := jval_laws daemon_texts.

Definition daemon_files (path : string) : result FileId :=
  if String.eqb path "/protected/secret.txt" then Ok (MkFileId 1 2 1000)
  else if String.eqb path "/usr/local/bin/backup-agent" then Ok (MkFileId 1 2 2000)
  else Err "no such file".

Definition sample_daemon : Daemon NullEnforcer :=
  MkDaemon (MkDaemonConfig (MkControllerConfig "" "/tmp/fileguard" true "" 8 EnforcerConfig_default)
              "/tmp/fileguard/fileguard.sock" "/tmp/fileguard/fileguard.pid")
    (MkController (MkControllerConfig "" "/tmp/fileguard" true "" 8 EnforcerConfig_default)
       (MkPolicyManager None) (Some (NullEnforcer_create EnforcerConfig_default)) None
       (MkSpscQueue (replicate 8 SecurityEvent_default) 0 0 false) [] 0 [] true true)
    true [].

Lemma handle_request_policy_witness :
  exists resp d',
    @handle_request NullEnforcer _ jval daemon_json daemon_files sample_load_request sample_daemon =
      Return (resp, d') /\
    current_ (policy_manager_ (controller_ d')) = Some sample_json_policy.
Proof.
  assert (match @handle_request NullEnforcer _ jval daemon_json daemon_files sample_load_request sample_daemon
          with Return (resp, _) => @json_value_bool jval daemon_json resp "ok" false
             | Throw w => Throw w end = Return true) as Hok by (vm_compute; reflexivity).
  destruct (@handle_request NullEnforcer _ jval daemon_json daemon_files sample_load_request sample_daemon)
    as [[resp d']|w] eqn:H; [|discriminate].
  exists resp, d'. split; [reflexivity|].
  destruct (@handle_request_policy NullEnforcer _ jval daemon_json daemon_json_laws daemon_files
              sample_load_request sample_daemon resp d' H)
    as [[_ Hbad]|(doc & text & p & _ & Hdoc & Htext & Hp & _ & Hcur & _)].
  - rewrite Hbad in Hok by reflexivity. discriminate.
  - rewrite Hcur. injection Hdoc as <-. injection Htext as <-.
    assert (@from_json jval daemon_json "{}" = Value sample_json_policy) as Heq
      by (vm_compute; reflexivity).
    assert (@Value Policy p = Value sample_json_policy) as [= ->] by (etrans; [symmetry; exact Hp|exact Heq]).
    reflexivity.
Defined.

Lemma handle_client_frames_witness :
  exists d' out,
    @handle_client NullEnforcer _ jval daemon_json daemon_files
      [RecvData "n"; RecvData ("o" +:+ newline +:+ newline +:+ "x"); RecvData newline; RecvEnds]
      "" sample_daemon = Return (ClientClosed, d', out) /\
    out = "{}" +:+ newline +:+ "{}" +:+ newline.
Proof.
  exists sample_daemon, ("{}" +:+ newline +:+ "{}" +:+ newline). split; [|reflexivity].
  apply (@handle_client_frames NullEnforcer _ jval daemon_json daemon_files
    ["n"; "o" +:+ newline +:+ newline +:+ "x"; newline] ["no"; ""; "x"] "" sample_daemon sample_daemon).
  - reflexivity.
  - repeat constructor.
  - reflexivity.
  - reflexivity.
  - reflexivity.
Defined.

Lemma stop_request_skips_clients_witness :
  @handle_request NullEnforcer _ jval daemon_json daemon_files (VObject [("cmd", VString "stop")])
    sample_daemon =
  Return (VObject [("ok", VBool true); ("message", VString "stopping")],
          with_running sample_daemon false).
Proof.
  refine (proj1 (@stop_request_skips_clients NullEnforcer _ jval daemon_json daemon_files
    (VObject [("cmd", VString "stop")]) sample_daemon _)). reflexivity.
Defined.

Lemma handle_line_throws_witness :
  exists w, @handle_line NullEnforcer _ jval daemon_json daemon_files "1" sample_daemon = Throw w.
Proof.
  apply (@handle_line_throws NullEnforcer _ jval daemon_json daemon_json_laws daemon_files "1"
           (VNumber 1) sample_daemon eq_refl).
  left. reflexivity.
Defined.

Definition failing_env : run_env := MkRunEnv None (Some 98) None true.

Lemma run_start_cleanup_witness :
  exists calls d',
    @run_start NullEnforcer _ jval daemon_json daemon_files (fun _ => "address in use")
      NullEnforcer_create (fun _ => CannotOpen) failing_env sample_daemon =
    Return (Err ("bind(/tmp/fileguard/fileguard.sock) failed: address in use" +:+
                 " — is another fileguard daemon running?"), d', calls) /\
    head calls = Some (CallUnlink "/tmp/fileguard/fileguard.sock") /\ CallCloseListen ∈ calls.
Proof.
  do 2 eexists.
  pose proof (@run_start_cleanup NullEnforcer _ jval daemon_json daemon_files
    (fun _ => "address in use") NullEnforcer_create (fun _ => CannotOpen) failing_env sample_daemon
    _ _ _ eq_refl) as (_ & Hhead & _ & Hclose & _).
  split; [reflexivity|]. split; [apply Hhead|apply Hclose]; easy.
Defined.

Lemma stream_leave_closes_twice_witness :
  exists d1, stream_enter 5 9 sample_daemon = Return d1 /\ (stream_leave 5 9 d1).2 = [9; 9].
Proof.
  destruct (stream_enter 5 9 sample_daemon) as [d1|w] eqn:H;
    [|apply outcome_bind_Throw in H as [H|(c & _ & H)]; [vm_compute in H|]; discriminate].
  exists d1. split; [reflexivity|].
  refine (proj2 (proj2 (proj2 (stream_leave_closes_twice 5 9 sample_daemon d1 _ _ _ H)))).
  - lia.
  - intros Hin. cbn in Hin. by apply elem_of_nil in Hin.
  - intros Hin. cbn in Hin. by apply elem_of_nil in Hin.
Defined.
