(* ===== verification/ControllerInvariant.v ===== *)
(** * Well-formed controllers

    The state invariant of Controller.v, and that every operation keeps it:
    the queue's indices are inside its slots and its capacity is the
    configured one, the current policy passes validation, the resolver is
    that of a policy that passed validation and compilation, the stream
    clients are well-formed, and the threads run only over a started
    controller with a backend and an open queue.  The same for the stream
    clients of Daemon.v. *)

From S2P Require Import Prelude FileId Policy PolicyCompiler PathResolver SpscQueue SecurityEvent Enforcer.
From S2P Require Import Json ConfigParser EventSink Controller LoadSteps ControllerProperties Daemon.

(** ** Queues *)
Definition queue_ok {T : Type} (n : nat) (q : SpscQueue T) : Prop :=
  queue_wf q /\ length (slots_ q) = n.

Section Queue.
Context {T : Type} `{!Inhabited T}.
Implicit Types (q : SpscQueue T) (n : nat) (x : T).

Lemma queue_new_ok n q : SpscQueue_new n = Return q -> queue_ok n q /\ stop_ q = false.
Proof. intros H. destruct (SpscQueue_new_wf n q H) as (? & _ & ? & ?). done. Qed.

Lemma queue_store_ok n q x : queue_ok n q -> queue_ok n (queue_store q x).
Proof. intros [Hwf Hn]. split; [by apply queue_store_wf|]. cbn. by rewrite length_insert. Qed.

Lemma queue_push_ok n q x q' : queue_ok n q -> queue_push q x = Some q' -> queue_ok n q' /\ stop_ q' = stop_ q.
Proof.
  unfold queue_push. intros Hq. destruct (_ || _); [|done]. destruct (stop_ q) eqn:Hs; intros [= <-]; [done|].
  split; [by apply queue_store_ok|done].
Qed.

Lemma queue_try_push_ok n q x : queue_ok n q -> queue_ok n (queue_try_push q x).2.
Proof. unfold queue_try_push. intros Hq. destruct (_ =? _); [done|by apply queue_store_ok]. Qed.

Lemma queue_pop_ok n q r q' : queue_ok n q -> queue_pop q = Some (r, q') -> queue_ok n q' /\ stop_ q' = stop_ q.
Proof.
  unfold queue_pop. intros [Hwf Hn]. destruct (_ || _); [|done].
  destruct (queue_empty q); [by intros [= _ <-]|]. intros [= _ <-].
  split; [|done]. split; [by apply (queue_take_wf q)|done].
Qed.

Lemma queue_request_stop_ok n q : queue_ok n q -> queue_ok n (queue_request_stop q).
Proof. done. Qed.
End Queue.

(** ** Stream clients *)

(** What the controller's invariant needs of a client: a property push keeps. *)
Class EventStreamClientWf (Cl : Type) `{EventStreamClient Cl} := {
  client_wf : Cl -> Prop;
  client_push_wf : forall cl ev cl', client_wf cl -> client_push cl ev = Return cl' -> client_wf cl';
}.

Record stream_client_wf (cl : SocketStreamClient) : Prop := {
  sc_queue : queue_ok 1024 (client_queue_ cl);
  sc_dropped : in_u 64 (dropped_ cl);
}.

Section Stream.
Context {J : Type} `{!Json J}.
Implicit Types (cl : SocketStreamClient).

Lemma stream_create_wf fd cl : SocketStreamClient_create fd = Return cl -> stream_client_wf cl.
Proof.
  intros (q & Hq & [= <-])%outcome_bind_Return. split; [by apply queue_new_ok|cbn; by unfold in_u].
Qed.

Lemma stream_push_wf cl ev cl' :
  stream_client_wf cl -> stream_push (J:=J) cl ev = Return cl' -> stream_client_wf cl'.
Proof.
  intros [Hq Hd]. unfold stream_push. destruct (closed_ cl); [by intros [= <-]|].
  intros (text & _ & H)%outcome_bind_Return.
  pose proof (queue_try_push_ok _ _ text Hq) as Hq'.
  destruct (queue_try_push (client_queue_ cl) text) as [pushed q]. injection H as <-.
  split; [done|]. cbn. destruct pushed; [done|]. by apply wrap_u_in.
Qed.

Lemma stream_shutdown_wf cl : stream_client_wf cl -> stream_client_wf (stream_shutdown cl).
Proof. intros [Hq Hd]. by split. Qed.

Lemma writer_loop_wf (fuel : nat) (sends : list send_result) cl out cl' returned :
  stream_client_wf cl -> writer_loop fuel sends cl = (out, cl', returned) -> stream_client_wf cl'.
Proof.
  revert sends cl out returned; induction fuel as [|fuel IH]; intros sends cl out returned Hwf; cbn; [by intros [= _ <- _]|].
  destruct (closed_ cl); [by intros [= _ <- _]; destruct Hwf; split|].
  destruct (queue_pop (client_queue_ cl)) as [[[line|] q]|] eqn:Hp; [| |by intros [= _ <- _]];
    destruct Hwf as [Hq Hd]; destruct (queue_pop_ok _ _ _ _ Hq Hp) as [Hq' _];
    [|by intros [= _ <- _]; split].
  destruct (write_all sends line) as [[[[]|] sent] rest]; [|by intros [= _ <- _]; split..].
  destruct (writer_loop fuel rest _) as [[out2 cl2] returned2] eqn:Hw. intros [= _ <- _].
  by eapply IH; [|exact Hw].
Qed.

#[export] Instance SocketStreamClient_wf : EventStreamClientWf SocketStreamClient := {|
  client_wf := stream_client_wf;
  client_push_wf := stream_push_wf;
|}.
End Stream.

(** ** Controllers *)
Definition policy_resolver (file_resolver : FileResolver) (r : PathResolver) : Prop :=
  exists p compiled, validate p = ok_v /\ compile file_resolver p = Ok compiled /\
    r = build_resolver p compiled.

Section Controller.
Context {E : Type} `{!IEnforcer E} {J : Type} `{!Json J} {Cl : Type}.
Context `{!EventStreamClient Cl} `{!EventStreamClientWf Cl}.
Context (file_resolver : FileResolver).
Implicit Types (c : Controller E Cl) (p : Policy).

(** What the shared data satisfies at any time, and the state between two
    operations. *)
Record controller_core c : Prop := {
  cw_queue : queue_ok (event_queue_capacity (Controller.cfg_ c)) (queue_ c);
  cw_policy : forall p, current_ (policy_manager_ c) = Some p -> validate p = ok_v;
  cw_resolver : forall r, resolver_ c = Some r -> policy_resolver file_resolver r;
  cw_clients : Forall client_wf (clients_ c).*2;
}.
Record controller_wf c : Prop := {
  cw_core : controller_core c;
  cw_started : started_ c = true -> is_Some (enforcer_ c);
  cw_threads : threads_ c = true -> started_ c = true /\ stop_ (queue_ c) = false;
}.

(** [c'] differs from [c] in what the consumer and the writers work on. *)
Record outputs_change c c' : Prop := {
  oc_started : started_ c' = started_ c;
  oc_threads : threads_ c' = threads_ c;
  oc_stop : stop_ (queue_ c') = stop_ (queue_ c);
  oc_enforcer : enforcer_ c' = enforcer_ c;
  oc_policy : policy_manager_ c' = policy_manager_ c;
  oc_clients : (clients_ c').*1 `sublist_of` (clients_ c).*1;
}.

#[local] Instance outputs_change_preorder : PreOrder outputs_change.
Proof using Type.
  split; [by intros c|]. intros c1 c2 c3 [] []. split; [congruence..|by etrans].
Qed.

Lemma outputs_change_wf c c' :
  controller_wf c -> outputs_change c c' -> controller_core c' -> controller_wf c'.
Proof using Type. intros [_ Hs Ht] [E1 E2 E3 E4 _ _] Hc. split; [done| |]; by rewrite ?E1, ?E2, ?E3, ?E4. Qed.

Lemma Controller_create_wf cfg log_opens boot_offset c :
  Controller_create cfg log_opens boot_offset = Return c ->
  controller_wf c /\ started_ c = false /\ stop_ (queue_ c) = false /\ enforcer_ c = None /\ clients_ c = [].
Proof using Type.
  intros (q & Hq & [= <-])%outcome_bind_Return. destruct (queue_new_ok _ _ Hq) as [Hok Hs].
  split; [|done]. by split.
Qed.

Lemma with_queue_core c q :
  controller_core c -> queue_ok (event_queue_capacity (Controller.cfg_ c)) q -> controller_core (with_queue c q).
Proof using Type. intros [] Hq. by split. Qed.

Lemma with_outputs_core c sinks clients :
  controller_core c -> Forall client_wf clients.*2 -> controller_core (with_outputs c sinks clients).
Proof using Type. intros [] Hq. by split. Qed.

Lemma with_started_core c b t : controller_core c -> controller_core (with_started c b t).
Proof using Type. intros []. by split. Qed.

Lemma with_outputs_wf c sinks clients :
  controller_wf c -> Forall client_wf clients.*2 -> controller_wf (with_outputs c sinks clients).
Proof using Type. intros [] Hq. split; [by apply with_outputs_core|done..]. Qed.

Lemma with_enforcer_wf c (e : E) : controller_wf c -> controller_wf (with_enforcer c (Some e)).
Proof using Type. intros [[] ? ?]. by split; [split|..]. Qed.

(** load_policy touches the policy, the resolver and the backend only. *)
Lemma load_policy_fields (po : option Policy) c :
  let c' := (load_policy file_resolver po c).2 in
  queue_ c' = queue_ c /\ Controller.cfg_ c' = Controller.cfg_ c /\ clients_ c' = clients_ c /\
  sinks_ c' = sinks_ c /\ started_ c' = started_ c /\ threads_ c' = threads_ c.
Proof using Type.
  cbv zeta. unfold load_policy, manager_install. destruct po as [p|]; [|done].
  destruct (validate p) as [[]|]; [|done]. destruct (compile file_resolver p) as [compiled|]; [|done].
  destruct (enforcer_ c) as [e|]; [|done]. by destruct (enf_apply_policy compiled e) as [[[]|] e'].
Qed.

(** The backend only goes through apply_policy. *)
Lemma load_policy_enforcer (po : option Policy) c :
  enforcer_ (load_policy file_resolver po c).2 = enforcer_ c \/
  exists compiled e, enforcer_ c = Some e /\
    enforcer_ (load_policy file_resolver po c).2 = Some (enf_apply_policy compiled e).2.
Proof using Type.
  unfold load_policy, manager_install. destruct po as [p|]; [|by left].
  destruct (validate p) as [[]|]; [|by left]. destruct (compile file_resolver p) as [compiled|]; [|by left].
  destruct (enforcer_ c) as [e|] eqn:He; [|by left]. right. exists compiled, e.
  by destruct (enf_apply_policy compiled e) as [[[]|] e'].
Qed.

Lemma load_policy_wf (po : option Policy) c :
  controller_wf c -> controller_wf (load_policy file_resolver po c).2.
Proof using Type.
  intros Hwf. unfold load_policy. destruct po as [p|]; [|done].
  destruct (validate p) as [[]|] eqn:Hv; [|done].
  destruct (compile file_resolver p) as [compiled|] eqn:Hc; [|done].
  assert (forall c1, controller_wf c1 ->
    controller_wf (with_policy (with_resolver c1 (Some (build_resolver p compiled))) (MkPolicyManager (Some p))))
    as Hinstall.
  { intros c1 [[] ? ?]. split; [split|done..]; cbn; [done| | |done].
    - by intros p' [= <-].
    - intros r [= <-]. by exists p, compiled. }
  destruct (enforcer_ c) as [e|]; cbn; unfold manager_install; rewrite ?Hv; [|by apply Hinstall].
  destruct (enf_apply_policy compiled e) as [[[]|] e']; cbn; rewrite ?Hv; cbn;
    [apply Hinstall|]; by apply with_enforcer_wf.
Qed.

Lemma emit_event_wf put_time c raw c' :
  controller_wf c -> emit_event put_time c raw = Some c' -> controller_wf c' /\ outputs_change c c'.
Proof using Type.
  intros Hwf (q & Hq & ->)%fmap_Some.
  destruct (queue_push_ok _ _ _ _ (cw_queue _ (cw_core _ Hwf)) Hq) as [Hok Hs].
  assert (outputs_change c (with_queue c q)) as Hoc by done.
  split; [|done]. apply (outputs_change_wf c); [done..|]. by apply with_queue_core, Hok; apply Hwf.
Qed.

Lemma push_clients_wf ev (l l' : list (nat * Cl)) :
  Forall client_wf l.*2 -> push_clients ev l = Return l' ->
  Forall client_wf l'.*2 /\ l'.*1 `sublist_of` l.*1.
Proof using Type.
  revert l'; induction l as [|[id cl] l IH]; intros l'; cbn; [by intros _ [= <-]|].
  rewrite Forall_cons. intros [Hcl Hl]. destruct (client_closed cl).
  - intros H. destruct (IH l' Hl H). split; [done|by apply sublist_cons].
  - intros (cl' & Hp & H)%outcome_bind_Return. apply outcome_bind_Return in H as (l1 & Hl1 & [= <-]).
    destruct (IH l1 Hl Hl1). cbn. rewrite Forall_cons. split; [split; [by eapply client_push_wf|done]|by apply sublist_skip].
Qed.

(** The consumer pops an event and delivers it. *)
Lemma consume_core c ev q c' :
  controller_core c -> queue_pop (queue_ c) = Some (Some ev, q) ->
  deliver (J:=J) (with_queue c q) ev = Return c' ->
  controller_core c' /\ outputs_change c c'.
Proof using Type.
  intros Hwf Hp (sinks & _ & H)%outcome_bind_Return. apply outcome_bind_Return in H as (clients & Hcl & [= <-]).
  destruct (queue_pop_ok _ _ _ _ (cw_queue _ Hwf) Hp) as [Hok Hs].
  destruct (push_clients_wf _ _ _ (cw_clients _ Hwf) Hcl).
  split; [|done]. apply with_outputs_core; [by apply with_queue_core|done].
Qed.

Lemma consumer_loop_core (fuel : nat) c e c' :
  controller_core c -> consumer_loop (J:=J) fuel c = Return (e, c') ->
  controller_core c' /\ outputs_change c c'.
Proof using Type.
  revert c e c'; induction fuel as [|fuel IH]; intros c e c' Hwf; cbn; [by intros [= _ <-]|].
  destruct (queue_pop (queue_ c)) as [[[ev|] q]|] eqn:Hp; [| |by intros [= _ <-]].
  - intros (c1 & Hd & H)%outcome_bind_Return. destruct (consume_core _ _ _ _ Hwf Hp Hd) as (W1 & O1).
    destruct (IH c1 e c' W1 H) as (W2 & O2). split; [done|by etrans].
  - intros [= _ <-]. destruct (queue_pop_ok _ _ _ _ (cw_queue _ Hwf) Hp) as [Hok Hs].
    split; [by apply with_queue_core|done].
Qed.

Lemma not_started_no_threads c : controller_wf c -> started_ c = false -> threads_ c = false.
Proof using Type.
  intros Hwf Hs. destruct (threads_ c) eqn:Ht; [|done]. destruct (cw_threads _ Hwf Ht). congruence.
Qed.

Lemma start_wf (create_enforcer : EnforcerConfig -> E) (read : string -> file_read) c r c' :
  controller_wf c -> started_ c = false -> stop_ (queue_ c) = false ->
  start (J:=J) create_enforcer file_resolver read c = Return (r, c') ->
  controller_wf c' /\ started_ c' = true /\ clients_ c' = clients_ c /\
  threads_ c' = match r with Ok _ => true | Err _ => false end.
Proof using Type.
  intros Hwf Hst Hopen. unfold start. rewrite Hst.
  pose proof (not_started_no_threads c Hwf Hst) as Hth.
  destruct (enf_load _) as [loaded e].
  set (c1 := with_enforcer (with_started c true (threads_ c)) (Some e)).
  assert (controller_wf c1) as Hwf1.
  { destruct Hwf as [[] ? ?]. split; cbn; [by split|done|by rewrite Hth]. }
  assert (forall c2, controller_wf c2 -> started_ c2 = true -> stop_ (queue_ c2) = false ->
    controller_wf (with_started c2 true true)) as Hfinish.
  { intros c2 [] ? ?. split; [by apply with_started_core|naive_solver|done]. }
  destruct loaded as [[]|m]; [|by intros [= <- <-]]. cbv zeta.
  destruct (str_empty _); [intros [= <- <-]; split; [by apply (Hfinish c1)|done]|].
  destruct (from_file _ _) as [p|m|w]; [|by intros [= <- <-]|done].
  pose proof (load_policy_wf (Some p) c1 Hwf1) as Hwf2.
  pose proof (load_policy_fields (Some p) c1) as (E1 & _ & E3 & _ & E5 & E6).
  destruct (load_policy file_resolver (Some p) c1) as [l c2] eqn:Hl. cbn in Hwf2, E1, E3, E5, E6.
  destruct l as [u|m]; intros [= <- <-].
  - split; [apply Hfinish; [done|done|by rewrite E1]|done].
  - by rewrite E6.
Qed.

(** request_stop leaves a stopped controller over a detached backend. *)
Lemma request_stop_wf c r c' :
  controller_wf c -> request_stop (J:=J) c = Return (r, c') ->
  controller_wf c' /\ started_ c' = false /\ threads_ c' = false /\
  (clients_ c').*1 `sublist_of` (clients_ c).*1 /\
  if started_ c
  then exists e, enforcer_ c = Some e /\ enforcer_ c' = Some (enf_detach e).2 /\ r = (enf_detach e).1
  else c' = c /\ r = ok_v.
Proof using Type.
  intros Hwf. unfold request_stop. destruct (started_ c) eqn:Hs; cbn [negb].
  2: { intros [= <- <-]. by rewrite (not_started_no_threads c Hwf Hs). }
  destruct (cw_started _ Hwf Hs) as [e He]. intros (c1 & Hc1 & H)%outcome_bind_Return.
  cbn [with_queue with_started threads_ queue_] in Hc1.
  set (c0 := with_queue _ _) in Hc1.
  assert (controller_core c0) as Hc0.
  { apply with_queue_core; [by apply with_started_core; apply Hwf|]. apply queue_request_stop_ok, Hwf. }
  assert (controller_core c1 /\ outputs_change c0 c1) as (W1 & [_ _ _ E1 _ S1]).
  { destruct (threads_ c); [|by injection Hc1 as <-].
    apply outcome_bind_Return in Hc1 as ([le c2] & Hl & [= <-]). by eapply consumer_loop_core. }
  cbn in E1, S1, H. rewrite E1, He in H. destruct (enf_detach e) as [rd e'] eqn:Hd. cbn in H.
  assert (controller_wf (with_enforcer (with_started c1 false false) (Some e'))) as W2.
  { apply with_enforcer_wf. split; [by apply with_started_core|done..]. }
  destruct rd as [u|m]; injection H as <- <-; (split_and!; [done..|]); exists e; rewrite Hd; [destruct u|]; done.
Qed.
End Controller.

(** ** The kernel and the current policy *)
Section Agrees.
Context {E : Type} `{!IEnforcer E} `{!EnforcerLaws E} {J : Type} `{!Json J} `{!JsonLaws J} {Cl : Type}.
Context (file_resolver : FileResolver).
Implicit Types (c : Controller E Cl) (p : Policy).

(** The backend's verdicts are those of [p], and its status shows [p]. *)
Definition enforces_policy (e : E) p : Prop :=
  exists compiled, policy_expressible p /\ compile file_resolver p = Ok compiled /\
    (forall res proc, enforced e res proc = compiled_verdict compiled res proc) /\
    policy_version (enf_status e) = version p /\
    protected_count (enf_status e) = Z.of_nat (length (protected_resources p)) /\
    rule_count (enf_status e) = Z.of_nat (length (rules p)).

(** If the backend enforces at all, then a policy that [P] holds of. *)
Definition kernel_enforces c (P : Policy -> Prop) : Prop :=
  forall e, enforcer_ c = Some e -> enforcing (enf_status e) = true -> exists p, P p /\ enforces_policy e p.
(** The current one; any that the configuration format can express. *)
Definition kernel_agrees c : Prop := kernel_enforces c (fun p => current_ (policy_manager_ c) = Some p).
Definition kernel_accepted c : Prop := kernel_enforces c policy_expressible.

Lemma kernel_enforces_weaken c (P Q : Policy -> Prop) :
  (forall p, P p -> Q p) -> kernel_enforces c P -> kernel_enforces c Q.
Proof using Type. intros HPQ H e He Henf. destruct (H e He Henf) as (p & ? & ?). eauto. Qed.

Lemma kernel_enforces_accepted c (P : Policy -> Prop) : kernel_enforces c P -> kernel_accepted c.
Proof using Type. intros H e He Henf. destruct (H e He Henf) as (p & _ & k & Hex & Hk). exists p. split; [done|by exists k]. Qed.

Lemma kernel_enforces_same c c' (P : Policy -> Prop) :
  enforcer_ c' = enforcer_ c -> kernel_enforces c P -> kernel_enforces c' P.
Proof using Type. intros E1. unfold kernel_enforces. by rewrite E1. Qed.

Lemma kernel_agrees_same c c' :
  enforcer_ c' = enforcer_ c -> policy_manager_ c' = policy_manager_ c -> kernel_agrees c -> kernel_agrees c'.
Proof using Type. intros E1 E2. unfold kernel_agrees. rewrite E2. by apply kernel_enforces_same. Qed.

Lemma kernel_enforces_off c (e : E) (P : Policy -> Prop) :
  enforcer_ c = Some e -> enforcing (enf_status e) = false -> kernel_enforces c P.
Proof using Type. intros He Hoff e' He' Henf. congruence. Qed.

(** [c'] enforces nothing, or what [c] does. *)
Definition kernel_kept c c' : Prop :=
  forall e', enforcer_ c' = Some e' -> enforcing (enf_status e') = true ->
  exists e, enforcer_ c = Some e /\ enf_status e' = enf_status e /\
    forall res proc, enforced e' res proc = enforced e res proc.

Lemma kernel_kept_enforces c c' (P : Policy -> Prop) : kernel_kept c c' -> kernel_enforces c P -> kernel_enforces c' P.
Proof using Type.
  intros Hk H e' He' Henf. destruct (Hk e' He' Henf) as (e & He & Hs & Hv). rewrite Hs in Henf.
  destruct (H e He Henf) as (p & HP & k & ? & ? & H1 & H2 & H3 & H4). exists p. split; [done|]. exists k.
  rewrite Hs. split_and!; try done. intros. by rewrite Hv.
Qed.

Lemma kernel_kept_same c c' : enforcer_ c' = enforcer_ c -> kernel_kept c c'.
Proof using Type. intros E1 e' He' _. exists e'. by rewrite <- E1. Qed.

Lemma apply_failed_kept c c' compiled (e e' : E) m :
  enforcer_ c = Some e -> enforcer_ c' = Some e' -> enf_apply_policy compiled e = (Err m, e') -> kernel_kept c c'.
Proof using Type.
  intros He He' Ha e1 He1 Henf. assert (e1 = e') as -> by congruence.
  destruct (apply_err compiled e e' m Ha) as [[Hv Hs]|Hoff]; [by exists e|congruence].
Qed.

(** A successful install. *)
Lemma apply_enforces p compiled (e e' : E) :
  policy_expressible p -> compile file_resolver p = Ok compiled ->
  enf_apply_policy compiled e = (ok_v, e') -> enforcing (enf_status e') = true -> enforces_policy e' p.
Proof using Type.
  intros Hex Hc Ha Henf. pose proof Hc as Hok. apply compile_Ok in Hok as (Hpwf & Hcv & Hids & Hlen & _).
  destruct (apply_status compiled e e' Ha) as (Hv & Hpc & Hrc).
  { rewrite Hcv. split; [apply (wf_version _ Hpwf)|apply Hex]. }
  exists compiled. split_and!; [done|done| |congruence| |congruence].
  - apply (apply_ok compiled e e' Ha); [|done]. apply (named_actions_wf file_resolver p compiled Hc), Hex.
  - rewrite Hpc. f_equal. apply Forall2_length in Hids. by rewrite length_fmap in Hids.
Qed.

(** A load leaves its policy in the kernel, or what was there. *)
Lemma load_policy_kernel p c r c' :
  policy_expressible p -> load_policy file_resolver (Some p) c = (r, c') ->
  match r with
  | Ok _ => kernel_enforces c' (fun q => q = p /\ current_ (policy_manager_ c') = Some q)
  | Err _ => kernel_kept c c' /\ policy_manager_ c' = policy_manager_ c
  end.
Proof using EnforcerLaws0.
  intros Hex Hl. destruct r as [[]|m].
  - destruct (enforcer_ c) as [e|] eqn:He.
    + destruct (load_policy_Ok file_resolver p c c' e He Hl) as (k & e' & Hc & Ha & He' & Hcur & _).
      intros e1 He1 Henf. assert (e1 = e') as -> by congruence. exists p. split; [done|]. by apply (apply_enforces p k e).
    + destruct (load_policy_enforcer file_resolver (Some p) c) as [H|(k & e & H & _)]; [|congruence].
      rewrite Hl, He in H. intros e' He'. cbn in H. congruence.
  - destruct (load_policy_Err file_resolver (Some p) c c' m Hl) as [->|(k & e0 & e' & m' & He0 & Ha & ->)].
    + split; [by apply kernel_kept_same|done].
    + split; [by apply (apply_failed_kept _ _ k e0 e' m')|done].
Qed.

Lemma load_policy_agrees p c :
  policy_expressible p -> kernel_agrees c -> kernel_agrees (load_policy file_resolver (Some p) c).2.
Proof using EnforcerLaws0.
  intros Hex Hag. destruct (load_policy file_resolver (Some p) c) as [r c'] eqn:Hl. cbn.
  pose proof (load_policy_kernel p c r c' Hex Hl) as H. destruct r as [u|m].
  - eapply kernel_enforces_weaken; [|exact H]. by intros q [_ Hq].
  - destruct H as [Hk Hm]. unfold kernel_agrees. rewrite Hm. by apply (kernel_kept_enforces c).
Qed.

(** One critical section of a load: the data stays well-formed, and what the
    call holds is what it has checked. *)
Definition loader_wf (l : loader) : Prop :=
  match l with
  | LoadCalled policy => forall p, policy = Some p -> policy_expressible p
  | LoadApplied p compiled => policy_expressible p /\ compile file_resolver p = Ok compiled
  | LoadResolved p => policy_expressible p /\ exists compiled, compile file_resolver p = Ok compiled
  | LoadReturned _ => True
  end.

(** The policy a call has put into the kernel, but not yet into the policy
    manager. *)
Definition loader_applied (l : loader) : option Policy :=
  match l with LoadApplied p _ | LoadResolved p => Some p | _ => None end.

Lemma load_apply_cases (po : option Policy) c l c' :
  load_apply file_resolver po c = (l, c') ->
  (exists m, l = LoadReturned (Err m) /\ kernel_kept c c' /\
     (c' = c \/ exists k e, enforcer_ c = Some e /\ c' = with_enforcer c (Some (enf_apply_policy k e).2))) \/
  exists p k, po = Some p /\ validate p = ok_v /\ compile file_resolver p = Ok k /\ l = LoadApplied p k /\
    (c' = c /\ enforcer_ c = None \/
     exists e e', enforcer_ c = Some e /\ enf_apply_policy k e = (ok_v, e') /\ c' = with_enforcer c (Some e')).
Proof using EnforcerLaws0.
  unfold load_apply. destruct po as [p|]; [|intros [= <- <-]; left; eexists; split_and!; [done|by apply kernel_kept_same|by left]].
  destruct (validate p) as [[]|m] eqn:Hv;
    [|intros [= <- <-]; left; eexists; split_and!; [done|by apply kernel_kept_same|by left]].
  destruct (compile file_resolver p) as [k|m] eqn:Hc;
    [|intros [= <- <-]; left; eexists; split_and!; [done|by apply kernel_kept_same|by left]].
  destruct (enforcer_ c) as [e|] eqn:He; [|intros [= <- <-]; right; exists p, k; naive_solver].
  destruct (enf_apply_policy k e) as [[[]|m] e'] eqn:Ha; intros [= <- <-].
  - right. exists p, k. split_and!; try done. right. by exists e, e'.
  - left. eexists. split_and!; [done|by apply (apply_failed_kept _ _ k e e' m)|].
    right. exists k, e. by rewrite Ha.
Qed.

(** What one critical section leaves alone. *)
Lemma load_advance_fields l c l' c' :
  load_advance file_resolver l c = (l', c') ->
  queue_ c' = queue_ c /\ Controller.cfg_ c' = Controller.cfg_ c /\ clients_ c' = clients_ c /\
  started_ c' = started_ c /\ threads_ c' = threads_ c /\
  (enforcer_ c' = enforcer_ c \/
   exists k e, enforcer_ c = Some e /\ enforcer_ c' = Some (enf_apply_policy k e).2).
Proof using EnforcerLaws0.
  destruct l as [po|p k|p|r]; cbn [load_advance].
  - intros [(m & -> & _ & [->|(k & e & He & ->)])|(p & k & -> & _ & _ & -> & [[-> _]|(e & e' & He & Ha & ->)])]%load_apply_cases;
      cbn; split_and!; auto; right; exists k, e; [done|by rewrite Ha].
  - intros [= <- <-]. cbn. by split_and!; [..|left].
  - destruct (manager_install _ _) as [r m]. intros [= <- <-]. cbn. by split_and!; [..|left].
  - intros [= <- <-]. by split_and!; [..|left].
Qed.

Lemma load_advance_loader l c l' c' :
  loader_wf l -> load_advance file_resolver l c = (l', c') -> loader_wf l'.
Proof using EnforcerLaws0.
  destruct l as [po|p k|p|r]; cbn [load_advance]; intros Hl.
  - intros [(m & -> & _)|(p & k & -> & _ & Hc & -> & _)]%load_apply_cases; [done|]. split; [by apply Hl|done].
  - intros [= <- <-]. destruct Hl. split; [done|by exists k].
  - destruct (manager_install _ _) as [r m]. by intros [= <- <-].
  - by intros [= <- <-].
Qed.

Lemma from_file_sound (read : string -> file_read) (file : string) p :
  from_file (J:=J) read file = Value p -> policy_expressible p.
Proof using Type*.
  unfold from_file. destruct (read file) as [| |text]; try done. apply from_json_sound.
Qed.

(** A start that succeeds leaves at most the policy of the policy file in the
    kernel, and one that fails leaves nothing there. *)
Lemma start_kernel (create_enforcer : EnforcerConfig -> E) (read : string -> file_read) c r c' :
  (forall cfg, enforcing (enf_status (create_enforcer cfg)) = false) -> started_ c = false ->
  start (J:=J) create_enforcer file_resolver read c = Return (r, c') ->
  kernel_enforces c' (fun q => r = ok_v /\ str_empty (policy_file (Controller.cfg_ c)) = false /\
    from_file (J:=J) read (policy_file (Controller.cfg_ c)) = Value q /\ current_ (policy_manager_ c') = Some q).
Proof using Type*.
  intros Hfresh Hst. unfold start. rewrite Hst. set (e0 := create_enforcer _).
  pose proof (load_idle e0 (Hfresh _)) as Hidle. destruct (enf_load e0) as [loaded e]. cbn in Hidle.
  set (c1 := with_enforcer (with_started c true (threads_ c)) (Some e)).
  assert (forall c2 P, enforcer_ c2 = Some e -> kernel_enforces c2 P) as Hoff
    by (intros; by eapply kernel_enforces_off).
  destruct loaded as [[]|m]; [|intros [= _ <-]; by apply Hoff]. cbv zeta.
  change (Controller.cfg_ c1) with (Controller.cfg_ c).
  destruct (str_empty _); [intros [= _ <-]; by apply Hoff|].
  destruct (from_file read _) as [p|m|w] eqn:Hf; [|intros [= _ <-]; by apply Hoff|done].
  destruct (load_policy file_resolver (Some p) c1) as [l c2] eqn:Hl.
  pose proof (load_policy_kernel p c1 l c2 (from_file_sound _ _ _ Hf) Hl) as Hk.
  destruct l as [u|m]; intros [= <- <-].
  - apply (kernel_enforces_same c2); [done|]. eapply kernel_enforces_weaken; [|exact Hk].
    by intros q [-> Hq].
  - apply (kernel_kept_enforces c1); [apply Hk|by apply Hoff].
Qed.

Lemma start_agrees (create_enforcer : EnforcerConfig -> E) (read : string -> file_read) c r c' :
  (forall cfg, enforcing (enf_status (create_enforcer cfg)) = false) -> started_ c = false ->
  start (J:=J) create_enforcer file_resolver read c = Return (r, c') -> kernel_agrees c'.
Proof using Type*.
  intros Hfresh Hst H. eapply kernel_enforces_weaken; [|by eapply start_kernel]. by intros q (_ & _ & _ & Hq).
Qed.

(** What the kernel is to enforce while a call is at [l]: the policy it has
    put there, or else the current one. *)
Definition loader_kernel (l : loader) c : Prop :=
  match loader_applied l with
  | Some p => kernel_enforces c (fun q => q = p)
  | None => kernel_agrees c
  end.

Lemma load_apply_kernel (po : option Policy) c l c' :
  load_apply file_resolver po c = (l, c') -> loader_wf (LoadCalled po) ->
  (exists r, l = LoadReturned r /\ kernel_kept c c' /\ policy_manager_ c' = policy_manager_ c) \/
  exists p k, l = LoadApplied p k /\ kernel_enforces c' (fun q => q = p).
Proof using EnforcerLaws0.
  intros Hl Hwf. apply load_apply_cases in Hl as [(m & -> & Hk & Hc)|(p & k & Hp & Hv & Hc & -> & He)].
  - left. exists (Err m). split_and!; [done|done|]. by destruct Hc as [->|(k & e & _ & ->)].
  - right. exists p, k. split; [done|]. intros e1 He1 Henf.
    destruct He as [[-> Hno]|(e & e' & _ & Ha & ->)]; [congruence|].
    exists p. split; [done|]. injection He1 as ->. by apply (apply_enforces p k e), Henf; [apply Hwf|..].
Qed.

(** Any call, whatever the others do, keeps an accepted policy in the kernel. *)
Lemma load_advance_accepted l c l' c' :
  loader_wf l -> load_advance file_resolver l c = (l', c') -> kernel_accepted c -> kernel_accepted c'.
Proof using EnforcerLaws0.
  intros Hl Ha Hk. destruct l as [po|p k|p|r]; cbn [load_advance] in Ha.
  - destruct (load_apply_kernel po c l' c' Ha Hl) as [(r & _ & Hkept & _)|(p & k & _ & Hp)].
    + by apply (kernel_kept_enforces c).
    + by apply kernel_enforces_accepted in Hp.
  - injection Ha as <- <-. by apply (kernel_enforces_same c).
  - destruct (manager_install _ _) as [r m]. injection Ha as <- <-. by apply (kernel_enforces_same c).
  - by injection Ha as <- <-.
Qed.

(** A call that is not overlapped by another one. *)
Lemma load_advance_kernel l c l' c' :
  loader_wf l -> load_advance file_resolver l c = (l', c') -> loader_kernel l c -> loader_kernel l' c'.
Proof using EnforcerLaws0.
  intros Hl Ha. destruct l as [po|p k|p|r]; cbn [load_advance] in Ha; unfold loader_kernel at 1; cbn [loader_applied]; intros Hk.
  - destruct (load_apply_kernel po c l' c' Ha Hl) as [(r & -> & Hkept & Hm)|(p & k & -> & Hp)]; [|done].
    unfold loader_kernel, kernel_agrees. cbn. rewrite Hm. by apply (kernel_kept_enforces c).
  - injection Ha as <- <-. by apply (kernel_enforces_same c).
  - destruct Hl as [Hex _]. unfold manager_install in Ha.
    rewrite (proj2 (validate_iff_wf p) (ex_wf p Hex)) in Ha. injection Ha as <- <-.
    apply (kernel_enforces_same c); [done|]. eapply kernel_enforces_weaken; [|exact Hk]. by intros q ->.
  - by injection Ha as <- <-.
Qed.
End Agrees.

Section LoadWf.
Context {E : Type} `{!IEnforcer E} `{!EnforcerLaws E} {J : Type} `{!Json J} `{!JsonLaws J} {Cl : Type}.
Context `{!EventStreamClient Cl} `{!EventStreamClientWf Cl}.
Context (file_resolver : FileResolver).
Implicit Types (c : Controller E Cl) (l : loader).

Lemma load_advance_wf l c l' c' :
  loader_wf file_resolver l -> load_advance file_resolver l c = (l', c') ->
  controller_wf file_resolver c -> controller_wf file_resolver c'.
Proof using Type.
  intros Hl Ha Hwf. destruct l as [po|p k|p|r]; cbn [load_advance] in Ha.
  - unfold load_apply in Ha. destruct po as [p|]; [|by injection Ha as <- <-].
    destruct (validate p); [|by injection Ha as <- <-].
    destruct (compile file_resolver p) as [k|]; [|by injection Ha as <- <-].
    destruct (enforcer_ c) as [e|]; [|by injection Ha as <- <-].
    destruct (enf_apply_policy k e) as [[u|m] e']; injection Ha as <- <-; by apply with_enforcer_wf.
  - injection Ha as <- <-. destruct Hl as [Hex Hc], Hwf as [[] ? ?]. split; [split|done..]; cbn; try done.
    intros r [= <-]. exists p, k. by rewrite (proj2 (validate_iff_wf p) (ex_wf p Hex)).
  - destruct Hl as [Hex _]. unfold manager_install in Ha.
    pose proof (proj2 (validate_iff_wf p) (ex_wf p Hex)) as Hv. rewrite Hv in Ha. injection Ha as <- <-.
    destruct Hwf as [[] ? ?]. split; [split|done..]; cbn; try done. by intros q [= <-].
  - by injection Ha as <- <-.
Qed.
End LoadWf.
