(* ===== verification/Server.v ===== *)
(** * The server as one system

    The threads of `guardctl serve` (src/cli.cpp, run_serve) and of the daemon
    (src/daemon.cpp): the main thread, the thread that runs Daemon::run, the
    server thread that accepts connections, one detached thread for each
    connection, the two threads of the controller and the writer threads of
    the stream clients.  A step is one thread's next access to the shared
    state, with the operations of Daemon.v and Controller.v; any thread can go
    next.  A load_policy request is cut at the critical sections of
    Controller::load_policy (LoadSteps.v), so the loads of two connections can
    overlap.  What happens inside the operations of the event pipeline when
    they overlap is the subject of Pipeline.v, and the streaming mode cut at
    its accesses to the client objects and descriptors that of Connections.v;
    here they are one step.

    The loops that poll with a timeout take a step only when they see
    something: a turn that times out changes nothing. *)

From S2P Require Import Prelude FileId Policy PolicyCompiler SpscQueue SecurityEvent Enforcer Json ConfigParser EventSink Controller LoadSteps Daemon.

Local Open Scope Z_scope.

(** ** The threads *)

(** run_serve after it has started the run thread. *)
Inductive main_at :=
| MainWaiting            (* while (!done && g_signal == 0) cv.wait_for(...) *)
| MainLeft               (* the loop has ended *)
| MainJoining            (* run_thread.join() *)
| MainReturned (rc : Z). (* the daemon is destroyed *)

(** Daemon::run. *)
Inductive run_at :=
| RunStarting
| RunServing             (* while (running_) sleep *)
| RunJoining             (* the server thread has been asked to stop *)
| RunStopping            (* the server thread is joined *)
| RunReturned (r : ResultVoid).

(** The server thread. *)
Inductive accept_at :=
| AcceptNone             (* not started *)
| AcceptTop              (* while (!st.stop_requested()) *)
| AcceptPolling          (* poll, accept *)
| AcceptEnded.

(** The thread of one connection. *)
Inductive conn_at :=
| ConnLoop (buf : string)                         (* while (running_) of handle_client *)
| ConnLines (lines : list string) (buf : string)  (* the lines of one chunk *)
| ConnLoading (l : loader) (lines : list string) (buf : string) (* inside load_policy *)
| ConnEntering                                    (* enter_stream_mode is called *)
| ConnStreaming                                   (* its waiting loop *)
| ConnEnded.

Section Server.
Context {E : Type} `{!IEnforcer E} {J : Type} `{!Json J}.
Context (file_resolver : FileResolver) (read : string -> file_read) (put_time : Z -> string).
Context (create_enforcer : EnforcerConfig -> E) (strerror : Z -> string) (env : run_env).

(** The connections are numbered in the order they are accepted; the number is
    the identity of the stream client the connection can turn into. *)
Record server := MkServer {
  dmn : Daemon E;
  main_thread : main_at;
  run_thread : run_at;
  accept_thread : accept_at;
  conns : list (Z * conn_at);   (* descriptor and position *)
  g_signal : Z;
  calls : list sys_call;
}.

Definition server_init (d : Daemon E) : server := MkServer d MainWaiting RunStarting AcceptNone [] 0 [].

Definition set_dmn (s : server) (d : Daemon E) : server :=
  MkServer d (main_thread s) (run_thread s) (accept_thread s) (conns s) (g_signal s) (calls s).
Definition set_main (s : server) (m : main_at) (d : Daemon E) : server :=
  MkServer d m (run_thread s) (accept_thread s) (conns s) (g_signal s) (calls s).
Definition set_run (s : server) (r : run_at) (d : Daemon E) (cs : list sys_call) : server :=
  MkServer d (main_thread s) r (accept_thread s) (conns s) (g_signal s) (calls s ++ cs).
Definition set_accept (s : server) (a : accept_at) (cs : list sys_call) : server :=
  MkServer (dmn s) (main_thread s) (run_thread s) a (conns s) (g_signal s) (calls s ++ cs).
Definition set_conn (s : server) (id : nat) (fd : Z) (at_ : conn_at) (d : Daemon E) : server :=
  MkServer d (main_thread s) (run_thread s) (accept_thread s) (<[id := (fd, at_)]> (conns s))
    (g_signal s) (calls s).

Definition run_done (s : server) : bool :=
  match run_thread s with RunReturned _ => true | _ => false end.
Definition main_returned (s : server) : bool :=
  match main_thread s with MainReturned _ => true | _ => false end.
Definition stop_requested (s : server) : bool :=
  match run_thread s with RunStarting | RunServing => false | _ => true end.

(** The calls of load_policy that have not returned. *)
Definition conn_load (x : Z * conn_at) : option loader :=
  match x.2 with
  | ConnLoading l _ _ => if load_returned l then None else Some l
  | _ => None
  end.
Definition loads_in_flight (s : server) : list loader := omap conn_load (conns s).

Definition serve_rc (r : ResultVoid) : Z := match r with Ok _ => 0 | Err _ => 1 end.

(** The main thread. *)
Inductive main_step (s : server) : server -> Prop :=
| main_leave :
   main_thread s = MainWaiting -> run_done s = true \/ g_signal s <> 0 ->
   main_step s (set_main s MainLeft (dmn s))
| main_stop :
   main_thread s = MainLeft ->
   main_step s (set_main s MainJoining (if g_signal s =? 0 then dmn s else (daemon_stop (dmn s)).2))
| main_join r d :
   main_thread s = MainJoining -> run_thread s = RunReturned r ->
   daemon_destroy (J:=J) (dmn s) = Return d ->
   main_step s (set_main s (MainReturned (serve_rc r)) d).

(** Daemon::run; it starts the server thread. *)
Inductive run_step (s : server) : server -> Prop :=
| run_starts d cs :
   run_thread s = RunStarting ->
   run_start (J:=J) file_resolver strerror create_enforcer read env (dmn s) = Return (ok_v, d, cs) ->
   run_step s (set_accept (set_run s RunServing d cs) AcceptTop [])
| run_fails m d cs :
   run_thread s = RunStarting ->
   run_start (J:=J) file_resolver strerror create_enforcer read env (dmn s) = Return (Err m, d, cs) ->
   run_step s (set_run s (RunReturned (Err m)) d cs)
| run_leaves :
   run_thread s = RunServing -> running_ (dmn s) = false ->
   run_step s (set_run s RunJoining (dmn s) [])
| run_joins :
   run_thread s = RunJoining -> accept_thread s = AcceptEnded ->
   run_step s (set_run s RunStopping (dmn s) [])
| run_finishes r d cs :
   run_thread s = RunStopping -> run_finish (J:=J) (dmn s) = Return (r, d, cs) ->
   run_step s (set_run s (RunReturned r) d cs).

(** The server thread. *)
Inductive accept_step (s : server) : server -> Prop :=
| accept_polls :
   accept_thread s = AcceptTop -> stop_requested s = false ->
   accept_step s (set_accept s AcceptPolling [])
| accept_stops :
   accept_thread s = AcceptTop -> stop_requested s = true ->
   accept_step s (set_accept s AcceptEnded (accept_close (dmn s)))
| accept_continues ev :
   accept_thread s = AcceptPolling -> accept_turn ev = AcceptContinue ->
   accept_step s (set_accept s AcceptTop [])
| accept_breaks ev :
   accept_thread s = AcceptPolling -> accept_turn ev = AcceptBreak ->
   accept_step s (set_accept s AcceptEnded (accept_close (dmn s)))
| accept_client ev fd :
   accept_thread s = AcceptPolling -> accept_turn ev = AcceptClient fd -> 0 <= fd ->
   accept_step s (MkServer (dmn s) (main_thread s) (run_thread s) AcceptTop
                    (conns s ++ [(fd, ConnLoop "")]) (g_signal s) (calls s)).

(** The thread of a connection, while the daemon exists. *)
Inductive conn_step (s : server) : server -> Prop :=
| conn_receives id fd buf chunk lines buf' :
   conns s !! id = Some (fd, ConnLoop buf) -> running_ (dmn s) = true ->
   frame buf chunk = (lines, buf') ->
   conn_step s (set_conn s id fd (ConnLines lines buf') (dmn s))
| conn_closes id fd buf :
   (* running_ is cleared, poll fails or recv ends *)
   conns s !! id = Some (fd, ConnLoop buf) ->
   conn_step s (set_conn s id fd ConnEnded (dmn s))
| conn_no_line id fd buf :
   conns s !! id = Some (fd, ConnLines [] buf) ->
   conn_step s (set_conn s id fd (ConnLoop buf) (dmn s))
| conn_line id fd line lines buf go_on d out :
   conns s !! id = Some (fd, ConnLines (line :: lines) buf) -> load_request (J:=J) line = None ->
   handle_line file_resolver line (dmn s) = Return (go_on, d, out) ->
   conn_step s (set_conn s id fd (if go_on then ConnLines lines buf else ConnEntering) d)
| conn_loads id fd line lines buf p :
   (* handle_request calls load_policy *)
   conns s !! id = Some (fd, ConnLines (line :: lines) buf) -> load_request (J:=J) line = Some p ->
   conn_step s (set_conn s id fd (ConnLoading (LoadCalled (Some p)) lines buf) (dmn s))
| conn_load_goes id fd l lines buf l' c :
   (* its next critical section *)
   conns s !! id = Some (fd, ConnLoading l lines buf) -> load_returned l = false ->
   load_advance file_resolver l (controller_ (dmn s)) = (l', c) ->
   conn_step s (set_conn s id fd (ConnLoading l' lines buf) (with_controller (dmn s) c))
| conn_load_replies id fd r lines buf text :
   conns s !! id = Some (fd, ConnLoading (LoadReturned r) lines buf) ->
   json_dump (J:=J) (load_reply r (policy_manager_ (controller_ (dmn s)))) = Return text ->
   conn_step s (set_conn s id fd (ConnLines lines buf) (dmn s))
| conn_enters id fd d :
   conns s !! id = Some (fd, ConnEntering) -> stream_enter id fd (dmn s) = Return d ->
   conn_step s (set_conn s id fd ConnStreaming d)
| conn_leaves id fd :
   (* running_ is cleared, poll fails or the client leaves *)
   conns s !! id = Some (fd, ConnStreaming) ->
   conn_step s (set_conn s id fd ConnEnded (stream_leave id fd (dmn s)).1).

(** The controller's threads and the writers of the stream clients. *)
Inductive event_step (s : server) : server -> Prop :=
| event_emitted raw c :
   threads_ (controller_ (dmn s)) = true ->
   emit_event put_time (controller_ (dmn s)) raw = Some c ->
   event_step s (set_dmn s (with_controller (dmn s) c))
| event_delivered ev q c :
   threads_ (controller_ (dmn s)) = true ->
   queue_pop (queue_ (controller_ (dmn s))) = Some (Some ev, q) ->
   deliver (J:=J) (with_queue (controller_ (dmn s)) q) ev = Return c ->
   event_step s (set_dmn s (with_controller (dmn s) c))
| event_sent k id cl sends out cl' returned :
   clients_ (controller_ (dmn s)) !! k = Some (id, cl) ->
   writer_loop 1 sends cl = (out, cl', returned) ->
   event_step s (set_dmn s (with_controller (dmn s)
     (with_outputs (controller_ (dmn s)) (sinks_ (controller_ (dmn s)))
        (<[k := (id, cl')]> (clients_ (controller_ (dmn s))))))).

(** signal_handler *)
Inductive signal_step (s : server) : server -> Prop :=
| signal_arrives sig :
   sig <> 0 ->
   signal_step s (MkServer (dmn s) (main_thread s) (run_thread s) (accept_thread s) (conns s) sig (calls s)).

Definition service_step (s s' : server) : Prop := main_step s s' \/ run_step s s' \/ accept_step s s'.
Definition other_step (s s' : server) : Prop := conn_step s s' \/ event_step s s' \/ signal_step s s'.

(** Once run_serve has returned there is no daemon to step. *)
Definition server_step (s s' : server) : Prop :=
  main_returned s = false /\ (service_step s s' \/ other_step s s').

(** The error state of the life cycle: the Daemon object is destroyed, and the
    detached thread of a connection is still there, whose next access (to
    [running_], the controller or a mutex) is to that object. *)
Definition conn_alive (x : Z * conn_at) : bool := match x.2 with ConnEnded => false | _ => true end.
Definition uses_destroyed_daemon (s : server) : bool := main_returned s && existsb conn_alive (conns s).

(** An exception that leaves a thread: std::terminate ends the process. *)
Inductive server_throws (s : server) (w : string) : Prop :=
| throws_start :
   run_thread s = RunStarting ->
   run_start (J:=J) file_resolver strerror create_enforcer read env (dmn s) = Throw w ->
   server_throws s w
| throws_finish :
   run_thread s = RunStopping -> run_finish (J:=J) (dmn s) = Throw w -> server_throws s w
| throws_destroy :
   main_thread s = MainJoining -> run_done s = true -> daemon_destroy (J:=J) (dmn s) = Throw w ->
   server_throws s w
| throws_line id fd line lines buf :
   conns s !! id = Some (fd, ConnLines (line :: lines) buf) -> load_request (J:=J) line = None ->
   handle_line file_resolver line (dmn s) = Throw w -> server_throws s w
| throws_load_reply id fd r lines buf :
   conns s !! id = Some (fd, ConnLoading (LoadReturned r) lines buf) ->
   json_dump (J:=J) (load_reply r (policy_manager_ (controller_ (dmn s)))) = Throw w -> server_throws s w
| throws_deliver ev q :
   threads_ (controller_ (dmn s)) = true ->
   queue_pop (queue_ (controller_ (dmn s))) = Some (Some ev, q) ->
   deliver (J:=J) (with_queue (controller_ (dmn s)) q) ev = Throw w ->
   server_throws s w.
End Server.
Arguments server E : clear implicits.
