(* ===== verification/ServerProperties.v ===== *)
(** * Properties of the running server

    The invariant of Server.v's step system, and what it gives: the daemon's
    state stays well-formed whatever the threads do, nothing is left behind
    when `guardctl serve` returns, and once [running_] is cleared the service
    threads come to their end.  Two behaviours that the code does not mean to
    have are shown reachable. *)

From stdpp Require Import relations.
From S2P Require Import Prelude FileId Policy PolicyCompiler SpscQueue SecurityEvent Enforcer Json ConfigParser EventSink Controller LoadSteps.
From S2P Require Import Daemon DaemonProperties ControllerInvariant Server.

Local Open Scope Z_scope.

(** ** What the calls of the daemon hold *)

(** The listening socket, its file and the pid file, after some calls. *)
Record held := MkHeld { held_listen : bool; held_socket : bool; held_pid : bool }.

Definition held_after (cfg : DaemonConfig) (h : held) (c : sys_call) : held :=
  match c with
  | CallBind _ => MkHeld true (held_socket h) (held_pid h)
  | CallListen => MkHeld (held_listen h) true (held_pid h)
  | CallWritePid _ => MkHeld (held_listen h) (held_socket h) true
  | CallCloseListen => MkHeld false (held_socket h) (held_pid h)
  | CallUnlink path =>
     MkHeld (held_listen h) (held_socket h && negb (String.eqb path (dcfg_socket_path cfg)))
       (held_pid h && negb (String.eqb path (dcfg_pid_file cfg)))
  | _ => h
  end.
Definition holds (cfg : DaemonConfig) (cs : list sys_call) : held :=
  fold_left (held_after cfg) cs (MkHeld false false false).
Definition nothing_held : held := MkHeld false false false.

Lemma holds_app cfg cs1 cs2 : holds cfg (cs1 ++ cs2) = fold_left (held_after cfg) cs2 (holds cfg cs1).
Proof. apply fold_left_app. Qed.

Section Daemon.
Context {E : Type} `{!IEnforcer E} `{!EnforcerLaws E} {J : Type} `{!Json J} `{!JsonLaws J}.
Context (file_resolver : FileResolver) (read : string -> file_read).
Context (create_enforcer : EnforcerConfig -> E) (strerror : Z -> string) (env : run_env).
Context (Hfresh : forall cfg, enforcing (enf_status (create_enforcer cfg)) = false).
Implicit Types (d : Daemon E) (c : Controller E SocketStreamClient).

Abbreviation ctl_wf := (controller_wf (E:=E) (Cl:=SocketStreamClient) file_resolver).

(** A stopped controller enforces nothing. *)
Definition backend_off c : Prop :=
  started_ c = false -> match enforcer_ c with None => True | Some e => detached e end.

Lemma backend_off_status c :
  backend_off c -> started_ c = false ->
  enforcing (controller_status c) = false /\ attached (controller_status c) = false.
Proof using Type.
  intros Hoff Hs. specialize (Hoff Hs). unfold controller_status. destruct (enforcer_ c); [|done].
  by apply detached_off.
Qed.

Lemma backend_off_enforces c (P : Policy -> Prop) :
  backend_off c -> started_ c = false -> kernel_enforces file_resolver c P.
Proof using Type.
  intros Hoff Hs e He Henf. specialize (Hoff Hs). rewrite He in Hoff. destruct (detached_off e Hoff). congruence.
Qed.

Lemma load_advance_backend_off (l l' : loader) c c' :
  load_advance file_resolver l c = (l', c') -> backend_off c -> backend_off c'.
Proof using Type.
  intros Ha Hoff Hs. destruct (load_advance_fields file_resolver l c l' c' Ha) as (_ & _ & _ & Hst & _ & He).
  rewrite Hst in Hs. specialize (Hoff Hs). destruct He as [->|(k & e & He & ->)]; [done|].
  rewrite He in Hoff. by apply detached_apply.
Qed.

Lemma outputs_change_backend_off c c' : outputs_change c c' -> backend_off c -> backend_off c'.
Proof using Type. intros [E1 _ _ E2 _ _]. unfold backend_off. by rewrite E1, E2. Qed.

Lemma request_stop_backend_off c r c' :
  ctl_wf c -> backend_off c ->
  request_stop (J:=J) c = Return (r, c') ->
  ctl_wf c' /\ backend_off c' /\ r = ok_v /\ started_ c' = false /\
  (clients_ c').*1 `sublist_of` (clients_ c).*1.
Proof using Type.
  intros Hwf Hoff Hr.
  destruct (request_stop_wf file_resolver c r c' Hwf Hr) as (W & S1 & S2 & S3 & H).
  destruct (started_ c) eqn:Hs.
  - destruct H as (e & He & He' & ->). split_and!; [done| |apply detach_ok|done|done].
    intros _. rewrite He'. apply detach_detached.
  - destruct H as [-> ->]. done.
Qed.

(** run_start: on success the server runs over a started controller, on
    failure it does not and holds nothing. *)
Lemma run_start_result d r d' cs :
  run_start (J:=J) file_resolver strerror create_enforcer read env d = Return (r, d', cs) ->
  ctl_wf (controller_ d) -> started_ (controller_ d) = false -> stop_ (queue_ (controller_ d)) = false ->
  backend_off (controller_ d) -> kernel_accepted file_resolver (controller_ d) -> running_ d = false ->
  ctl_wf (controller_ d') /\ backend_off (controller_ d') /\ kernel_accepted file_resolver (controller_ d') /\
  clients_ (controller_ d') = clients_ (controller_ d) /\
  dmn_cfg d' = dmn_cfg d /\ stream_clients_ d' = stream_clients_ d /\
  match r with
  | Ok _ => running_ d' = true /\ started_ (controller_ d') = true
  | Err _ => running_ d' = false /\ holds (dmn_cfg d) cs = nothing_held
  end.
Proof using Hfresh JsonLaws0.
  intros H Hwf Hs Hq Hoff Hag Hrun. unfold run_start in H.
  destruct (_ <=? _)%nat; [by simplify_eq|].
  destruct (socket_errno env) as [e|].
  { simplify_eq. by rewrite Hrun. }
  destruct (bind_errno env) as [e|].
  { simplify_eq. by rewrite Hrun. }
  destruct (listen_errno env) as [e|].
  { simplify_eq. split_and!; try done. unfold holds. cbn. by rewrite String.eqb_refl. }
  apply outcome_bind_Return in H as ([started c] & Hst & H).
  destruct (start_wf file_resolver create_enforcer read _ _ _ Hwf Hs Hq Hst)
    as (W & S1 & S2 & S3).
  assert (backend_off c) as Hoff' by (intros ?; congruence).
  pose proof (kernel_enforces_accepted _ _ _ (start_agrees file_resolver create_enforcer read _ _ _ Hfresh Hs Hst)) as Hag'.
  destruct started as [u|m]; injection H as <- <- <-; cbn; split_and!; try done.
  unfold holds. destruct (str_empty (dcfg_pid_file (dmn_cfg d))); cbn.
  - by rewrite String.eqb_refl.
  - destruct (pid_file_opens env); cbn; rewrite !String.eqb_refl; cbn; by rewrite ?andb_false_r.
Qed.
End Daemon.

#[local] Arguments holds : simpl never.

(** ** The invariant *)
Section Invariant.
Context {E : Type} `{!IEnforcer E} `{!EnforcerLaws E} {J : Type} `{!Json J} `{!JsonLaws J}.
Context (file_resolver : FileResolver) (read : string -> file_read) (put_time : Z -> string).
Context (create_enforcer : EnforcerConfig -> E) (strerror : Z -> string) (env : run_env).
Context (Hfresh : forall cfg, enforcing (enf_status (create_enforcer cfg)) = false).
Context (cfg : DaemonConfig).
Implicit Types (d : Daemon E) (c : Controller E SocketStreamClient) (s : server E).

Abbreviation ctl_wf := (controller_wf (E:=E) (Cl:=SocketStreamClient) file_resolver).

(** The identities [ids] are those of different streaming connections. *)
Definition streaming_ids (conns : list (Z * conn_at)) (ids : list nat) : Prop :=
  NoDup ids /\ forall id, id ∈ ids -> exists fd, conns !! id = Some (fd, ConnStreaming).

Record daemon_wf (conns : list (Z * conn_at)) d : Prop := {
  dw_cfg : dmn_cfg d = cfg;
  dw_controller : ctl_wf (controller_ d);
  dw_backend : backend_off (controller_ d);
  dw_kernel : kernel_accepted file_resolver (controller_ d);
  dw_clients : streaming_ids conns (clients_ (controller_ d)).*1;
  dw_streams : streaming_ids conns (stream_clients_ d);
}.

Definition run_ok s : Prop :=
  match run_thread s with
  | RunStarting => accept_thread s = AcceptNone /\ calls s = [] /\
      started_ (controller_ (dmn s)) = false /\ stop_ (queue_ (controller_ (dmn s))) = false /\
      clients_ (controller_ (dmn s)) = []
  | RunServing => accept_thread s <> AcceptNone /\ started_ (controller_ (dmn s)) = true
  | RunJoining => accept_thread s <> AcceptNone /\ started_ (controller_ (dmn s)) = true
  | RunStopping => accept_thread s = AcceptEnded /\ started_ (controller_ (dmn s)) = true
  | RunReturned r =>
     (accept_thread s = AcceptNone \/ accept_thread s = AcceptEnded) /\
     holds cfg (calls s) = nothing_held /\
     (r = ok_v -> started_ (controller_ (dmn s)) = false)
  end.

(** What a connection's thread holds: its socket, and the load it is in. *)
Definition at_ok (at_ : conn_at) : Prop :=
  match at_ with ConnLoading l _ _ => loader_wf file_resolver l | _ => True end.
Definition conn_ok (x : Z * conn_at) : Prop := 0 <= x.1 /\ at_ok x.2.

Record server_inv s : Prop := {
  si_daemon : daemon_wf (conns s) (dmn s);
  si_conn_ok : Forall conn_ok (conns s);
  si_running : running_ (dmn s) = true -> run_thread s = RunServing;
  si_run : run_ok s;
  si_conns : accept_thread s = AcceptNone -> conns s = [];
  si_closed : accept_thread s = AcceptEnded ->
    held_listen (holds cfg (calls s)) = false /\ held_socket (holds cfg (calls s)) = false;
  si_main : forall rc, main_thread s = MainReturned rc ->
    started_ (controller_ (dmn s)) = false /\ exists r, run_thread s = RunReturned r /\ rc = serve_rc r;
}.

Lemma streaming_ids_nil conns : streaming_ids conns [].
Proof using Type. split; [constructor|by intros id ?%elem_of_nil]. Qed.

Lemma streaming_ids_sublist conns ids ids' :
  streaming_ids conns ids -> ids' `sublist_of` ids -> streaming_ids conns ids'.
Proof using Type.
  intros [Hn Hi] Hs. split; [by eapply sublist_NoDup|]. intros id Hid. apply Hi. by eapply elem_of_sublist.
Qed.

(** Moving a connection that is not streaming. *)
Lemma streaming_ids_insert conns ids id fd at_ at_' :
  streaming_ids conns ids -> conns !! id = Some (fd, at_) -> at_ <> ConnStreaming ->
  streaming_ids (<[id := (fd, at_')]> conns) ids.
Proof using Type.
  intros [Hn Hi] Hid Hat. split; [done|]. intros id' Hid'. destruct (Hi id' Hid') as [fd' Hfd'].
  exists fd'. rewrite list_lookup_insert_ne; [done|]. intros ->. congruence.
Qed.

Lemma streaming_ids_app conns ids x : streaming_ids conns ids -> streaming_ids (conns ++ [x]) ids.
Proof using Type.
  intros [Hn Hi]. split; [done|]. intros id Hid. destruct (Hi id Hid) as [fd Hfd]. exists fd. by apply lookup_app_l_Some.
Qed.

Lemma sublist_Forall {A : Type} (P : A -> Prop) (l k : list A) :
  l `sublist_of` k -> Forall P k -> Forall P l.
Proof using Type.
  intros Hs. rewrite !Forall_forall. intros Hk x Hx. apply Hk. by eapply elem_of_sublist.
Qed.

(** Registering the connection that starts to stream, and unregistering it. *)
Lemma streaming_ids_enter conns ids id fd :
  streaming_ids conns ids -> conns !! id = Some (fd, ConnEntering) ->
  streaming_ids (<[id := (fd, ConnStreaming)]> conns) (ids ++ [id]).
Proof using Type.
  intros Hs Hid. pose proof Hs as [Hn Hi]. assert (id ∉ ids) as Hnot.
  { intros Hin. destruct (Hi id Hin). congruence. }
  split; [apply NoDup_app; split_and!; [done|by intros x Hx ->%list_elem_of_singleton|apply NoDup_singleton]|].
  intros id' [Hin| ->%list_elem_of_singleton]%elem_of_app.
  - by apply (streaming_ids_insert conns ids id fd ConnEntering).
  - exists fd. apply list_lookup_insert_eq. by eapply lookup_lt_Some.
Qed.

Lemma streaming_ids_leave conns ids ids' id fd :
  streaming_ids conns ids -> ids' `sublist_of` ids -> id ∉ ids' ->
  streaming_ids (<[id := (fd, ConnEnded)]> conns) ids'.
Proof using Type.
  intros Hs Hsub Hnot. destruct (streaming_ids_sublist _ _ _ Hs Hsub) as [Hn Hi]. split; [done|].
  intros id' Hid'. destruct (Hi id' Hid') as [fd' Hfd']. exists fd'. rewrite list_lookup_insert_ne; [done|].
  by intros ->.
Qed.

(** A step that changes the daemon and the connections only. *)
Lemma daemon_change_inv s conns' d' sig :
  server_inv s -> run_thread s <> RunStarting -> main_returned s = false ->
  daemon_wf conns' d' -> Forall conn_ok conns' ->
  started_ (controller_ d') = started_ (controller_ (dmn s)) ->
  (running_ d' = true -> running_ (dmn s) = true) ->
  (accept_thread s = AcceptNone -> conns' = []) ->
  server_inv (MkServer d' (main_thread s) (run_thread s) (accept_thread s) conns' sig (calls s)).
Proof using Type.
  intros [? ? ? Hrun ? ? ?] Hns Hmain Hd Hf Hst Hr Hc. split; cbn; try done.
  - by intros ?%Hr; auto.
  - unfold run_ok in *. cbn. by destruct (run_thread s); rewrite ?Hst.
  - intros rc Hm. unfold main_returned in Hmain. by rewrite Hm in Hmain.
Qed.

Lemma conn_not_starting s id x : server_inv s -> conns s !! id = Some x -> run_thread s <> RunStarting.
Proof using Type.
  intros Hi Hid Hr. pose proof (si_run _ Hi) as Hrun. unfold run_ok in Hrun. rewrite Hr in Hrun.
  rewrite (si_conns _ Hi) in Hid by apply Hrun. done.
Qed.

Lemma conn_live s id x : server_inv s -> conns s !! id = Some x -> accept_thread s <> AcceptNone.
Proof using Type. intros Hi Hid Ha. by rewrite (si_conns _ Hi Ha) in Hid. Qed.

Lemma insert_conn_ok conns id fd (at_ at_' : conn_at) :
  Forall conn_ok conns -> conns !! id = Some (fd, at_) -> at_ok at_' -> Forall conn_ok (<[id := (fd, at_')]> conns).
Proof using Type. intros Hf Hid Hat. apply Forall_insert; [done|]. split; [|done]. apply (Forall_lookup_1 _ _ _ _ Hf Hid). Qed.

Lemma daemon_wf_move conns d id fd at_ at_' :
  daemon_wf conns d -> conns !! id = Some (fd, at_) -> at_ <> ConnStreaming ->
  daemon_wf (<[id := (fd, at_')]> conns) d.
Proof using Type. intros [] Hid Hat. split; [done..| |]; by eapply streaming_ids_insert. Qed.

Lemma with_running_wf conns d b : daemon_wf conns d -> daemon_wf conns (with_running d b).
Proof using Type. by intros []. Qed.

Lemma load_advance_daemon_wf conns d (l l' : loader) c :
  daemon_wf conns d -> loader_wf file_resolver l -> load_advance file_resolver l (controller_ d) = (l', c) ->
  daemon_wf conns (with_controller d c) /\ started_ c = started_ (controller_ d).
Proof using Type.
  intros [? Hc Hb Hk Hcl ?] Hl Ha.
  destruct (load_advance_fields file_resolver l _ l' c Ha) as (_ & _ & E3 & E4 & _). split; [|done].
  split; cbn [controller_ with_controller dmn_cfg stream_clients_]; [done| | | | |done].
  - by apply (load_advance_wf file_resolver l (controller_ d) l').
  - by apply (load_advance_backend_off file_resolver l l' (controller_ d)).
  - by apply (load_advance_accepted file_resolver l (controller_ d) l').
  - by rewrite E3.
Qed.

Lemma stream_enter_wf conns d d' id fd :
  daemon_wf conns d -> conns !! id = Some (fd, ConnEntering) -> stream_enter id fd d = Return d' ->
  daemon_wf (<[id := (fd, ConnStreaming)]> conns) d' /\
  started_ (controller_ d') = started_ (controller_ d) /\ running_ d' = running_ d.
Proof using Type.
  intros [] Hid (cl & Hcl & [= <-])%outcome_bind_Return. split; [|done]. split; cbn; [done| |done|done| |].
  - apply with_outputs_wf; [done|]. rewrite fmap_app. apply Forall_app. split; [apply dw_controller0|].
    apply Forall_singleton. by eapply stream_create_wf.
  - rewrite fmap_app. by apply streaming_ids_enter.
  - by apply streaming_ids_enter.
Qed.

Lemma stream_leave_wf conns d id fd :
  daemon_wf conns d ->
  let d' := (stream_leave id fd d).1 in
  daemon_wf (<[id := (fd, ConnEnded)]> conns) d' /\
  started_ (controller_ d') = started_ (controller_ d) /\ running_ d' = running_ d.
Proof using Type.
  intros [] d'. split; [|done].
  assert ((filter (fun p : nat * SocketStreamClient => p.1 <> id) (clients_ (controller_ d))).*1
    `sublist_of` (clients_ (controller_ d)).*1) as Hsub by apply fmap_sublist, sublist_filter.
  split; cbn; [done| |done|done| |].
  - apply with_outputs_wf; [done|]. eapply sublist_Forall; [|apply dw_controller0].
    apply fmap_sublist, sublist_filter.
  - refine (streaming_ids_leave _ _ _ id fd dw_clients0 Hsub _).
    by intros ((i & cl) & -> & [? ?]%list_elem_of_filter)%list_elem_of_fmap.
  - refine (streaming_ids_leave _ _ _ id fd dw_streams0 (sublist_filter _ _) _). by intros [? ?]%list_elem_of_filter.
Qed.

Lemma set_conn_inv s id fd at_ at_' d' :
  server_inv s -> main_returned s = false -> conns s !! id = Some (fd, at_) ->
  at_ok at_' -> daemon_wf (<[id := (fd, at_')]> (conns s)) d' ->
  started_ (controller_ d') = started_ (controller_ (dmn s)) ->
  (running_ d' = true -> running_ (dmn s) = true) ->
  server_inv (set_conn s id fd at_' d').
Proof using Type.
  intros Hi Hm Hid Hat Hd Hs Hr. apply daemon_change_inv; try done.
  - by eapply conn_not_starting.
  - by eapply insert_conn_ok; [apply Hi|..].
  - intros ?. by destruct (conn_live _ _ _ Hi Hid).
Qed.

Lemma conn_load_wf s id fd l lines buf :
  server_inv s -> conns s !! id = Some (fd, ConnLoading l lines buf) -> loader_wf file_resolver l.
Proof using Type. intros Hi Hid. apply (Forall_lookup_1 _ _ _ _ (si_conn_ok _ Hi) Hid). Qed.

Lemma conn_step_inv s s' :
  server_inv s -> main_returned s = false -> conn_step (J:=J) file_resolver s s' -> server_inv s'.
Proof using JsonLaws0.
  intros Hi Hm Hstep. pose proof (si_daemon _ Hi) as Hd.
  destruct Hstep as [id fd buf chunk lines buf' Hid|id fd buf Hid|id fd buf Hid
    |id fd line lines buf go_on d out Hid Hreq Hl|id fd line lines buf p Hid Hreq|id fd l lines buf l' c Hid Hret Ha
    |id fd r lines buf text Hid Ht|id fd d Hid He|id fd Hid];
    (eapply set_conn_inv; [done|done|exact Hid| | | |]).
  all: try done.
  all: try by eapply daemon_wf_move.
  - by destruct go_on.
  - destruct (handle_plain_line file_resolver _ _ _ _ _ Hreq Hl) as [->| ->]; eapply daemon_wf_move; try done.
    by apply with_running_wf.
  - by destruct (handle_plain_line file_resolver _ _ _ _ _ Hreq Hl) as [->| ->].
  - by destruct (handle_plain_line file_resolver _ _ _ _ _ Hreq Hl) as [->| ->].
  - intros q [= <-]. by apply (load_request_sound line).
  - eapply load_advance_loader; [by eapply conn_load_wf|exact Ha].
  - eapply daemon_wf_move; [|done|done]. eapply load_advance_daemon_wf; [done|by eapply conn_load_wf|exact Ha].
  - cbn. eapply load_advance_daemon_wf; [done|by eapply conn_load_wf|exact Ha].
  - by destruct (stream_enter_wf _ _ _ _ _ Hd Hid He).
  - by destruct (stream_enter_wf _ _ _ _ _ Hd Hid He) as (_ & ? & _).
  - by destruct (stream_enter_wf _ _ _ _ _ Hd Hid He) as (_ & _ & ->).
  - by destruct (stream_leave_wf _ _ id fd Hd).
Qed.
Lemma outputs_daemon_wf conns d c :
  daemon_wf conns d -> ctl_wf c -> outputs_change (controller_ d) c -> daemon_wf conns (with_controller d c).
Proof using Type.
  intros [] Hc Ho. split; cbn; try done.
  - by eapply outputs_change_backend_off.
  - by apply (kernel_enforces_same file_resolver (controller_ d)); [apply Ho|].
  - by eapply streaming_ids_sublist; [|apply Ho].
Qed.

Lemma starting_idle s :
  server_inv s -> run_thread s = RunStarting ->
  threads_ (controller_ (dmn s)) = false /\ clients_ (controller_ (dmn s)) = [].
Proof using Type.
  intros Hi Hr. pose proof (si_run _ Hi) as Hrun. unfold run_ok in Hrun. rewrite Hr in Hrun.
  destruct Hrun as (_ & _ & Hs & _ & Hc). split; [|done].
  eapply not_started_no_threads; [apply (dw_controller _ _ (si_daemon _ Hi))|done].
Qed.

Lemma event_step_change s s' :
  server_inv s -> event_step (J:=J) put_time s s' ->
  exists c, s' = set_dmn s (with_controller (dmn s) c) /\ ctl_wf c /\
    outputs_change (controller_ (dmn s)) c /\ run_thread s <> RunStarting.
Proof using Type.
  intros Hi Hstep. pose proof (dw_controller _ _ (si_daemon _ Hi)) as Hc.
  destruct Hstep as [raw c Ht He|ev q c Ht Hp Hd|k id cl sends out cl' returned Hk Hw].
  - destruct (emit_event_wf file_resolver put_time _ _ _ Hc He).
    exists c. split_and!; try done. intros Hr. destruct (starting_idle s Hi Hr). congruence.
  - destruct (consume_core file_resolver
      _ _ _ _ (cw_core _ _ Hc) Hp Hd) as [Hcore Ho].
    exists c. split_and!; try done; [by eapply outputs_change_wf|].
    intros Hr. destruct (starting_idle s Hi Hr). congruence.
  - eexists. split; [reflexivity|]. split_and!.
    + apply with_outputs_wf; [done|]. rewrite list_fmap_insert. apply Forall_insert; [apply Hc|].
      eapply writer_loop_wf; [|exact Hw]. pose proof (cw_clients _ _ (cw_core _ _ Hc)) as Hcl.
      refine (Forall_lookup_1 _ _ k cl Hcl _). by rewrite list_lookup_fmap, Hk.
    + split; try done. cbn. rewrite list_fmap_insert, list_insert_id; [done|]. by rewrite list_lookup_fmap, Hk.
    + intros Hr. destruct (starting_idle s Hi Hr) as [_ Hn]. by rewrite Hn in Hk.
Qed.

Lemma event_step_inv s s' :
  server_inv s -> main_returned s = false -> event_step (J:=J) put_time s s' -> server_inv s'.
Proof using Type.
  intros Hi Hm Hstep. destruct (event_step_change s s' Hi Hstep) as (c & -> & Hc & Ho & Hns).
  pose proof Ho as [E1 _ _ _ _ _]. apply daemon_change_inv; try done.
  - by apply outputs_daemon_wf; [apply Hi|..].
  - apply Hi.
  - apply Hi.
Qed.

Lemma signal_step_inv s s' : server_inv s -> signal_step s s' -> server_inv s'.
Proof using Type. intros [] [sig Hsig]. by split. Qed.

(** The server thread. *)
Lemma accept_close_held cs :
  held_listen (holds cfg (cs ++ [CallCloseListen; CallUnlink (dcfg_socket_path cfg)])) = false /\
  held_socket (holds cfg (cs ++ [CallCloseListen; CallUnlink (dcfg_socket_path cfg)])) = false.
Proof using Type. rewrite holds_app. cbn. by rewrite String.eqb_refl, andb_false_r. Qed.

Lemma accept_live_run s :
  server_inv s -> accept_thread s <> AcceptNone -> accept_thread s <> AcceptEnded ->
  run_thread s = RunServing \/ run_thread s = RunJoining.
Proof using Type.
  intros Hi Hn He. pose proof (si_run _ Hi) as Hrun. unfold run_ok in Hrun.
  destruct (run_thread s); naive_solver.
Qed.

Lemma accept_change_inv s a cs conns' :
  server_inv s -> accept_thread s <> AcceptNone -> accept_thread s <> AcceptEnded ->
  a <> AcceptNone -> daemon_wf conns' (dmn s) -> Forall conn_ok conns' ->
  (a = AcceptEnded -> cs = accept_close (dmn s)) ->
  server_inv (MkServer (dmn s) (main_thread s) (run_thread s) a conns' (g_signal s) (calls s ++ cs)).
Proof using Type.
  intros Hi Hn He Ha Hd Hf Hcs. destruct (accept_live_run s Hi Hn He) as [Hr|Hr];
    pose proof (si_run _ Hi) as Hrun; unfold run_ok in Hrun; rewrite Hr in Hrun.
  all: split; cbn; [done|done|apply Hi|unfold run_ok; cbn; rewrite Hr; by destruct Hrun|done| |apply Hi].
  all: intros Hend; rewrite (Hcs Hend); unfold accept_close; rewrite (dw_cfg _ _ Hd); apply accept_close_held.
Qed.

Lemma accept_step_inv s s' : server_inv s -> accept_step s s' -> server_inv s'.
Proof using Type.
  intros Hi Hstep. pose proof (si_daemon _ Hi) as Hd. pose proof (si_conn_ok _ Hi) as Hf.
  destruct Hstep as [Ha Hs|Ha Hs|ev Ha Ht|ev Ha Ht|ev fd Ha Ht Hfd].
  5: { rewrite <- (app_nil_r (calls s)). apply accept_change_inv; rewrite ?Ha; try done.
    - destruct Hd. split; [done..| |]; by apply streaming_ids_app.
    - by apply Forall_app_2; [|apply Forall_singleton; split]. }
  all: apply accept_change_inv; rewrite ?Ha; done.
Qed.

(** The run thread. *)
Lemma run_start_inv s r d cs :
  server_inv s -> main_returned s = false -> run_thread s = RunStarting ->
  run_start (J:=J) file_resolver strerror create_enforcer read env (dmn s) = Return (r, d, cs) ->
  daemon_wf (conns s) d /\ calls s = [] /\ accept_thread s = AcceptNone /\
  match r with
  | Ok _ => running_ d = true /\ started_ (controller_ d) = true
  | Err _ => running_ d = false /\ holds cfg cs = nothing_held
  end.
Proof using Hfresh JsonLaws0.
  intros Hi Hm Hr Hst. pose proof (si_daemon _ Hi) as [Hcfg Hc Hb Hk Hcl Hs].
  pose proof (si_run _ Hi) as Hrun. unfold run_ok in Hrun. rewrite Hr in Hrun.
  destruct Hrun as (Ha & Hcalls & Hstarted & Hstop & Hclients).
  assert (running_ (dmn s) = false) as Hrunning.
  { destruct (running_ (dmn s)) eqn:Hrn; [|done]. pose proof (si_running _ Hi Hrn). congruence. }
  destruct (run_start_result file_resolver read create_enforcer strerror env Hfresh _ _ _ _ Hst Hc Hstarted Hstop Hb Hk Hrunning)
    as (W1 & W2 & Wk & W3 & W4 & W5 & W6).
  split_and!; [|done|done|by rewrite <- Hcfg].
  split; [congruence|done|done|done|by rewrite W3|by rewrite W5].
Qed.
Lemma stop_controller_wf conns d r c :
  daemon_wf conns d -> request_stop (J:=J) (controller_ d) = Return (r, c) ->
  daemon_wf conns (with_controller d c) /\ r = ok_v /\ started_ c = false.
Proof using Type.
  intros [] Hst.
  destruct (request_stop_backend_off file_resolver _ _ _ dw_controller0 dw_backend0 Hst) as (W1 & W2 & -> & W4 & W5).
  split; [|done]. split; cbn; try done; [by apply backend_off_enforces|].
  exact (streaming_ids_sublist _ _ _ dw_clients0 W5).
Qed.

Lemma run_finish_wf conns d r d' cs :
  daemon_wf conns d -> run_finish (J:=J) d = Return (r, d', cs) ->
  daemon_wf conns d' /\ r = ok_v /\ started_ (controller_ d') = false /\ running_ d' = running_ d /\
  cs = if negb (str_empty (dcfg_pid_file cfg)) then [CallUnlink (dcfg_pid_file cfg)] else [].
Proof using Type.
  intros Hd ([r0 c] & Hst & H)%outcome_bind_Return.
  destruct (stop_controller_wf _ _ _ _ Hd Hst) as (W1 & -> & W2). cbn in H. injection H as <- <- <-.
  split_and!; try done. by rewrite (dw_cfg _ _ Hd).
Qed.

(** A pid file that was never named is never written. *)
Lemma run_step_inv s s' :
  server_inv s -> main_returned s = false -> str_empty (dcfg_pid_file cfg) = false ->
  run_step (J:=J) file_resolver read create_enforcer strerror env s s' -> server_inv s'.
Proof using Hfresh JsonLaws0.
  intros Hi Hm Hpid Hstep. pose proof (si_run _ Hi) as Hrun. unfold run_ok in Hrun.
  assert (forall rc, main_thread s <> MainReturned rc) as Hnr
    by (intros rc Heq; unfold main_returned in Hm; by rewrite Heq in Hm).
  destruct Hstep as [d cs Hr Hst|m d cs Hr Hst|Hr Hn|Hr Ha|r d cs Hr Hf]; rewrite Hr in Hrun.
  - destruct (run_start_inv s _ d cs Hi Hm Hr Hst) as (Hd & Hc & Ha & H1 & H2).
    split; cbn; try done; [apply Hi|].
    intros rc Heq. by destruct (Hnr rc).
  - destruct (run_start_inv s _ d cs Hi Hm Hr Hst) as (Hd & Hc & Ha & H1 & H2).
    split; cbn; try done.
    + apply Hi.
    + intros ?. congruence.
    + unfold run_ok; cbn. rewrite Hc, Ha. cbn. by split_and!; [left|..].
    + apply Hi.
    + rewrite Hc. cbn. by rewrite H2.
    + intros rc Heq. by destruct (Hnr rc).
  - split; cbn; try apply Hi.
    + intros ?. congruence.
    + unfold run_ok; cbn. done.
    + rewrite app_nil_r. apply Hi.
    + intros rc Heq. by destruct (Hnr rc).
  - split; cbn; try apply Hi.
    + intros Hrn. pose proof (si_running _ Hi Hrn). congruence.
    + unfold run_ok; cbn. by destruct Hrun.
    + rewrite app_nil_r. apply Hi.
    + intros rc Heq. by destruct (Hnr rc).
  - destruct (run_finish_wf _ _ _ _ _ (si_daemon _ Hi) Hf) as (Hd & -> & Hst & Hrn & ->).
    rewrite Hpid. cbn [negb]. destruct Hrun as [Ha Hs]. destruct (si_closed _ Hi Ha) as [Hl Hk].
    assert (holds cfg (calls s ++ [CallUnlink (dcfg_pid_file cfg)]) = nothing_held) as Hheld.
    { rewrite holds_app. cbn. by rewrite Hl, Hk, String.eqb_refl, andb_false_r. }
    split; cbn; rewrite ?Hheld; try done.
    + apply Hi.
    + intros Hx. rewrite Hrn in Hx. pose proof (si_running _ Hi Hx). congruence.
    + by split_and!; [right|..].
    + apply Hi.
    + intros rc Heq. by destruct (Hnr rc).
Qed.

(** The main thread. *)
Lemma daemon_stop_wf conns d :
  daemon_wf conns d ->
  daemon_wf conns (daemon_stop d).2 /\ running_ (daemon_stop d).2 = false /\
  started_ (controller_ (daemon_stop d).2) = started_ (controller_ d).
Proof using Type.
  intros [Hcfg Hc Hb Hk Hcl Hs]. unfold daemon_stop. destruct (running_ d); cbn [negb]; [|done].
  split; [|done]. set (c := shutdown_clients (stream_clients_ d) (controller_ d)).
  assert ((clients_ c).*1 = (clients_ (controller_ d)).*1) as Hids.
  { cbn. rewrite <- list_fmap_compose. apply list_fmap_ext. intros i [id cl] _. cbn. by case_bool_decide. }
  split; cbn [controller_ stream_clients_ dmn_cfg]; [done| |done|done| |apply streaming_ids_nil].
  2: { change (streaming_ids conns (clients_ c).*1). by rewrite Hids. }
  apply with_outputs_wf; [done|]. rewrite <- list_fmap_compose, Forall_fmap.
  pose proof (cw_clients _ _ (cw_core _ _ Hc)) as Hwf. rewrite Forall_fmap in Hwf.
  eapply Forall_impl; [exact Hwf|]. intros [id cl] Hx. cbn in *. case_bool_decide; [|done].
  by apply stream_shutdown_wf.
Qed.

Lemma main_step_inv s s' : server_inv s -> main_returned s = false -> main_step (J:=J) s s' -> server_inv s'.
Proof using Type.
  intros Hi Hm Hstep. destruct Hstep as [Hw Hl|Hw|r d Hw Hr Hd].
  - destruct Hi. by split.
  - destruct (g_signal s =? 0); [destruct Hi; by split|].
    destruct (daemon_stop_wf _ _ (si_daemon _ Hi)) as (Hd & Hn & Hst).
    split; cbn; [done|apply Hi|by rewrite Hn| |apply Hi|apply Hi|done].
    pose proof (si_run _ Hi) as Hrun. unfold run_ok in *. cbn. destruct (run_thread s); rewrite ?Hst; try done.
    destruct Hrun as (Ha & Hc & H1 & H2 & H3). split_and!; try done.
    + unfold daemon_stop. by destruct (running_ (dmn s)).
    + unfold daemon_stop. destruct (running_ (dmn s)); cbn; [|done]. by rewrite H3.
  - apply outcome_bind_Return in Hd as ([r0 c] & Hst & [= <-]). cbn [snd].
    destruct (daemon_stop_wf _ _ (si_daemon _ Hi)) as (Hd & Hn & _).
    destruct (stop_controller_wf _ _ _ _ Hd Hst) as (W1 & _ & W2).
    pose proof (si_run _ Hi) as Hrun. unfold run_ok in Hrun. rewrite Hr in Hrun.
    split; cbn; [done|apply Hi|by rewrite Hn| |apply Hi|apply Hi|].
    + unfold run_ok; cbn. rewrite Hr. naive_solver.
    + intros rc [= <-]. split; [done|]. by exists r.
Qed.

Lemma server_init_inv log_opens boot_offset d :
  Daemon_create cfg log_opens boot_offset = Return d -> server_inv (server_init d).
Proof using Type.
  intros (c & Hc & [= <-])%outcome_bind_Return.
  destruct (Controller_create_wf file_resolver _ _ _ _ Hc) as (W & Hs & Hst & He & Hcl).
  split; cbn; try done. split; cbn; try done.
  - intros _. by rewrite He.
  - intros e He'. congruence.
  - rewrite Hcl. apply streaming_ids_nil.
  - apply streaming_ids_nil.
Qed.

Lemma server_step_inv s s' :
  server_inv s -> str_empty (dcfg_pid_file cfg) = false ->
  server_step (J:=J) file_resolver read put_time create_enforcer strerror env s s' -> server_inv s'.
Proof using Hfresh JsonLaws0.
  intros Hi Hpid (Hm & [[H|[H|H]]|[H|[H|H]]]).
  - by eapply main_step_inv.
  - by eapply run_step_inv.
  - by eapply accept_step_inv.
  - by eapply conn_step_inv.
  - by eapply event_step_inv.
  - by eapply signal_step_inv.
Qed.

Lemma server_reachable_inv log_opens boot_offset d s :
  Daemon_create cfg log_opens boot_offset = Return d -> str_empty (dcfg_pid_file cfg) = false ->
  rtc (server_step (J:=J) file_resolver read put_time create_enforcer strerror env) (server_init d) s ->
  server_inv s.
Proof using Hfresh JsonLaws0.
  intros Hd Hpid Hr. pose proof (server_init_inv _ _ _ Hd) as H0.
  induction Hr; eauto using server_step_inv.
Qed.
End Invariant.
