(* ===== verification/ServerLife.v ===== *)
(** * The life of `guardctl serve`

    The theorems about the whole server that follow from the invariant of
    ServerProperties.v: types, shutdown, what is left behind, and two
    behaviours the code does not mean to have. *)

From stdpp Require Import relations.
From S2P Require Import Prelude Abi BpfMap FileId Policy DecisionEngine PolicyCompiler SpscQueue SecurityEvent Enforcer Json ConfigParser EventSink Controller LoadSteps.
From S2P Require Import Daemon DaemonProperties ControllerInvariant Server ServerProperties.

Local Open Scope Z_scope.

Section Life.
Context {E : Type} `{!IEnforcer E} `{!EnforcerLaws E} {J : Type} `{!Json J} `{!JsonLaws J}.
Context (file_resolver : FileResolver) (read : string -> file_read) (put_time : Z -> string).
Context (create_enforcer : EnforcerConfig -> E) (strerror : Z -> string) (env : run_env).
(** The backend the factory makes enforces nothing yet. *)
Context (Hfresh : forall cfg, enforcing (enf_status (create_enforcer cfg)) = false).
Implicit Types (d : Daemon E) (s : server E).

Abbreviation step := (server_step (J:=J) file_resolver read put_time create_enforcer strerror env).
Abbreviation service := (service_step (J:=J) file_resolver read create_enforcer strerror env).
Abbreviation throws := (server_throws (J:=J) file_resolver read create_enforcer strerror env).

(** C14 (well-formed at all times): whatever the threads of the server do, in
    any order, the queue's indices stay inside its slots and its capacity is
    the configured one; the current policy passes validation and the resolver
    is that of a policy that passed validation and compilation; every
    registered stream client belongs to one streaming connection, is
    registered once and has a well-formed queue of 1024 slots and a 64-bit
    counter; the controller's threads run only between a successful start and
    the stop, over an open queue; and [running_] is set only while run()
    serves. *)
Theorem server_well_formed cfg log_opens boot_offset d s :
  Daemon_create cfg log_opens boot_offset = Return d -> str_empty (dcfg_pid_file cfg) = false ->
  rtc step (server_init d) s ->
  let c := controller_ (dmn s) in
  (queue_wf (queue_ c) /\ length (slots_ (queue_ c)) = event_queue_capacity (Controller.cfg_ c)) /\
  (forall p, current_ (policy_manager_ c) = Some p -> validate p = ok_v) /\
  (forall r, resolver_ c = Some r -> policy_resolver file_resolver r) /\
  (NoDup (clients_ c).*1 /\ NoDup (stream_clients_ (dmn s)) /\
   forall id cl, (id, cl) ∈ clients_ c ->
     stream_client_wf cl /\ exists fd, conns s !! id = Some (fd, ConnStreaming)) /\
  (threads_ c = true -> started_ c = true /\ stop_ (queue_ c) = false) /\
  (running_ (dmn s) = true -> run_thread s = RunServing /\ started_ c = true).
Proof.
  intros Hd Hpid Hr c.
  pose proof (server_reachable_inv file_resolver read put_time create_enforcer strerror env Hfresh cfg
    _ _ _ _ Hd Hpid Hr) as Hi.
  pose proof (si_daemon _ _ _ Hi) as [_ [[Hq Hp Hres Hcl] _ Ht] _ _ [Hnd Hids] [Hnd2 _]].
  split_and!; try done; [apply Hq|apply Hq| |].
  - intros id cl Hin. split.
    + rewrite Forall_forall in Hcl. apply Hcl, list_elem_of_fmap. by exists (id, cl).
    + apply Hids, list_elem_of_fmap. by exists (id, cl).
  - intros Hrun. pose proof (si_running _ _ _ Hi Hrun) as Hserv. split; [done|].
    pose proof (si_run _ _ _ Hi) as Hok. unfold run_ok in Hok. rewrite Hserv in Hok. apply Hok.
Qed.

(** C15 (nothing is left behind): when `guardctl serve` returns, with whatever
    exit code, and whatever the connections did meanwhile (loading policies
    during the shutdown included), the backend is detached and enforces
    nothing, the listening socket is closed, and the socket file and the pid
    file are removed.  When Daemon::run has returned without an error this
    already holds, except that the daemon object still exists. *)
Theorem serve_leaves_nothing cfg log_opens boot_offset d s r :
  Daemon_create cfg log_opens boot_offset = Return d -> str_empty (dcfg_pid_file cfg) = false ->
  rtc step (server_init d) s ->
  run_thread s = RunReturned r -> main_returned s = true \/ r = ok_v ->
  enforcing (controller_status (controller_ (dmn s))) = false /\
  attached (controller_status (controller_ (dmn s))) = false /\
  holds cfg (calls s) = nothing_held /\
  (forall rc, main_thread s = MainReturned rc -> rc = serve_rc r).
Proof.
  intros Hd Hpid Hr Hrun Hend.
  pose proof (server_reachable_inv file_resolver read put_time create_enforcer strerror env Hfresh cfg
    _ _ _ _ Hd Hpid Hr) as Hi.
  pose proof (si_run _ _ _ Hi) as Hok. unfold run_ok in Hok. rewrite Hrun in Hok. destruct Hok as (_ & Hheld & Hst).
  assert (started_ (controller_ (dmn s)) = false) as Hstopped.
  { destruct Hend as [Hm| ->]; [|by apply Hst]. unfold main_returned in Hm.
    destruct (main_thread s) as [| | |rc] eqn:Hmain; try done. by apply (si_main _ _ _ Hi rc). }
  destruct (backend_off_status _ (dw_backend _ _ _ _ (si_daemon _ _ _ Hi)) Hstopped) as [H1 H2].
  split_and!; try done. intros rc Hm. destruct (si_main _ _ _ Hi rc Hm) as (_ & r' & Hr' & ->). congruence.
Qed.

(** ** Shutdown *)
Definition main_left (m : main_at) : nat :=
  match m with MainWaiting => 3 | MainLeft => 2 | MainJoining => 1 | MainReturned _ => 0 end.
Definition run_left (r : run_at) : nat :=
  match r with RunStarting => 4 | RunServing => 3 | RunJoining => 2 | RunStopping => 1 | RunReturned _ => 0 end.
Definition accept_left (a : accept_at) : nat :=
  match a with AcceptPolling => 2 | AcceptTop => 1 | _ => 0 end.
Definition shutdown_left s : nat :=
  main_left (main_thread s) + run_left (run_thread s) +
  (if stop_requested s then accept_left (accept_thread s) else 2).

Definition shutting_down s : Prop := running_ (dmn s) = false /\ run_thread s <> RunStarting.

Lemma accept_left_le (a : accept_at) : (accept_left a <= 2)%nat.
Proof. by destruct a; cbn; lia. Qed.

(** No step sets [running_] again or adds work. *)
Lemma shutting_down_step cfg s s' :
  server_inv file_resolver cfg s -> shutting_down s -> step s s' ->
  shutting_down s' /\ (shutdown_left s' <= shutdown_left s)%nat.
Proof using JsonLaws0.
  intros Hi [Hn Hs] (Hm & [[H|[H|H]]|[H|[H|H]]]).
  - destruct H as [Hw Hl|Hw|r d Hw Hr Hd]; unfold shutting_down, shutdown_left, stop_requested; cbn; rewrite Hw; cbn.
    + split; [done|lia].
    + split; [|lia]. split; [|done]. destruct (_ =? 0); [done|]. unfold daemon_stop. by rewrite Hn.
    + split; [|lia]. split; [|done]. apply outcome_bind_Return in Hd as (x & _ & [= <-]). cbn.
      unfold daemon_stop. by rewrite Hn.
  - destruct H as [d cs Hr Hst|m d cs Hr Hst|Hr _|Hr Ha|r d cs Hr Hf]; [done|done|..];
      unfold shutting_down, shutdown_left, stop_requested; cbn; rewrite Hr; cbn.
    + split; [done|]. pose proof (accept_left_le (accept_thread s)). lia.
    + split; [done|lia].
    + destruct (run_finish_wf file_resolver cfg _ _ _ _ _ (si_daemon _ _ _ Hi) Hf) as (_ & _ & _ & -> & _).
      split; [done|lia].
  - destruct H as [Ha Hq|Ha Hq|ev Ha Ht|ev Ha Ht|ev fd Ha Ht Hfd]; unfold shutting_down, shutdown_left; cbn;
      unfold stop_requested in *; cbn; rewrite ?Ha; try (destruct (run_thread s)); cbn in *; try done; split; try done; lia.
  - destruct H as [id fd buf chunk lines buf' Hid|id fd buf Hid|id fd buf Hid
      |id fd line lines buf go_on d out Hid Hreq Hl|id fd line lines buf p Hid Hreq|id fd l lines buf l' c Hid Hret Ha
      |id fd r lines buf text Hid Ht|id fd d Hid He|id fd Hid];
      (split; [split; [cbn|done]|done]); try done.
    + by destruct (handle_plain_line file_resolver _ _ _ _ _ Hreq Hl) as [->| ->].
    + by apply outcome_bind_Return in He as (cl & _ & [= <-]).
  - destruct (event_step_change _ _ _ _ _ Hi H) as (c & -> & _). done.
  - by destruct H.
Qed.

(** Until the main thread has returned, one of the service threads can go on. *)
Lemma shutting_down_progress cfg s :
  server_inv file_resolver cfg s -> shutting_down s -> main_returned s = false ->
  (exists w, throws s w) \/ exists s', service s s' /\ (shutdown_left s' < shutdown_left s)%nat.
Proof using Type.
  intros Hi [Hn Hs] Hm. pose proof (si_run _ _ _ Hi) as Hok. unfold run_ok in Hok.
  destruct (run_thread s) as [| | | |r] eqn:Hr; [done|..].
  - right. eexists. split; [right; left; by apply run_leaves|]. unfold shutdown_left, stop_requested; cbn; rewrite Hr; cbn.
    pose proof (accept_left_le (accept_thread s)). lia.
  - right. destruct (accept_thread s) eqn:Ha; [by destruct Hok|..]; eexists.
    + split; [right; right; apply accept_stops; [done|]|]; unfold shutdown_left, stop_requested; cbn; rewrite Hr, ?Ha; cbn; [done|lia].
    + split; [right; right; by apply (accept_continues _ AcceptTimeout)|].
      unfold shutdown_left, stop_requested; cbn; rewrite Hr, Ha; cbn. lia.
    + split; [right; left; by apply run_joins|]. unfold shutdown_left, stop_requested; cbn; rewrite Hr, Ha; cbn. lia.
  - destruct (run_finish (J:=J) (dmn s)) as [[[r d] cs]|w] eqn:Hf.
    + right. eexists. split; [right; left; by eapply run_finishes|].
      unfold shutdown_left, stop_requested; cbn; rewrite Hr; cbn. lia.
    + left. exists w. by apply throws_finish.
  - destruct (main_thread s) as [| | |rc] eqn:Hmain; [| | |by unfold main_returned in Hm; rewrite Hmain in Hm].
    + right. eexists. split; [left; apply main_leave; [done|left; unfold run_done; by rewrite Hr]|].
      unfold shutdown_left, stop_requested; cbn; rewrite Hr, Hmain; cbn. lia.
    + right. eexists. split; [left; by apply main_stop|].
      unfold shutdown_left, stop_requested; cbn; rewrite Hr, Hmain; cbn. lia.
    + destruct (daemon_destroy (J:=J) (dmn s)) as [d|w] eqn:Hd.
      * right. eexists. split; [left; by eapply main_join|].
        unfold shutdown_left, stop_requested; cbn; rewrite Hr, Hmain; cbn. lia.
      * left. exists w. apply throws_destroy; [done|unfold run_done; by rewrite Hr|done].
Qed.

(** C16 (shutdown terminates): once run() has got past its start and [running_]
    is cleared, by a signal or by a stop request, at most eight steps of the
    main, the run and the server thread remain whatever the other threads do:
    no step of any thread sets [running_] again or adds to them, and until
    run_serve has returned one of the three can take one of them, unless an
    exception ends the process; so no deadlock is possible. *)
Theorem shutdown_terminates cfg log_opens boot_offset d s :
  Daemon_create cfg log_opens boot_offset = Return d -> str_empty (dcfg_pid_file cfg) = false ->
  rtc step (server_init d) s -> running_ (dmn s) = false -> run_thread s <> RunStarting ->
  (shutdown_left s <= 8)%nat /\
  (shutdown_left s = 0%nat -> main_returned s = true) /\
  (forall s', rtc step s s' ->
     running_ (dmn s') = false /\ (shutdown_left s' <= shutdown_left s)%nat /\
     (main_returned s' = true \/ (exists w, throws s' w) \/
      exists s'', service s' s'' /\ (shutdown_left s'' < shutdown_left s')%nat)).
Proof.
  intros Hd Hpid Hr Hn Hs. assert (shutting_down s) as Hsd by done.
  split_and!.
  - unfold shutdown_left. pose proof (accept_left_le (accept_thread s)).
    destruct (main_thread s), (run_thread s), (stop_requested s); cbn; try done; lia.
  - unfold shutdown_left, main_returned. destruct (main_thread s); cbn; [lia..|done].
  - intros s' Hr'.
    assert (shutting_down s' /\ (shutdown_left s' <= shutdown_left s)%nat) as [Hsd' Hle].
    { revert Hr Hsd; clear Hn Hs. induction Hr' as [s1|s1 s2 s3 Hst Hr' IH]; intros Hr Hsd; [done|].
      pose proof (server_reachable_inv file_resolver read put_time create_enforcer strerror env Hfresh cfg
        _ _ _ _ Hd Hpid Hr) as Hi.
      destruct (shutting_down_step cfg s1 s2 Hi Hsd Hst) as [Hsd2 Hle2].
      destruct IH as [? ?]; [by eapply rtc_r|done|]. split; [done|lia]. }
    pose proof (server_reachable_inv file_resolver read put_time create_enforcer strerror env Hfresh cfg
      _ _ _ s' Hd Hpid ltac:(by etrans)) as Hi'.
    split_and!; [apply Hsd'|done|]. destruct (main_returned s') eqn:Hm; [by left|right].
    by eapply shutting_down_progress.
Qed.
End Life.

(** ** Behaviours the code does not mean to have *)
Section Defects.
Context {E : Type} `{!IEnforcer E} {J : Type} `{!Json J}.
Context (file_resolver : FileResolver) (read : string -> file_read) (put_time : Z -> string).
Context (create_enforcer : EnforcerConfig -> E) (strerror : Z -> string) (env : run_env).
Implicit Types (d : Daemon E) (s : server E).

Abbreviation step := (server_step (J:=J) file_resolver read put_time create_enforcer strerror env).
Abbreviation start_daemon := (run_start (J:=J) file_resolver strerror create_enforcer read env).

Lemma run_start_running d d1 cs : start_daemon d = Return (ok_v, d1, cs) -> running_ d1 = true.
Proof using Type.
  unfold run_start. destruct (_ <=? _)%nat; [done|]. destruct (socket_errno env); [done|].
  destruct (bind_errno env); [done|]. destruct (listen_errno env); [done|].
  intros ([[u|m] c1] & _ & H)%outcome_bind_Return; by simplify_eq/=.
Qed.

(** A step that is not a client's request clearing [running_]. *)
Definition unasked_step s s' : Prop :=
  step s s' /\ (conn_step (J:=J) file_resolver s s' -> running_ (dmn s') = running_ (dmn s)).

Definition signal_lost s : Prop :=
  main_thread s = MainJoining /\ run_thread s = RunServing /\ running_ (dmn s) = true.

Lemma signal_lost_step s s' : signal_lost s -> unasked_step s s' -> signal_lost s'.
Proof using Type.
  intros (Hm & Hr & Hn) [(_ & [[H|[H|H]]|[H|[H|H]]]) Hc].
  - destruct H; congruence.
  - destruct H; congruence.
  - by destruct H.
  - split_and!; [by destruct H..|]. rewrite Hc; done.
  - by destruct H.
  - by destruct H.
Qed.

(** A signal can be lost: if the signal arrives while Daemon::run is still
    starting the controller, the main thread calls stop() before [running_] is
    set, which does nothing, and then waits in join(); run() then serves, and
    no further signal and no other thread ever ends it: only a stop request of
    a client can. *)
Theorem early_signal_is_lost cfg log_opens boot_offset d d1 cs (sig : Z) :
  Daemon_create cfg log_opens boot_offset = Return d ->
  start_daemon d = Return (ok_v, d1, cs) -> sig <> 0 ->
  exists s, rtc step (server_init d) s /\ g_signal s = sig /\
    forall s', rtc unasked_step s s' ->
      main_thread s' = MainJoining /\ run_thread s' = RunServing /\ running_ (dmn s') = true.
Proof.
  intros (c & Hc & [= <-])%outcome_bind_Return Hst Hsig. eexists. split; [|split].
  { eapply rtc_l; [split; [done|]; right; right; right; by apply (signal_arrives _ sig)|].
    eapply rtc_l; [split; [done|]; left; left; apply main_leave; [done|by right]|].
    eapply rtc_l; [split; [done|]; left; left; by apply main_stop|]. cbn [g_signal set_main].
    eapply rtc_l; [split; [done|]; left; right; left; apply (run_starts _ _ _ _ _ _ d1 cs); [done|]|apply rtc_refl].
    cbn [dmn set_main]. destruct (sig =? 0); exact Hst. }
  { done. }
  intros s' Hr. match type of Hr with rtc _ ?s _ => assert (signal_lost s) as H0 end.
  { split_and!; [done|done|]. by eapply run_start_running. }
  clear -Hr H0. induction Hr; eauto using signal_lost_step.
Qed.

(** A whole life: serve, accept one connection, stop on a signal. *)
Lemma serve_and_stop cfg log_opens boot_offset d d1 d2 cs cs2 (fd : Z) :
  Daemon_create cfg log_opens boot_offset = Return d ->
  start_daemon d = Return (ok_v, d1, cs) ->
  run_finish (J:=J) (daemon_stop d1).2 = Return (ok_v, d2, cs2) ->
  started_ (controller_ d2) = false -> 0 <= fd ->
  exists s1 s2, rtc step (server_init d) s1 /\ running_ (dmn s1) = false /\ run_thread s1 = RunServing /\
    rtc step s1 s2 /\ main_thread s2 = MainReturned 0 /\ run_thread s2 = RunReturned ok_v /\
    conns s2 !! 0%nat = Some (fd, ConnLoop "").
Proof using Type.
  intros (c & Hc & [= <-])%outcome_bind_Return Hst Hfin Hs2 Hfd.
  pose proof (run_start_running _ _ _ Hst) as Hrun.
  assert (running_ (daemon_stop d1).2 = false) as Hn by (unfold daemon_stop; by rewrite Hrun).
  assert (running_ d2 = false) as Hn2.
  { apply outcome_bind_Return in Hfin as ([[u|m] c2] & _ & H); by simplify_eq/=. }
  eexists _, _. split; [|split; [|split; [|split]]].
  { eapply rtc_l; [split; [done|]; left; right; left; by eapply run_starts|].
    eapply rtc_l; [split; [done|]; left; right; right; by apply accept_polls|].
    eapply rtc_l; [split; [done|]; left; right; right; by apply (accept_client _ (Accepted fd) fd)|].
    eapply rtc_l; [split; [done|]; right; right; right; by apply (signal_arrives _ 15)|].
    eapply rtc_l; [split; [done|]; left; left; apply main_leave; [done|by right]|].
    eapply rtc_l; [split; [done|]; left; left; by apply main_stop|]. apply rtc_refl. }
  { exact Hn. }
  { done. }
  { eapply rtc_l; [split; [done|]; left; right; left; by apply run_leaves|].
    eapply rtc_l; [split; [done|]; left; right; right; by apply accept_stops|].
    eapply rtc_l; [split; [done|]; left; right; left; by apply run_joins|].
    eapply rtc_l; [split; [done|]; left; right; left; by eapply run_finishes|].
    eapply rtc_l; [split; [done|]; left; left; eapply (main_join _ ok_v); [done|done|]|apply rtc_refl].
    cbn. unfold daemon_destroy, daemon_stop. rewrite Hn2. cbn [negb].
    unfold request_stop. cbn. by rewrite Hs2. }
  by split_and!.
Qed.

(** A connection can outlive the daemon: the threads of the connections
    are detached and run() does not wait for them, so `serve` can return, and
    destroy the Daemon object, while a connection's thread is still in its
    loop, about to read [running_] of the destroyed object. *)
Theorem connection_outlives_daemon cfg log_opens boot_offset d d1 d2 cs cs2 (fd : Z) :
  Daemon_create cfg log_opens boot_offset = Return d ->
  start_daemon d = Return (ok_v, d1, cs) ->
  run_finish (J:=J) (daemon_stop d1).2 = Return (ok_v, d2, cs2) ->
  started_ (controller_ d2) = false -> 0 <= fd ->
  exists s, rtc step (server_init d) s /\ main_thread s = MainReturned 0 /\
    conns s !! 0%nat = Some (fd, ConnLoop "") /\ uses_destroyed_daemon s = true.
Proof.
  intros Hc Hst Hfin Hs2 Hfd.
  destruct (serve_and_stop _ _ _ _ _ _ _ _ fd Hc Hst Hfin Hs2 Hfd) as (s1 & s2 & ? & _ & _ & ? & Hm & _ & Hid).
  exists s2. split_and!; [by etrans|done|done|].
  unfold uses_destroyed_daemon, main_returned. rewrite Hm. destruct (conns s2) as [|x l]; [done|]. by injection Hid as ->.
Qed.
End Defects.

(** ** A concrete server over the null backend *)
Definition life_config : DaemonConfig := dmn_cfg sample_daemon.
Definition sample_env : run_env := MkRunEnv None None None true.
Definition no_files (path : string) : file_read := CannotOpen.

Definition new_daemon : Daemon NullEnforcer :=
  match Daemon_create life_config true 0 with Return d => d | Throw _ => sample_daemon end.
Definition serving_daemon : Daemon NullEnforcer :=
  match @run_start NullEnforcer NullEnforcer_ops jval daemon_json daemon_files (fun _ => "")
    NullEnforcer_create no_files sample_env new_daemon with Return x => x.1.2 | Throw _ => sample_daemon end.
Definition stopped_daemon : Daemon NullEnforcer :=
  match @run_finish NullEnforcer NullEnforcer_ops jval daemon_json (daemon_stop serving_daemon).2 with
  Return x => x.1.2 | Throw _ => sample_daemon end.
Definition start_calls : list sys_call :=
  let path := dcfg_socket_path life_config in
  [CallUnlink path; CallSocket; CallBind path; CallChmod path 384; CallListen;
   CallWritePid (dcfg_pid_file life_config)].

Lemma new_daemon_eq : Daemon_create life_config true 0 = Return new_daemon.
Proof. reflexivity. Qed.

Lemma serving_daemon_eq :
  @run_start NullEnforcer NullEnforcer_ops jval daemon_json daemon_files (fun _ => "")
    NullEnforcer_create no_files sample_env new_daemon = Return (ok_v, serving_daemon, start_calls).
Proof. vm_compute. reflexivity. Qed.

Lemma stopped_daemon_eq :
  @run_finish NullEnforcer NullEnforcer_ops jval daemon_json (daemon_stop serving_daemon).2 =
  Return (ok_v, stopped_daemon, [CallUnlink (dcfg_pid_file life_config)]).
Proof. vm_compute. reflexivity. Qed.

Abbreviation sample_step := (@server_step NullEnforcer NullEnforcer_ops jval daemon_json daemon_files no_files
  (fun _ => "") NullEnforcer_create (fun _ => "") sample_env).

Lemma sample_life :
  exists s1 s2, rtc sample_step (server_init new_daemon) s1 /\ running_ (dmn s1) = false /\
    run_thread s1 = RunServing /\ rtc sample_step s1 s2 /\ main_thread s2 = MainReturned 0 /\
    run_thread s2 = RunReturned ok_v /\ conns s2 !! 0%nat = Some (5, ConnLoop "").
Proof.
  exact (@serve_and_stop NullEnforcer NullEnforcer_ops jval daemon_json daemon_files no_files (fun _ => "")
    NullEnforcer_create (fun _ => "") sample_env _ _ _ _ _ _ _ _ 5 new_daemon_eq serving_daemon_eq
    stopped_daemon_eq eq_refl ltac:(lia)).
Qed.

Lemma server_well_formed_witness :
  exists s, rtc sample_step (server_init new_daemon) s /\ run_thread s = RunServing /\
    queue_wf (queue_ (controller_ (dmn s))).
Proof.
  destruct sample_life as (s1 & s2 & Hr & _ & Hrun & _).
  exists s1. split; [exact Hr|]. split; [exact Hrun|].
  exact (proj1 (proj1 (@server_well_formed NullEnforcer NullEnforcer_ops NullEnforcer_laws jval daemon_json
    daemon_json_laws daemon_files no_files (fun _ => "") NullEnforcer_create (fun _ => "") sample_env
    (fun _ => eq_refl) life_config true 0
    new_daemon s1 new_daemon_eq eq_refl Hr))).
Defined.

Lemma serve_leaves_nothing_witness :
  exists s, rtc sample_step (server_init new_daemon) s /\ main_thread s = MainReturned 0 /\
    holds life_config (calls s) = nothing_held.
Proof.
  destruct sample_life as (s1 & s2 & Hr1 & _ & _ & Hr2 & Hm & Hrun & _).
  assert (rtc sample_step (server_init new_daemon) s2) as Hr by (transitivity s1; assumption).
  exists s2. split; [exact Hr|]. split; [exact Hm|].
  destruct (@serve_leaves_nothing NullEnforcer NullEnforcer_ops NullEnforcer_laws jval daemon_json
    daemon_json_laws daemon_files no_files (fun _ => "") NullEnforcer_create (fun _ => "") sample_env
    (fun _ => eq_refl) life_config true 0
    new_daemon s2 ok_v new_daemon_eq eq_refl Hr Hrun (or_intror eq_refl)) as (_ & _ & Hh & _).
  exact Hh.
Defined.

Lemma shutdown_terminates_witness :
  exists s, rtc sample_step (server_init new_daemon) s /\ running_ (dmn s) = false /\
    (shutdown_left s <= 8)%nat.
Proof.
  destruct sample_life as (s1 & s2 & Hr & Hn & Hrun & _).
  exists s1. split; [exact Hr|]. split; [exact Hn|].
  refine (proj1 (@shutdown_terminates NullEnforcer NullEnforcer_ops NullEnforcer_laws jval daemon_json
    daemon_json_laws daemon_files no_files (fun _ => "") NullEnforcer_create (fun _ => "") sample_env
    (fun _ => eq_refl) life_config true 0
    new_daemon s1 new_daemon_eq eq_refl Hr Hn _)).
  rewrite Hrun. discriminate.
Defined.

Lemma early_signal_is_lost_witness :
  exists s, rtc sample_step (server_init new_daemon) s /\ g_signal s = 15 /\ running_ (dmn s) = true.
Proof.
  destruct (@early_signal_is_lost NullEnforcer NullEnforcer_ops jval daemon_json
    daemon_files no_files (fun _ => "") NullEnforcer_create (fun _ => "") sample_env life_config true 0
    new_daemon _ _ 15 new_daemon_eq serving_daemon_eq ltac:(discriminate)) as (s & Hr & Hs & Hall).
  exists s. split; [exact Hr|]. split; [exact Hs|]. apply (Hall s (rtc_refl _ _)).
Defined.

Lemma connection_outlives_daemon_witness :
  exists s, rtc sample_step (server_init new_daemon) s /\ main_thread s = MainReturned 0 /\
    conns s !! 0%nat = Some (5, ConnLoop "") /\ uses_destroyed_daemon s = true.
Proof.
  apply (@connection_outlives_daemon NullEnforcer NullEnforcer_ops jval daemon_json
    daemon_files no_files (fun _ => "") NullEnforcer_create (fun _ => "") sample_env life_config true 0
    new_daemon serving_daemon stopped_daemon start_calls _ 5 new_daemon_eq serving_daemon_eq
    stopped_daemon_eq eq_refl).
  lia.
Defined.

