(* ===== verification/ServerLoads.v ===== *)
(** * Policy loads in the running server

    The connections' threads can be inside load_policy at the same time
    (Server.v).  As long as their loads do not overlap the kernel holds the
    current policy, or the one that is on its way; overlapping loads can leave
    the kernel and user space with two policies; and a load that nothing
    disturbs is handle_line. *)

From stdpp Require Import relations.
From S2P Require Import Prelude Abi BpfMap FileId Policy DecisionEngine PolicyCompiler SpscQueue SecurityEvent Enforcer Json ConfigParser EventSink Controller LoadSteps Agreement JsonText.
From S2P Require Import EbpfManager EbpfProperties EbpfLifecycle ControllerProperties Daemon DaemonProperties ControllerInvariant Server ServerProperties ServerLife.

Local Open Scope Z_scope.

(** ** The loads in flight *)
Section Flight.
Implicit Types (conns : list (Z * conn_at)) (x y : Z * conn_at).

Lemma flight_split conns id x :
  conns !! id = Some x ->
  exists pre post, omap conn_load conns = pre ++ option_list (conn_load x) ++ post /\
    forall y, omap conn_load (<[id := y]> conns) = pre ++ option_list (conn_load y) ++ post.
Proof.
  revert id; induction conns as [|z conns IH]; intros [|id] Hid; try done; cbn in *.
  - injection Hid as ->. exists [], (omap conn_load conns).
    split; [cbn; by destruct (conn_load x)|intros y; cbn; by destruct (conn_load y)].
  - destruct (IH id Hid) as (pre & post & -> & Hy). exists (option_list (conn_load z) ++ pre), post.
    split; [|intros y; rewrite Hy]; destruct (conn_load z); cbn; done.
Qed.

Lemma flight_same conns id x y :
  conns !! id = Some x -> conn_load y = conn_load x -> omap conn_load (<[id := y]> conns) = omap conn_load conns.
Proof. intros (pre & post & -> & Hy)%flight_split Heq. by rewrite Hy, Heq. Qed.

(** With at most one in flight, the one that moves is alone. *)
Lemma flight_moves conns id x y :
  conns !! id = Some x -> conn_load x <> None \/ conn_load y <> None ->
  (length (omap conn_load conns) <= 1)%nat -> (length (omap conn_load (<[id := y]> conns)) <= 1)%nat ->
  omap conn_load conns = option_list (conn_load x) /\ omap conn_load (<[id := y]> conns) = option_list (conn_load y).
Proof.
  intros (pre & post & -> & Hy)%flight_split Hne. rewrite Hy, !length_app. intros H1 H2.
  assert (length pre = 0%nat /\ length post = 0%nat) as [->%nil_length_inv ->%nil_length_inv].
  { destruct Hne; [destruct (conn_load x)|destruct (conn_load y)]; cbn in *; try done; lia. }
  by rewrite !app_nil_r.
Qed.
End Flight.

Section Loads.
Context {E : Type} `{!IEnforcer E} `{!EnforcerLaws E} {J : Type} `{!Json J} `{!JsonLaws J}.
Context (file_resolver : FileResolver) (read : string -> file_read) (put_time : Z -> string).
Context (create_enforcer : EnforcerConfig -> E) (strerror : Z -> string) (env : run_env).
(** The backend the factory makes enforces nothing yet. *)
Context (Hfresh : forall cfg, enforcing (enf_status (create_enforcer cfg)) = false).
Implicit Types (d : Daemon E) (s : server E) (c : Controller E SocketStreamClient) (l : loader) (p : Policy).

Abbreviation step := (server_step (J:=J) file_resolver read put_time create_enforcer strerror env).
Abbreviation throws := (server_throws (J:=J) file_resolver read create_enforcer strerror env).

(** At most one load is in flight. *)
Definition serial s : Prop := (length (loads_in_flight s) <= 1)%nat.
Definition serial_step s s' : Prop := step s s' /\ serial s'.

(** The policy the kernel is to enforce: the one a load has put there but not
    yet into the policy manager, or else the current one. *)
Definition kernel_policy s : option Policy :=
  match loads_in_flight s with
  | l :: _ => match loader_applied l with
              | Some p => Some p
              | None => current_ (policy_manager_ (controller_ (dmn s)))
              end
  | [] => current_ (policy_manager_ (controller_ (dmn s)))
  end.

Definition kernel_follows (ls : list loader) c : Prop :=
  match ls with
  | [] => kernel_agrees file_resolver c
  | l :: _ => loader_kernel file_resolver l c
  end.

Lemma kernel_follows_same ls c c' :
  enforcer_ c' = enforcer_ c -> policy_manager_ c' = policy_manager_ c -> kernel_follows ls c -> kernel_follows ls c'.
Proof using Type.
  intros E1 E2. destruct ls as [|l ls]; cbn; [by apply kernel_agrees_same|].
  unfold loader_kernel. destruct (loader_applied l); [by apply kernel_enforces_same|by apply kernel_agrees_same].
Qed.

Lemma kernel_follows_off ls c : backend_off c -> started_ c = false -> kernel_follows ls c.
Proof using EnforcerLaws0.
  intros Hoff Hs. destruct ls as [|l ls]; cbn; [by apply backend_off_enforces|].
  unfold loader_kernel. destruct (loader_applied l); by apply backend_off_enforces.
Qed.

(** *** Every step of a serial run keeps it *)
Lemma conn_step_follows cfg s s' :
  server_inv file_resolver cfg s -> serial s -> serial s' -> conn_step (J:=J) file_resolver s s' ->
  kernel_follows (loads_in_flight s) (controller_ (dmn s)) ->
  kernel_follows (loads_in_flight s') (controller_ (dmn s')).
Proof using EnforcerLaws0 JsonLaws0.
  unfold serial, loads_in_flight. intros Hi Hs Hs' Hstep Hk.
  destruct Hstep as [id fd buf chunk lines buf' Hid|id fd buf Hid|id fd buf Hid
    |id fd line lines buf go_on d out Hid Hreq Hl|id fd line lines buf p Hid Hreq|id fd l lines buf l' c Hid Hret Ha
    |id fd r lines buf text Hid Ht|id fd d Hid He|id fd Hid]; cbn [conns dmn set_conn] in *.
  1-3,7: by rewrite (flight_same _ _ _ _ Hid).
  - rewrite (flight_same _ _ _ _ Hid) by by destruct go_on.
    by destruct (handle_plain_line file_resolver _ _ _ _ _ Hreq Hl) as [->| ->].
  - destruct (flight_moves _ _ _ (fd, ConnLoading (LoadCalled (Some p)) lines buf) Hid) as [E1 E2];
      [by right|done|done|]. rewrite E1 in Hk. by rewrite E2.
  - destruct (flight_moves _ _ _ (fd, ConnLoading l' lines buf) Hid) as [E1 E2];
      [left; cbn; by rewrite Hret|done|done|]. rewrite E1 in Hk. rewrite E2.
    cbn in *. rewrite Hret in Hk. cbn in Hk.
    pose proof (load_advance_kernel file_resolver l _ l' c (conn_load_wf _ _ _ _ _ _ _ _ Hi Hid) Ha Hk) as Hk'.
    destruct (load_returned l') eqn:Hr; [by destruct l'|done].
  - rewrite (flight_same _ _ _ _ Hid) by done. apply outcome_bind_Return in He as (cl & _ & [= <-]). by eapply kernel_follows_same, Hk.
  - rewrite (flight_same _ _ _ _ Hid) by done. by eapply kernel_follows_same, Hk.
Qed.

Lemma run_start_agrees d r d' cs :
  run_start (J:=J) file_resolver strerror create_enforcer read env d = Return (r, d', cs) ->
  started_ (controller_ d) = false -> kernel_agrees file_resolver (controller_ d) ->
  kernel_agrees file_resolver (controller_ d').
Proof using Hfresh JsonLaws0.
  intros H Hs Hag. unfold run_start in H. destruct (_ <=? _)%nat; [by simplify_eq|].
  destruct (socket_errno env); [by simplify_eq|]. destruct (bind_errno env); [by simplify_eq|].
  destruct (listen_errno env); [by simplify_eq|].
  apply outcome_bind_Return in H as ([started c] & Hst & H).
  pose proof (start_agrees file_resolver create_enforcer read _ _ _ Hfresh Hs Hst) as Hag'.
  destruct started as [u|m]; by injection H as <- <- <-.
Qed.

Lemma run_step_follows cfg s s' :
  server_inv file_resolver cfg s -> run_step (J:=J) file_resolver read create_enforcer strerror env s s' ->
  kernel_follows (loads_in_flight s) (controller_ (dmn s)) ->
  kernel_follows (loads_in_flight s') (controller_ (dmn s')).
Proof using Hfresh JsonLaws0.
  intros Hi Hstep Hk. pose proof (si_run _ _ _ Hi) as Hrun. unfold run_ok in Hrun.
  assert (run_thread s = RunStarting -> loads_in_flight s = [] /\ started_ (controller_ (dmn s)) = false) as Hstart.
  { intros Hr. rewrite Hr in Hrun. unfold loads_in_flight. rewrite (si_conns _ _ _ Hi) by apply Hrun.
    split; [done|apply Hrun]. }
  destruct Hstep as [d cs Hr Hst|m d cs Hr Hst|Hr Hn|Hr Ha|r d cs Hr Hf]; try done.
  1,2: destruct (Hstart Hr) as [Hno Hs]; unfold loads_in_flight in *; cbn in *; rewrite Hno in *;
    by eapply run_start_agrees.
  destruct (run_finish_wf _ _ _ _ _ _ _ (si_daemon _ _ _ Hi) Hf) as (Hd & -> & Hst & _).
  apply kernel_follows_off; [apply Hd|done].
Qed.

Lemma daemon_stop_kernel d :
  enforcer_ (controller_ (daemon_stop d).2) = enforcer_ (controller_ d) /\
  policy_manager_ (controller_ (daemon_stop d).2) = policy_manager_ (controller_ d).
Proof using Type. unfold daemon_stop. by destruct (running_ d). Qed.

Lemma main_step_follows cfg s s' :
  server_inv file_resolver cfg s -> main_returned s = false -> main_step (J:=J) s s' ->
  kernel_follows (loads_in_flight s) (controller_ (dmn s)) ->
  kernel_follows (loads_in_flight s') (controller_ (dmn s')).
Proof using EnforcerLaws0 JsonLaws0.
  intros Hi Hm Hstep Hk. pose proof (main_step_inv _ _ _ _ Hi Hm Hstep) as Hi'.
  destruct Hstep as [Hw Hl|Hw|r d Hw Hr Hd]; [done| |].
  - cbn. destruct (g_signal s =? 0); [done|]. by eapply kernel_follows_same, Hk; apply daemon_stop_kernel.
  - apply kernel_follows_off; [apply (si_daemon _ _ _ Hi')|]. by apply (si_main _ _ _ Hi' (serve_rc r)).
Qed.

Lemma serial_step_follows cfg s s' :
  server_inv file_resolver cfg s -> serial s -> serial_step s s' ->
  kernel_follows (loads_in_flight s) (controller_ (dmn s)) ->
  kernel_follows (loads_in_flight s') (controller_ (dmn s')).
Proof using Hfresh JsonLaws0.
  intros Hi Hs [(Hm & [[H|[H|H]]|[H|[H|H]]]) Hs'] Hk.
  - by eapply main_step_follows.
  - by eapply run_step_follows.
  - destruct H as [| | | |ev fd Ha Ht Hfd]; try done.
    unfold loads_in_flight in *. cbn [conns dmn] in *. rewrite omap_app. cbn. by rewrite app_nil_r.
  - by eapply conn_step_follows.
  - destruct (event_step_change _ _ _ _ _ Hi H) as (c & -> & _ & Ho & _).
    eapply kernel_follows_same, Hk; apply Ho.
  - by destruct H.
Qed.

Lemma serial_reachable cfg log_opens boot_offset d s :
  Daemon_create cfg log_opens boot_offset = Return d -> str_empty (dcfg_pid_file cfg) = false ->
  rtc serial_step (server_init d) s ->
  server_inv file_resolver cfg s /\ serial s /\ kernel_follows (loads_in_flight s) (controller_ (dmn s)).
Proof using Hfresh JsonLaws0.
  intros Hd Hpid Hr. pose proof (server_init_inv file_resolver cfg _ _ _ Hd) as Hi.
  assert (serial (server_init d)) as Hs by (unfold serial; cbn; lia).
  assert (kernel_follows (loads_in_flight (server_init d)) (controller_ (dmn (server_init d)))) as Hk.
  { apply outcome_bind_Return in Hd as (c & Hc & [= <-]).
    destruct (Controller_create_wf file_resolver _ _ _ _ Hc) as (_ & _ & _ & He & _). intros e He'. cbn in He'. congruence. }
  induction Hr as [|s1 s2 s3 Hst _ IH]; [done|]. apply IH.
  - by eapply server_step_inv; [..|apply Hst].
  - apply Hst.
  - by eapply serial_step_follows.
Qed.

(** ** What the host enforces *)

(** The host decides as [p] says: the status shows it, the verdict on every
    pair of identities is that of [p] as compiled, and for a default of DENY
    the verdict on every open of a resolvable file by a resolvable executable
    without aliases is the decision engine's on the paths. *)
Definition host_follows (e : E) p : Prop :=
  exists compiled,
    policy_expressible p /\
    (policy_version (enf_status e) = version p /\
     protected_count (enf_status e) = Z.of_nat (length (protected_resources p)) /\
     rule_count (enf_status e) = Z.of_nat (length (rules p))) /\
    compile file_resolver p = Ok compiled /\
    (forall res proc, enforced e res proc = compiled_verdict compiled res proc) /\
    (default_action p = Deny -> forall path exe res proc,
       resolves file_resolver path res -> resolves file_resolver exe proc ->
       no_alias file_resolver p path exe res proc ->
       enforced e res proc =
       if decide (action (evaluate p (open_request path exe)) = Allow) then 0 else - EACCES).

Lemma enforces_host_follows (e : E) p : enforces_policy file_resolver e p -> host_follows e p.
Proof using Type.
  intros (k & Hex & Hc & Hv & Hstatus). exists k. split_and!; try done; try apply Hstatus.
  intros Hdeny path exe res proc Hres Hproc Hal. rewrite Hv.
  rewrite (compiled_verdict_lookup file_resolver p k path exe) by done.
  apply evaluate_verdict. by rewrite Hdeny.
Qed.

(** C3 (the kernel enforces the current policy): as long as the load_policy
    calls of the connections do not overlap, in every state the server can
    reach in which the backend enforces, the host decides as the current
    policy says and the status shows that policy; between the critical
    sections of a load that has replaced the kernel's maps it is the policy
    of that load, which the call then makes the current one. *)
Theorem server_enforces_current cfg log_opens boot_offset d s (e : E) :
  Daemon_create cfg log_opens boot_offset = Return d -> str_empty (dcfg_pid_file cfg) = false ->
  rtc serial_step (server_init d) s ->
  enforcer_ (controller_ (dmn s)) = Some e -> enforcing (enf_status e) = true ->
  exists p, kernel_policy s = Some p /\ host_follows e p.
Proof.
  intros Hd Hpid Hr He Henf. destruct (serial_reachable _ _ _ _ _ Hd Hpid Hr) as (_ & _ & Hk).
  unfold kernel_policy. destruct (loads_in_flight s) as [|l ls]; cbn in Hk.
  - destruct (Hk e He Henf) as (p & Hp & Hpol). exists p. split; [done|]. by apply enforces_host_follows.
  - unfold loader_kernel in Hk. destruct (loader_applied l) as [q|].
    + destruct (Hk e He Henf) as (p & -> & Hpol). exists q. split; [done|]. by apply enforces_host_follows.
    + destruct (Hk e He Henf) as (p & Hp & Hpol). exists p. split; [done|]. by apply enforces_host_follows.
Qed.

(** ** A load that is left alone *)
Lemma set_conn_id s id fd at_ :
  conns s !! id = Some (fd, at_) -> set_conn s id fd at_ (with_controller (dmn s) (controller_ (dmn s))) = s.
Proof using Type.
  intros Hid. destruct s as [d m r a cs g k]; cbn in *. unfold set_conn; cbn. rewrite list_insert_id by done. by destruct d.
Qed.

Lemma set_conn_twice s id fd at1 at2 d1 d2 : set_conn (set_conn s id fd at1 d1) id fd at2 d2 = set_conn s id fd at2 d2.
Proof using Type. unfold set_conn; cbn. by rewrite list_insert_insert_eq. Qed.

Lemma set_conn_lookup s id fd at_ at' d :
  conns s !! id = Some (fd, at_) -> conns (set_conn s id fd at' d) !! id = Some (fd, at').
Proof using Type. intros Hid. cbn. apply list_lookup_insert_eq. by eapply lookup_lt_Some. Qed.

Lemma load_runs n s id fd l lines buf l' c :
  conns s !! id = Some (fd, ConnLoading l lines buf) ->
  load_alone file_resolver n l (controller_ (dmn s)) = (l', c) ->
  rtc (conn_step (J:=J) file_resolver) s (set_conn s id fd (ConnLoading l' lines buf) (with_controller (dmn s) c)).
Proof using Type.
  revert s l; induction n as [|n IH]; intros s l Hid; cbn [load_alone].
  { intros [= -> <-]. by rewrite set_conn_id. }
  destruct (load_advance file_resolver l (controller_ (dmn s))) as [l1 c1] eqn:Ha. intros Hn.
  destruct (load_returned l) eqn:Hret.
  - destruct l as [| | |r']; try done. injection Ha as <- <-. by apply (IH s (LoadReturned r')).
  - eapply rtc_l; [by eapply conn_load_goes|].
    pose proof (IH (set_conn s id fd (ConnLoading l1 lines buf) (with_controller (dmn s) c1)) l1) as Hrest.
    rewrite set_conn_twice in Hrest. apply Hrest; [by eapply set_conn_lookup|done].
Qed.

(** From the line of the request on. *)
Lemma load_line_runs n s id fd line lines buf p l c :
  conns s !! id = Some (fd, ConnLines (line :: lines) buf) -> load_request (J:=J) line = Some p ->
  load_alone file_resolver n (LoadCalled (Some p)) (controller_ (dmn s)) = (l, c) ->
  rtc (conn_step (J:=J) file_resolver) s (set_conn s id fd (ConnLoading l lines buf) (with_controller (dmn s) c)).
Proof using Type.
  intros Hid Hreq Hn. eapply rtc_l; [by eapply conn_loads|].
  pose proof (load_runs n (set_conn s id fd (ConnLoading (LoadCalled (Some p)) lines buf) (dmn s)) id fd
    (LoadCalled (Some p)) lines buf l c) as Hrun.
  rewrite set_conn_twice in Hrun. apply Hrun; [by eapply set_conn_lookup|done].
Qed.

(** Undisturbed, a load is handle_line: a connection whose next line asks
    for a load of a policy the parser accepts reaches, by its own steps alone,
    the state that handle_line makes in one, with the daemon that
    load_policy leaves; and it ends in the exception handle_line throws, if
    the reply cannot be written as JSON. *)
Theorem load_steps_alone s id fd line lines buf p :
  conns s !! id = Some (fd, ConnLines (line :: lines) buf) -> load_request (J:=J) line = Some p ->
  match handle_line (J:=J) file_resolver line (dmn s) with
  | Return (go_on, d, _) =>
     go_on = true /\ rtc (conn_step (J:=J) file_resolver) s (set_conn s id fd (ConnLines lines buf) d)
  | Throw w => exists s', rtc (conn_step (J:=J) file_resolver) s s' /\ throws s' w
  end.
Proof.
  intros Hid Hreq. rewrite (handle_load_line file_resolver line p _ Hreq).
  pose proof (load_alone_is_load_policy file_resolver (Some p) (controller_ (dmn s))) as Hal.
  destruct (load_policy file_resolver (Some p) (controller_ (dmn s))) as [r c]. cbn [fst snd] in Hal.
  set (s2 := set_conn s id fd (ConnLoading (LoadReturned r) lines buf) (with_controller (dmn s) c)).
  assert (rtc (conn_step (J:=J) file_resolver) s s2) as Hr by by eapply (load_line_runs 3).
  assert (conns s2 !! id = Some (fd, ConnLoading (LoadReturned r) lines buf)) as Hid2 by by eapply set_conn_lookup.
  destruct (json_dump (load_reply r (policy_manager_ c))) as [text|w] eqn:Ht; cbn.
  - split; [done|]. etrans; [exact Hr|]. apply rtc_once.
    rewrite <- (set_conn_twice s id fd (ConnLoading (LoadReturned r) lines buf) _ (with_controller (dmn s) c)).
    by eapply (conn_load_replies file_resolver s2).
  - exists s2. split; [done|]. by eapply throws_load_reply.
Qed.

Lemma conn_steps_server s s' : main_returned s = false -> rtc (conn_step (J:=J) file_resolver) s s' -> rtc step s s'.
Proof using Type.
  intros Hm Hr. induction Hr as [|s1 s2 s3 Hst _ IH]; [done|].
  eapply rtc_l; [split; [done|right; by left]|]. apply IH. by destruct Hst.
Qed.

(** C18 (overlapping loads leave two policies behind): if two connections are
    about to load policies that the backend takes one after the other, the
    first can be overtaken between its critical sections; both calls then
    return ok, the host decides as the second policy says and the status shows
    it, while the current policy, which `policy list` and the replies show, and
    the paths by which events are named are those of the first. *)
Theorem overlapping_loads_diverge s id1 id2 fd1 fd2 line1 line2 lines1 lines2 buf1 buf2 p1 p2 k1 k2 (e e1 e2 : E) :
  main_returned s = false -> id1 <> id2 ->
  conns s !! id1 = Some (fd1, ConnLines (line1 :: lines1) buf1) -> load_request (J:=J) line1 = Some p1 ->
  conns s !! id2 = Some (fd2, ConnLines (line2 :: lines2) buf2) -> load_request (J:=J) line2 = Some p2 ->
  enforcer_ (controller_ (dmn s)) = Some e ->
  compile file_resolver p1 = Ok k1 -> enf_apply_policy k1 e = (ok_v, e1) ->
  compile file_resolver p2 = Ok k2 -> enf_apply_policy k2 e1 = (ok_v, e2) -> enforcing (enf_status e2) = true ->
  exists s', rtc step s s' /\
    conns s' = <[id1 := (fd1, ConnLoading (LoadReturned ok_v) lines1 buf1)]>
                 (<[id2 := (fd2, ConnLoading (LoadReturned ok_v) lines2 buf2)]> (conns s)) /\
    enforcer_ (controller_ (dmn s')) = Some e2 /\ host_follows e2 p2 /\
    current_ (policy_manager_ (controller_ (dmn s'))) = Some p1 /\
    resolver_ (controller_ (dmn s')) = Some (build_resolver p1 k1).
Proof.
  intros Hm Hne Hid1 Hreq1 Hid2 Hreq2 He Hc1 Ha1 Hc2 Ha2 Henf.
  pose proof (proj2 (validate_iff_wf p1) (ex_wf p1 (load_request_sound line1 p1 Hreq1))) as Hv1.
  pose proof (proj2 (validate_iff_wf p2) (ex_wf p2 (load_request_sound line2 p2 Hreq2))) as Hv2.
  set (c := controller_ (dmn s)) in *. set (ca := with_enforcer c (Some e1)).
  set (sa := set_conn s id1 fd1 (ConnLoading (LoadApplied p1 k1) lines1 buf1) (with_controller (dmn s) ca)).
  assert (rtc (conn_step (J:=J) file_resolver) s sa) as Hra.
  { eapply (load_line_runs 1); [done..|]. cbn. fold c. by rewrite Hv1, Hc1, He, Ha1. }
  assert (conns sa !! id2 = Some (fd2, ConnLines (line2 :: lines2) buf2)) as Hida2.
  { cbn. by rewrite list_lookup_insert_ne. }
  assert (load_alone file_resolver 3 (LoadCalled (Some p2)) ca =
    (LoadReturned ok_v, with_policy (with_resolver (with_enforcer ca (Some e2)) (Some (build_resolver p2 k2)))
       (MkPolicyManager (Some p2)))) as Hal2.
  { cbn. rewrite Hv2, Hc2, Ha2. cbn. unfold manager_install. by rewrite Hv2. }
  set (cb := with_policy _ _) in Hal2.
  set (sb := set_conn sa id2 fd2 (ConnLoading (LoadReturned ok_v) lines2 buf2) (with_controller (dmn sa) cb)).
  assert (rtc (conn_step (J:=J) file_resolver) sa sb) as Hrb by by eapply (load_line_runs 3).
  assert (conns sb !! id1 = Some (fd1, ConnLoading (LoadApplied p1 k1) lines1 buf1)) as Hidb1.
  { cbn. rewrite list_lookup_insert_ne by done. apply list_lookup_insert_eq. by eapply lookup_lt_Some. }
  set (cd := with_policy (with_resolver cb (Some (build_resolver p1 k1))) (MkPolicyManager (Some p1))).
  assert (load_alone file_resolver 2 (LoadApplied p1 k1) cb = (LoadReturned ok_v, cd)) as Hal1.
  { cbn. unfold manager_install. by rewrite Hv1. }
  eexists. split; [apply conn_steps_server; [done|]; etrans; [exact Hra|]; etrans; [exact Hrb|]; by eapply (load_runs 2), Hal1|].
  split_and!; [|done| |done..].
  - cbn. by rewrite (list_insert_insert_ne _ id2 id1), list_insert_insert_eq.
  - apply enforces_host_follows, (apply_enforces file_resolver p2 k2 e1); try done. by apply (load_request_sound line2).
Qed.
End Loads.

(** ** A server over the Linux backend, in the middle of a load *)
Definition linux_config : DaemonConfig :=
  MkDaemonConfig (MkControllerConfig "" "/tmp/fileguard" true "" 8 EnforcerConfig_default)
    "/tmp/fileguard/fileguard.sock" "/tmp/fileguard/fileguard.pid".

Definition linux_load : outcome (ResultVoid * Daemon LE * list sys_call * (loader * Controller LE SocketStreamClient)) :=
  d ← Daemon_create linux_config true 0;
  x ← @run_start LE sample_ops jval daemon_json daemon_files no_strerror create_linux_enforcer no_files sample_env d;
  Return (x, @load_advance LE sample_ops SocketStreamClient daemon_files (LoadCalled (Some sample_json_policy))
               (controller_ x.1.2)).

Lemma linux_load_runs :
  exists d d1 cs k c e, Daemon_create linux_config true 0 = Return d /\
    @run_start LE sample_ops jval daemon_json daemon_files no_strerror create_linux_enforcer no_files
      sample_env d = Return (ok_v, d1, cs) /\ running_ d1 = true /\
    @load_advance LE sample_ops SocketStreamClient daemon_files (LoadCalled (Some sample_json_policy)) (controller_ d1) =
      (LoadApplied sample_json_policy k, c) /\
    enforcer_ c = Some e /\ enforcing (@enf_status LE sample_ops e) = true /\ current_ (policy_manager_ c) = None.
Proof.
  assert (match linux_load with
          | Return (Ok _, d, _, (l, c)) =>
             (running_ d, loader_applied l, match l with LoadApplied _ _ => true | _ => false end,
              match enforcer_ c with Some e => enforcing (@enf_status LE sample_ops e) | None => false end,
              current_ (policy_manager_ c))
          | _ => (false, None, false, false, None) end = (true, Some sample_json_policy, true, true, None)) as H
    by (vm_compute; reflexivity).
  unfold linux_load in H. destruct (Daemon_create linux_config true 0) as [d|w] eqn:Hd; cbn [mbind outcome_bind] in H; [|done].
  destruct (run_start _ _ _ _ _ _) as [[[[[]|m] d1] cs]|w] eqn:Hst; cbn [mbind outcome_bind] in H; [|done..].
  cbn [fst snd] in H. destruct (load_advance _ _ _) as [l c] eqn:Ha. injection H as H1 H2 H3 H4 H5.
  destruct l as [|p k|p|]; try done. injection H2 as ->.
  destruct (enforcer_ c) as [e|] eqn:He; [|done]. exists d, d1, cs, k, c, e. by split_and!.
Qed.

Abbreviation linux_step := (@server_step LE sample_ops jval daemon_json daemon_files no_files (fun _ => "")
  create_linux_enforcer no_strerror sample_env).
Abbreviation linux_serial_step := (@serial_step LE sample_ops jval daemon_json daemon_files no_files (fun _ => "")
  create_linux_enforcer no_strerror sample_env).

(** A connection has received a load request, and has replaced the maps. *)
Lemma linux_server_loading :
  exists d s1 s2 k e, Daemon_create linux_config true 0 = Return d /\
    rtc linux_serial_step (server_init d) s1 /\ conns s1 !! 0%nat = Some (5, ConnLines ["load"] "") /\
    rtc linux_serial_step s1 s2 /\
    loads_in_flight s2 = [LoadApplied sample_json_policy k] /\
    enforcer_ (controller_ (dmn s2)) = Some e /\ enforcing (@enf_status LE sample_ops e) = true /\
    current_ (policy_manager_ (controller_ (dmn s2))) = None.
Proof.
  destruct linux_load_runs as (d & d1 & cs & k & c & e & Hd & Hst & Hrun & Ha & He & Henf & Hcur).
  assert (forall s s', linux_step s s' -> (length (loads_in_flight s') <= 1)%nat -> linux_serial_step s s') as Hser
    by done.
  exists d. eexists _, _, k, e. split; [done|]. split; [|split; [|split]].
  - eapply rtc_l; [apply Hser; [split; [done|]; left; right; left; by apply (run_starts _ _ _ _ _ _ d1 cs)|cbn; lia]|].
    eapply rtc_l; [apply Hser; [split; [done|]; left; right; right; by apply accept_polls|cbn; lia]|].
    eapply rtc_l; [apply Hser; [split; [done|]; left; right; right; by apply (accept_client _ (Accepted 5) 5)|cbn; lia]|].
    eapply rtc_l; [apply Hser; [split; [done|]; right; left;
      by apply (conn_receives _ _ 0 5 "" ("load" +:+ newline) ["load"] "")|cbn; lia]|]. apply rtc_refl.
  - done.
  - eapply rtc_l; [apply Hser; [split; [done|]; right; left;
      by apply (conn_loads _ _ 0 5 "load" [] "" sample_json_policy)|cbn; lia]|].
    eapply rtc_l; [apply Hser; [split; [done|]; right; left;
      by apply (conn_load_goes _ _ 0 5 (LoadCalled (Some sample_json_policy)) [] "" (LoadApplied sample_json_policy k) c)|cbn; lia]|].
    apply rtc_refl.
  - by split_and!.
Qed.

Lemma serial_runs (s s' : server LE) : rtc linux_serial_step s s' -> rtc linux_step s s'.
Proof. induction 1 as [|s1 s2 s3 [H _] _ IH]; [done|]. by eapply rtc_l. Qed.

Lemma server_enforces_current_witness :
  exists s e, rtc linux_serial_step (server_init s.1) s.2 /\
    current_ (policy_manager_ (controller_ (dmn s.2))) = None /\
    @host_follows LE sample_ops sample_laws daemon_files e sample_json_policy.
Proof.
  destruct linux_server_loading as (d & s1 & s2 & k & e & Hd & Hr1 & _ & Hr2 & Hfl & He & Henf & Hcur).
  assert (rtc linux_serial_step (server_init d) s2) as Hr by (transitivity s1; assumption).
  exists (d, s2), e. split; [exact Hr|]. split; [exact Hcur|].
  destruct (@server_enforces_current LE sample_ops sample_laws jval daemon_json daemon_json_laws daemon_files
    no_files (fun _ => "") create_linux_enforcer no_strerror sample_env (fun _ => eq_refl) linux_config true 0
    d s2 e Hd eq_refl Hr He Henf) as (p & Hp & Hfollows).
  unfold kernel_policy in Hp. rewrite Hfl in Hp. injection Hp as <-. exact Hfollows.
Defined.

Definition loading_server : server NullEnforcer :=
  MkServer sample_daemon MainWaiting RunServing AcceptTop [(5, ConnLines ["load"] "")] 0 [].

Lemma load_steps_alone_witness :
  exists d, rtc (@conn_step NullEnforcer NullEnforcer_ops jval daemon_json daemon_files) loading_server
      (set_conn loading_server 0 5 (ConnLines [] "") d) /\
    current_ (policy_manager_ (controller_ d)) = Some sample_json_policy.
Proof.
  pose proof (@load_steps_alone NullEnforcer NullEnforcer_ops jval daemon_json daemon_files
    no_files NullEnforcer_create (fun _ => "") sample_env loading_server 0%nat 5 "load" [] "" sample_json_policy
    eq_refl eq_refl) as Hl.
  assert (match @handle_line NullEnforcer NullEnforcer_ops jval daemon_json daemon_files "load" sample_daemon with
          | Return (_, d, _) => current_ (policy_manager_ (controller_ d))
          | Throw _ => None end = Some sample_json_policy) as Hcur by (vm_compute; reflexivity).
  change (dmn loading_server) with sample_daemon in Hl.
  destruct (@handle_line NullEnforcer NullEnforcer_ops jval daemon_json daemon_files "load" sample_daemon)
    as [[[go_on d] out]|w]; [|discriminate].
  exists d. split; [exact (proj2 Hl)|exact Hcur].
Defined.

(** ** Two clients load at once, over the Linux backend *)
Definition load_line (p : Policy) : string :=
  match @json_dump jval text_json (@json_object jval text_json
          [("cmd", @json_string jval text_json "load_policy"); ("policy", @policy_json jval text_json p)]) with
  | Return text => text
  | Throw _ => ""
  end.

(** A policy that denies what [sample_json_policy] allows. *)
Definition deny_policy : Policy :=
  MkPolicy 4 Deny [MkResourceIdentity "/protected/secret.txt" (Some Open)] [].

Definition text_step := @server_step LE sample_ops jval text_json daemon_files no_files (fun _ => "")
  create_linux_enforcer no_strerror sample_env.

Definition two_loads (d : Daemon LE) : server LE :=
  MkServer d MainWaiting RunServing AcceptTop
    [(5, ConnLines [load_line sample_json_policy] ""); (6, ConnLines [load_line deny_policy] "")] 0 [].

Definition linux_started : outcome (ResultVoid * Daemon LE * list sys_call) :=
  d ← Daemon_create linux_config true 0;
  @run_start LE sample_ops jval text_json daemon_files no_strerror create_linux_enforcer no_files sample_env d.

(** What the backend makes of the two policies, one after the other. *)
Definition linux_installs (e : LE) : result (CompiledPolicy * LE * (CompiledPolicy * LE)) :=
  k1 ← compile daemon_files sample_json_policy;
  let '(r1, e1) := @enf_apply_policy LE sample_ops k1 e in
  _ ← r1;
  k2 ← compile daemon_files deny_policy;
  let '(r2, e2) := @enf_apply_policy LE sample_ops k2 e1 in
  _ ← r2;
  Ok (k1, e1, (k2, e2)).

Lemma linux_installs_run :
  exists d cs e k1 e1 k2 e2, linux_started = Return (ok_v, d, cs) /\ enforcer_ (controller_ d) = Some e /\
    compile daemon_files sample_json_policy = Ok k1 /\ @enf_apply_policy LE sample_ops k1 e = (ok_v, e1) /\
    compile daemon_files deny_policy = Ok k2 /\ @enf_apply_policy LE sample_ops k2 e1 = (ok_v, e2) /\
    enforcing (@enf_status LE sample_ops e2) = true.
Proof.
  assert (match linux_started with
          | Return (Ok _, d, _) => match enforcer_ (controller_ d) with
             | Some e => match linux_installs e with
                         | Ok (_, _, (_, e2)) => enforcing (@enf_status LE sample_ops e2) | Err _ => false end
             | None => false end
          | _ => false end = true) as H by (vm_compute; reflexivity).
  destruct linux_started as [[[[[]|m] d] cs]|w] eqn:Hst; [|done..].
  destruct (enforcer_ (controller_ d)) as [e|] eqn:He; [|done].
  destruct (linux_installs e) as [[[k1 e1] [k2 e2]]|m] eqn:Hin; [|done].
  unfold linux_installs in Hin.
  destruct (compile daemon_files sample_json_policy) as [k|m] eqn:Hc1; cbn [mbind result_bind] in Hin; [|done].
  destruct (enf_apply_policy k e) as [[[]|m] ea] eqn:Ha1; cbn [mbind result_bind] in Hin; [|done].
  destruct (compile daemon_files deny_policy) as [k'|m] eqn:Hc2; cbn [mbind result_bind] in Hin; [|done].
  destruct (enf_apply_policy k' ea) as [[[]|m] eb] eqn:Ha2; cbn [mbind result_bind] in Hin; [|done].
  injection Hin as -> -> -> ->. exists d, cs, e, k1, e1, k2, e2. by split_and!.
Qed.

Lemma overlapping_loads_diverge_witness :
  exists d s' e2, rtc text_step (two_loads d) s' /\ enforcer_ (controller_ (dmn s')) = Some e2 /\
    @host_follows LE sample_ops sample_laws daemon_files e2 deny_policy /\
    current_ (policy_manager_ (controller_ (dmn s'))) = Some sample_json_policy.
Proof.
  destruct linux_installs_run as (d & cs & e & k1 & e1 & k2 & e2 & _ & He & Hc1 & Ha1 & Hc2 & Ha2 & Henf). exists d.
  destruct (@overlapping_loads_diverge LE sample_ops sample_laws jval text_json text_laws daemon_files
    no_files (fun _ => "") create_linux_enforcer no_strerror sample_env
    (two_loads d) 0 1 5 6 (load_line sample_json_policy) (load_line deny_policy) [] [] "" ""
    sample_json_policy deny_policy k1 k2 e e1 e2 eq_refl ltac:(discriminate) eq_refl
    ltac:(vm_compute; reflexivity) eq_refl ltac:(vm_compute; reflexivity) He Hc1 Ha1 Hc2 Ha2 Henf)
    as (s' & Hr & _ & He' & Hf & Hcur & _).
  exists s', e2. split; [exact Hr|]. split; [exact He'|]. split; [exact Hf|exact Hcur].
Defined.
