(* ===== verification/ServerHistory.v ===== *)
(** * Which policy the kernel holds

    What the server's connections have received and what its loads have put
    into the kernel, recorded step by step (Server.v): the policy that governs
    the host is always exactly the one of the last load that the backend took,
    and that is the policy of a request a connection received, or the one of
    the policy file. *)

From S2P Require Import Prelude FileId Policy PolicyCompiler SpscQueue SecurityEvent Enforcer Json ConfigParser EventSink Controller LoadSteps.
From S2P Require Import EbpfManager EbpfProperties EbpfLifecycle ControllerProperties Daemon DaemonProperties ControllerInvariant Server ServerProperties ServerLife ServerLoads.

Local Open Scope Z_scope.

(** ** The record of a run *)
Inductive load_event :=
| LineReceived (id : nat) (line : string)   (* by the connection [id] *)
| LoadInstalled (id : nat) (p : Policy)     (* apply_policy has returned ok to its load of [p] *)
| FileInstalled (p : Policy).               (* Daemon::run has started with the policy file *)

(** What the thread of a connection does between two of its positions. *)
Definition conn_events (id : nat) (x y : conn_at) : list load_event :=
  match x, y with
  | ConnLoop _, ConnLines lines _ => LineReceived id <$> lines
  | ConnLoading (LoadCalled _) _ _, ConnLoading (LoadApplied p _) _ _ => [LoadInstalled id p]
  | _, _ => []
  end.
Fixpoint conns_events (id : nat) (xs ys : list (Z * conn_at)) : list load_event :=
  match xs, ys with
  | x :: xs, y :: ys => conn_events id x.2 y.2 ++ conns_events (S id) xs ys
  | _, _ => []
  end.

Definition install_event (ev : load_event) : option load_event :=
  match ev with LineReceived _ _ => None | _ => Some ev end.
Definition last_install (h : list load_event) : option load_event := last (omap install_event h).

Lemma conn_events_same id x : conn_events id x x = [].
Proof. by destruct x as [| |[]| | |]. Qed.

Lemma conns_events_same n xs : conns_events n xs xs = [].
Proof. revert n; induction xs as [|x xs IH]; intros n; [done|]. cbn. by rewrite conn_events_same, IH. Qed.

Lemma conns_events_new n xs ys : conns_events n xs (xs ++ ys) = [].
Proof. revert n; induction xs as [|x xs IH]; intros n; [done|]. cbn. by rewrite conn_events_same, IH. Qed.

Lemma conns_events_insert n xs id x y :
  xs !! id = Some x -> conns_events n xs (<[id := y]> xs) = conn_events (n + id) x.2 y.2.
Proof.
  revert n id; induction xs as [|z xs IH]; intros n [|id] Hid; try done; cbn in *.
  - injection Hid as ->. by rewrite conns_events_same, app_nil_r, Nat.add_0_r.
  - change (conn_events n z.2 z.2 ++ conns_events (S n) xs (<[id:=y]> xs) = conn_events (n + S id) x.2 y.2).
    rewrite conn_events_same, (IH (S n) id) by done. cbn. f_equal. lia.
Qed.

Lemma last_install_app h h' :
  last_install (h ++ h') = match last_install h' with Some ev => Some ev | None => last_install h end.
Proof. unfold last_install. by rewrite omap_app, last_app. Qed.

Lemma last_install_lines h id lines : last_install (h ++ (LineReceived id <$> lines)) = last_install h.
Proof.
  rewrite last_install_app. unfold last_install at 1.
  assert (omap install_event (LineReceived id <$> lines) = []) as -> by by induction lines.
  done.
Qed.

Lemma last_install_in h ev : last_install h = Some ev -> ev ∈ h.
Proof.
  intros Hl. apply last_Some_elem_of, list_elem_of_omap in Hl as (ev' & Hin & He). by destruct ev'; simplify_eq/=.
Qed.

Section History.
Context {E : Type} `{!IEnforcer E} `{!EnforcerLaws E} {J : Type} `{!Json J} `{!JsonLaws J}.
Context (file_resolver : FileResolver) (read : string -> file_read) (put_time : Z -> string).
Context (create_enforcer : EnforcerConfig -> E) (strerror : Z -> string) (env : run_env).
Context (Hfresh : forall cfg, enforcing (enf_status (create_enforcer cfg)) = false).
Implicit Types (d : Daemon E) (s : server E) (c : Controller E SocketStreamClient) (l : loader) (p : Policy) (h : list load_event).

Abbreviation step := (server_step (J:=J) file_resolver read put_time create_enforcer strerror env).

(** Start with the policy file [file], if one is configured. *)
Definition file_events (file : string) : list load_event :=
  if str_empty file then []
  else match from_file (J:=J) read file with Value p => [FileInstalled p] | _ => [] end.

Definition start_events s s' : list load_event :=
  match run_thread s, run_thread s' with
  | RunStarting, RunServing => file_events (policy_file (Controller.cfg_ (controller_ (dmn s))))
  | _, _ => []
  end.
Definition step_events s s' : list load_event := start_events s s' ++ conns_events 0 (conns s) (conns s').

(** The runs of the server, each with its record. *)
Inductive server_run d : list load_event -> server E -> Prop :=
| run_begins : server_run d [] (server_init d)
| run_goes_on h s s' : server_run d h s -> step s s' -> server_run d (h ++ step_events s s') s'.

(** Every run has one. *)
Lemma server_run_exists d s : rtc step (server_init d) s -> exists h, server_run d h s.
Proof using Type.
  assert (forall s1 s2, rtc step s1 s2 -> (exists h, server_run d h s1) -> exists h, server_run d h s2) as Hgo.
  { induction 1 as [|s1 s2 s3 Hst _ IH]; [done|]. intros [h Hh]. apply IH. eexists. by eapply run_goes_on. }
  intros Hr. eapply Hgo; [exact Hr|]. exists []. constructor.
Qed.

(** [id] has received a request to load [p]. *)
Definition asked h (id : nat) p : Prop :=
  exists line, LineReceived id line ∈ h /\ load_request (J:=J) line = Some p.

(** The policy of the event that put it into the kernel, and where it came
    from. *)
Definition event_policy (ev : load_event) : option Policy :=
  match ev with LineReceived _ _ => None | LoadInstalled _ p | FileInstalled p => Some p end.
Definition event_source (file : string) h (ev : load_event) : Prop :=
  match ev with
  | LineReceived _ _ => True
  | LoadInstalled id p => asked h id p
  | FileInstalled p => str_empty file = false /\ from_file (J:=J) read file = Value p
  end.

(** *** Positions against the record *)
Definition at_lines (at_ : conn_at) : list string :=
  match at_ with ConnLines lines _ | ConnLoading _ lines _ => lines | _ => [] end.
Definition at_policy (at_ : conn_at) : option Policy :=
  match at_ with
  | ConnLoading (LoadCalled po) _ _ => po
  | ConnLoading (LoadApplied p _) _ _ | ConnLoading (LoadResolved p) _ _ => Some p
  | _ => None
  end.
Record at_recorded h (id : nat) (at_ : conn_at) : Prop := {
  ar_lines : Forall (fun line => LineReceived id line ∈ h) (at_lines at_);
  ar_policy : forall p, at_policy at_ = Some p -> asked h id p;
}.

Lemma asked_app h h' id p : asked h id p -> asked (h ++ h') id p.
Proof using Type. intros (line & Hin & Hl). exists line. split; [apply elem_of_app; by left|done]. Qed.

Lemma at_recorded_app h h' id at_ : at_recorded h id at_ -> at_recorded (h ++ h') id at_.
Proof using Type.
  intros [Hl Hp]. split; [|intros p ?; by apply asked_app, Hp].
  eapply Forall_impl; [exact Hl|]. intros line Hin. apply elem_of_app. by left.
Qed.

Lemma event_source_app file h h' ev : event_source file h ev -> event_source file (h ++ h') ev.
Proof using Type. destruct ev; [done|apply asked_app|done]. Qed.

(** *** The invariant of a run *)
Definition follows_last h c : Prop :=
  kernel_enforces file_resolver c (fun p => exists ev, last_install h = Some ev /\ event_policy ev = Some p).

Record history_inv d h s : Prop := {
  hi_conns : forall id fd at_, conns s !! id = Some (fd, at_) -> at_recorded h id at_;
  hi_events : Forall (event_source (policy_file (Controller.cfg_ (controller_ d))) h) h;
  hi_kernel : follows_last h (controller_ (dmn s));
  hi_start : run_thread s = RunStarting -> controller_ (dmn s) = controller_ d;
}.

(** A step that adds [evs] to the record. *)
Lemma history_extends d h evs s s' :
  history_inv d h s ->
  (forall id fd at_, conns s' !! id = Some (fd, at_) -> at_recorded (h ++ evs) id at_) ->
  Forall (event_source (policy_file (Controller.cfg_ (controller_ d))) (h ++ evs)) evs ->
  follows_last (h ++ evs) (controller_ (dmn s')) ->
  (run_thread s' = RunStarting -> controller_ (dmn s') = controller_ d) ->
  history_inv d (h ++ evs) s'.
Proof using Type.
  intros Hh Hc He Hk Hs. split; [done| |done|done]. apply Forall_app. split; [|done].
  eapply Forall_impl; [apply Hh|]. intros ev. apply event_source_app.
Qed.

Lemma follows_last_same h h' c c' :
  last_install h' = last_install h -> enforcer_ c' = enforcer_ c -> follows_last h c -> follows_last h' c'.
Proof using Type. unfold follows_last. intros -> Hc. by apply kernel_enforces_same. Qed.

Lemma follows_last_off h c : backend_off c -> started_ c = false -> follows_last h c.
Proof using EnforcerLaws0. by apply backend_off_enforces. Qed.

(** A step that no connection's record depends on. *)
Lemma history_quiet d h s s' :
  history_inv d h s -> start_events s s' = [] -> conns_events 0 (conns s) (conns s') = [] ->
  (forall id fd at_, conns s' !! id = Some (fd, at_) -> at_recorded h id at_) ->
  follows_last h (controller_ (dmn s')) ->
  (run_thread s' = RunStarting -> controller_ (dmn s') = controller_ d) ->
  history_inv d (h ++ step_events s s') s'.
Proof using Type.
  intros Hh H1 H2 Hc Hk Hs. unfold step_events. rewrite H1, H2. apply history_extends with (s := s);
    by rewrite ?app_nil_r.
Qed.

(** *** A connection's step *)
Lemma step_events_conn s id fd at_ at_' d' :
  conns s !! id = Some (fd, at_) -> step_events s (set_conn s id fd at_' d') = conn_events id at_ at_'.
Proof using Type.
  intros Hid. unfold step_events, start_events. cbn [run_thread conns set_conn].
  rewrite (conns_events_insert 0 _ _ _ _ Hid). by destruct (run_thread s).
Qed.

Lemma conn_history d h s id fd at_ at_' d' :
  history_inv d h s -> run_thread s <> RunStarting -> conns s !! id = Some (fd, at_) ->
  at_recorded (h ++ conn_events id at_ at_') id at_' ->
  Forall (event_source (policy_file (Controller.cfg_ (controller_ d))) (h ++ conn_events id at_ at_'))
    (conn_events id at_ at_') ->
  follows_last (h ++ conn_events id at_ at_') (controller_ d') ->
  history_inv d (h ++ step_events s (set_conn s id fd at_' d')) (set_conn s id fd at_' d').
Proof using Type.
  intros Hh Hns Hid Hat He Hk. rewrite (step_events_conn _ _ _ _ _ _ Hid).
  apply history_extends with (s := s); try done.
  intros id' fd' x. cbn [conns set_conn]. intros [(-> & [= -> ->] & _)|[Hne Hx]]%list_lookup_insert_Some; [done|].
  by eapply at_recorded_app, hi_conns.
Qed.

(** One that is not recorded. *)
Lemma conn_history_quiet d h s id fd at_ at_' d' :
  history_inv d h s -> run_thread s <> RunStarting -> conns s !! id = Some (fd, at_) ->
  conn_events id at_ at_' = [] -> at_recorded h id at_' -> follows_last h (controller_ d') ->
  history_inv d (h ++ step_events s (set_conn s id fd at_' d')) (set_conn s id fd at_' d').
Proof using Type.
  intros Hh Hns Hid He Hat Hk. apply (conn_history _ _ _ _ _ at_); by rewrite ?He, ?app_nil_r.
Qed.

Lemma at_recorded_idle h id at_ : at_lines at_ = [] -> at_policy at_ = None -> at_recorded h id at_.
Proof using Type. intros Hl Hp. split; [rewrite Hl; by constructor|intros p; congruence]. Qed.

(** The next critical section of a load. *)
Lemma load_history cfg d h s id fd l lines buf l' c :
  server_inv file_resolver cfg s -> history_inv d h s -> run_thread s <> RunStarting ->
  conns s !! id = Some (fd, ConnLoading l lines buf) ->
  load_advance file_resolver l (controller_ (dmn s)) = (l', c) ->
  history_inv d (h ++ step_events s (set_conn s id fd (ConnLoading l' lines buf) (with_controller (dmn s) c)))
    (set_conn s id fd (ConnLoading l' lines buf) (with_controller (dmn s) c)).
Proof using EnforcerLaws0.
  intros Hi Hh Hns Hid Ha. pose proof (conn_load_wf _ _ _ _ _ _ _ _ Hi Hid) as Hwf.
  destruct (hi_conns _ _ _ Hh _ _ _ Hid) as [Hlines Hpol]. pose proof (hi_kernel _ _ _ Hh) as Hk.
  destruct l as [po|p k|p|r]; cbn [load_advance] in Ha.
  - destruct (load_apply_kernel file_resolver po _ l' c Ha Hwf) as [(r & -> & Hkept & _)|(p & k & -> & Hp)].
    + apply (conn_history_quiet _ _ _ _ _ (ConnLoading (LoadCalled po) lines buf)); [done..| |]; [by split|].
      by eapply kernel_kept_enforces.
    + apply load_apply_cases in Ha as [(? & [=] & _)|(p' & k' & -> & _ & _ & [= -> ->] & _)].
      assert (asked h id p') as Hask by by apply Hpol.
      apply (conn_history _ _ _ _ _ (ConnLoading (LoadCalled (Some p')) lines buf)); [done..| | |]; cbn [conn_events].
      * apply at_recorded_app. split; [done|]. by intros q [= <-].
      * apply Forall_singleton. by apply asked_app.
      * eapply kernel_enforces_weaken; [|exact Hp]. intros q ->. exists (LoadInstalled id p').
        by rewrite last_install_app.
  - injection Ha as <- <-. apply (conn_history_quiet _ _ _ _ _ (ConnLoading (LoadApplied p k) lines buf)); [done..| |]; [by split|].
    by eapply follows_last_same, Hk.
  - destruct (manager_install _ _) as [r m]. injection Ha as <- <-.
    apply (conn_history_quiet _ _ _ _ _ (ConnLoading (LoadResolved p) lines buf)); [done..| |]; [by split|].
    by eapply follows_last_same, Hk.
  - injection Ha as <- <-. apply (conn_history_quiet _ _ _ _ _ (ConnLoading (LoadReturned r) lines buf)); [done..| |]; [by split|done].
Qed.

Lemma conn_step_history cfg d h s s' :
  server_inv file_resolver cfg s -> history_inv d h s -> conn_step (J:=J) file_resolver s s' ->
  history_inv d (h ++ step_events s s') s'.
Proof using EnforcerLaws0 JsonLaws0.
  intros Hi Hh Hstep. pose proof (hi_kernel _ _ _ Hh) as Hk.
  destruct Hstep as [id fd buf chunk lines buf' Hid|id fd buf Hid|id fd buf Hid
    |id fd line lines buf go_on d1 out Hid Hreq Hl|id fd line lines buf p Hid Hreq|id fd l lines buf l' c Hid Hret Ha
    |id fd r lines buf text Hid Ht|id fd d1 Hid He|id fd Hid];
    pose proof (conn_not_starting _ _ _ _ _ Hi Hid) as Hns; pose proof (hi_conns _ _ _ Hh _ _ _ Hid) as [Hlines Hpol];
    cbn [at_lines at_policy] in *; rewrite ?Forall_cons in Hlines.
  - apply (conn_history _ _ _ _ _ (ConnLoop buf)); [done..| | |]; cbn [conn_events].
    + split; [|done]. apply Forall_forall. intros line Hin. apply elem_of_app. right. by apply list_elem_of_fmap_2.
    + by apply Forall_fmap, Forall_true.
    + by apply (follows_last_same h _ (controller_ (dmn s))); [apply last_install_lines|..].
  - by apply (conn_history_quiet _ _ _ _ _ (ConnLoop buf)); [..|apply at_recorded_idle|].
  - by apply (conn_history_quiet _ _ _ _ _ (ConnLines [] buf)); [..|apply at_recorded_idle|].
  - apply (conn_history_quiet _ _ _ _ _ (ConnLines (line :: lines) buf)); [done..|by destruct go_on| |].
    + destruct go_on; [|by apply at_recorded_idle]. by split; [apply Hlines|].
    + by destruct (handle_plain_line file_resolver _ _ _ _ _ Hreq Hl) as [->| ->].
  - apply (conn_history_quiet _ _ _ _ _ (ConnLines (line :: lines) buf)); [done..| |done].
    split; [apply Hlines|]. intros q [= <-]. exists line. split; [apply Hlines|done].
  - by eapply load_history.
  - by apply (conn_history_quiet _ _ _ _ _ (ConnLoading (LoadReturned r) lines buf)); [..|split|].
  - apply (conn_history_quiet _ _ _ _ _ ConnEntering); [done..|by apply at_recorded_idle|].
    apply outcome_bind_Return in He as (cl & _ & [= <-]). by eapply follows_last_same, Hk.
  - apply (conn_history_quiet _ _ _ _ _ ConnStreaming); [done..|by apply at_recorded_idle|].
    by eapply follows_last_same, Hk.
Qed.

(** *** The other threads' steps *)

(** They leave the connections as they are. *)
Lemma history_same_conns d h s s' :
  history_inv d h s -> start_events s s' = [] -> conns s' = conns s -> follows_last h (controller_ (dmn s')) ->
  (run_thread s' = RunStarting -> controller_ (dmn s') = controller_ d) ->
  history_inv d (h ++ step_events s s') s'.
Proof using Type.
  intros Hh He Hc Hk Hs. apply history_quiet; rewrite ?Hc; try done; [apply conns_events_same|apply Hh].
Qed.

Lemma start_events_same s s' : run_thread s' = run_thread s -> start_events s s' = [].
Proof using Type. unfold start_events. intros ->. by destruct (run_thread s). Qed.

Lemma run_start_kernel d1 r d2 cs (P : Policy -> Prop) :
  run_start (J:=J) file_resolver strerror create_enforcer read env d1 = Return (r, d2, cs) ->
  started_ (controller_ d1) = false -> kernel_enforces file_resolver (controller_ d1) P ->
  let file := policy_file (Controller.cfg_ (controller_ d1)) in
  kernel_enforces file_resolver (controller_ d2) (match r with
    | Ok _ => fun p => str_empty file = false /\ from_file (J:=J) read file = Value p
    | Err _ => P
    end).
Proof using Hfresh EnforcerLaws0 JsonLaws0.
  intros H Hs HP file. unfold run_start in H. destruct (_ <=? _)%nat; [by simplify_eq|].
  destruct (socket_errno env); [by simplify_eq|]. destruct (bind_errno env); [by simplify_eq|].
  destruct (listen_errno env); [by simplify_eq|].
  apply outcome_bind_Return in H as ([started c] & Hst & H).
  pose proof (start_kernel file_resolver create_enforcer read _ _ _ Hfresh Hs Hst) as Hk.
  destruct started as [u|m]; injection H as <- <- <-; (eapply kernel_enforces_weaken; [|exact Hk]);
    by intros q (? & ? & ? & _).
Qed.

Lemma run_step_history cfg d h s s' :
  server_inv file_resolver cfg s -> history_inv d h s ->
  run_step (J:=J) file_resolver read create_enforcer strerror env s s' ->
  history_inv d (h ++ step_events s s') s'.
Proof using Hfresh EnforcerLaws0 JsonLaws0.
  intros Hi Hh Hstep. pose proof (hi_kernel _ _ _ Hh) as Hk. pose proof (si_run _ _ _ Hi) as Hrun. unfold run_ok in Hrun.
  destruct Hstep as [d1 cs Hr Hst|m d1 cs Hr Hst|Hr Hn|Hr Ha|r d1 cs Hr Hf].
  - rewrite Hr in Hrun. assert (started_ (controller_ (dmn s)) = false) as Hs by apply Hrun.
    pose proof (run_start_kernel _ _ _ _ _ Hst Hs Hk) as Hk'. cbn beta iota zeta in Hk'.
    rewrite (hi_start _ _ _ Hh Hr) in Hk'.
    unfold step_events. cbn [conns set_accept set_run]. rewrite conns_events_same, app_nil_r.
    unfold start_events. rewrite Hr. cbn [run_thread set_accept set_run]. rewrite (hi_start _ _ _ Hh Hr).
    apply history_extends with (s := s); try done.
    + intros id fd at_ Hid. by eapply at_recorded_app, hi_conns.
    + unfold file_events. destruct (str_empty _) eqn:Hfile; [done|].
      destruct (from_file _ _) eqn:Hp; [by apply Forall_singleton|done..].
    + eapply kernel_enforces_weaken; [|exact Hk']. intros p [Hfile Hp]. exists (FileInstalled p).
      by rewrite last_install_app; unfold file_events; rewrite Hfile, Hp.
  - apply history_same_conns; try done.
    + unfold start_events. cbn. by rewrite Hr.
    + rewrite Hr in Hrun. by apply (run_start_kernel _ _ _ _ _ Hst (proj1 (proj2 (proj2 Hrun)))).
  - apply history_same_conns; try done. unfold start_events. cbn. by rewrite Hr.
  - apply history_same_conns; try done. unfold start_events. cbn. by rewrite Hr.
  - apply history_same_conns; try done; [by unfold start_events; cbn; rewrite Hr|].
    destruct (run_finish_wf _ _ _ _ _ _ _ (si_daemon _ _ _ Hi) Hf) as (Hd & -> & Hst & _).
    by apply follows_last_off; [apply Hd|].
Qed.

Lemma daemon_stop_idle d1 : running_ d1 = false -> controller_ (daemon_stop d1).2 = controller_ d1.
Proof using Type. unfold daemon_stop. by intros ->. Qed.

Lemma main_step_history cfg d h s s' :
  server_inv file_resolver cfg s -> main_returned s = false -> history_inv d h s -> main_step (J:=J) s s' ->
  history_inv d (h ++ step_events s s') s'.
Proof using EnforcerLaws0 JsonLaws0.
  intros Hi Hm Hh Hstep. pose proof (main_step_inv _ _ _ _ Hi Hm Hstep) as Hi'. pose proof (hi_kernel _ _ _ Hh) as Hk.
  destruct Hstep as [Hw Hl|Hw|r d1 Hw Hr Hd].
  - apply history_same_conns; [done|by apply start_events_same|done|done|apply Hh].
  - apply history_same_conns; [done|by apply start_events_same|done| |]; cbn.
    + destruct (g_signal s =? 0); [done|]. by eapply follows_last_same, Hk; [|apply daemon_stop_kernel].
    + intros Hr. destruct (g_signal s =? 0); [by apply Hh|].
      destruct (running_ (dmn s)) eqn:Hrun; [by rewrite (si_running _ _ _ Hi Hrun) in Hr|].
      rewrite daemon_stop_idle by done. by apply Hh.
  - apply history_same_conns; [done|by apply start_events_same|done| |]; cbn; [|by rewrite Hr].
    apply follows_last_off; [apply (si_daemon _ _ _ Hi')|]. by apply (si_main _ _ _ Hi' (serve_rc r)).
Qed.

Lemma accept_step_history d h s s' :
  history_inv d h s -> accept_step s s' -> history_inv d (h ++ step_events s s') s'.
Proof using Type.
  intros Hh Hstep. pose proof (hi_kernel _ _ _ Hh) as Hk. pose proof (hi_start _ _ _ Hh) as Hs.
  destruct Hstep as [| | | |ev fd Ha Ht Hfd];
    try (apply history_same_conns; [done|by apply start_events_same|done..]).
  apply history_quiet; [done|by apply start_events_same|apply conns_events_new| |done|done].
  intros id fd' at_ [Hid|[_ Hid]]%lookup_app_Some; [by eapply hi_conns|].
  apply list_lookup_singleton_Some in Hid as [_ [= -> <-]]. by apply at_recorded_idle.
Qed.

Lemma server_step_history cfg d h s s' :
  server_inv file_resolver cfg s -> history_inv d h s -> step s s' -> history_inv d (h ++ step_events s s') s'.
Proof using Hfresh EnforcerLaws0 JsonLaws0.
  intros Hi Hh (Hm & [[H|[H|H]]|[H|[H|H]]]).
  - by eapply main_step_history.
  - by eapply run_step_history.
  - by eapply accept_step_history.
  - by eapply conn_step_history.
  - destruct (event_step_change _ _ _ _ _ Hi H) as (c & -> & _ & Ho & Hns).
    apply history_same_conns; [done|by apply start_events_same|done| |done].
    eapply follows_last_same, Hh; [done|apply Ho].
  - destruct H. apply history_same_conns; [done|by apply start_events_same|done|apply Hh|apply Hh].
Qed.

Lemma server_run_history cfg log_opens boot_offset d h s :
  Daemon_create cfg log_opens boot_offset = Return d -> str_empty (dcfg_pid_file cfg) = false ->
  server_run d h s -> server_inv file_resolver cfg s /\ history_inv d h s.
Proof using Hfresh EnforcerLaws0 JsonLaws0.
  intros Hd Hpid Hr. induction Hr as [|h s s' Hr [Hi Hh] Hst].
  - split; [by eapply server_init_inv|]. split; try done.
    apply outcome_bind_Return in Hd as (c & Hc & [= <-]).
    destruct (Controller_create_wf file_resolver _ _ _ _ Hc) as (_ & _ & _ & He & _). intros e He'. cbn in He'. congruence.
  - split; [by eapply server_step_inv|by eapply server_step_history].
Qed.

(** C17 (the kernel holds the last policy that was loaded): in every run of the
    server, however the load_policy calls of its connections interleave, and
    between any two of their critical sections, if the backend enforces at
    all then the host decides exactly as one policy says, the one of the last
    load that the backend took; and that policy was not made up by the daemon:
    it is what the parser reads in a line that this very connection received,
    or in the policy file the daemon started with. *)
Theorem kernel_holds_last_load cfg log_opens boot_offset d h s (e : E) :
  Daemon_create cfg log_opens boot_offset = Return d -> str_empty (dcfg_pid_file cfg) = false ->
  server_run d h s ->
  enforcer_ (controller_ (dmn s)) = Some e -> enforcing (enf_status e) = true ->
  exists p, host_follows file_resolver e p /\
    ((exists id line, last_install h = Some (LoadInstalled id p) /\
        LineReceived id line ∈ h /\ load_request (J:=J) line = Some p) \/
     (last_install h = Some (FileInstalled p) /\ str_empty (policy_file (dcfg_controller cfg)) = false /\
        from_file (J:=J) read (policy_file (dcfg_controller cfg)) = Value p)).
Proof.
  intros Hd Hpid Hr He Henf. destruct (server_run_history _ _ _ _ _ _ Hd Hpid Hr) as [_ [_ Hev Hk _]].
  destruct (Hk e He Henf) as (p & (ev & Hlast & Hp) & Hpol). exists p. split; [by apply enforces_host_follows|].
  rewrite Forall_forall in Hev. specialize (Hev ev (last_install_in _ _ Hlast)).
  apply outcome_bind_Return in Hd as (c & (q & _ & [= <-])%outcome_bind_Return & [= <-]).
  destruct ev as [id line|id q'|q']; [done|left|right]; injection Hp as ->.
  - destruct Hev as (line & Hin & Hl). by exists id, line.
  - by split_and!; [|apply Hev..].
Qed.
End History.

(** ** The server of ServerLoads.v, in the middle of its load *)
Lemma kernel_holds_last_load_witness :
  exists d h s e id line p,
    @server_run LE sample_ops jval daemon_json daemon_files no_files (fun _ => "") create_linux_enforcer
      no_strerror sample_env d h s /\
    last_install h = Some (LoadInstalled id p) /\ @load_request jval daemon_json line = Some p /\
    enforcer_ (controller_ (dmn s)) = Some e /\ @host_follows LE sample_ops sample_laws daemon_files e p.
Proof.
  destruct linux_server_loading as (d & s1 & s2 & k & e & Hd & Hr1 & _ & Hr2 & Hfl & He & Henf & _).
  assert (rtc linux_step (server_init d) s2) as Hr by (apply serial_runs; transitivity s1; assumption).
  destruct (@server_run_exists LE sample_ops jval daemon_json daemon_files no_files (fun _ => "")
    create_linux_enforcer no_strerror sample_env d s2 Hr) as [h Hh].
  destruct (@kernel_holds_last_load LE sample_ops sample_laws jval daemon_json daemon_json_laws daemon_files
    no_files (fun _ => "") create_linux_enforcer no_strerror sample_env (fun _ => eq_refl) linux_config true 0
    d h s2 e Hd eq_refl Hh He Henf) as (p & Hf & [(id & line & Hlast & _ & Hl)|(_ & Hno & _)]).
  - exists d, h, s2, e, id, line, p.
    split; [exact Hh|]. split; [exact Hlast|]. split; [exact Hl|]. split; [exact He|exact Hf].
  - discriminate Hno.
Defined.
