(* ===== verification/Connections.v ===== *)
(** * Connections, stream clients and descriptors

    Server.v takes entering and leaving the streaming mode as one step each.
    Here Daemon::handle_client, Daemon::enter_stream_mode, Daemon::stop
    (src/daemon.cpp), the client loop of Controller::consumer_loop
    (src/controller.cpp) and the threads of the SocketStreamClient objects are
    cut at every access to what they share:

    - the client objects, in a store, with the shared_ptr references that the
      connection's thread, [clients_] of the controller and [stream_clients_]
      of the daemon hold, and the destructor that the thread giving up the
      last reference runs;
    - the process's descriptors: a number is what the threads hold, and what
      it stands for is looked up at every system call;
    - [clients_mu_] and [stream_clients_mu_].

    Connections are numbered as they are accepted; the number also names the
    socket and the client object the connection may create. *)

From S2P Require Import Prelude FileId Policy PolicyCompiler SpscQueue SecurityEvent Enforcer Json ConfigParser EventSink Controller Daemon.

Local Open Scope Z_scope.

(** ** Descriptors *)

(** The number accept(2) gives a new socket, from those in use: one that is
    not among them.  POSIX has it return the lowest, [next_fd]. *)
Class Descriptors := { accept_fd : gset Z -> Z }.
Class DescriptorLaws `{Descriptors} := {
  accept_fd_fresh used : 0 <= accept_fd used /\ accept_fd used ∉ used;
}.

Fixpoint first_free (n : nat) (from : Z) (used : gset Z) : Z :=
  match n with
  | O => from
  | S n => if bool_decide (from ∈ used) then first_free n (from + 1) used else from
  end.
Definition next_fd (used : gset Z) : Z := first_free (size used) 0 used.
Definition lowest_fd : Descriptors := {| accept_fd := next_fd |}.

(** What was done to a socket, by which thread. *)
Inductive actor :=
| Task (id : nat)          (* the thread of the connection *)
| Writer (id : nat)        (* the writer thread of its client object *)
| Destructor (id : nat).   (* the destructor of its client object *)
Definition actor_conn (a : actor) : nat :=
  match a with Task id | Writer id | Destructor id => id end.

Inductive io_call := IoRecv | IoSend (text : string) | IoClose.
Record io := MkIo { io_by : actor; io_done : io_call; io_on : nat }.

(** ** Client objects *)

(** SocketStreamClient::writer_loop, between two accesses. *)
Inductive writer_at :=
| WriterTop                   (* while (!closed_) *)
| WriterPopping               (* queue_.pop(line) *)
| WriterSending (rest : string)
| WriterEnded.

(** The thread that gives up the last reference runs the destructor. *)
Inductive dropper := ByConnection | ByConsumer | ByStop.
Inductive object_life :=
| Alive
| Joining (by_ : dropper)     (* writer_.join() *)
| Closing (by_ : dropper)     (* ::close(fd_) *)
| Destroyed (by_ : dropper).

Record stream_object := MkStreamObject {
  so_client : SocketStreamClient;
  so_refs : nat;
  so_writer : writer_at;
  so_life : object_life;
}.

Definition with_client (o : stream_object) (cl : SocketStreamClient) : stream_object :=
  MkStreamObject cl (so_refs o) (so_writer o) (so_life o).
Definition with_writer (o : stream_object) (w : writer_at) : stream_object :=
  MkStreamObject (so_client o) (so_refs o) w (so_life o).
Definition with_life (o : stream_object) (l : object_life) : stream_object :=
  MkStreamObject (so_client o) (so_refs o) (so_writer o) l.

(** Copying and destroying a shared_ptr. *)
Definition retain (o : stream_object) : stream_object :=
  MkStreamObject (so_client o) (S (so_refs o)) (so_writer o) (so_life o).
Definition release (by_ : dropper) (o : stream_object) : stream_object :=
  MkStreamObject (so_client o) (pred (so_refs o)) (so_writer o)
    (if bool_decide (so_refs o = 1%nat) then Joining by_ else so_life o).

(** The end of writer_loop: closed_.store(true). *)
Definition writer_end (o : stream_object) : stream_object :=
  let cl := so_client o in
  with_writer (with_client o (MkSocketStreamClient (fd_ cl) (client_queue_ cl) true (dropped_ cl))) WriterEnded.

(** ** The threads *)

(** handle_client and enter_stream_mode, before which access. *)
Inductive task_at :=
| AtLoop (buf : string)                        (* while (running_), poll, recv *)
| AtLines (lines : list string) (buf : string)
| AtReply (rest : string) (go_on : bool) (lines : list string) (buf : string)
| AtClose                                      (* ::close(fd) of handle_client *)
| AtCreate                                     (* make_shared<SocketStreamClient>(fd) *)
| AtTrack                                      (* stream_clients_.push_back(client) *)
| AtRegister                                   (* add_event_stream_client(client) *)
| AtWait                                       (* while (running_), poll, recv *)
| AtUnregister                                 (* remove_event_stream_client *)
| AtShutdown                                   (* client->shutdown() *)
| AtForget                                     (* erase_if(stream_clients_, ...) *)
| AtCloseStream                                (* ::close(fd) of enter_stream_mode *)
| AtRelease                                    (* client goes out of scope *)
| AtEnd.

(** Daemon::stop. *)
Inductive stop_at :=
| StopIdle
| StopLocking                    (* running_ was true; lock stream_clients_mu_ *)
| StopShutting (left : list nat). (* under the lock: these are still to be shut down *)

Section Connections.
Context {E : Type} `{!IEnforcer E} {J : Type} `{!Json J}.
Context (file_resolver : FileResolver).
(** The descriptors that are open before the first connection. *)
Context (reserved : gset Z) {D : Descriptors}.

Record sockets := MkSockets {
  base : Daemon E;                (* the daemon, apart from its stream clients *)
  tasks : list (Z * task_at);     (* descriptor and position, by connection *)
  objects : gmap nat stream_object;
  registered_ : list nat;         (* clients_ of the controller *)
  tracked_ : list nat;            (* stream_clients_ *)
  fds : gmap Z nat;               (* the socket each open descriptor stands for *)
  delivering : option (SecurityEvent * list nat * list nat); (* the consumer's loop over clients_, under
                                     clients_mu_: the event, and the clients before and from [it] *)
  stopping : stop_at;
  wire : list io;
}.

Definition sockets_init (d : Daemon E) : sockets := MkSockets d [] ∅ [] [] ∅ None StopIdle [].

Definition set_base (d : Daemon E) (s : sockets) : sockets :=
  MkSockets d (tasks s) (objects s) (registered_ s) (tracked_ s) (fds s) (delivering s) (stopping s) (wire s).
Definition set_task (id : nat) (fd : Z) (at_ : task_at) (s : sockets) : sockets :=
  MkSockets (base s) (<[id := (fd, at_)]> (tasks s)) (objects s) (registered_ s) (tracked_ s) (fds s)
    (delivering s) (stopping s) (wire s).
Definition set_objects (os : gmap nat stream_object) (s : sockets) : sockets :=
  MkSockets (base s) (tasks s) os (registered_ s) (tracked_ s) (fds s) (delivering s) (stopping s) (wire s).
Definition set_registered (ids : list nat) (s : sockets) : sockets :=
  MkSockets (base s) (tasks s) (objects s) ids (tracked_ s) (fds s) (delivering s) (stopping s) (wire s).
Definition set_tracked (ids : list nat) (s : sockets) : sockets :=
  MkSockets (base s) (tasks s) (objects s) (registered_ s) ids (fds s) (delivering s) (stopping s) (wire s).
Definition set_delivering (x : option (SecurityEvent * list nat * list nat)) (s : sockets) : sockets :=
  MkSockets (base s) (tasks s) (objects s) (registered_ s) (tracked_ s) (fds s) x (stopping s) (wire s).
Definition set_stopping (x : stop_at) (s : sockets) : sockets :=
  MkSockets (base s) (tasks s) (objects s) (registered_ s) (tracked_ s) (fds s) (delivering s) x (wire s).

(** A call on the descriptor [fd]; on a closed one it fails with EBADF and
    reaches no socket. *)
Definition record_io (by_ : actor) (call : io_call) (fd : Z) (s : sockets) : sockets :=
  match fds s !! fd with
  | None => s
  | Some k =>
     MkSockets (base s) (tasks s) (objects s) (registered_ s) (tracked_ s) (fds s) (delivering s)
       (stopping s) (wire s ++ [MkIo by_ call k])
  end.
Definition close_fd (by_ : actor) (fd : Z) (s : sockets) : sockets :=
  let s := record_io by_ IoClose fd s in
  MkSockets (base s) (tasks s) (objects s) (registered_ s) (tracked_ s) (delete fd (fds s)) (delivering s)
    (stopping s) (wire s).

Definition update_object (f : stream_object -> stream_object) (id : nat) (s : sockets) : sockets :=
  set_objects (alter f id (objects s)) s.
Definition release_all (by_ : dropper) (ids : list nat) (s : sockets) : sockets :=
  set_objects (foldr (fun id os => alter (release by_) id os) (objects s) ids) s.

(** ::accept on the listening socket, and the thread for the connection. *)
Definition accept_connection (s : sockets) : sockets :=
  let fd := accept_fd (dom (fds s) ∪ reserved) in
  MkSockets (base s) (tasks s ++ [(fd, AtLoop "")]) (objects s) (registered_ s) (tracked_ s)
    (<[fd := length (tasks s)]> (fds s)) (delivering s) (stopping s) (wire s).

(** After write_all of a reply. *)
Definition after_reply (go_on : bool) (lines : list string) (buf : string) : task_at :=
  if go_on then AtLines lines buf else AtCreate.

(** *** The thread of a connection: handle_client *)
Inductive client_step (s : sockets) (id : nat) (fd : Z) : task_at -> sockets -> Prop :=
| client_receives buf chunk lines buf' k :
   running_ (base s) = true -> fds s !! fd = Some k -> frame buf chunk = (lines, buf') ->
   client_step s id fd (AtLoop buf) (set_task id fd (AtLines lines buf') (record_io (Task id) IoRecv fd s))
| client_leaves buf :
   (* running_ is cleared, poll fails or recv ends *)
   client_step s id fd (AtLoop buf) (set_task id fd AtClose s)
| client_no_line buf :
   client_step s id fd (AtLines [] buf) (set_task id fd (AtLoop buf) s)
| client_line line lines buf go_on d out :
   handle_line file_resolver line (base s) = Return (go_on, d, out) ->
   client_step s id fd (AtLines (line :: lines) buf)
     (set_task id fd (AtReply out go_on lines buf) (set_base d s))
| client_sends n rest go_on lines buf k :
   rest <> "" -> (0 < n <= String.length rest)%nat -> fds s !! fd = Some k ->
   client_step s id fd (AtReply rest go_on lines buf)
     (set_task id fd (AtReply (str_drop n rest) go_on lines buf)
        (record_io (Task id) (IoSend (str_take n rest)) fd s))
| client_replied rest go_on lines buf :
   (* all is sent, or send fails, which handle_line ignores *)
   client_step s id fd (AtReply rest go_on lines buf) (set_task id fd (after_reply go_on lines buf) s)
| client_closes :
   client_step s id fd AtClose (set_task id fd AtEnd (close_fd (Task id) fd s)).

(** *** enter_stream_mode *)
Inductive stream_step (s : sockets) (id : nat) (fd : Z) : task_at -> sockets -> Prop :=
| stream_creates cl :
   SocketStreamClient_create fd = Return cl ->
   stream_step s id fd AtCreate
     (set_task id fd AtTrack (set_objects (<[id := MkStreamObject cl 1 WriterTop Alive]> (objects s)) s))
| stream_tracks :
   (forall l, stopping s <> StopShutting l) ->
   stream_step s id fd AtTrack
     (set_task id fd AtRegister (set_tracked (tracked_ s ++ [id]) (update_object retain id s)))
| stream_registers :
   delivering s = None ->
   stream_step s id fd AtRegister
     (set_task id fd AtWait (set_registered (registered_ s ++ [id]) (update_object retain id s)))
| stream_receives k :
   running_ (base s) = true -> fds s !! fd = Some k ->
   stream_step s id fd AtWait (record_io (Task id) IoRecv fd s)
| stream_waited :
   (* running_ is cleared, poll fails or recv ends *)
   stream_step s id fd AtWait (set_task id fd AtUnregister s)
| stream_unregisters :
   delivering s = None ->
   stream_step s id fd AtUnregister
     (set_task id fd AtShutdown
        (set_registered (filter (fun i => i <> id) (registered_ s))
           (release_all ByConnection (filter (fun i => i = id) (registered_ s)) s)))
| stream_shuts_down :
   stream_step s id fd AtShutdown
     (set_task id fd AtForget (update_object (fun o => with_client o (stream_shutdown (so_client o))) id s))
| stream_forgets :
   (forall l, stopping s <> StopShutting l) ->
   stream_step s id fd AtForget
     (set_task id fd AtCloseStream
        (set_tracked (filter (fun i => i <> id) (tracked_ s))
           (release_all ByConnection (filter (fun i => i = id) (tracked_ s)) s)))
| stream_closes :
   stream_step s id fd AtCloseStream (set_task id fd AtRelease (close_fd (Task id) fd s))
| stream_returns :
   stream_step s id fd AtRelease (set_task id fd AtEnd (update_object (release ByConnection) id s)).

(** *** The writer thread of a client object, and its destructor *)
Inductive writer_step (s : sockets) (id : nat) (o : stream_object) : writer_at -> sockets -> Prop :=
| writer_sees_closed :
   closed_ (so_client o) = true ->
   writer_step s id o WriterTop (set_objects (<[id := writer_end o]> (objects s)) s)
| writer_goes_on :
   closed_ (so_client o) = false ->
   writer_step s id o WriterTop (set_objects (<[id := with_writer o WriterPopping]> (objects s)) s)
| writer_pops line q :
   queue_pop (client_queue_ (so_client o)) = Some (Some line, q) ->
   writer_step s id o WriterPopping
     (set_objects (<[id := with_writer (with_client o
        (MkSocketStreamClient (fd_ (so_client o)) q (closed_ (so_client o)) (dropped_ (so_client o))))
        (WriterSending line)]> (objects s)) s)
| writer_drained q :
   queue_pop (client_queue_ (so_client o)) = Some (None, q) ->
   writer_step s id o WriterPopping
     (set_objects (<[id := writer_end (with_client o
        (MkSocketStreamClient (fd_ (so_client o)) q (closed_ (so_client o)) (dropped_ (so_client o))))]>
        (objects s)) s)
| writer_sends n rest k :
   rest <> "" -> (0 < n <= String.length rest)%nat -> fds s !! fd_ (so_client o) = Some k ->
   writer_step s id o (WriterSending rest)
     (set_objects (<[id := with_writer o (WriterSending (str_drop n rest))]> (objects s))
        (record_io (Writer id) (IoSend (str_take n rest)) (fd_ (so_client o)) s))
| writer_sent :
   writer_step s id o (WriterSending "") (set_objects (<[id := with_writer o WriterTop]> (objects s)) s)
| writer_fails rest :
   rest <> "" ->
   writer_step s id o (WriterSending rest) (set_objects (<[id := writer_end o]> (objects s)) s).

Inductive destructor_step (s : sockets) (id : nat) (o : stream_object) : object_life -> sockets -> Prop :=
| destructor_joins by_ :
   so_writer o = WriterEnded ->
   destructor_step s id o (Joining by_) (set_objects (<[id := with_life o (Closing by_)]> (objects s)) s)
| destructor_closes by_ :
   destructor_step s id o (Closing by_)
     (set_objects (<[id := with_life o (Destroyed by_)]> (objects s))
        (foldr (close_fd (Destructor id)) s (client_destructor_closes (fd_ (so_client o))))).

(** *** The consumer's client loop, and Daemon::stop *)
Inductive deliver_step (s : sockets) : sockets -> Prop :=
| deliver_locks ev :
   delivering s = None -> deliver_step s (set_delivering (Some (ev, [], registered_ s)) s)
| deliver_erases ev kept id ids o :
   delivering s = Some (ev, kept, id :: ids) -> objects s !! id = Some o -> client_closed (so_client o) = true ->
   deliver_step s (set_delivering (Some (ev, kept, ids))
     (set_registered (kept ++ ids) (update_object (release ByConsumer) id s)))
| deliver_pushes ev kept id ids o cl :
   delivering s = Some (ev, kept, id :: ids) -> objects s !! id = Some o -> client_closed (so_client o) = false ->
   client_push (so_client o) ev = Return cl ->
   deliver_step s (set_delivering (Some (ev, kept ++ [id], ids))
     (set_objects (<[id := with_client o cl]> (objects s)) s))
| deliver_unlocks ev kept :
   delivering s = Some (ev, kept, []) -> deliver_step s (set_delivering None s).

Inductive stop_step (s : sockets) : sockets -> Prop :=
| stop_exchanges :
   stopping s = StopIdle -> running_ (base s) = true ->
   stop_step s (set_stopping StopLocking (set_base (with_running (base s) false) s))
| stop_locks :
   stopping s = StopLocking -> stop_step s (set_stopping (StopShutting (tracked_ s)) s)
| stop_shuts_down id ids :
   stopping s = StopShutting (id :: ids) ->
   stop_step s (set_stopping (StopShutting ids)
     (update_object (fun o => with_client o (stream_shutdown (so_client o))) id s))
| stop_clears :
   stopping s = StopShutting [] ->
   stop_step s (set_stopping StopIdle (set_tracked [] (release_all ByStop (tracked_ s) s))).

Inductive sockets_step (s : sockets) : sockets -> Prop :=
| step_accept : sockets_step s (accept_connection s)
| step_client id fd at_ s' :
   tasks s !! id = Some (fd, at_) -> client_step s id fd at_ s' -> sockets_step s s'
| step_stream id fd at_ s' :
   tasks s !! id = Some (fd, at_) -> stream_step s id fd at_ s' -> sockets_step s s'
| step_writer id o s' :
   objects s !! id = Some o -> writer_step s id o (so_writer o) s' -> sockets_step s s'
| step_destructor id o s' :
   objects s !! id = Some o -> destructor_step s id o (so_life o) s' -> sockets_step s s'
| step_deliver s' : deliver_step s s' -> sockets_step s s'
| step_stop_ s' : stop_step s s' -> sockets_step s s'.
End Connections.
Arguments sockets E : clear implicits.
