(* ===== verification/ConnectionInvariant.v ===== *)
(** * The invariant of the connections

    What Connections.v's step system keeps: for every connection, the position
    of its thread, its client object with the use count, and the two lists
    agree. *)

From stdpp Require Import relations.
From S2P Require Import Prelude FileId Policy PolicyCompiler SpscQueue SecurityEvent Enforcer Json ConfigParser EventSink Controller.
From S2P Require Import Daemon DaemonProperties Connections.

Local Open Scope Z_scope.

(** ** Positions *)
#[export] Instance task_at_eq_dec : EqDecision task_at.
Proof. solve_decision. Defined.

(** The thread's local shared_ptr exists. *)
Definition holds_ref (at_ : task_at) : bool :=
  match at_ with
  | AtTrack | AtRegister | AtWait | AtUnregister | AtShutdown | AtForget | AtCloseStream | AtRelease => true
  | _ => false
  end.
(** The client can be in [clients_], and in [stream_clients_]. *)
Definition may_registered (at_ : task_at) : bool :=
  match at_ with AtWait | AtUnregister => true | _ => false end.
Definition may_tracked (at_ : task_at) : bool :=
  match at_ with AtRegister | AtWait | AtUnregister | AtShutdown | AtForget => true | _ => false end.
(** The client has been shut down by its own thread. *)
Definition past_shutdown (at_ : task_at) : bool :=
  match at_ with AtForget | AtCloseStream | AtRelease => true | _ => false end.

Definition is_shut (cl : SocketStreamClient) : Prop :=
  closed_ cl = true /\ stop_ (client_queue_ cl) = true.

(** ** One connection *)
Definition object_ok (reg trk : bool) (fd : Z) (at_ : task_at) (o : stream_object) : Prop :=
  fd_ (so_client o) = fd /\
  so_refs o = (Nat.b2n (holds_ref at_) + Nat.b2n reg + Nat.b2n trk)%nat /\
  (so_writer o = WriterEnded -> closed_ (so_client o) = true) /\
  match so_life o with
  | Alive => holds_ref at_ = true /\ (past_shutdown at_ = true -> is_shut (so_client o))
  | Joining by_ => at_ = AtEnd /\ by_ = ByConnection /\ is_shut (so_client o)
  | Closing by_ | Destroyed by_ => at_ = AtEnd /\ by_ = ByConnection /\ so_writer o = WriterEnded
  end.

(** What one connection's thread, its object and the two lists agree on. *)
Definition conn_ok (t : option (Z * task_at)) (o : option stream_object) (reg trk : bool) : Prop :=
  match t with
  | None => o = None /\ reg = false /\ trk = false
  | Some (fd, at_) =>
     (reg = true -> may_registered at_ = true) /\ (trk = true -> may_tracked at_ = true) /\
     match o with None => holds_ref at_ = false | Some o => object_ok reg trk fd at_ o end
  end.

Lemma filter_here (id : nat) (ids : list nat) :
  NoDup ids -> filter (fun i => i = id) ids = if bool_decide (id ∈ ids) then [id] else [].
Proof.
  induction ids as [|i ids IH]; intros Hnd; [done|]. apply NoDup_cons in Hnd as [Hi Hnd].
  rewrite filter_cons, (IH Hnd). destruct (decide (i = id)) as [->|Hne].
  - rewrite bool_decide_false by done. by rewrite bool_decide_true by set_solver.
  - apply (f_equal (fun b : bool => if b then [id] else [])), bool_decide_ext. set_solver.
Qed.

(** ** The object of a connection under the single changes *)
Lemma object_ok_client reg trk fd at_ o cl :
  object_ok reg trk fd at_ o -> fd_ cl = fd_ (so_client o) ->
  (closed_ (so_client o) = true -> closed_ cl = true) ->
  (is_shut (so_client o) -> is_shut cl) ->
  object_ok reg trk fd at_ (with_client o cl).
Proof.
  intros (H1 & H2 & H3 & H4) Hfd Hc Hs. split_and!; cbn; [by rewrite Hfd|done|naive_solver|].
  destruct (so_life o); naive_solver.
Qed.

Lemma object_ok_writer reg trk fd at_ o w :
  object_ok reg trk fd at_ o -> so_writer o <> WriterEnded ->
  (w = WriterEnded -> closed_ (so_client o) = true) -> object_ok reg trk fd at_ (with_writer o w).
Proof.
  intros (H1 & H2 & H3 & H4) Hw Hc. split_and!; cbn; [done|done|done|]. destruct (so_life o); naive_solver.
Qed.

Lemma object_ok_writer_end reg trk fd at_ o :
  object_ok reg trk fd at_ o -> object_ok reg trk fd at_ (writer_end o).
Proof.
  intros (H1 & H2 & H3 & H4). split_and!; cbn; [done|done|done|]. unfold is_shut in *. cbn.
  destruct (so_life o); naive_solver.
Qed.

Lemma conn_ok_object t o o' reg trk :
  conn_ok t (Some o) reg trk ->
  (forall fd at_, object_ok reg trk fd at_ o -> object_ok reg trk fd at_ o') -> conn_ok t (Some o') reg trk.
Proof. destruct t as [[fd at_]|]; [|by intros [? _]]. intros (Hr & Ht & Ho) Hf. split_and!; auto. Qed.

(** One of the lists gives up its reference while the thread holds one. *)
Lemma conn_ok_release_reg (by_ : dropper) t o trk :
  conn_ok t (Some o) true trk -> conn_ok t (Some (release by_ o)) false trk.
Proof.
  destruct t as [[fd at_]|]; [|by intros [? _]]. intros (Hr & Ht & H1 & H2 & H3 & H4).
  specialize (Hr eq_refl). assert (holds_ref at_ = true) as Hh by by destruct at_.
  rewrite Hh in H2. cbn in H2. split; [done|split; [done|]]. unfold object_ok, release; cbn. rewrite Hh, H2.
  rewrite bool_decide_false by lia. split_and!; try done. destruct (so_life o); [by destruct H4; split|by destruct H4 as [-> _]..].
Qed.

Lemma conn_ok_release_trk (by_ : dropper) t o reg :
  conn_ok t (Some o) reg true -> conn_ok t (Some (release by_ o)) reg false.
Proof.
  destruct t as [[fd at_]|]; [|by intros [? _]]. intros (Hr & Ht & H1 & H2 & H3 & H4).
  specialize (Ht eq_refl). assert (holds_ref at_ = true) as Hh by by destruct at_.
  rewrite Hh in H2. cbn in H2. split; [done|split; [done|]]. unfold object_ok, release; cbn. rewrite Hh, H2.
  rewrite bool_decide_false by lia. split_and!; try done; [cbn; lia|]. destruct (so_life o); [by destruct H4; split|by destruct H4 as [-> _]..].
Qed.

(** A listed client has an object, and it is alive. *)
Lemma conn_ok_listed t o reg trk :
  conn_ok t o reg trk -> reg = true \/ trk = true ->
  exists fd at_ ob, t = Some (fd, at_) /\ o = Some ob /\ so_life ob = Alive /\ holds_ref at_ = true /\ at_ <> AtEnd.
Proof.
  destruct t as [[fd at_]|]; [|naive_solver]. intros (Hr & Ht & Ho) H.
  assert (holds_ref at_ = true /\ at_ <> AtEnd) as [Hh Hne].
  { destruct H as [H|H]; [specialize (Hr H)|specialize (Ht H)]; by destruct at_. }
  destruct o as [ob|]; [|congruence]. exists fd, at_, ob. destruct Ho as (_ & _ & _ & Hl).
  destruct (so_life ob) eqn:E; [by split_and!|by destruct Hl as [? _]..].
Qed.

Section Invariant.
Context {E : Type} `{!IEnforcer E} {J : Type} `{!Json J}.
Context (file_resolver : FileResolver) (reserved : gset Z) {D : Descriptors}.
Implicit Types (s : sockets E).

Abbreviation step := (sockets_step (J:=J) file_resolver reserved).
Abbreviation view_ok s id :=
  (conn_ok (tasks s !! id) (objects s !! id) (bool_decide (id ∈ registered_ s)) (bool_decide (id ∈ tracked_ s))).

Record conns_inv s : Prop := {
  ci_conn : forall id, view_ok s id;
  ci_registered : NoDup (registered_ s);
  ci_tracked : NoDup (tracked_ s);
  ci_deliver : forall ev kept left, delivering s = Some (ev, kept, left) -> registered_ s = kept ++ left;
  ci_stop : forall l, stopping s = StopShutting l -> l ⊆ tracked_ s;
}.

Lemma sockets_init_inv (d : Daemon E) : conns_inv (sockets_init d).
Proof using Type.
  split; cbn; try done; try constructor.
Qed.

(** A step that changes the view of one connection only. *)
Lemma conns_change s s' id :
  conns_inv s ->
  (forall i, i <> id -> tasks s' !! i = tasks s !! i /\ objects s' !! i = objects s !! i /\
     (i ∈ registered_ s' <-> i ∈ registered_ s) /\ (i ∈ tracked_ s' <-> i ∈ tracked_ s)) ->
  view_ok s' id -> NoDup (registered_ s') -> NoDup (tracked_ s') ->
  (forall ev kept left, delivering s' = Some (ev, kept, left) -> registered_ s' = kept ++ left) ->
  (forall l, stopping s' = StopShutting l -> l ⊆ tracked_ s') ->
  conns_inv s'.
Proof using Type.
  intros Hi Hother Hid ? ? ? ?. split; try done. intros i. destruct (decide (i = id)) as [->|Hne]; [done|].
  destruct (Hother i Hne) as (-> & -> & Hr & Ht). rewrite (bool_decide_ext _ _ Hr), (bool_decide_ext _ _ Ht). apply Hi.
Qed.

Lemma set_task_other s id fd at_ i : i <> id -> tasks (set_task id fd at_ s) !! i = tasks s !! i.
Proof using Type. intros Hne. cbn. by rewrite list_lookup_insert_ne. Qed.

Lemma set_task_here s id fd at_ x : tasks s !! id = Some x -> tasks (set_task id fd at_ s) !! id = Some (fd, at_).
Proof using Type. intros Hid. cbn. apply list_lookup_insert_eq. by eapply lookup_lt_Some. Qed.

(** Only the task moves. *)
Lemma conns_move s s' id fd at_ at_' :
  conns_inv s -> tasks s !! id = Some (fd, at_) ->
  tasks s' = <[id := (fd, at_')]> (tasks s) -> objects s' = objects s -> registered_ s' = registered_ s ->
  tracked_ s' = tracked_ s -> delivering s' = delivering s -> stopping s' = stopping s ->
  (forall o reg trk, conn_ok (Some (fd, at_)) o reg trk -> conn_ok (Some (fd, at_')) o reg trk) ->
  conns_inv s'.
Proof using Type.
  intros Hi Hid E1 E2 E3 E4 E5 E6 Hok. apply (conns_change s s' id); rewrite ?E2, ?E3, ?E4, ?E5, ?E6; try apply Hi.
  - intros i Hne. by rewrite E1, list_lookup_insert_ne.
  - rewrite E1, list_lookup_insert_eq by by eapply lookup_lt_Some. apply Hok. rewrite <- Hid. apply Hi.
Qed.

Lemma record_io_same s (by_ : actor) call fd :
  let s' := record_io by_ call fd s in
  base s' = base s /\ tasks s' = tasks s /\ objects s' = objects s /\ registered_ s' = registered_ s /\
  tracked_ s' = tracked_ s /\ fds s' = fds s /\ delivering s' = delivering s /\ stopping s' = stopping s.
Proof using Type. unfold record_io. by destruct (fds s !! fd). Qed.

Lemma close_fd_same s (by_ : actor) fd :
  let s' := close_fd by_ fd s in
  base s' = base s /\ tasks s' = tasks s /\ objects s' = objects s /\ registered_ s' = registered_ s /\
  tracked_ s' = tracked_ s /\ delivering s' = delivering s /\ stopping s' = stopping s.
Proof using Type. unfold close_fd, record_io. by destruct (fds s !! fd). Qed.

(** Positions without a reference and without an object. *)
Lemma conn_ok_plain fd at_ at_' o reg trk :
  holds_ref at_ = false -> at_ <> AtEnd -> holds_ref at_' = false ->
  conn_ok (Some (fd, at_)) o reg trk -> conn_ok (Some (fd, at_')) o reg trk /\ o = None /\ reg = false /\ trk = false.
Proof using Type.
  intros Hh He Hh' (Hr & Ht & Ho).
  assert (o = None) as ->.
  { destruct o as [o|]; [|done]. destruct Ho as (_ & _ & _ & Ho). destruct (so_life o); destruct Ho; congruence. }
  assert (reg = false /\ trk = false) as [-> ->].
  { split; [destruct reg; [specialize (Hr eq_refl)|]|destruct trk; [specialize (Ht eq_refl)|]]; try done; by destruct at_. }
  done.
Qed.

Lemma client_step_inv s s' id fd at_ :
  conns_inv s -> tasks s !! id = Some (fd, at_) -> client_step (J:=J) file_resolver s id fd at_ s' -> conns_inv s'.
Proof using Type.
  intros Hi Hid Hstep.
  destruct Hstep as [buf chunk lines buf' k Hrun Hk Hf|buf|buf|line lines buf go_on d out Hl
    |n rest go_on lines buf k Hrest Hn Hk|rest go_on lines buf|].
  - destruct (record_io_same s (Task id) IoRecv fd) as (_ & E2 & E3 & E4 & E5 & _ & E7 & E8).
    eapply (conns_move s); [done|exact Hid| |done..|]; [exact (f_equal (insert id _) E2)|].
    intros o reg trk H. by eapply (conn_ok_plain fd (AtLoop buf)).
  - eapply (conns_move s); [done|exact Hid|done..|]. intros o reg trk H. by eapply (conn_ok_plain fd (AtLoop buf)).
  - eapply (conns_move s); [done|exact Hid|done..|]. intros o reg trk H. by eapply (conn_ok_plain fd (AtLines [] buf)).
  - eapply (conns_move s); [done|exact Hid|done..|]. intros o reg trk H.
    by eapply (conn_ok_plain fd (AtLines (line :: lines) buf)).
  - destruct (record_io_same s (Task id) (IoSend (str_take n rest)) fd) as (_ & E2 & E3 & E4 & E5 & _ & E7 & E8).
    eapply (conns_move s); [done|exact Hid| |done..|]; [exact (f_equal (insert id _) E2)|].
    intros o reg trk H. by eapply (conn_ok_plain fd (AtReply rest go_on lines buf)).
  - eapply (conns_move s); [done|exact Hid|done..|]. intros o reg trk H.
    eapply (conn_ok_plain fd (AtReply rest go_on lines buf)); [done..| |done]. by destruct go_on.
  - destruct (close_fd_same s (Task id) fd) as (_ & E2 & E3 & E4 & E5 & E7 & E8).
    eapply (conns_move s); [done|exact Hid| |done..|]; [exact (f_equal (insert id _) E2)|].
    intros o reg trk H. by eapply (conn_ok_plain fd AtClose).
Qed.

Lemma release_all_lookup (by_ : dropper) (ids : list nat) s i :
  NoDup ids ->
  objects (release_all by_ ids s) !! i =
  if bool_decide (i ∈ ids) then release by_ <$> objects s !! i else objects s !! i.
Proof using Type.
  intros Hnd. cbn. induction ids as [|id ids IH]; [done|]. apply NoDup_cons in Hnd as [Hid Hnd]. cbn.
  destruct (decide (i = id)) as [->|Hne].
  - rewrite lookup_alter_eq, (IH Hnd), bool_decide_false by done. by rewrite bool_decide_true by set_solver.
  - rewrite lookup_alter_ne, (IH Hnd) by done.
    by rewrite (bool_decide_ext (i ∈ id :: ids) (i ∈ ids)) by set_solver.
Qed.

(** Leaving one of the lists, by one's own thread. *)
Lemma release_own_other (by_ : dropper) (ids : list nat) s id i :
  NoDup ids -> i <> id -> objects (release_all by_ (filter (fun j => j = id) ids) s) !! i = objects s !! i.
Proof using Type.
  intros Hnd Hne. rewrite release_all_lookup by by apply NoDup_filter.
  rewrite bool_decide_false; [done|]. by intros [? _]%list_elem_of_filter.
Qed.

Lemma release_own_here (by_ : dropper) (ids : list nat) s id :
  NoDup ids ->
  objects (release_all by_ (filter (fun j => j = id) ids) s) !! id =
  if bool_decide (id ∈ ids) then release by_ <$> objects s !! id else objects s !! id.
Proof using Type.
  intros Hnd. rewrite release_all_lookup by by apply NoDup_filter.
  rewrite (bool_decide_ext (id ∈ filter (fun j => j = id) ids) (id ∈ ids)); [done|].
  rewrite list_elem_of_filter. naive_solver.
Qed.

Lemma filter_out (ids : list nat) (id : nat) :
  bool_decide (id ∈ filter (fun i => i <> id) ids) = false.
Proof using Type. apply bool_decide_false. by intros [? _]%list_elem_of_filter. Qed.

Lemma filter_out_other (ids : list nat) (id i : nat) :
  i <> id -> i ∈ filter (fun i => i <> id) ids <-> i ∈ ids.
Proof using Type. intros Hne. rewrite list_elem_of_filter. naive_solver. Qed.

Lemma app_other (ids : list nat) (id i : nat) : i <> id -> i ∈ ids ++ [id] <-> i ∈ ids.
Proof using Type. intros Hne. rewrite elem_of_app, list_elem_of_singleton. naive_solver. Qed.

(** The positions of enter_stream_mode on one connection. *)
Lemma conn_ok_own_object fd at_ o reg trk :
  holds_ref at_ = true -> conn_ok (Some (fd, at_)) o reg trk ->
  exists ob, o = Some ob /\ so_life ob = Alive /\ object_ok reg trk fd at_ ob.
Proof using Type.
  intros Hh (_ & _ & Ho). destruct o as [ob|]; [|congruence]. exists ob. split; [done|]. split; [|done].
  destruct Ho as (_ & _ & _ & Ho). destruct (so_life ob); [done|by destruct Ho as [-> _]..].
Qed.

(** Where the thread of a streaming connection goes on. *)
Lemma object_ok_move reg trk fd at_ at_' o :
  object_ok reg trk fd at_ o -> holds_ref at_ = true -> so_life o = Alive -> holds_ref at_' = true ->
  (past_shutdown at_' = true -> past_shutdown at_ = true) -> object_ok reg trk fd at_' o.
Proof using Type.
  intros (H1 & H2 & H3 & H4) Hh Hl Hh' Hp. unfold object_ok. rewrite Hl in H4 |- *. rewrite Hh in H2. rewrite Hh'.
  split; [done|split; [done|split; [done|split; [done|]]]]. intros ?%Hp. by apply H4.
Qed.

Lemma object_ok_retain reg trk reg' trk' fd at_ o :
  object_ok reg trk fd at_ o ->
  (Nat.b2n reg' + Nat.b2n trk' = S (Nat.b2n reg + Nat.b2n trk))%nat -> object_ok reg' trk' fd at_ (retain o).
Proof using Type. intros (H1 & H2 & H3 & H4) Heq. split; [done|]. split; [cbn; lia|]. done. Qed.

Lemma object_ok_shutdown reg trk fd at_ o :
  object_ok reg trk fd at_ o -> object_ok reg trk fd at_ (with_client o (stream_shutdown (so_client o))).
Proof using Type. intros Ho. by apply object_ok_client. Qed.

Lemma object_ok_release_last fd o :
  object_ok false false fd AtRelease o -> so_life o = Alive ->
  object_ok false false fd AtEnd (release ByConnection o).
Proof using Type.
  intros (H1 & H2 & H3 & H4) Hl. rewrite Hl in H4. cbn in H2. destruct H4 as [_ H4]. unfold object_ok, release; cbn.
  rewrite H2, bool_decide_true by done. split_and!; try done; by apply H4.
Qed.

(** The part of the view that is the lists. *)
Lemma not_registered fd at_ o reg trk :
  conn_ok (Some (fd, at_)) o reg trk -> may_registered at_ = false -> reg = false.
Proof using Type. intros (Hr & _ & _) Hm. destruct reg; [|done]. specialize (Hr eq_refl). congruence. Qed.

Lemma not_tracked fd at_ o reg trk :
  conn_ok (Some (fd, at_)) o reg trk -> may_tracked at_ = false -> trk = false.
Proof using Type. intros (_ & Ht & _) Hm. destruct trk; [|done]. specialize (Ht eq_refl). congruence. Qed.

Lemma stream_creates_inv s id fd cl :
  conns_inv s -> tasks s !! id = Some (fd, AtCreate) -> SocketStreamClient_create fd = Return cl ->
  conns_inv (set_task id fd AtTrack (set_objects (<[id := MkStreamObject cl 1 WriterTop Alive]> (objects s)) s)).
Proof using Type.
  intros Hi Hid (q & Hq & [= <-])%outcome_bind_Return.
  pose proof (ci_conn _ Hi id) as Hv. rewrite Hid in Hv.
  destruct (conn_ok_plain fd AtCreate (AtLoop "") _ _ _ eq_refl ltac:(done) eq_refl Hv) as (_ & _ & Hr & Ht).
  apply (conns_change s _ id); try apply Hi.
  - intros i Hne. cbn. by rewrite list_lookup_insert_ne, lookup_insert_ne.
  - rewrite (set_task_here _ _ _ _ (fd, AtCreate)) by done. cbn. rewrite lookup_insert_eq, Hr, Ht.
    by split_and!.
Qed.

Lemma stream_tracks_inv s id fd :
  conns_inv s -> tasks s !! id = Some (fd, AtTrack) -> (forall l, stopping s <> StopShutting l) ->
  conns_inv (set_task id fd AtRegister (set_tracked (tracked_ s ++ [id]) (update_object retain id s))).
Proof using Type.
  intros Hi Hid Hm. pose proof (ci_conn _ Hi id) as Hv. rewrite Hid in Hv.
  destruct (conn_ok_own_object fd AtTrack _ _ _ eq_refl Hv) as (ob & Ho & Hl & Hok).
  pose proof (not_registered _ _ _ _ _ Hv eq_refl) as Hr. pose proof (not_tracked _ _ _ _ _ Hv eq_refl) as Ht.
  apply (conns_change s _ id); try apply Hi.
  - intros i Hne. rewrite set_task_other by done. cbn. rewrite lookup_alter_ne by done.
    split_and!; try done; by apply app_other.
  - rewrite (set_task_here _ _ _ _ (fd, AtTrack)) by done. cbn. rewrite lookup_alter_eq, Ho, Hr; cbn.
    rewrite bool_decide_true by set_solver. split; [done|split; [done|]]. rewrite Hr, Ht in Hok.
    eapply object_ok_retain; [by eapply object_ok_move; [exact Hok|..]|done].
  - cbn. apply NoDup_app. split_and!; [apply Hi| |apply NoDup_singleton].
    apply bool_decide_eq_false in Ht. set_solver.
  - cbn. intros l Hl'. by destruct (Hm l).
Qed.

Lemma stream_registers_inv s id fd :
  conns_inv s -> tasks s !! id = Some (fd, AtRegister) -> delivering s = None ->
  conns_inv (set_task id fd AtWait (set_registered (registered_ s ++ [id]) (update_object retain id s))).
Proof using Type.
  intros Hi Hid Hm. pose proof (ci_conn _ Hi id) as Hv. rewrite Hid in Hv.
  destruct (conn_ok_own_object fd AtRegister _ _ _ eq_refl Hv) as (ob & Ho & Hl & Hok).
  pose proof (not_registered _ _ _ _ _ Hv eq_refl) as Hr.
  apply (conns_change s _ id); try apply Hi.
  - intros i Hne. rewrite set_task_other by done. cbn. rewrite lookup_alter_ne by done.
    split_and!; try done; by apply app_other.
  - rewrite (set_task_here _ _ _ _ (fd, AtRegister)) by done. cbn. rewrite lookup_alter_eq, Ho; cbn.
    rewrite (bool_decide_true (id ∈ _ ++ _)) by set_solver. split; [done|split; [done|]]. rewrite Hr in Hok.
    eapply object_ok_retain; [by eapply object_ok_move; [exact Hok|..]|cbn; lia].
  - cbn. apply NoDup_app. split_and!; [apply Hi| |apply NoDup_singleton].
    apply bool_decide_eq_false in Hr. set_solver.
  - cbn. intros ev kept left Hd. congruence.
Qed.

Lemma stream_unregisters_inv s id fd :
  conns_inv s -> tasks s !! id = Some (fd, AtUnregister) -> delivering s = None ->
  conns_inv (set_task id fd AtShutdown
    (set_registered (filter (fun i => i <> id) (registered_ s))
       (release_all ByConnection (filter (fun i => i = id) (registered_ s)) s))).
Proof using Type.
  intros Hi Hid Hm. pose proof (ci_conn _ Hi id) as Hv. rewrite Hid in Hv.
  destruct (conn_ok_own_object fd AtUnregister _ _ _ eq_refl Hv) as (ob & Ho & Hl & Hok).
  apply (conns_change s _ id); try apply Hi.
  - intros i Hne. rewrite set_task_other by done. cbn [tasks objects registered_ tracked_ set_task set_registered].
    rewrite release_own_other by (apply Hi || done). split_and!; try done. by apply filter_out_other.
  - rewrite (set_task_here _ _ _ _ (fd, AtUnregister)) by done.
    cbn [objects registered_ tracked_ set_task set_registered]. rewrite release_own_here, filter_out by apply Hi.
    change (tracked_ (release_all _ _ s)) with (tracked_ s). rewrite Ho in Hv |- *. cbn [fmap option_fmap option_map].
    assert (conn_ok (Some (fd, AtUnregister))
      (if bool_decide (id ∈ registered_ s) then Some (release ByConnection ob) else Some ob) false
      (bool_decide (id ∈ tracked_ s))) as Hc.
    { destruct (bool_decide (id ∈ registered_ s)); [by eapply conn_ok_release_reg|done]. }
    pose proof Hc as (_ & Ht & _). destruct (conn_ok_own_object fd AtUnregister _ _ _ eq_refl Hc) as (ob' & -> & Hl' & Hok').
    split; [done|split; [done|]]. by eapply object_ok_move.
  - cbn. apply NoDup_filter, Hi.
  - cbn. intros ev kept left Hd. congruence.
Qed.

Lemma stream_shuts_down_inv s id fd :
  conns_inv s -> tasks s !! id = Some (fd, AtShutdown) ->
  conns_inv (set_task id fd AtForget (update_object (fun o => with_client o (stream_shutdown (so_client o))) id s)).
Proof using Type.
  intros Hi Hid. pose proof (ci_conn _ Hi id) as Hv. rewrite Hid in Hv.
  destruct (conn_ok_own_object fd AtShutdown _ _ _ eq_refl Hv) as (ob & Ho & Hl & Hok).
  pose proof (not_registered _ _ _ _ _ Hv eq_refl) as Hr.
  apply (conns_change s _ id); try apply Hi.
  - intros i Hne. rewrite set_task_other by done. cbn. by rewrite lookup_alter_ne.
  - rewrite (set_task_here _ _ _ _ (fd, AtShutdown)) by done. cbn. rewrite lookup_alter_eq, Ho, Hr; cbn.
    split; [done|split; [done|]]. rewrite Hr in Hok. pose proof (object_ok_shutdown _ _ _ _ _ Hok) as (H1 & H2 & H3 & _).
    split; [done|split; [done|split; [done|]]]. cbn. by rewrite Hl.
Qed.

Lemma stream_forgets_inv s id fd :
  conns_inv s -> tasks s !! id = Some (fd, AtForget) -> (forall l, stopping s <> StopShutting l) ->
  conns_inv (set_task id fd AtCloseStream
    (set_tracked (filter (fun i => i <> id) (tracked_ s))
       (release_all ByConnection (filter (fun i => i = id) (tracked_ s)) s))).
Proof using Type.
  intros Hi Hid Hm. pose proof (ci_conn _ Hi id) as Hv. rewrite Hid in Hv.
  destruct (conn_ok_own_object fd AtForget _ _ _ eq_refl Hv) as (ob & Ho & Hl & Hok).
  pose proof (not_registered _ _ _ _ _ Hv eq_refl) as Hr.
  apply (conns_change s _ id); try apply Hi.
  - intros i Hne. rewrite set_task_other by done. cbn [tasks objects registered_ tracked_ set_task set_tracked].
    rewrite release_own_other by (apply Hi || done). split_and!; try done. by apply filter_out_other.
  - rewrite (set_task_here _ _ _ _ (fd, AtForget)) by done.
    cbn [objects registered_ tracked_ set_task set_tracked]. rewrite release_own_here, filter_out by apply Hi.
    change (registered_ (release_all _ _ s)) with (registered_ s). rewrite Ho in Hv |- *. cbn [fmap option_fmap option_map].
    assert (conn_ok (Some (fd, AtForget))
      (if bool_decide (id ∈ tracked_ s) then Some (release ByConnection ob) else Some ob)
      (bool_decide (id ∈ registered_ s)) false) as Hc.
    { destruct (bool_decide (id ∈ tracked_ s)); [by eapply conn_ok_release_trk|done]. }
    destruct (conn_ok_own_object fd AtForget _ _ _ eq_refl Hc) as (ob' & -> & Hl' & Hok').
    rewrite Hr in Hok' |- *. split; [done|split; [done|]]. by eapply object_ok_move.
  - cbn. apply NoDup_filter, Hi.
  - cbn. intros l Hl'. by destruct (Hm l).
Qed.

Lemma stream_returns_inv s id fd :
  conns_inv s -> tasks s !! id = Some (fd, AtRelease) ->
  conns_inv (set_task id fd AtEnd (update_object (release ByConnection) id s)).
Proof using Type.
  intros Hi Hid. pose proof (ci_conn _ Hi id) as Hv. rewrite Hid in Hv.
  destruct (conn_ok_own_object fd AtRelease _ _ _ eq_refl Hv) as (ob & Ho & Hl & Hok).
  pose proof (not_registered _ _ _ _ _ Hv eq_refl) as Hr. pose proof (not_tracked _ _ _ _ _ Hv eq_refl) as Ht.
  apply (conns_change s _ id); try apply Hi.
  - intros i Hne. rewrite set_task_other by done. cbn. by rewrite lookup_alter_ne.
  - rewrite (set_task_here _ _ _ _ (fd, AtRelease)) by done. cbn. rewrite lookup_alter_eq, Ho, Hr, Ht; cbn.
    split; [done|split; [done|]]. rewrite Hr, Ht in Hok. by apply object_ok_release_last.
Qed.

Lemma stream_step_inv s s' id fd at_ :
  conns_inv s -> tasks s !! id = Some (fd, at_) -> stream_step s id fd at_ s' -> conns_inv s'.
Proof using Type.
  intros Hi Hid Hstep. destruct Hstep as [cl Hcl|Hm|Hm|k Hr Hk| |Hm| |Hm| |].
  - by apply stream_creates_inv.
  - by apply stream_tracks_inv.
  - by apply stream_registers_inv.
  - destruct (record_io_same s (Task id) IoRecv fd) as (_ & E2 & E3 & E4 & E5 & _ & E7 & E8).
    split; rewrite ?E2, ?E3, ?E4, ?E5, ?E7, ?E8; apply Hi.
  - apply (conns_move s _ id fd AtWait AtUnregister Hi Hid); try done.
    intros o reg trk Hc. pose proof Hc as (Hr & Ht & _).
    destruct (conn_ok_own_object fd AtWait _ _ _ eq_refl Hc) as (ob & -> & Hl & Hok).
    split; [done|split; [done|]]. by eapply object_ok_move.
  - by apply stream_unregisters_inv.
  - by apply stream_shuts_down_inv.
  - by apply stream_forgets_inv.
  - destruct (close_fd_same s (Task id) fd) as (_ & E2 & E3 & E4 & E5 & E7 & E8).
    eapply (conns_move s); [done|exact Hid|exact (f_equal (insert id _) E2)|done..|].
    intros o reg trk Hc. pose proof (not_registered _ _ _ _ _ Hc eq_refl) as ->.
    pose proof (not_tracked _ _ _ _ _ Hc eq_refl) as ->.
    destruct (conn_ok_own_object fd AtCloseStream _ _ _ eq_refl Hc) as (ob & -> & Hl & Hok).
    split; [done|split; [done|]]. by eapply object_ok_move.
  - by apply stream_returns_inv.
Qed.

(** The writer and the destructor change the object only. *)
Lemma conns_object s s' id o o' :
  conns_inv s -> objects s !! id = Some o ->
  tasks s' = tasks s -> objects s' = <[id := o']> (objects s) -> registered_ s' = registered_ s ->
  tracked_ s' = tracked_ s -> delivering s' = delivering s -> stopping s' = stopping s ->
  (forall reg trk fd at_, object_ok reg trk fd at_ o -> object_ok reg trk fd at_ o') ->
  conns_inv s'.
Proof using Type.
  intros Hi Ho E1 E2 E3 E4 E5 E6 Hok. apply (conns_change s s' id); rewrite ?E1, ?E3, ?E4, ?E5, ?E6; try apply Hi.
  - intros i Hne. by rewrite E2, lookup_insert_ne.
  - rewrite E2, lookup_insert_eq. eapply conn_ok_object; [|intros; by apply Hok]. rewrite <- Ho. apply Hi.
Qed.

Lemma queue_pop_stop {T : Type} `{!Inhabited T} (q q' : SpscQueue T) x :
  queue_pop q = Some (x, q') -> stop_ q' = stop_ q.
Proof using Type.
  unfold queue_pop, queue_take. destruct (stop_ q || negb (queue_empty q)); [|done].
  destruct (queue_empty q); by intros [= <- <-].
Qed.

Lemma writer_step_inv s s' id o :
  conns_inv s -> objects s !! id = Some o -> writer_step s id o (so_writer o) s' -> conns_inv s'.
Proof using Type.
  intros Hi Ho Hstep. remember (so_writer o) as w eqn:Hw.
  destruct Hstep as [Hc|Hc|line q Hp|q Hp|n rest k Hrest Hn Hk| |rest Hrest].
  - eapply (conns_object s); try done. intros. by apply object_ok_writer_end.
  - eapply (conns_object s); try done. intros. apply object_ok_writer; [done|by rewrite <- Hw|done].
  - eapply (conns_object s); try done. intros reg trk fd at_ Hok. apply object_ok_writer; [|by cbn; rewrite <- Hw|done].
    apply object_ok_client; [done..|]. intros [? ?]. split; [done|]. cbn. by rewrite (queue_pop_stop _ _ _ Hp).
  - eapply (conns_object s); try done. intros reg trk fd at_ Hok. apply object_ok_writer_end.
    apply object_ok_client; [done..|]. intros [? ?]. split; [done|]. cbn. by rewrite (queue_pop_stop _ _ _ Hp).
  - destruct (record_io_same s (Writer id) (IoSend (str_take n rest)) (fd_ (so_client o)))
      as (_ & E2 & E3 & E4 & E5 & _ & E7 & E8).
    eapply (conns_object s); try done. intros. apply object_ok_writer; [done|by rewrite <- Hw|done].
  - eapply (conns_object s); try done. intros. apply object_ok_writer; [done|by rewrite <- Hw|done].
  - eapply (conns_object s); try done. intros. by apply object_ok_writer_end.
Qed.

Lemma object_ok_life reg trk fd at_ o l :
  object_ok reg trk fd at_ o -> so_life o <> Alive ->
  (at_ = AtEnd -> so_life o = l \/ match l with
   | Closing by_ => so_writer o = WriterEnded /\ (so_life o = Joining by_)
   | Destroyed by_ => so_life o = Closing by_ | _ => False end) ->
  object_ok reg trk fd at_ (with_life o l).
Proof using Type.
  intros (H1 & H2 & H3 & H4) Hl Hn. split; [done|split; [done|split; [done|]]]. cbn.
  destruct (so_life o) eqn:El; [done|..]; destruct H4 as (-> & -> & H4); specialize (Hn eq_refl); destruct l; naive_solver.
Qed.

Lemma close_fds_same (by_ : actor) (closing : list Z) s :
  let s' := foldr (close_fd by_) s closing in
  tasks s' = tasks s /\ objects s' = objects s /\ registered_ s' = registered_ s /\ tracked_ s' = tracked_ s /\
  delivering s' = delivering s /\ stopping s' = stopping s.
Proof using Type.
  induction closing as [|fd closing IH]; [done|]. cbn [foldr].
  destruct (close_fd_same (foldr (close_fd by_) s closing) by_ fd) as (_ & ? & ? & ? & ? & ? & ?).
  destruct IH as (? & ? & ? & ? & ? & ?). split_and!; congruence.
Qed.

Lemma destructor_step_inv s s' id o :
  conns_inv s -> objects s !! id = Some o -> destructor_step s id o (so_life o) s' -> conns_inv s'.
Proof using Type.
  intros Hi Ho Hstep. remember (so_life o) as l eqn:Hl. destruct Hstep as [by_ Hw|by_].
  - eapply (conns_object s); try done. intros. apply object_ok_life; [done|by rewrite <- Hl|]. intros _. by right.
  - destruct (close_fds_same (Destructor id) (client_destructor_closes (fd_ (so_client o))) s) as (E1 & E2 & E3 & E4 & E5 & E6).
    eapply (conns_object s); try done. intros. apply object_ok_life; [done|by rewrite <- Hl|]. intros _. by right.
Qed.

Lemma stream_push_fields cl ev cl' :
  stream_push (J:=J) cl ev = Return cl' ->
  fd_ cl' = fd_ cl /\ closed_ cl' = closed_ cl /\ stop_ (client_queue_ cl') = stop_ (client_queue_ cl).
Proof using Type.
  unfold stream_push. destruct (closed_ cl) eqn:Hc; [by intros [= <-]|]. intros (text & _ & H)%outcome_bind_Return.
  unfold queue_try_push in H. destruct (_ =? _)%nat; by simplify_eq/=.
Qed.

Lemma deliver_erases_inv s ev kept id ids o :
  conns_inv s -> delivering s = Some (ev, kept, id :: ids) -> objects s !! id = Some o ->
  conns_inv (set_delivering (Some (ev, kept, ids))
    (set_registered (kept ++ ids) (update_object (release ByConsumer) id s))).
Proof using Type.
  intros Hi Hd Ho.
  pose proof (ci_deliver _ Hi _ _ _ Hd) as Hreg. pose proof (ci_registered _ Hi) as Hnd. rewrite Hreg in Hnd.
  pose proof (ci_conn _ Hi id) as Hv. rewrite (bool_decide_true (id ∈ registered_ s)) in Hv by (rewrite Hreg; set_solver).
  rewrite Ho in Hv. apply NoDup_app in Hnd as (Hn1 & Hn2 & Hn3). apply NoDup_cons in Hn3 as [Hn3 Hn4].
  apply (conns_change s _ id); try apply Hi.
  - intros i Hne. cbn. rewrite lookup_alter_ne, Hreg by done. split_and!; try done. set_solver.
  - cbn. rewrite lookup_alter_eq, Ho, bool_decide_false; [|set_solver]. by apply conn_ok_release_reg.
  - cbn. apply NoDup_app. split_and!; set_solver.
  - cbn. intros ev' kept' left [= _ <- <-]. done.
Qed.

Lemma deliver_step_inv s s' : conns_inv s -> deliver_step (J:=J) s s' -> conns_inv s'.
Proof using Type.
  intros Hi Hstep. destruct Hstep as [ev Hd|ev kept id ids o Hd Ho Hc|ev kept id ids o cl Hd Ho Hc Hp|ev kept Hd].
  - split; try apply Hi. intros ev' kept left [= _ <- <-]. done.
  - by eapply deliver_erases_inv.
  - apply (conns_change s _ id); try apply Hi.
    + intros i Hne. cbn. by rewrite lookup_insert_ne.
    + destruct (stream_push_fields _ _ _ Hp) as (Hf & Hcl & Hst).
      cbn. rewrite lookup_insert_eq. eapply conn_ok_object; [rewrite <- Ho; apply Hi|].
      intros fd at_ Hok. apply object_ok_client; [done|done|by rewrite Hcl|]. unfold is_shut. by rewrite Hcl, Hst.
    + intros ev' kept' left [= _ <- <-]. cbn. rewrite <- app_assoc. cbn. by apply (ci_deliver _ Hi ev).
  - split; try apply Hi. done.
Qed.

Lemma stop_clears_inv s :
  conns_inv s -> conns_inv (set_stopping StopIdle (set_tracked [] (release_all ByStop (tracked_ s) s))).
Proof using Type.
  intros Hi. split; try done; try apply Hi; [|constructor].
  intros id. pose proof (ci_conn _ Hi id) as Hv. cbn [tasks objects registered_ tracked_ set_stopping set_tracked].
  rewrite release_all_lookup by apply Hi. change (registered_ (release_all _ _ s)) with (registered_ s).
  change (tasks (release_all _ _ s)) with (tasks s). rewrite (bool_decide_false (id ∈ [])) by apply not_elem_of_nil.
  destruct (bool_decide (id ∈ tracked_ s)) eqn:Ht; [|done].
  destruct (conn_ok_listed _ _ _ _ Hv (or_intror eq_refl)) as (fd & at_ & ob & _ & Ho & _).
  rewrite Ho in Hv |- *. by eapply conn_ok_release_trk.
Qed.

Lemma stop_step_inv s s' : conns_inv s -> stop_step s s' -> conns_inv s'.
Proof using Type.
  intros Hi Hstep. destruct Hstep as [Hs Hr|Hs|id ids Hs|Hs].
  - split; try apply Hi. done.
  - split; try apply Hi. by intros l [= <-].
  - apply (conns_change s _ id); try apply Hi.
    + intros i Hne. cbn. by rewrite lookup_alter_ne.
    + cbn. rewrite lookup_alter_eq. pose proof (ci_conn _ Hi id) as Hv.
      destruct (objects s !! id) as [o|]; [|done]. eapply conn_ok_object; [exact Hv|].
      intros. by apply object_ok_shutdown.
    + intros l [= <-]. pose proof (ci_stop _ Hi _ Hs). set_solver.
  - by apply stop_clears_inv.
Qed.

Lemma accept_connection_inv s : conns_inv s -> conns_inv (accept_connection reserved s).
Proof using Type.
  intros Hi. pose proof (ci_conn _ Hi (length (tasks s))) as Hv. rewrite lookup_ge_None_2 in Hv by lia.
  apply (conns_change s _ (length (tasks s))); try apply Hi.
  - intros i Hne. cbn. split; [|done]. destruct (decide (i < length (tasks s))%nat).
    + by rewrite lookup_app_l.
    + rewrite !lookup_ge_None_2; rewrite ?length_app; cbn; try done; lia.
  - cbn. rewrite list_lookup_middle by done. destruct Hv as (-> & -> & ->). by split_and!.
Qed.

Lemma sockets_step_inv s s' : conns_inv s -> step s s' -> conns_inv s'.
Proof using Type.
  intros Hi Hstep. destruct Hstep.
  - by apply accept_connection_inv.
  - by eapply client_step_inv.
  - by eapply stream_step_inv.
  - by eapply writer_step_inv.
  - by eapply destructor_step_inv.
  - by apply (deliver_step_inv s).
  - by apply (stop_step_inv s).
Qed.

Lemma sockets_reachable_inv (d : Daemon E) s : rtc step (sockets_init d) s -> conns_inv s.
Proof using Type.
  intros Hr. pose proof (sockets_init_inv d) as H0. induction Hr; eauto using sockets_step_inv.
Qed.
End Invariant.
