(* ===== verification/ConnectionProperties.v ===== *)
(** * Properties of the connections

    On top of ConnectionInvariant.v: as long as no stream has ended, every
    descriptor stands for the socket of the connection that uses it; and what
    is left of the end of a stream decreases with every step that works on
    it. *)

From stdpp Require Import relations.
From S2P Require Import Prelude FileId Policy PolicyCompiler SpscQueue SecurityEvent Enforcer Json ConfigParser EventSink Controller.
From S2P Require Import Daemon DaemonProperties Connections ConnectionInvariant.

Local Open Scope Z_scope.

(** ** Descriptors *)

(** The stream of a connection has been closed. *)
Definition past_close (at_ : task_at) : bool :=
  match at_ with AtRelease | AtEnd => true | _ => false end.
Definition at_end (at_ : task_at) : bool := match at_ with AtEnd => true | _ => false end.

Definition closes_socket (id : nat) (x : io) : bool :=
  match io_done x with IoClose => bool_decide (io_on x = id) | _ => false end.
Definition close_count (id : nat) (l : list io) : nat := length (filter (fun x => closes_socket id x = true) l).

Lemma close_count_app id l x :
  close_count id (l ++ [x]) = (close_count id l + Nat.b2n (closes_socket id x))%nat.
Proof.
  unfold close_count. rewrite filter_app, length_app, filter_cons, filter_nil.
  destruct (closes_socket id x); case_decide; done.
Qed.

Lemma close_count_fresh (n : nat) (l : list io) : Forall (fun x => (io_on x < n)%nat) l -> close_count n l = 0%nat.
Proof.
  induction 1 as [|x l Hx _ IH]; [done|]. unfold close_count, closes_socket in *. rewrite filter_cons.
  destruct (io_done x); [by case_decide..|]. rewrite bool_decide_false by lia. by case_decide.
Qed.

Lemma first_free_spec (n : nat) (from : Z) (used : gset Z) :
  from <= first_free n from used /\
  ((size (filter (fun z : Z => (from <= z)%Z) used) <= n)%nat -> first_free n from used ∉ used).
Proof.
  revert from. induction n as [|n IH]; intros from; cbn.
  - split; [lia|]. intros Hs Hin. assert (from ∈ filter (fun z : Z => from <= z) used) as H by (apply elem_of_filter; split; [lia|done]).
    destruct (size (filter (fun z : Z => from <= z) used)) eqn:Hz; [|lia].
    apply size_empty_inv in Hz. set_solver.
  - case_bool_decide as Hin; [|split; [lia|done]]. destruct (IH (from + 1)) as [H1 H2]. split; [lia|].
    intros Hs. apply H2.
    assert (filter (fun z : Z => from + 1 <= z) used ⊂ filter (fun z : Z => from <= z) used) as Hsub.
    { split; [intros z [? ?]%elem_of_filter; apply elem_of_filter; split; [lia|done]|].
      intros Hc. assert (from ∈ filter (fun z : Z => from + 1 <= z) used) as [? _]%elem_of_filter; [|lia].
      apply Hc, elem_of_filter. split; [lia|done]. }
    apply subset_size in Hsub. lia.
Qed.

Lemma next_fd_spec (used : gset Z) : 0 <= next_fd used /\ next_fd used ∉ used.
Proof.
  destruct (first_free_spec (size used) 0 used) as [H1 H2]. split; [done|]. apply H2.
  apply subseteq_size. by intros z [_ ?]%elem_of_filter.
Qed.

#[export] Instance lowest_fd_laws : @DescriptorLaws lowest_fd.
Proof. split. apply next_fd_spec. Qed.

Section Descriptors.
Context {E : Type} `{!IEnforcer E} {J : Type} `{!Json J}.
Context (file_resolver : FileResolver) (reserved : gset Z) {D : Descriptors} {DL : DescriptorLaws}.
Implicit Types (s : sockets E).

Abbreviation step := (sockets_step (J:=J) file_resolver reserved).

(** Some stream has come to its end. *)
Definition stream_ended s : Prop :=
  exists id fd at_, tasks s !! id = Some (fd, at_) /\ is_Some (objects s !! id) /\ past_close at_ = true.

(** Every connection's descriptor stands for its own socket. *)
Record own_fds s : Prop := {
  of_open : forall id fd at_, tasks s !! id = Some (fd, at_) -> at_end at_ = false -> fds s !! fd = Some id;
  of_fds : forall fd id, fds s !! fd = Some id -> exists at_, tasks s !! id = Some (fd, at_) /\ at_end at_ = false;
  of_wire : Forall (fun x => io_on x = actor_conn (io_by x) /\ (io_on x < length (tasks s))%nat) (wire s);
  of_close : forall id fd at_, tasks s !! id = Some (fd, at_) -> close_count id (wire s) = Nat.b2n (at_end at_);
}.

Record fds_inv s : Prop := {
  fi_fd : forall id fd at_, tasks s !! id = Some (fd, at_) -> 0 <= fd /\ fd ∉ reserved;
  fi_own : ~ stream_ended s -> own_fds s;
}.

Lemma own_fds_same s s' :
  own_fds s -> tasks s' = tasks s -> fds s' = fds s -> wire s' = wire s -> own_fds s'.
Proof using Type. intros [] E1 E2 E3. split; by rewrite ?E1, ?E2, ?E3. Qed.

Lemma own_fds_move s s' id fd at_ at_' :
  own_fds s -> tasks s !! id = Some (fd, at_) -> tasks s' = <[id := (fd, at_')]> (tasks s) ->
  at_end at_ = false -> at_end at_' = false -> fds s' = fds s -> wire s' = wire s -> own_fds s'.
Proof using Type.
  intros [Ho Hf Hw Hc] Hid E1 He He' E2 E3.
  assert (forall i, tasks s' !! i = if decide (i = id) then Some (fd, at_') else tasks s !! i) as Ht.
  { intros i. rewrite E1. case_decide as Hi; [subst; apply list_lookup_insert_eq; by eapply lookup_lt_Some|].
    by rewrite list_lookup_insert_ne. }
  split; rewrite ?E2, ?E3.
  - intros i fd' at1. rewrite Ht. case_decide as Hi; [intros [= <- <-] _; subst; by eapply Ho|apply Ho].
  - intros fd' i Hfd. destruct (Hf _ _ Hfd) as (at1 & Hat & Hne). rewrite Ht. case_decide as Hi; [|by exists at1].
    exists at_'. split; [|done]. congruence.
  - by rewrite E1, length_insert.
  - intros i fd' at1. rewrite Ht. case_decide as Hi; [intros [= <- <-]; subst; rewrite He', <- He; by eapply Hc|apply Hc].
Qed.

(** A call on one's own open descriptor. *)
Lemma own_fds_record s (by_ : actor) call id fd at_ :
  own_fds s -> tasks s !! id = Some (fd, at_) -> at_end at_ = false -> actor_conn by_ = id -> call <> IoClose ->
  own_fds (record_io by_ call fd s).
Proof using Type.
  intros [Ho Hf Hw Hc] Hid He Hby Hcall. unfold record_io. rewrite (Ho _ _ _ Hid He). split; cbn [tasks fds wire]; try done.
  - apply Forall_app_2; [done|]. apply Forall_singleton. cbn. split; [done|]. by eapply lookup_lt_Some.
  - intros i fd' at1 Hi. rewrite close_count_app, (Hc _ _ _ Hi). by destruct call.
Qed.

Lemma own_fds_close s id fd :
  own_fds s -> tasks s !! id = Some (fd, AtClose) -> own_fds (set_task id fd AtEnd (close_fd (Task id) fd s)).
Proof using Type.
  intros [Ho Hf Hw Hc] Hid. unfold close_fd, record_io. rewrite (Ho _ _ _ Hid eq_refl).
  assert (forall i, <[id := (fd, AtEnd)]> (tasks s) !! i = if decide (i = id) then Some (fd, AtEnd) else tasks s !! i) as Ht.
  { intros i. case_decide as Hi; [subst; apply list_lookup_insert_eq; by eapply lookup_lt_Some|].
    by rewrite list_lookup_insert_ne. }
  split; cbn [tasks fds wire set_task].
  - intros i fd' at1. rewrite Ht. case_decide as Hi; [by intros [= <- <-]|]. intros H1 H2.
    rewrite lookup_delete_ne; [by eapply Ho|]. intros <-. pose proof (Ho _ _ _ H1 H2). pose proof (Ho _ _ _ Hid eq_refl). congruence.
  - intros fd' i [Hne Hfd]%lookup_delete_Some. destruct (Hf _ _ Hfd) as (at1 & Hat & Hend). exists at1.
    rewrite Ht. case_decide as Hi; [|done]. subst. congruence.
  - rewrite length_insert. apply Forall_app_2; [done|]. apply Forall_singleton. cbn. split; [done|]. by eapply lookup_lt_Some.
  - intros i fd' at1. rewrite Ht, close_count_app. unfold closes_socket; cbn. case_decide as Hi.
    + intros [= <- <-]. subst. rewrite (Hc _ _ _ Hid), bool_decide_true by done. done.
    + intros H1. rewrite (Hc _ _ _ H1), bool_decide_false by done. apply Nat.add_0_r.
Qed.

(** A stream that has ended stays so. *)
Lemma stream_ended_mono s s' :
  (forall id fd at_, tasks s !! id = Some (fd, at_) -> past_close at_ = true ->
     exists at_', tasks s' !! id = Some (fd, at_') /\ past_close at_' = true) ->
  (forall id, is_Some (objects s !! id) -> is_Some (objects s' !! id)) ->
  stream_ended s -> stream_ended s'.
Proof using Type.
  intros Ht Ho (id & fd & at_ & Hid & Hob & Hp). destruct (Ht _ _ _ Hid Hp) as (at_' & ? & ?).
  exists id, fd, at_'. auto.
Qed.

(** The thread [id] moves from [at_] to [at_']. *)
Definition moves s s' (id : nat) (fd : Z) (at_' : task_at) : Prop := tasks s' = <[id := (fd, at_')]> (tasks s).

Lemma moves_lookup s s' id fd at_ at_' i :
  moves s s' id fd at_' -> tasks s !! id = Some (fd, at_) ->
  tasks s' !! i = if decide (i = id) then Some (fd, at_') else tasks s !! i.
Proof using Type.
  intros Hm Hid. rewrite Hm. case_decide as Hi; [subst; apply list_lookup_insert_eq; by eapply lookup_lt_Some|].
  by rewrite list_lookup_insert_ne.
Qed.

Lemma fds_inv_move s s' id fd at_ at_' :
  fds_inv s -> tasks s !! id = Some (fd, at_) -> moves s s' id fd at_' ->
  (past_close at_ = true -> past_close at_' = true) ->
  (forall i, is_Some (objects s !! i) -> is_Some (objects s' !! i)) ->
  (~ stream_ended s -> ~ stream_ended s' -> own_fds s -> own_fds s') ->
  fds_inv s'.
Proof using Type.
  intros [Hf Ho] Hid Hm Hp Hob Hown. split.
  - intros i fd' at1. rewrite (moves_lookup _ _ _ _ _ _ i Hm Hid). case_decide; [intros [= <- _]; by eapply Hf|apply Hf].
  - intros Hn. assert (~ stream_ended s) as Hn0; [|by apply Hown; [..|apply Ho]].
    intros He. apply Hn. revert He. apply stream_ended_mono; [|done].
    intros i fd' at1 Hi Hp1. rewrite (moves_lookup _ _ _ _ _ _ i Hm Hid). case_decide as Hd; [|by exists at1].
    subst i. rewrite Hid in Hi. injection Hi as <- <-. exists at_'. split; [done|]. by apply Hp.
Qed.

Lemma fds_inv_still s s' :
  fds_inv s -> tasks s' = tasks s ->
  (forall i, is_Some (objects s !! i) -> is_Some (objects s' !! i)) ->
  (~ stream_ended s -> own_fds s -> own_fds s') ->
  fds_inv s'.
Proof using Type.
  intros [Hf Ho] Ht Hob Hown. split; [by rewrite Ht|].
  intros Hn. assert (~ stream_ended s) as Hn0; [|by apply Hown; [|apply Ho]].
  intros He. apply Hn. revert He. apply stream_ended_mono; [|done]. intros i fd at_. rewrite Ht. by exists at_.
Qed.

(** The objects stay when one is replaced or changed. *)
Lemma insert_stays {A : Type} (m : gmap nat A) id x i : is_Some (m !! i) -> is_Some (<[id := x]> m !! i).
Proof using Type. intros Hi. apply lookup_insert_is_Some. destruct (decide (id = i)); [by left|by right]. Qed.

Lemma alter_stays {A : Type} (f : A -> A) (m : gmap nat A) id i : is_Some (m !! i) -> is_Some (alter f id m !! i).
Proof using Type. by rewrite lookup_alter_is_Some. Qed.

Lemma release_all_stays (by_ : dropper) (ids : list nat) s i :
  is_Some (objects s !! i) -> is_Some (objects (release_all by_ ids s) !! i).
Proof using Type. intros Hi. cbn. induction ids as [|id ids IH]; [done|]. by apply alter_stays. Qed.

Hint Resolve insert_stays alter_stays release_all_stays : core.

Lemma client_step_fds s s' id fd at_ :
  fds_inv s -> tasks s !! id = Some (fd, at_) -> client_step (J:=J) file_resolver s id fd at_ s' -> fds_inv s'.
Proof using Type.
  intros Hi Hid Hstep.
  destruct Hstep as [buf chunk lines buf' k Hrun Hk Hf|buf|buf|line lines buf go_on d out Hl
    |n rest go_on lines buf k Hrest Hn Hk|rest go_on lines buf|].
  - destruct (record_io_same s (Task id) IoRecv fd) as (_ & E2 & E3 & _ & _ & E6 & _).
    eapply fds_inv_move; [done|exact Hid|exact (f_equal (insert id _) E2)|done|by cbn [objects set_task]; rewrite E3|].
    intros _ _ Hown. eapply (own_fds_move (record_io (Task id) IoRecv fd s)); [by eapply own_fds_record|by rewrite E2|done..].
  - eapply fds_inv_move; [done|exact Hid|done..|]. intros _ _ Hown. by eapply own_fds_move.
  - eapply fds_inv_move; [done|exact Hid|done..|]. intros _ _ Hown. by eapply own_fds_move.
  - eapply fds_inv_move; [done|exact Hid|done..|]. intros _ _ Hown. by eapply own_fds_move.
  - destruct (record_io_same s (Task id) (IoSend (str_take n rest)) fd) as (_ & E2 & E3 & _ & _ & E6 & _).
    eapply fds_inv_move; [done|exact Hid|exact (f_equal (insert id _) E2)|done|by cbn [objects set_task]; rewrite E3|].
    intros _ _ Hown. eapply (own_fds_move (record_io (Task id) (IoSend (str_take n rest)) fd s));
      [by eapply own_fds_record|by rewrite E2|done..].
  - eapply fds_inv_move; [done|exact Hid|done..|]. intros _ _ Hown. by eapply own_fds_move; [| | | |destruct go_on|..].
  - destruct (close_fd_same s (Task id) fd) as (_ & E2 & E3 & _).
    eapply fds_inv_move; [done|exact Hid|exact (f_equal (insert id _) E2)|done|by cbn [objects set_task]; rewrite E3|].
    intros _ _ Hown. by apply own_fds_close.
Qed.

Lemma stream_step_fds s s' id fd at_ :
  conns_inv s -> fds_inv s -> tasks s !! id = Some (fd, at_) -> stream_step s id fd at_ s' -> fds_inv s'.
Proof using Type.
  intros Hc Hi Hid Hstep. destruct Hstep as [cl Hcl|Hm|Hm|k Hr Hk| |Hm| |Hm| |].
  1-3,5-8: eapply fds_inv_move; [done|exact Hid|done|done|intros i Hs; cbn [objects set_task set_objects set_tracked set_registered update_object]; by auto|];
    intros _ _ Hown; by eapply own_fds_move.
  - destruct (record_io_same s (Task id) IoRecv fd) as (_ & E2 & E3 & _ & _ & E6 & _).
    eapply fds_inv_still; [done|done|by rewrite E3|]. intros _ Hown. by eapply own_fds_record.
  - destruct (close_fd_same s (Task id) fd) as (_ & E2 & E3 & _).
    eapply fds_inv_move; [done|exact Hid|exact (f_equal (insert id _) E2)|done|by cbn [objects set_task]; rewrite E3|].
    intros _ [] _. exists id, fd, AtRelease. rewrite (set_task_here _ _ _ _ (fd, AtCloseStream)) by by rewrite E2.
    cbn [objects set_task]. rewrite E3. split_and!; [done| |done].
    pose proof (ci_conn _ Hc id) as Hv. rewrite Hid in Hv.
    destruct (conn_ok_own_object fd AtCloseStream _ _ _ eq_refl Hv) as (ob & -> & _). done.
  - eapply fds_inv_move; [done|exact Hid|done|done|intros i Hs; cbn [objects set_task set_objects set_tracked set_registered update_object]; by auto|]. intros Hn. destruct Hn.
    exists id, fd, AtRelease. split_and!; [done| |done]. pose proof (ci_conn _ Hc id) as Hv. rewrite Hid in Hv.
    destruct (conn_ok_own_object fd AtRelease _ _ _ eq_refl Hv) as (ob & -> & _). done.
Qed.

(** The connection of an object. *)
Lemma object_task s id o :
  conns_inv s -> objects s !! id = Some o ->
  exists fd at_, tasks s !! id = Some (fd, at_) /\
    object_ok (bool_decide (id ∈ registered_ s)) (bool_decide (id ∈ tracked_ s)) fd at_ o /\
    (~ stream_ended s -> at_end at_ = false /\ so_life o = Alive).
Proof using Type.
  intros Hc Ho. pose proof (ci_conn _ Hc id) as Hv. rewrite Ho in Hv.
  destruct (tasks s !! id) as [[fd at_]|] eqn:Hid; [|by destruct Hv].
  destruct Hv as (_ & _ & Hok). exists fd, at_. split_and!; [done|apply Hok..|]. intros Hn.
  assert (past_close at_ = false) as Hp.
  { destruct (past_close at_) eqn:Hp; [|done]. destruct Hn. by exists id, fd, at_. }
  split; [by destruct at_|]. destruct Hok as (_ & _ & _ & Hl).
  destruct (so_life o); [done|by destruct Hl as [-> _]..].
Qed.

Lemma writer_step_fds s s' id o :
  conns_inv s -> fds_inv s -> objects s !! id = Some o -> writer_step s id o (so_writer o) s' -> fds_inv s'.
Proof using Type.
  intros Hc Hi Ho Hstep. destruct Hstep as [Hcl|Hcl|line q Hp|q Hp|n rest k Hrest Hn Hk| |rest Hrest].
  5: { destruct (record_io_same s (Writer id) (IoSend (str_take n rest)) (fd_ (so_client o)))
         as (_ & E2 & E3 & _ & _ & E6 & _).
       apply (fds_inv_still s); [done|done|intros i Hs; cbn [objects set_objects]; by auto|].
       intros Hne Hown. destruct (object_task s id o Hc Ho) as (fd & at_ & Hid & (Hfd & _) & Hal).
       destruct (Hal Hne) as [He _]. subst fd. apply (own_fds_same (record_io (Writer id) (IoSend (str_take n rest)) (fd_ (so_client o)) s));
         [by eapply own_fds_record|done..]. }
  all: apply (fds_inv_still s); [done|done|intros i Hs; cbn [objects set_objects]; by auto|];
    intros _ Hown; by eapply own_fds_same.
Qed.

Lemma destructor_step_fds s s' id o :
  conns_inv s -> fds_inv s -> objects s !! id = Some o -> destructor_step s id o (so_life o) s' -> fds_inv s'.
Proof using Type.
  intros Hc Hi Ho Hstep. destruct (object_task s id o Hc Ho) as (fd & at_ & Hid & _ & Hal).
  remember (so_life o) as l eqn:Hl. destruct Hstep as [by_ Hw|by_].
  - apply (fds_inv_still s); [done|done|intros i Hs; cbn [objects set_objects]; by auto|].
    intros _ Hown. by eapply own_fds_same.
  - destruct (close_fds_same (Destructor id) (client_destructor_closes (fd_ (so_client o))) s) as (E1 & E2 & _).
    apply (fds_inv_still s); [done|done|intros i Hs; cbn [objects set_objects]; by auto|].
    intros Hne. by destruct (Hal Hne).
Qed.

Lemma deliver_step_fds s s' : fds_inv s -> deliver_step (J:=J) s s' -> fds_inv s'.
Proof using Type.
  intros Hi Hstep. destruct Hstep; (apply (fds_inv_still s); [done|done| |]);
    try (intros i Hs; cbn [objects set_objects set_delivering set_registered update_object]; by auto);
    intros _ Hown; by eapply own_fds_same.
Qed.

Lemma stop_step_fds s s' : fds_inv s -> stop_step s s' -> fds_inv s'.
Proof using Type.
  intros Hi Hstep. destruct Hstep; (apply (fds_inv_still s); [done|done| |]);
    try (intros i Hs; cbn [objects set_objects set_stopping set_tracked set_base update_object]; by auto);
    intros _ Hown; by eapply own_fds_same.
Qed.

Lemma accept_fds s : conns_inv s -> fds_inv s -> fds_inv (accept_connection reserved s).
Proof using DL.
  intros Hc [Hf Ho]. set (fd := accept_fd (dom (fds s) ∪ reserved)).
  destruct (accept_fd_fresh (dom (fds s) ∪ reserved)) as [H0 Hfree]. fold fd in H0, Hfree.
  unfold accept_connection. fold fd. clearbody fd.
  apply not_elem_of_union in Hfree as [Hfree Hres]. apply not_elem_of_dom in Hfree.
  assert (forall i x, (tasks s ++ [(fd, AtLoop "")]) !! i = Some x ->
    tasks s !! i = Some x \/ i = length (tasks s) /\ x = (fd, AtLoop "")) as Ht.
  { intros i x [Hx|[Hle Hx]]%lookup_app_Some; [by left|right]. apply list_lookup_singleton_Some in Hx as [? ->].
    split; [lia|done]. }
  split; cbn.
  - intros i fd' at_ [Hi|[-> [= -> ->]]]%Ht; [by eapply Hf|done].
  - intros Hn. assert (~ stream_ended s) as Hne.
    { intros (i & fd' & at_ & Hi & Hob & Hp). apply Hn. exists i, fd', at_. split_and!; [|done..].
      by apply lookup_app_l_Some. }
    destruct (Ho Hne) as [H1 H2 H3 H4]. split; cbn.
    + intros i fd' at_ [Hi|[-> [= -> ->]]]%Ht He; [|by rewrite lookup_insert_eq].
      rewrite lookup_insert_ne; [by eapply H1|]. intros <-. pose proof (H1 _ _ _ Hi He). congruence.
    + intros fd' i [[<- <-]|[Hd Hi]]%lookup_insert_Some.
      * exists (AtLoop ""). by rewrite list_lookup_middle.
      * destruct (H2 _ _ Hi) as (at_ & ? & ?). exists at_. split; [|done]. by apply lookup_app_l_Some.
    + rewrite length_app. eapply Forall_impl; [exact H3|]. cbn. intros x [? ?]. split; [done|lia].
    + intros i fd' at_ [Hi|[-> [= -> ->]]]%Ht; [by eapply H4|].
      apply close_count_fresh. eapply Forall_impl; [exact H3|]. by intros x [_ ?].
Qed.

Lemma sockets_step_fds s s' : conns_inv s -> fds_inv s -> step s s' -> fds_inv s'.
Proof using DL.
  intros Hc Hi Hstep. destruct Hstep.
  - by apply accept_fds.
  - by eapply client_step_fds.
  - by eapply stream_step_fds.
  - by eapply writer_step_fds.
  - by eapply destructor_step_fds.
  - by apply (deliver_step_fds s).
  - by apply (stop_step_fds s).
Qed.

Lemma sockets_init_fds (d : Daemon E) : fds_inv (sockets_init d).
Proof using Type. split; [done|]. intros _. by split. Qed.

Lemma sockets_reachable_fds (d : Daemon E) s : rtc step (sockets_init d) s -> conns_inv s /\ fds_inv s.
Proof using DL.
  intros Hr. pose proof (sockets_init_inv d) as H0. pose proof (sockets_init_fds d) as H1.
  induction Hr; eauto using sockets_step_inv, sockets_step_fds.
Qed.
End Descriptors.

(** ** The end of a stream *)
Section Ending.
Context {E : Type} `{!IEnforcer E} {J : Type} `{!Json J}.
Context (file_resolver : FileResolver) (reserved : gset Z) {D : Descriptors}.
Implicit Types (s : sockets E).

Abbreviation step := (sockets_step (J:=J) file_resolver reserved).

(** The connection's own thread has shut its client down. *)
Definition stream_ending s (id : nat) : Prop :=
  exists fd at_ o, tasks s !! id = Some (fd, at_) /\ objects s !! id = Some o /\
    (past_shutdown at_ = true \/ at_ = AtEnd).

Definition task_left (at_ : task_at) : nat :=
  match at_ with AtForget => 3 | AtCloseStream => 2 | AtRelease => 1 | _ => 0 end.
Definition writer_left (o : stream_object) : nat :=
  match so_writer o with
  | WriterTop => 1
  | WriterPopping =>
     match queue_pop (client_queue_ (so_client o)) with
     | Some (Some line, _) => 3 + String.length line
     | _ => 1
     end
  | WriterSending rest => 2 + String.length rest
  | WriterEnded => 0
  end.
Definition life_left (l : object_life) : nat :=
  match l with Alive => 2 | Joining _ => 2 | Closing _ => 1 | Destroyed _ => 0 end.
Definition ending_left s (id : nat) : nat :=
  match tasks s !! id, objects s !! id with
  | Some (_, at_), Some o => task_left at_ + writer_left o + life_left (so_life o)
  | _, _ => 0
  end.

(** The destructor waits for a writer that is inside send. *)
Definition writer_in_send s (id : nat) : Prop :=
  exists fd o rest, tasks s !! id = Some (fd, AtEnd) /\ objects s !! id = Some o /\
    so_life o = Joining ByConnection /\ so_writer o = WriterSending rest /\ rest <> "".

(** What a step leaves alone. *)
Definition untouched s s' (i : nat) : Prop := tasks s' !! i = tasks s !! i /\ objects s' !! i = objects s !! i.

Lemma record_io_untouched s (by_ : actor) call fd i : untouched s (record_io by_ call fd s) i.
Proof using Type. destruct (record_io_same s by_ call fd) as (_ & E2 & E3 & _). split; by rewrite ?E2, ?E3. Qed.

Lemma close_fd_untouched s (by_ : actor) fd i : untouched s (close_fd by_ fd s) i.
Proof using Type. destruct (close_fd_same s by_ fd) as (_ & E2 & E3 & _). split; by rewrite ?E2, ?E3. Qed.

Lemma set_task_untouched s s1 id fd at_ i : i <> id -> untouched s s1 i -> untouched s (set_task id fd at_ s1) i.
Proof using Type. intros Hne [H1 H2]. split; [by rewrite set_task_other|done]. Qed.

Lemma set_objects_untouched s s1 id o i :
  i <> id -> objects s1 = objects s -> untouched s s1 i -> untouched s (set_objects (<[id := o]> (objects s)) s1) i.
Proof using Type. intros Hne Ho [H1 H2]. split; [done|]. cbn. by rewrite lookup_insert_ne. Qed.

Hint Resolve record_io_untouched close_fd_untouched set_task_untouched : core.

Lemma client_step_untouched s s' id fd at_ i :
  client_step (J:=J) file_resolver s id fd at_ s' -> i <> id -> untouched s s' i.
Proof using Type. intros Hstep Hne. destruct Hstep; apply set_task_untouched; (done || auto). Qed.

Lemma stream_step_untouched s s' id fd at_ i :
  conns_inv s -> stream_step s id fd at_ s' -> i <> id -> untouched s s' i.
Proof using Type.
  intros Hi Hstep Hne. destruct Hstep; try (apply set_task_untouched; [done|]); auto; try done.
  - split; [done|]. cbn. by rewrite lookup_insert_ne.
  - split; [done|]. cbn. by rewrite lookup_alter_ne.
  - split; [done|]. cbn. by rewrite lookup_alter_ne.
  - split; [done|]. apply release_own_other; [apply Hi|done].
  - split; [done|]. cbn. by rewrite lookup_alter_ne.
  - split; [done|]. apply release_own_other; [apply Hi|done].
  - split; [done|]. cbn. by rewrite lookup_alter_ne.
Qed.

Lemma writer_step_untouched s s' id o i :
  writer_step s id o (so_writer o) s' -> i <> id -> untouched s s' i.
Proof using Type.
  intros Hstep Hne. destruct Hstep; try by split; [|cbn; rewrite lookup_insert_ne].
  destruct (record_io_untouched s (Writer id) (IoSend (str_take n rest)) (fd_ (so_client o)) i) as [Ht _].
  split; [done|]. cbn. by rewrite lookup_insert_ne.
Qed.

Lemma destructor_step_untouched s s' id o i :
  destructor_step s id o (so_life o) s' -> i <> id -> untouched s s' i.
Proof using Type.
  intros Hstep Hne. destruct Hstep; [by split; [|cbn; rewrite lookup_insert_ne]|].
  destruct (close_fds_same (Destructor id) (client_destructor_closes (fd_ (so_client o))) s) as (E1 & E2 & _).
  split; [by rewrite <- E1|]. cbn [objects set_objects]. by rewrite lookup_insert_ne.
Qed.

(** The connection goes on ending, with no more left than before. *)
Definition goes_on s s' (id : nat) : Prop :=
  stream_ending s' id /\ (ending_left s' id <= ending_left s id)%nat.
Definition comes_closer s s' (id : nat) : Prop :=
  stream_ending s' id /\ (ending_left s' id < ending_left s id)%nat.

Lemma untouched_goes_on s s' id : stream_ending s id -> untouched s s' id -> goes_on s s' id.
Proof using Type.
  intros (fd & at_ & o & Ht & Ho & He) [E1 E2]. split.
  - exists fd, at_, o. by rewrite E1, E2.
  - unfold ending_left. by rewrite E1, E2.
Qed.

Lemma comes_closer_weaken s s' id : comes_closer s s' id -> goes_on s s' id.
Proof using Type. intros [? ?]. split; [done|lia]. Qed.

(** The step sets the task to [at_'] and the object to [o']. *)
Lemma ending_change s s' id fd at_ at_' o o' :
  tasks s !! id = Some (fd, at_) -> objects s !! id = Some o ->
  tasks s' !! id = Some (fd, at_') -> objects s' !! id = Some o' -> past_shutdown at_' = true \/ at_' = AtEnd ->
  (task_left at_' + writer_left o' + life_left (so_life o') < task_left at_ + writer_left o + life_left (so_life o))%nat ->
  comes_closer s s' id.
Proof using Type.
  intros Ht Ho Ht' Ho' He Hlt. split; [by exists fd, at_', o'|]. unfold ending_left. by rewrite Ht, Ho, Ht', Ho'.
Qed.

(** What an ending connection's object is like. *)
Lemma ending_object s id :
  conns_inv s -> stream_ending s id ->
  exists fd at_ o, tasks s !! id = Some (fd, at_) /\ objects s !! id = Some o /\ fd_ (so_client o) = fd /\
    (id ∉ registered_ s) /\
    ((past_shutdown at_ = true /\ so_life o = Alive /\ is_shut (so_client o)) \/
     (at_ = AtEnd /\ so_life o = Joining ByConnection /\ is_shut (so_client o)) \/
     (at_ = AtEnd /\ (so_life o = Closing ByConnection \/ so_life o = Destroyed ByConnection) /\ so_writer o = WriterEnded)).
Proof using Type.
  intros Hc (fd & at_ & o & Ht & Ho & He). exists fd, at_, o. pose proof (ci_conn _ Hc id) as Hv.
  rewrite Ht, Ho in Hv. pose proof (not_registered _ _ _ _ _ Hv) as Hr. destruct Hv as (_ & _ & Hfd & _ & _ & Hl).
  split_and!; [done..| |].
  - eapply bool_decide_eq_false, Hr. by destruct He as [He| ->]; [destruct at_|].
  - destruct He as [He| ->].
    + left. split; [done|]. destruct (so_life o); [|by destruct Hl as [-> _]..]. split; [done|]. by apply Hl.
    + right. destruct (so_life o); [by destruct Hl| | |]; destruct Hl as (_ & -> & Hl); [left|right..]; auto.
Qed.

Lemma release_writer_left (by_ : dropper) o : writer_left (release by_ o) = writer_left o.
Proof using Type. done. Qed.

Lemma stream_step_closer s s' id fd at_ :
  conns_inv s -> stream_ending s id -> tasks s !! id = Some (fd, at_) -> stream_step s id fd at_ s' ->
  comes_closer s s' id.
Proof using Type.
  intros Hc He Hid Hstep. destruct (ending_object s id Hc He) as (fd' & at1 & o & Ht & Ho & _ & Hreg & Hcase).
  assert (past_shutdown at_ = true \/ at_ = AtEnd) as Hp by (assert (at1 = at_) as -> by congruence; naive_solver).
  assert (past_shutdown at_ = true -> so_life o = Alive) as Hal.
  { intros Hp1. assert (at1 = at_) as -> by congruence. destruct Hcase as [Hx|[Hx|Hx]]; [apply Hx|by destruct Hx as [-> _]..]. }
  destruct Hstep; try (by destruct Hp).
  - assert (exists o', objects (release_all ByConnection (filter (fun i => i = id) (tracked_ s)) s) !! id = Some o' /\
      writer_left o' = writer_left o /\ (life_left (so_life o') = life_left (so_life o))%nat) as (o' & Ho' & Hw & Hl).
    { rewrite release_own_here, Ho by apply Hc. destruct (bool_decide (id ∈ tracked_ s)); [|by exists o].
      eexists. split; [done|]. split; [done|]. cbn. case_bool_decide; [|done]. by rewrite (Hal eq_refl). }
    eapply (ending_change s _ id fd AtForget AtCloseStream o o'); try done.
    + by apply (set_task_here _ _ _ _ (fd, AtForget)).
    + by left.
    + rewrite Hw, Hl. cbn. lia.
  - destruct (close_fd_same s (Task id) fd) as (_ & E2 & E3 & _).
    eapply (ending_change s _ id fd AtCloseStream AtRelease o o); try done.
    + apply (set_task_here _ _ _ _ (fd, AtCloseStream)). by rewrite E2.
    + cbn [objects set_task]. by rewrite E3.
    + by left.
    + cbn. lia.
  - eapply (ending_change s _ id fd AtRelease AtEnd o (release ByConnection o)); try done.
    + by apply (set_task_here _ _ _ _ (fd, AtRelease)).
    + cbn. by rewrite lookup_alter_eq, Ho.
    + by right.
    + rewrite release_writer_left. cbn. rewrite (Hal eq_refl). case_bool_decide; cbn; lia.
Qed.

(** The object moves on, the task stays. *)
Lemma object_closer s s' id o o' :
  stream_ending s id -> objects s !! id = Some o -> tasks s' !! id = tasks s !! id ->
  objects s' !! id = Some o' ->
  (writer_left o' + life_left (so_life o') < writer_left o + life_left (so_life o))%nat -> comes_closer s s' id.
Proof using Type.
  intros (fd & at_ & o0 & Ht & _ & He) Ho Ht' Ho' Hlt.
  eapply (ending_change s s' id fd at_ at_ o o'); rewrite ?Ht'; try done. lia.
Qed.

Lemma writer_step_closer s s' id o :
  conns_inv s -> stream_ending s id -> objects s !! id = Some o -> writer_step s id o (so_writer o) s' ->
  comes_closer s s' id.
Proof using Type.
  intros Hc He Ho Hstep. destruct (ending_object s id Hc He) as (fd & at_ & o0 & Ht & Ho0 & _ & _ & Hcase).
  assert (o0 = o) as -> by congruence.
  assert (so_writer o <> WriterEnded -> closed_ (so_client o) = true) as Hshut.
  { intros Hw. destruct Hcase as [(_ & _ & H)|[(_ & _ & H)|(_ & _ & H)]]; [apply H|apply H|done]. }
  assert (forall o', tasks s' !! id = tasks s !! id -> objects s' !! id = Some o' -> so_life o' = so_life o ->
    (writer_left o' < writer_left o)%nat -> comes_closer s s' id) as Hclose.
  { intros o' H1 H2 H3 H4. eapply object_closer; [done|done|done|done|]. rewrite H3. lia. }
  remember (so_writer o) as w eqn:Hw.
  destruct Hstep as [Hcl|Hcl|line q Hp|q Hp|n rest k Hrest Hn Hk| |rest Hrest].
  - eapply Hclose; [done|apply lookup_insert_eq|done|]. unfold writer_left. rewrite <- Hw. cbn. lia.
  - rewrite Hshut in Hcl by done. done.
  - eapply Hclose; [done|apply lookup_insert_eq|done|]. unfold writer_left. rewrite <- Hw, Hp. cbn. lia.
  - eapply Hclose; [done|apply lookup_insert_eq|done|]. unfold writer_left. rewrite <- Hw, Hp. cbn. lia.
  - destruct (record_io_untouched s (Writer id) (IoSend (str_take n rest)) (fd_ (so_client o)) id) as [E1 _].
    eapply Hclose; [exact E1|apply lookup_insert_eq|done|]. unfold writer_left. rewrite <- Hw. cbn.
    rewrite str_drop_length. lia.
  - eapply Hclose; [done|apply lookup_insert_eq|done|]. unfold writer_left. rewrite <- Hw. cbn. lia.
  - eapply Hclose; [done|apply lookup_insert_eq|done|]. unfold writer_left. rewrite <- Hw. cbn. lia.
Qed.

Lemma destructor_step_closer s s' id o :
  stream_ending s id -> objects s !! id = Some o -> destructor_step s id o (so_life o) s' -> comes_closer s s' id.
Proof using Type.
  intros He Ho Hstep. remember (so_life o) as l eqn:Hl. destruct Hstep as [by_ Hw|by_].
  - eapply object_closer; [done|done|done|apply lookup_insert_eq|]. rewrite <- Hl. unfold writer_left; cbn. rewrite Hw. lia.
  - destruct (close_fds_same (Destructor id) (client_destructor_closes (fd_ (so_client o))) s) as (E1 & _).
    eapply object_closer; [done|done|by cbn [tasks set_objects]; rewrite E1|apply lookup_insert_eq|].
    rewrite <- Hl. unfold writer_left; cbn. lia.
Qed.

Lemma deliver_step_goes_on s s' id :
  conns_inv s -> stream_ending s id -> deliver_step (J:=J) s s' -> goes_on s s' id.
Proof using Type.
  intros Hc He Hstep. apply untouched_goes_on; [done|].
  destruct (ending_object s id Hc He) as (fd & at_ & o & _ & _ & _ & Hreg & _).
  assert (forall ev kept i ids, delivering s = Some (ev, kept, i :: ids) -> id <> i) as Hne.
  { intros ev kept i ids Hd ->. apply Hreg. rewrite (ci_deliver _ Hc _ _ _ Hd). set_solver. }
  destruct Hstep as [ev Hd|ev kept i ids o' Hd Ho' Hcl|ev kept i ids o' cl Hd Ho' Hcl Hp|ev kept Hd]; try by split.
  - split; [done|]. cbn. rewrite lookup_alter_ne; [done|]. by apply not_eq_sym, (Hne ev kept _ ids).
  - split; [done|]. cbn. rewrite lookup_insert_ne; [done|]. by apply not_eq_sym, (Hne ev kept _ ids).
Qed.

Lemma shutdown_writer_left o :
  stop_ (client_queue_ (so_client o)) = true ->
  writer_left (with_client o (stream_shutdown (so_client o))) = writer_left o.
Proof using Type.
  intros Hs. assert (queue_request_stop (client_queue_ (so_client o)) = client_queue_ (so_client o)) as Hq.
  { destruct (client_queue_ (so_client o)). cbn in *. by rewrite Hs. }
  unfold writer_left. cbn [so_client so_writer with_client client_queue_ stream_shutdown]. by rewrite Hq.
Qed.

Lemma stop_step_goes_on s s' id : conns_inv s -> stream_ending s id -> stop_step s s' -> goes_on s s' id.
Proof using Type.
  intros Hc He Hstep. pose proof He as (fd & at_ & o & Ht & Ho & Hp).
  destruct (ending_object s id Hc He) as (fd' & at1 & o1 & Ht1 & Ho1 & _ & Hreg & Hcase).
  assert (o1 = o /\ at1 = at_) as [-> ->] by (split; congruence).
  assert (id ∈ tracked_ s -> so_life o = Alive /\ is_shut (so_client o)) as Htr.
  { intros Hin. pose proof (ci_conn _ Hc id) as Hv. rewrite (bool_decide_true (id ∈ tracked_ s)) in Hv by done.
    destruct (conn_ok_listed _ _ _ _ Hv (or_intror eq_refl)) as (? & at2 & ob & Ht2 & Ho2 & Hl & _ & Hne).
    assert (at2 = at_ /\ ob = o) as [-> ->] by (split; congruence). naive_solver. }
  destruct Hstep as [Hs Hr|Hs|i ids Hs|Hs]; try by apply untouched_goes_on.
  - destruct (decide (id = i)) as [->|Hne]; [|apply untouched_goes_on; [done|by split; [|cbn; rewrite lookup_alter_ne]]].
    destruct Htr as [Hl [_ Hst]]; [by apply (ci_stop _ Hc _ Hs); set_solver|].
    split; [exists fd, at_, (with_client o (stream_shutdown (so_client o)))|unfold ending_left];
      cbn; rewrite lookup_alter_eq, Ho, Ht; [done|]. cbn. by rewrite shutdown_writer_left.
  - assert (objects (release_all ByStop (tracked_ s) s) !! id =
      if bool_decide (id ∈ tracked_ s) then release ByStop <$> objects s !! id else objects s !! id) as Hlk
      by (apply release_all_lookup, Hc).
    case_bool_decide as Hin; [|by apply untouched_goes_on].
    destruct (Htr Hin) as [Hl _]. rewrite Ho in Hlk. cbn [fmap option_fmap option_map] in Hlk.
    assert (objects (set_stopping StopIdle (set_tracked [] (release_all ByStop (tracked_ s) s))) !! id = Some (release ByStop o))
      as Hlk' by (rewrite <- Hlk; done).
    split; [by exists fd, at_, (release ByStop o)|]. unfold ending_left. rewrite Hlk', Ho.
    change (tasks (set_stopping _ _)) with (tasks s). rewrite Ht, release_writer_left. cbn.
    rewrite Hl. by case_bool_decide.
Qed.

Lemma sockets_step_goes_on s s' id : conns_inv s -> stream_ending s id -> step s s' -> goes_on s s' id.
Proof using Type.
  intros Hc He Hstep. pose proof He as (fd & at_ & o & Ht & Ho & Hp).
  destruct Hstep as [|i fd' at1 s' Hi Hst|i fd' at1 s' Hi Hst|i o' s' Hi Hst|i o' s' Hi Hst|s' Hst|s' Hst].
  - apply untouched_goes_on; [done|]. split; [|done]. cbn. rewrite lookup_app_l; [done|]. by eapply lookup_lt_Some.
  - destruct (decide (id = i)) as [<-|Hne]; [|by apply untouched_goes_on; [|eapply client_step_untouched]].
    assert (at1 = at_) as -> by congruence. clear -Hst Hp. by destruct Hst; destruct Hp.
  - destruct (decide (id = i)) as [<-|Hne]; [|by apply untouched_goes_on; [|eapply stream_step_untouched]].
    apply comes_closer_weaken. exact (stream_step_closer s s' id fd' at1 Hc He Hi Hst).
  - destruct (decide (id = i)) as [<-|Hne]; [|by apply untouched_goes_on; [|eapply writer_step_untouched]].
    apply comes_closer_weaken. exact (writer_step_closer s s' id o' Hc He Hi Hst).
  - destruct (decide (id = i)) as [<-|Hne]; [|by apply untouched_goes_on; [|eapply destructor_step_untouched]].
    apply comes_closer_weaken. exact (destructor_step_closer s s' id o' He Hi Hst).
  - by apply deliver_step_goes_on.
  - by apply stop_step_goes_on.
Qed.

(** The thread that holds stream_clients_mu_ can go on. *)
Lemma stop_progress s l : stopping s = StopShutting l -> exists s', stop_step s s'.
Proof using Type. intros Hs. destruct l as [|id l]; eexists; [by apply stop_clears|by eapply stop_shuts_down]. Qed.

Lemma joining_progress s id fd o :
  conns_inv s -> stream_ending s id -> tasks s !! id = Some (fd, AtEnd) -> objects s !! id = Some o ->
  so_life o = Joining ByConnection -> is_shut (so_client o) ->
  writer_in_send s id \/ exists s', step s s' /\ comes_closer s s' id.
Proof using Type.
  intros Hc He Ht Ho Hl [Hcl Hst].
  assert (forall s', writer_step s id o (so_writer o) s' -> exists s', step s s' /\ comes_closer s s' id) as Hw.
  { intros s' Hw. exists s'. split; [by eapply step_writer|]. by eapply writer_step_closer. }
  destruct (so_writer o) as [| |rest|] eqn:E1.
  - right. by eapply Hw, writer_sees_closed.
  - right. destruct (queue_pop (client_queue_ (so_client o))) as [[[line|] q]|] eqn:Hp.
    + by eapply Hw, writer_pops.
    + by eapply Hw, writer_drained.
    + unfold queue_pop in Hp. rewrite Hst in Hp. cbn in Hp. by destruct (queue_empty _).
  - destruct (decide (rest = "")) as [->|Hne]; [right; by eapply Hw, writer_sent|].
    left. exists fd, o, rest. by split_and!.
  - right. eexists. assert (destructor_step s id o (so_life o)
      (set_objects (<[id := with_life o (Closing ByConnection)]> (objects s)) s)) as Hd.
    { rewrite Hl. by apply destructor_joins. }
    split; [by eapply step_destructor|]. by eapply destructor_step_closer.
Qed.

Lemma ending_progress s id :
  conns_inv s -> stream_ending s id ->
  (exists o, objects s !! id = Some o /\ so_life o = Destroyed ByConnection /\ ending_left s id = 0%nat) \/
  writer_in_send s id \/ (exists s', step s s' /\ comes_closer s s' id) \/
  exists l s', stopping s = StopShutting l /\ stop_step s s'.
Proof using Type.
  intros Hc He. destruct (ending_object s id Hc He) as (fd & at_ & o & Ht & Ho & _ & _ & Hcase).
  assert (forall s', stream_step s id fd at_ s' -> exists s', step s s' /\ comes_closer s s' id) as Hs.
  { intros s' Hs. exists s'. split; [by eapply step_stream|]. by eapply stream_step_closer. }
  destruct Hcase as [(Hp & _ & _)|[(-> & Hl & Hsh)|(-> & Hl & Hw)]].
  - right; right. destruct at_; try done.
    + destruct (stopping s) as [| |l] eqn:E1; [left; by eapply Hs, stream_forgets; rewrite E1..|].
      right. destruct (stop_progress s l E1) as [s' ?]. by exists l, s'.
    + left. by eapply Hs, stream_closes.
    + left. by eapply Hs, stream_returns.
  - right. destruct (joining_progress s id fd o Hc He Ht Ho Hl Hsh); auto.
  - destruct Hl as [Hl|Hl].
    + right; right; left. eexists. assert (destructor_step s id o (so_life o)
        (set_objects (<[id := with_life o (Destroyed ByConnection)]> (objects s))
           (foldr (close_fd (Destructor id)) s (client_destructor_closes (fd_ (so_client o)))))) as Hd.
      { rewrite Hl. apply destructor_closes. }
      split; [by eapply step_destructor|]. by eapply destructor_step_closer.
    + left. exists o. split_and!; [done..|]. unfold ending_left, writer_left. by rewrite Ht, Ho, Hl, Hw.
Qed.
End Ending.
