(* ===== verification/ConnectionLife.v ===== *)
(** * The life of the connections

    The theorems about Connections.v: the client objects live long enough,
    descriptors are private until a stream ends, the end of a stream
    terminates, the steps undisturbed are the operations of Daemon.v; and what
    the end of a stream can do to the next connections. *)

From stdpp Require Import relations.
From S2P Require Import Prelude FileId Policy PolicyCompiler SpscQueue SecurityEvent Enforcer Json ConfigParser EventSink Controller.
From S2P Require Import Daemon DaemonProperties Connections ConnectionInvariant ConnectionProperties.

Local Open Scope Z_scope.

(** ** The properties *)
Lemma count_occ_once (l : list nat) (id : nat) :
  NoDup l -> count_occ Nat.eq_dec l id = Nat.b2n (bool_decide (id ∈ l)).
Proof.
  induction 1 as [|x l Hx _ IH]; [done|]. cbn. destruct (Nat.eq_dec x id) as [->|Hne].
  - rewrite IH, bool_decide_false, bool_decide_true by set_solver. done.
  - rewrite IH. do 2 case_bool_decide; set_solver.
Qed.

Section Properties.
Context {E : Type} `{!IEnforcer E} {J : Type} `{!Json J}.
Context (file_resolver : FileResolver) (reserved : gset Z) {D : Descriptors} {DL : DescriptorLaws}.
Implicit Types (s : sockets E) (d : Daemon E).

Abbreviation step := (sockets_step (J:=J) file_resolver reserved).

Definition alive s (id : nat) : Prop := exists o, objects s !! id = Some o /\ so_life o = Alive.
Definition dropped_by (l : object_life) : option dropper :=
  match l with Alive => None | Joining by_ | Closing by_ | Destroyed by_ => Some by_ end.

(** C19 (the client objects live long enough): whatever the threads do, every
    client object that the controller or the daemon lists, that the consumer's
    loop or Daemon::stop is still to visit, or that its connection's thread is
    working with is alive; the use count of an object is the number of those
    references and it is alive exactly as long as the count is not zero; its
    destructor is run by the connection's own thread at the very end, never by
    the consumer or by stop(), and it closes the descriptor only after the
    writer thread has ended. *)
Theorem client_objects_safe d s :
  rtc step (sockets_init d) s ->
  (forall id, id ∈ registered_ s ++ tracked_ s -> alive s id) /\
  (forall ev kept left id, delivering s = Some (ev, kept, left) -> id ∈ left -> alive s id) /\
  (forall left id, stopping s = StopShutting left -> id ∈ left -> alive s id) /\
  (forall id fd at_, tasks s !! id = Some (fd, at_) -> holds_ref at_ = true -> alive s id) /\
  (forall id o, objects s !! id = Some o -> exists fd at_,
     tasks s !! id = Some (fd, at_) /\ fd_ (so_client o) = fd /\
     so_refs o = (Nat.b2n (holds_ref at_) + count_occ Nat.eq_dec (registered_ s) id +
                  count_occ Nat.eq_dec (tracked_ s) id)%nat /\
     (so_life o = Alive <-> so_refs o <> 0%nat) /\
     (so_life o <> Alive -> at_ = AtEnd /\ dropped_by (so_life o) = Some ByConnection) /\
     (so_life o = Destroyed ByConnection -> so_writer o = WriterEnded)).
Proof.
  intros Hr. pose proof (sockets_reachable_inv _ _ _ _ Hr) as Hc.
  assert (forall id, id ∈ registered_ s \/ id ∈ tracked_ s -> alive s id) as Hlisted.
  { intros id Hid. destruct (conn_ok_listed _ _ _ _ (ci_conn _ Hc id)) as (_ & _ & ob & _ & Ho & Hl & _);
      [by rewrite !bool_decide_eq_true|]. by exists ob. }
  split_and!.
  - intros id. rewrite elem_of_app. apply Hlisted.
  - intros ev kept left id Hd Hin. apply Hlisted. left. rewrite (ci_deliver _ Hc _ _ _ Hd).
    apply elem_of_app. by right.
  - intros left id Hs Hin. apply Hlisted. right. by apply (ci_stop _ Hc _ Hs).
  - intros id fd at_ Hid Hh. pose proof (ci_conn _ Hc id) as Hv. rewrite Hid in Hv.
    destruct (conn_ok_own_object fd at_ _ _ _ Hh Hv) as (ob & ? & ? & _). by exists ob.
  - intros id o Ho. destruct (object_task s id o Hc Ho) as (fd & at_ & Hid & (H1 & H2 & _ & H4) & _).
    exists fd, at_. rewrite !count_occ_once by apply Hc. split_and!; [done..| | |].
    + rewrite H2. pose proof (ci_conn _ Hc id) as Hv. rewrite Hid in Hv. split; intros Hx.
      * rewrite Hx in H4. destruct H4 as [-> _]. done.
      * destruct (so_life o) eqn:E1; [done|..]; destruct H4 as (-> & _);
          rewrite (not_registered _ _ _ _ _ Hv eq_refl), (not_tracked _ _ _ _ _ Hv eq_refl) in Hx; by destruct Hx.
    + intros Hx. destruct (so_life o); [done|..]; by destruct H4 as (-> & -> & _).
    + intros Hx. rewrite Hx in H4. apply H4.
Qed.

(** C20 (whose socket a descriptor is): as long as no stream has come to its
    end, every descriptor a thread uses stands for the socket of its own
    connection and no other descriptor stands for it; everything that was
    received, sent or closed by a connection's thread or by the writer of its
    client object was so on the connection's own socket; and the socket of a
    connection that has ended has been closed exactly once, the others not at
    all.  The descriptors in use before the first connection (the listening
    socket, the log, the kernel's maps) are never among them, even later. *)
Theorem descriptors_private d s :
  rtc step (sockets_init d) s ->
  (forall id fd at_, tasks s !! id = Some (fd, at_) -> 0 <= fd /\ fd ∉ reserved) /\
  ((forall id fd at_, tasks s !! id = Some (fd, at_) -> is_Some (objects s !! id) -> past_close at_ = false) ->
   (forall id fd at_, tasks s !! id = Some (fd, at_) -> at_ <> AtEnd ->
      forall k, fds s !! fd = Some k <-> k = id) /\
   (forall fd id, fds s !! fd = Some id -> exists at_, tasks s !! id = Some (fd, at_)) /\
   (forall x, x ∈ wire s -> io_on x = actor_conn (io_by x)) /\
   (forall id fd at_, tasks s !! id = Some (fd, at_) ->
      close_count id (wire s) = if decide (at_ = AtEnd) then 1%nat else 0%nat)).
Proof.
  intros Hr. destruct (sockets_reachable_fds _ _ _ _ Hr) as [Hc [Hf Hown]]. split; [done|]. intros Hn.
  destruct Hown as [H1 H2 H3 H4].
  { intros (id & fd & at_ & Hid & Ho & Hp). specialize (Hn _ _ _ Hid Ho). congruence. }
  split_and!.
  - intros id fd at_ Hid Hne k. assert (fds s !! fd = Some id) as -> by (eapply H1; [done|by destruct at_]). naive_solver.
  - intros fd id Hfd. destruct (H2 _ _ Hfd) as (at_ & ? & _). by exists at_.
  - intros x Hx. rewrite Forall_forall in H3. by apply H3.
  - intros id fd at_ Hid. rewrite (H4 _ _ _ Hid). by destruct at_; case_decide.
Qed.

(** C21 (the end of a stream terminates): once a connection's thread has shut
    its client down, no step of any thread adds to what is left of its
    clean-up, each step of its own thread, of the writer and of the destructor
    takes something off, and in the end the client object is destroyed.  Until
    then one of them can always go on, or the thread in Daemon::stop can, which
    holds the mutex; the one exception is a writer inside send(2), for whose
    peer the destructor waits, and every return of that call brings the
    clean-up nearer to its end. *)
Theorem stream_end_terminates d s id :
  rtc step (sockets_init d) s -> stream_ending s id ->
  (forall s', rtc step s s' -> stream_ending s' id /\ (ending_left s' id <= ending_left s id)%nat) /\
  ((exists o, objects s !! id = Some o /\ so_life o = Destroyed ByConnection /\ ending_left s id = 0%nat) \/
   writer_in_send s id \/
   (exists s', step s s' /\ (ending_left s' id < ending_left s id)%nat) \/
   exists l s', stopping s = StopShutting l /\ stop_step s s') /\
  (forall o s', objects s !! id = Some o -> writer_step s id o (so_writer o) s' ->
     (ending_left s' id < ending_left s id)%nat).
Proof.
  intros Hr He. pose proof (sockets_reachable_inv _ _ _ _ Hr) as Hc. split_and!.
  - intros s' Hr'. clear Hr. revert Hc He. induction Hr' as [s|s s1 s2 Hst Hr' IH]; intros Hc He; [done|].
    destruct (sockets_step_goes_on file_resolver reserved s s1 id Hc He Hst) as [He1 Hle].
    destruct IH as [? ?]; [by eapply sockets_step_inv|done|]. split; [done|lia].
  - destruct (ending_progress file_resolver reserved s id Hc He) as [?|[?|[(s' & ? & _ & ?)|?]]]; eauto 7.
  - intros o s' Ho Hw. by apply (writer_step_closer s s' id o Hc He Ho Hw).
Qed.
End Properties.

(** ** The operations of Daemon.v *)
Section Alone.
Context {E : Type} `{!IEnforcer E} {J : Type} `{!Json J}.
Context (file_resolver : FileResolver) (reserved : gset Z) {D : Descriptors} {DL : DescriptorLaws}.
Implicit Types (s : sockets E).

Abbreviation step := (sockets_step (J:=J) file_resolver reserved).

(** The daemon as Daemon.v has it: the objects in the controller's list. *)
Definition listed (os : gmap nat stream_object) (ids : list nat) : list (nat * SocketStreamClient) :=
  omap (fun id => (fun o => (id, so_client o)) <$> os !! id) ids.
Definition daemon_of s : Daemon E :=
  let c := controller_ (base s) in
  MkDaemon (dmn_cfg (base s)) (with_outputs c (sinks_ c) (listed (objects s) (registered_ s)))
    (running_ (base s)) (tracked_ s).

Lemma listed_cons os (id : nat) (ids : list nat) :
  listed os (id :: ids) =
  match os !! id with Some o => (id, so_client o) :: listed os ids | None => listed os ids end.
Proof using Type. unfold listed. cbn. by destruct (os !! id). Qed.

Lemma listed_ext (os os' : gmap nat stream_object) (ids : list nat) :
  (forall id, id ∈ ids -> so_client <$> os !! id = so_client <$> os' !! id) -> listed os ids = listed os' ids.
Proof using Type.
  induction ids as [|id ids IH]; intros Hext; [done|]. rewrite !listed_cons, IH by (intros; by apply Hext, list_elem_of_further).
  pose proof (Hext id (list_elem_of_here _ _)) as Hid. destruct (os !! id), (os' !! id); cbn in Hid; congruence.
Qed.

Lemma listed_app os ids1 ids2 : listed os (ids1 ++ ids2) = listed os ids1 ++ listed os ids2.
Proof using Type. apply omap_app. Qed.

Lemma listed_filter os (id : nat) (ids : list nat) :
  listed os (filter (fun i => i <> id) ids) = filter (fun p => p.1 <> id) (listed os ids).
Proof using Type.
  induction ids as [|i ids IH]; [done|]. rewrite filter_cons, listed_cons.
  destruct (decide (i <> id)) as [Hi|Hi].
  - rewrite listed_cons, IH. destruct (os !! i); [|done]. rewrite filter_cons_True by exact Hi. done.
  - rewrite IH. destruct (os !! i); [|done]. rewrite filter_cons_False by exact Hi. done.
Qed.

#[local] Arguments listed : simpl never.

(** The first half of enter_stream_mode, undisturbed. *)
Lemma stream_enter_alone s id fd :
  conns_inv s -> tasks s !! id = Some (fd, AtCreate) -> delivering s = None ->
  (forall l, stopping s <> StopShutting l) ->
  exists s' cl, rtc step s s' /\ tasks s' !! id = Some (fd, AtWait) /\
    objects s' !! id = Some (MkStreamObject cl 3 WriterTop Alive) /\ fds s' = fds s /\
    stream_enter id fd (daemon_of s) = Return (daemon_of s').
Proof using Type.
  intros Hc Hid Hd Hs. pose proof (ci_conn _ Hc id) as Hv. rewrite Hid in Hv.
  destruct (conn_ok_plain fd AtCreate (AtLoop "") _ _ _ eq_refl ltac:(done) eq_refl Hv) as (_ & _ & Hr & Ht).
  assert (exists cl, SocketStreamClient_create fd = Return cl) as [cl Hcl] by (vm_compute; eauto).
  eexists _, cl. split.
  { eapply rtc_l; [eapply step_stream; [exact Hid|by apply (stream_creates _ _ _ cl)]|].
    eapply rtc_l; [eapply step_stream; [by eapply set_task_here|by apply stream_tracks]|].
    eapply rtc_l; [eapply step_stream; [by eapply set_task_here, set_task_here|by apply stream_registers]|].
    apply rtc_refl. }
  split; [by eapply set_task_here, set_task_here, set_task_here|]. split; [|split; [done|]].
  { cbn. by rewrite !lookup_alter_eq, lookup_insert_eq. }
  unfold stream_enter. rewrite Hcl. cbn [mbind outcome_bind]. f_equal. unfold daemon_of; cbn.
  unfold add_event_stream_client, with_outputs; cbn. do 2 f_equal. rewrite listed_app. f_equal.
  - apply listed_ext. intros i Hi. apply bool_decide_eq_false in Hr.
    rewrite !lookup_alter_ne, lookup_insert_ne; [done|..]; by intros ->.
  - by rewrite listed_cons, !lookup_alter_eq, lookup_insert_eq.
Qed.

(** How far the thread of [id] has come alone, from [s] to [s']. *)
Record came_alone s (id : nat) (fd : Z) (at_ : task_at) (o : stream_object) (reg trk : list nat) (f : gmap Z nat) s'
    : Prop := {
  ca_run : rtc step s s';
  ca_inv : conns_inv s';
  ca_task : tasks s' !! id = Some (fd, at_);
  ca_object : objects s' !! id = Some o;
  ca_others : forall i, i <> id -> objects s' !! i = objects s !! i;
  ca_base : base s' = base s;
  ca_registered : registered_ s' = reg;
  ca_tracked : tracked_ s' = trk;
  ca_fds : fds s' = f;
  ca_deliver : delivering s' = delivering s;
  ca_stop : stopping s' = stopping s;
}.

Lemma came_alone_step s s1 s2 id fd at1 at2 o1 o2 reg1 trk1 f1 reg2 trk2 f2 :
  came_alone s id fd at1 o1 reg1 trk1 f1 s1 -> step s1 s2 ->
  tasks s2 !! id = Some (fd, at2) -> objects s2 !! id = Some o2 ->
  (forall i, i <> id -> objects s2 !! i = objects s1 !! i) -> base s2 = base s1 ->
  registered_ s2 = reg2 -> tracked_ s2 = trk2 -> fds s2 = f2 -> delivering s2 = delivering s1 ->
  stopping s2 = stopping s1 -> came_alone s id fd at2 o2 reg2 trk2 f2 s2.
Proof using Type.
  intros [] Hst ? ? Hoth Hb ? ? ? Hd Hs. split; try done; try congruence; [by eapply rtc_r|by eapply sockets_step_inv|].
  intros i Hi. rewrite Hoth by done. auto.
Qed.

Lemma release_own_client (by_ : dropper) (ids : list nat) s id o :
  NoDup ids -> objects s !! id = Some o ->
  exists o', objects (release_all by_ (filter (fun j => j = id) ids) s) !! id = Some o' /\
    so_client o' = so_client o /\ so_writer o' = so_writer o.
Proof using Type.
  intros Hnd Ho. rewrite release_own_here, Ho by done. destruct (bool_decide _); [|by exists o]. by eexists.
Qed.

Section From.
Context (s : sockets E) (id : nat) (fd : Z) (Hd : delivering s = None) (Hs : forall l, stopping s <> StopShutting l).
Implicit Types (o : stream_object) (reg trk : list nat) (f : gmap Z nat).

Abbreviation came := (came_alone s id fd).

Lemma alone_waited o reg trk f s1 : came AtWait o reg trk f s1 -> exists s2, came AtUnregister o reg trk f s2.
Proof using Type.
  intros H. eexists. eapply came_alone_step; [exact H|eapply step_stream; [apply H|apply stream_waited]|
    by eapply set_task_here, H|apply H|done|done|apply H|apply H|apply H|done|done].
Qed.

Lemma alone_unregisters o reg trk f s1 :
  came AtUnregister o reg trk f s1 ->
  exists s2 o', came AtShutdown o' (filter (fun i => i <> id) reg) trk f s2 /\
    so_client o' = so_client o /\ so_writer o' = so_writer o.
Proof using Hd.
  intros H. pose proof H as [_ Hc Ht Ho _ _ Hr _ _ Hdl _].
  destruct (release_own_client ByConnection (registered_ s1) s1 id o) as (o' & Ho' & ? & ?); [apply Hc|done|].
  eexists _, o'. split; [|done].
  eapply came_alone_step; [exact H|eapply step_stream; [exact Ht|apply stream_unregisters; congruence]|
    by eapply set_task_here|exact Ho'| |done|cbn; by rewrite Hr|apply H|apply H|done|done].
  intros i Hi. by apply release_own_other; [apply Hc|].
Qed.

Lemma alone_shuts_down o reg trk f s1 :
  came AtShutdown o reg trk f s1 ->
  exists s2, came AtForget (with_client o (stream_shutdown (so_client o))) reg trk f s2.
Proof using Type.
  intros H. pose proof H as [_ Hc Ht Ho _ _ _ _ _ _ _]. eexists.
  eapply came_alone_step; [exact H|eapply step_stream; [exact Ht|apply stream_shuts_down]|
    by eapply set_task_here| | |done|apply H|apply H|apply H|done|done].
  - cbn. by rewrite lookup_alter_eq, Ho.
  - intros i Hi. cbn. by rewrite lookup_alter_ne.
Qed.

Lemma alone_forgets o reg trk f s1 :
  came AtForget o reg trk f s1 ->
  exists s2 o', came AtCloseStream o' reg (filter (fun i => i <> id) trk) f s2 /\
    so_client o' = so_client o /\ so_writer o' = so_writer o.
Proof using Hs.
  intros H. pose proof H as [_ Hc Ht Ho _ _ _ Hr _ _ Hst].
  destruct (release_own_client ByConnection (tracked_ s1) s1 id o) as (o' & Ho' & ? & ?); [apply Hc|done|].
  eexists _, o'. split; [|done].
  eapply came_alone_step; [exact H|eapply step_stream; [exact Ht|apply stream_forgets; by rewrite Hst]|
    by eapply set_task_here|exact Ho'| |done|apply H|cbn; by rewrite Hr|apply H|done|done].
  intros i Hi. by apply release_own_other; [apply Hc|].
Qed.

Lemma alone_closes o reg trk f s1 :
  came AtCloseStream o reg trk f s1 -> exists s2, came AtRelease o reg trk (delete fd f) s2.
Proof using Type.
  intros H. pose proof H as [_ Hc Ht Ho _ _ _ _ Hf _ _].
  destruct (close_fd_same s1 (Task id) fd) as (E1 & E2 & E3 & E4 & E5 & E7 & E8). eexists.
  eapply came_alone_step; [exact H|eapply step_stream; [exact Ht|apply stream_closes]|..];
    cbn [objects base registered_ tracked_ delivering stopping set_task]; rewrite ?E1, ?E3, ?E4, ?E5, ?E7, ?E8; try done; try apply H.
  - eapply set_task_here. by rewrite E2.
  - rewrite <- Hf. unfold close_fd, record_io. cbn. by destruct (fds s1 !! fd).
Qed.

Lemma alone_returns o reg trk f s1 :
  came AtRelease o reg trk f s1 ->
  exists s2 o', came AtEnd o' reg trk f s2 /\ so_client o' = so_client o /\ so_writer o' = so_writer o /\
    so_life o' = Joining ByConnection.
Proof using Type.
  intros H. pose proof H as [_ Hc Ht Ho _ _ _ _ _ _ _].
  pose proof (ci_conn _ Hc id) as Hv. rewrite Ht, Ho in Hv.
  destruct (conn_ok_own_object fd AtRelease _ _ _ eq_refl Hv) as (ob & [= <-] & Hl & (_ & Hr & _)).
  rewrite (not_registered _ _ _ _ _ Hv eq_refl), (not_tracked _ _ _ _ _ Hv eq_refl) in Hr. cbn in Hr.
  eexists _, (release ByConnection o). split; [|by unfold release; cbn; rewrite bool_decide_true].
  eapply came_alone_step; [exact H|eapply step_stream; [exact Ht|apply stream_returns]|
    by eapply set_task_here| | |done|apply H|apply H|apply H|done|done].
  - cbn. by rewrite lookup_alter_eq, Ho.
  - intros i Hi. cbn. by rewrite lookup_alter_ne.
Qed.

(** The destructor, with a writer between two lines that finds the client closed. *)
Lemma alone_destroys o reg trk f s1 :
  came AtEnd o reg trk f s1 -> so_writer o = WriterTop -> so_life o = Joining ByConnection ->
  closed_ (so_client o) = true -> fd_ (so_client o) = fd -> 0 <= fd ->
  exists s2 o', came AtEnd o' reg trk (delete fd f) s2 /\ so_life o' = Destroyed ByConnection.
Proof using Type.
  intros H Hw Hl Hcl Hfd Hpos.
  assert (exists s2, came AtEnd (writer_end o) reg trk f s2) as [s2 H2].
  { pose proof H as [_ Hc Ht Ho _ _ _ _ _ _ _]. eexists.
    eapply came_alone_step; [exact H|eapply step_writer; [exact Ho|rewrite Hw; by apply writer_sees_closed]|
      exact Ht|apply lookup_insert_eq| |done|apply H|apply H|apply H|done|done].
    intros i Hi. cbn. by rewrite lookup_insert_ne. }
  assert (exists s3, came AtEnd (with_life (writer_end o) (Closing ByConnection)) reg trk f s3) as [s3 H3].
  { pose proof H2 as [_ Hc Ht Ho _ _ _ _ _ _ _]. eexists.
    eapply came_alone_step; [exact H2|eapply step_destructor; [exact Ho|cbn; rewrite Hl; by apply destructor_joins]|
      exact Ht|apply lookup_insert_eq| |done|apply H2|apply H2|apply H2|done|done].
    intros i Hi. cbn. by rewrite lookup_insert_ne. }
  pose proof H3 as [_ Hc Ht Ho _ _ _ _ Hf _ _].
  destruct (close_fd_same s3 (Destructor id) fd) as (E1 & E2 & E3 & E4 & E5 & E7 & E8).
  assert (client_destructor_closes (fd_ (so_client o)) = [fd]) as Hcd.
  { unfold client_destructor_closes. rewrite Hfd. by destruct (Z.leb_spec 0 fd); [|lia]. }
  eexists _, (with_life (writer_end o) (Destroyed ByConnection)). split; [|done].
  eapply came_alone_step; [exact H3|eapply step_destructor; [exact Ho|cbn; apply destructor_closes]|..];
    cbn [so_client with_life writer_end with_writer with_client fd_]; rewrite Hcd; cbn [foldr];
    cbn [objects base tasks registered_ tracked_ delivering stopping set_objects];
    rewrite ?E1, ?E2, ?E4, ?E5, ?E7, ?E8; try done; try apply H3.
  - apply lookup_insert_eq.
  - intros i Hi. by rewrite lookup_insert_ne.
  - rewrite <- Hf. unfold close_fd, record_io. cbn. by destruct (fds s3 !! fd).
Qed.
End From.

(** The daemon after the function, the others' objects untouched. *)
Lemma came_alone_leave s id fd o f s' :
  came_alone s id fd AtEnd o (filter (fun i => i <> id) (registered_ s)) (filter (fun i => i <> id) (tracked_ s)) f s' ->
  daemon_of s' = (stream_leave id fd (daemon_of s)).1.
Proof using Type.
  intros [_ _ _ _ Hoth Hb Hr Ht _ _ _]. unfold daemon_of, stream_leave, remove_event_stream_client, with_outputs; cbn.
  rewrite Hb, Hr, Ht. do 2 f_equal. rewrite <- listed_filter. apply listed_ext.
  intros i [Hi _]%list_elem_of_filter. by rewrite Hoth.
Qed.

(** Undisturbed, the steps are the operations: from a state the threads
    can reach in which no other thread holds one of the two mutexes, a
    connection's thread that runs alone through enter_stream_mode brings the
    daemon, its client objects read from the store, to exactly what
    [stream_enter] of Daemon.v makes of it; and when the connection is left,
    with a writer between two lines, to what [stream_leave] makes of it, the
    object destroyed and the descriptor closed. *)
Theorem stream_mode_alone (d : Daemon E) s id fd :
  rtc step (sockets_init d) s -> delivering s = None -> (forall l, stopping s <> StopShutting l) ->
  (tasks s !! id = Some (fd, AtCreate) ->
   exists s', rtc step s s' /\ tasks s' !! id = Some (fd, AtWait) /\
     stream_enter id fd (daemon_of s) = Return (daemon_of s')) /\
  (forall o, tasks s !! id = Some (fd, AtWait) -> objects s !! id = Some o -> so_writer o = WriterTop ->
   exists s' o', rtc step s s' /\ tasks s' !! id = Some (fd, AtEnd) /\
     objects s' !! id = Some o' /\ so_life o' = Destroyed ByConnection /\ fds s' = delete fd (fds s) /\
     daemon_of s' = (stream_leave id fd (daemon_of s)).1).
Proof.
  intros Hr Hd Hs. destruct (sockets_reachable_fds file_resolver reserved d s Hr) as [Hc [Hf _]]. split.
  - intros Hid. destruct (stream_enter_alone s id fd Hc Hid Hd Hs) as (s' & cl & ? & ? & _ & _ & ?). by exists s'.
  - intros o Hid Ho Hw. destruct (Hf _ _ _ Hid) as [Hpos _].
    assert (fd_ (so_client o) = fd) as Hfd.
    { destruct (object_task s id o Hc Ho) as (fd' & at_ & Hid' & (Hx & _) & _). congruence. }
    assert (came_alone s id fd AtWait o (registered_ s) (tracked_ s) (fds s) s) as H0 by by split.
    destruct (alone_waited _ _ _ _ _ _ _ _ H0) as [s1 H1].
    destruct (alone_unregisters _ _ _ Hd _ _ _ _ _ H1) as (s2 & o2 & H2 & Hc2 & Hw2).
    destruct (alone_shuts_down _ _ _ _ _ _ _ _ H2) as [s3 H3].
    destruct (alone_forgets _ _ _ Hs _ _ _ _ _ H3) as (s4 & o4 & H4 & Hc4 & Hw4).
    destruct (alone_closes _ _ _ _ _ _ _ _ H4) as [s5 H5].
    destruct (alone_returns _ _ _ _ _ _ _ _ H5) as (s6 & o6 & H6 & Hc6 & Hw6 & Hl6).
    destruct (alone_destroys _ _ _ _ _ _ _ _ H6) as (s7 & o7 & H7 & Hl7); try done.
    + rewrite Hw6, Hw4. cbn. by rewrite Hw2.
    + by rewrite Hc6, Hc4.
    + rewrite Hc6, Hc4. cbn. by rewrite Hc2.
    + rewrite delete_delete_eq in H7. exists s7, o7. split_and!; try apply H7; [done|by eapply came_alone_leave].
Qed.
End Alone.

Lemma str_take_all (t : string) : str_take (String.length t) t = t.
Proof. unfold str_take. induction t as [|c t IH]; [done|]. cbn. by rewrite IH. Qed.

Lemma str_drop_all (t : string) : str_drop (String.length t) t = "".
Proof.
  pose proof (str_drop_length (String.length t) t) as H. rewrite Nat.sub_diag in H.
  by destruct (str_drop (String.length t) t).
Qed.

(** ** What the end of a stream does to the next connections *)
Section Defect.
Context {E : Type} `{!IEnforcer E} {J : Type} `{!Json J}.
Context (file_resolver : FileResolver) (reserved : gset Z) {D : Descriptors} {DL : DescriptorLaws}.
Context (d : Daemon E) (line ack : string) (ev : SecurityEvent) (text : string).
Implicit Types (s : sockets E).

Abbreviation step := (sockets_step (J:=J) file_resolver reserved).

(** The states of the run: Daemon::stop is not called. *)
Definition point (ts : list (Z * task_at)) (os : gmap nat stream_object) (reg trk : list nat) (f : gmap Z nat)
    (del : option (SecurityEvent * list nat * list nat)) (w : list io) : sockets E :=
  MkSockets d ts os reg trk f del StopIdle w.

Lemma step_eq s s1 s2 s3 : step s s1 -> s1 = s2 -> rtc step s2 s3 -> rtc step s s3.
Proof using Type. intros Hst -> Hr. by eapply rtc_l. Qed.

Lemma accept_fd_first : accept_fd (dom (∅ : gmap Z nat) ∪ reserved) = accept_fd reserved.
Proof using Type. f_equal. by rewrite dom_empty_L, union_empty_l_L. Qed.

(** A task's step in the run, to a state that is given. *)
Ltac client_to i s2 c := eapply (step_eq _ _ s2); [eapply step_client with (id := i); [reflexivity|c]|try reflexivity|].
Ltac stream_to i s2 c := eapply (step_eq _ _ s2); [eapply step_stream with (id := i); [reflexivity|c]|try reflexivity|].
Ltac writer_to i s2 c := eapply (step_eq _ _ s2); [eapply step_writer with (id := i); [reflexivity|c]|try reflexivity|].

Let fd := accept_fd reserved.
Let received : list io := [MkIo (Task 0) IoRecv 0; MkIo (Task 0) (IoSend ack) 0].

(** A connection is accepted and asks for the stream. *)
Lemma run_to_stream cl :
  running_ d = true -> frame "" (line +:+ newline) = ([line], "") -> ack <> "" ->
  handle_line (J:=J) file_resolver line d = Return (false, d, ack) -> SocketStreamClient_create fd = Return cl ->
  rtc step (sockets_init d)
    (point [(fd, AtWait)] {[0%nat := MkStreamObject cl 3 WriterTop Alive]} [0%nat] [0%nat] {[fd := 0%nat]} None received).
Proof using Type.
  intros Hrun Hframe Hack Hline Hcl.
  eapply (step_eq _ _ (point [(fd, AtLoop "")] ∅ [] [] {[fd := 0%nat]} None []));
    [apply step_accept|unfold accept_connection; cbn [fds sockets_init]; by rewrite accept_fd_first|].
  client_to 0%nat (point [(fd, AtLines [line] "")] ∅ [] [] {[fd := 0%nat]} None [MkIo (Task 0) IoRecv 0])
    ltac:(eapply client_receives; [done|apply lookup_insert_eq|exact Hframe]).
  { unfold record_io; cbn [fds point]. by rewrite lookup_singleton_eq. }
  client_to 0%nat (point [(fd, AtReply ack false [] "")] ∅ [] [] {[fd := 0%nat]} None [MkIo (Task 0) IoRecv 0])
    ltac:(eapply client_line; exact Hline).
  client_to 0%nat (point [(fd, AtReply "" false [] "")] ∅ [] [] {[fd := 0%nat]} None received)
    ltac:(eapply (client_sends _ _ _ _ (String.length ack)); [done| |apply lookup_insert_eq]).
  { destruct ack; [done|cbn; lia]. }
  { unfold record_io; cbn [fds point]. rewrite lookup_singleton_eq, str_drop_all, str_take_all. done. }
  client_to 0%nat (point [(fd, AtCreate)] ∅ [] [] {[fd := 0%nat]} None received) ltac:(apply client_replied).
  stream_to 0%nat (point [(fd, AtTrack)] {[0%nat := MkStreamObject cl 1 WriterTop Alive]} [] [] {[fd := 0%nat]} None received)
    ltac:(by apply stream_creates).
  stream_to 0%nat (point [(fd, AtRegister)] {[0%nat := MkStreamObject cl 2 WriterTop Alive]} [] [0%nat] {[fd := 0%nat]} None received)
    ltac:(by apply stream_tracks).
  stream_to 0%nat (point [(fd, AtWait)] {[0%nat := MkStreamObject cl 3 WriterTop Alive]} [0%nat] [0%nat] {[fd := 0%nat]} None received)
    ltac:(by apply stream_registers).
  apply rtc_refl.
Qed.

Let object (cl : SocketStreamClient) (refs : nat) (w : writer_at) : gmap nat stream_object :=
  {[0%nat := MkStreamObject cl refs w Alive]}.

(** An event is delivered to it and its writer takes the text. *)
Lemma run_to_send cl cl1 q w :
  closed_ cl = false -> stream_push (J:=J) cl ev = Return cl1 -> closed_ cl1 = false ->
  queue_pop (client_queue_ cl1) = Some (Some text, q) ->
  let cl2 := MkSocketStreamClient (fd_ cl1) q (closed_ cl1) (dropped_ cl1) in
  rtc step
    (point [(fd, AtWait)] (object cl 3 WriterTop) [0%nat] [0%nat] {[fd := 0%nat]} None w)
    (point [(fd, AtWait)] (object cl2 3 (WriterSending text)) [0%nat] [0%nat] {[fd := 0%nat]} None w).
Proof using Type.
  intros Hc Hp Hc1 Hq cl2.
  eapply (step_eq _ _ (point _ _ _ _ _ (Some (ev, [], [0%nat])) _)); [apply step_deliver; by apply deliver_locks|reflexivity|].
  eapply (step_eq _ _ (point [(fd, AtWait)] (object cl1 3 WriterTop) [0%nat] [0%nat] {[fd := 0%nat]} (Some (ev, [0%nat], [])) w));
    [apply step_deliver; eapply deliver_pushes; [reflexivity|reflexivity|exact Hc|exact Hp]|reflexivity|].
  eapply (step_eq _ _ (point _ _ _ _ _ None _)); [apply step_deliver; by eapply deliver_unlocks|reflexivity|].
  writer_to 0%nat (point [(fd, AtWait)] (object cl1 3 WriterPopping) [0%nat] [0%nat] {[fd := 0%nat]} None w)
    ltac:(by apply writer_goes_on).
  writer_to 0%nat (point [(fd, AtWait)] (object cl2 3 (WriterSending text)) [0%nat] [0%nat] {[fd := 0%nat]} None w)
    ltac:(by apply writer_pops).
  apply rtc_refl.
Qed.

(** The client leaves while the writer is about to send. *)
Lemma run_to_close cl w :
  rtc step
    (point [(fd, AtWait)] (object cl 3 (WriterSending text)) [0%nat] [0%nat] {[fd := 0%nat]} None w)
    (point [(fd, AtRelease)] (object (stream_shutdown cl) 1 (WriterSending text)) [] [] ∅ None
       (w ++ [MkIo (Task 0) IoClose 0])).
Proof using Type.
  stream_to 0%nat (point [(fd, AtUnregister)] (object cl 3 (WriterSending text)) [0%nat] [0%nat] {[fd := 0%nat]} None w)
    ltac:(apply stream_waited).
  stream_to 0%nat (point [(fd, AtShutdown)] (object cl 2 (WriterSending text)) [] [0%nat] {[fd := 0%nat]} None w)
    ltac:(by apply stream_unregisters).
  stream_to 0%nat (point [(fd, AtForget)] (object (stream_shutdown cl) 2 (WriterSending text)) [] [0%nat] {[fd := 0%nat]} None w)
    ltac:(by apply stream_shuts_down).
  stream_to 0%nat (point [(fd, AtCloseStream)] (object (stream_shutdown cl) 1 (WriterSending text)) [] [] {[fd := 0%nat]} None w)
    ltac:(by apply stream_forgets).
  stream_to 0%nat (point [(fd, AtRelease)] (object (stream_shutdown cl) 1 (WriterSending text)) [] [] ∅ None
    (w ++ [MkIo (Task 0) IoClose 0])) ltac:(by apply stream_closes).
  { unfold close_fd, record_io; cbn [fds point]. rewrite lookup_singleton_eq. cbn. by rewrite delete_singleton_eq. }
  apply rtc_refl.
Qed.

(** The next connection gets the number: the writer sends to it, and the
    destructor closes it; the one after that gets it too. *)
Lemma run_to_others cl w chunk lines buf :
  fd_ cl = fd -> text <> "" -> running_ d = true -> frame "" chunk = (lines, buf) ->
  exists o, so_life o = Destroyed ByConnection /\
  rtc step
    (point [(fd, AtRelease)] (object (stream_shutdown cl) 1 (WriterSending text)) [] [] ∅ None w)
    (point [(fd, AtEnd); (fd, AtLines lines buf); (fd, AtLoop "")] {[0%nat := o]} [] [] {[fd := 2%nat]} None
       (w ++ [MkIo (Writer 0) (IoSend text) 1; MkIo (Destructor 0) IoClose 1; MkIo (Task 1) IoRecv 2])).
Proof using DL.
  intros Hfd Htext Hrun Hframe. assert (0 <= fd) as Hpos by apply accept_fd_fresh.
  set (w1 := w ++ [MkIo (Writer 0) (IoSend text) 1]).
  set (o1 := writer_end (MkStreamObject (stream_shutdown cl) 0 WriterTop (Joining ByConnection))).
  exists (with_life (with_life o1 (Closing ByConnection)) (Destroyed ByConnection)). split; [done|].
  eapply (step_eq _ _ (point [(fd, AtRelease); (fd, AtLoop "")] (object (stream_shutdown cl) 1 (WriterSending text)) [] []
    {[fd := 1%nat]} None w)); [apply step_accept|unfold accept_connection; cbn [fds point]; by rewrite accept_fd_first|].
  writer_to 0%nat (point [(fd, AtRelease); (fd, AtLoop "")] (object (stream_shutdown cl) 1 (WriterSending "")) [] []
    {[fd := 1%nat]} None w1)
    ltac:(eapply (writer_sends _ _ _ (String.length text)); [done| |cbn; rewrite Hfd; apply lookup_singleton_eq]).
  { destruct text; [done|cbn; lia]. }
  { unfold record_io; cbn [fds point so_client fd_ stream_shutdown]. rewrite Hfd, lookup_singleton_eq, str_take_all, str_drop_all. done. }
  writer_to 0%nat (point [(fd, AtRelease); (fd, AtLoop "")] (object (stream_shutdown cl) 1 WriterTop) [] []
    {[fd := 1%nat]} None w1) ltac:(apply writer_sent).
  stream_to 0%nat (point [(fd, AtEnd); (fd, AtLoop "")]
    {[0%nat := MkStreamObject (stream_shutdown cl) 0 WriterTop (Joining ByConnection)]} [] [] {[fd := 1%nat]} None w1)
    ltac:(apply stream_returns).
  writer_to 0%nat (point [(fd, AtEnd); (fd, AtLoop "")] {[0%nat := o1]} [] [] {[fd := 1%nat]} None w1)
    ltac:(by apply writer_sees_closed).
  eapply (step_eq _ _ (point [(fd, AtEnd); (fd, AtLoop "")] {[0%nat := with_life o1 (Closing ByConnection)]} [] []
    {[fd := 1%nat]} None w1)); [eapply step_destructor with (id := 0%nat); [reflexivity|by apply destructor_joins]|reflexivity|].
  eapply (step_eq _ _ (point [(fd, AtEnd); (fd, AtLoop "")] {[0%nat := with_life (with_life o1 (Closing ByConnection)) (Destroyed ByConnection)]}
    [] [] ∅ None (w1 ++ [MkIo (Destructor 0) IoClose 1])));
    [eapply step_destructor with (id := 0%nat); [reflexivity|by apply destructor_closes]| |].
  { cbn [so_client o1 with_life writer_end with_writer with_client fd_ stream_shutdown]. rewrite Hfd.
    unfold client_destructor_closes. rewrite (proj2 (Z.leb_le _ _) Hpos). cbn [foldr].
    unfold close_fd, record_io; cbn [fds point]. rewrite lookup_singleton_eq. cbn. by rewrite delete_singleton_eq. }
  eapply (step_eq _ _ (point [(fd, AtEnd); (fd, AtLoop ""); (fd, AtLoop "")] _ [] [] {[fd := 2%nat]} None _));
    [apply step_accept|unfold accept_connection; cbn [fds point]; by rewrite accept_fd_first|].
  client_to 1%nat (point [(fd, AtEnd); (fd, AtLines lines buf); (fd, AtLoop "")]
    {[0%nat := with_life (with_life o1 (Closing ByConnection)) (Destroyed ByConnection)]} [] [] {[fd := 2%nat]} None
    ((w1 ++ [MkIo (Destructor 0) IoClose 1]) ++ [MkIo (Task 1) IoRecv 2]))
    ltac:(eapply client_receives; [done|apply lookup_singleton_eq|exact Hframe]).
  { unfold record_io; cbn [fds point]. by rewrite lookup_singleton_eq. }
  unfold w1. rewrite <- !app_assoc. apply rtc_refl.
Qed.
End Defect.

Section Others.
Context {E : Type} `{!IEnforcer E} {J : Type} `{!Json J}.
Context (file_resolver : FileResolver) (reserved : gset Z) {D : Descriptors} {DL : DescriptorLaws}.

(** A new client that is given an event. *)
Lemma fresh_client_push (fd : Z) (ev : SecurityEvent) (text : string) :
  json_of (J:=J) ev = Return text ->
  exists cl cl1 q, SocketStreamClient_create fd = Return cl /\ closed_ cl = false /\
    stream_push (J:=J) cl ev = Return cl1 /\ closed_ cl1 = false /\ fd_ cl1 = fd /\
    queue_pop (client_queue_ cl1) = Some (Some text, q).
Proof using Type.
  intros Ht. do 3 eexists. split; [vm_compute; reflexivity|]. split; [reflexivity|].
  unfold stream_push. cbn [closed_]. rewrite Ht. cbn [mbind outcome_bind]. split; [reflexivity|].
  split; [reflexivity|]. split; [reflexivity|]. vm_compute. reflexivity.
Qed.

(** C30 (the end of a stream reaches other connections): when a client leaves its
    stream while the writer thread has an event to send, enter_stream_mode
    closes the descriptor under the writer and the destructor closes the same
    number again.  If a connection is accepted in between, which gets the
    number, the event is sent to that connection, its socket is closed under
    its thread, and when the number is given out once more the thread receives
    and answers the requests of a third connection. *)
Theorem stream_end_hits_others (d : Daemon E) line ack ev text chunk lines buf :
  running_ d = true -> frame "" (line +:+ newline) = ([line], "") ->
  handle_line (J:=J) file_resolver line d = Return (false, d, ack) -> ack <> "" ->
  json_of (J:=J) ev = Return text -> text <> "" -> frame "" chunk = (lines, buf) ->
  exists s fd, rtc (sockets_step (J:=J) file_resolver reserved) (sockets_init d) s /\
    tasks s = [(fd, AtEnd); (fd, AtLines lines buf); (fd, AtLoop "")] /\
    fds s = {[fd := 2%nat]} /\
    wire s = [MkIo (Task 0) IoRecv 0; MkIo (Task 0) (IoSend ack) 0; MkIo (Task 0) IoClose 0;
              MkIo (Writer 0) (IoSend text) 1; MkIo (Destructor 0) IoClose 1; MkIo (Task 1) IoRecv 2].
Proof.
  intros Hrun Hframe Hline Hack Ht Htext Hchunk. set (fd := accept_fd reserved).
  destruct (fresh_client_push fd ev text Ht) as (cl & cl1 & q & Hcl & Hc & Hp & Hc1 & Hfd & Hq).
  destruct (run_to_others file_resolver reserved d text
    (MkSocketStreamClient (fd_ cl1) q (closed_ cl1) (dropped_ cl1))
    ([MkIo (Task 0) IoRecv 0; MkIo (Task 0) (IoSend ack) 0] ++ [MkIo (Task 0) IoClose 0]) chunk lines buf
    Hfd Htext Hrun Hchunk) as (o & _ & Hr).
  do 2 eexists. split.
  { etrans; [by apply (run_to_stream file_resolver reserved d line ack cl)|].
    etrans; [by eapply (run_to_send file_resolver reserved d ev text cl cl1 q)|].
    etrans; [apply run_to_close|exact Hr]. }
  by split_and!.
Qed.
End Others.

(** ** A concrete run *)
Definition stream_texts (text : string) : string + jval :=
  if String.eqb text "stream" then inr (VObject [("cmd", VString "stream")]) else inl "parse error".
Definition stream_json : Json jval := jval_json stream_texts.
Definition reserved_fds : gset Z := {[0; 1; 2; 3; 4]}.

Abbreviation sample_sockets_step := (@sockets_step NullEnforcer NullEnforcer_ops jval stream_json daemon_files reserved_fds lowest_fd).

(** The reply to the request, and the text of the event. *)
Definition stream_ack : string :=
  match @handle_line NullEnforcer NullEnforcer_ops jval stream_json daemon_files "stream" sample_daemon with
  | Return (_, _, ack) => ack
  | Throw _ => ""
  end.
Definition event_text : string :=
  match @json_of jval stream_json sample_event with Return text => text | Throw _ => "" end.

Lemma stream_ack_eq :
  @handle_line NullEnforcer NullEnforcer_ops jval stream_json daemon_files "stream" sample_daemon =
  Return (false, sample_daemon, stream_ack).
Proof. vm_compute. reflexivity. Qed.

Lemma event_text_eq : @json_of jval stream_json sample_event = Return event_text.
Proof. vm_compute. reflexivity. Qed.

Lemma stream_end_hits_others_witness :
  exists s fd, rtc sample_sockets_step (sockets_init sample_daemon) s /\
    wire s = [MkIo (Task 0) IoRecv 0; MkIo (Task 0) (IoSend stream_ack) 0; MkIo (Task 0) IoClose 0;
              MkIo (Writer 0) (IoSend event_text) 1; MkIo (Destructor 0) IoClose 1; MkIo (Task 1) IoRecv 2] /\
    fds s = {[fd := 2%nat]}.
Proof.
  destruct (@stream_end_hits_others NullEnforcer NullEnforcer_ops jval stream_json daemon_files reserved_fds lowest_fd lowest_fd_laws
    sample_daemon "stream" stream_ack sample_event event_text ("stream" +:+ newline) ["stream"] ""
    eq_refl eq_refl stream_ack_eq ltac:(discriminate) event_text_eq ltac:(discriminate) eq_refl)
    as (s & fd & Hr & _ & Hf & Hw).
  exists s, fd. split; [exact Hr|]. split; [exact Hw|exact Hf].
Defined.

(** One connection that streams; and one whose client has just left. *)
Definition stream_fd : Z := next_fd reserved_fds.
Lemma sample_stream :
  exists s cl, rtc sample_sockets_step (sockets_init sample_daemon) s /\
    tasks s = [(stream_fd, AtWait)] /\ objects s = {[0%nat := MkStreamObject cl 3 WriterTop Alive]} /\
    delivering s = None /\ stopping s = StopIdle.
Proof.
  destruct (@fresh_client_push jval stream_json stream_fd sample_event event_text event_text_eq) as (cl & _ & _ & Hcl & _).
  eexists (point _ _ _ _ _ _ _ _), cl. split.
  - exact (@run_to_stream NullEnforcer NullEnforcer_ops jval stream_json daemon_files reserved_fds lowest_fd sample_daemon "stream"
      stream_ack cl eq_refl eq_refl ltac:(discriminate) stream_ack_eq Hcl).
  - by split_and!.
Qed.

Lemma sample_leaving :
  exists s o, rtc sample_sockets_step (sockets_init sample_daemon) s /\
    tasks s !! 0%nat = Some (stream_fd, AtRelease) /\ objects s !! 0%nat = Some o /\ so_writer o = WriterSending event_text.
Proof.
  destruct (@fresh_client_push jval stream_json stream_fd sample_event event_text event_text_eq)
    as (cl & cl1 & q & Hcl & Hc & Hp & Hc1 & _ & Hq).
  pose proof (@run_to_stream NullEnforcer NullEnforcer_ops jval stream_json daemon_files reserved_fds lowest_fd sample_daemon "stream"
    stream_ack cl eq_refl eq_refl ltac:(discriminate) stream_ack_eq Hcl) as R1.
  pose proof (@run_to_send NullEnforcer NullEnforcer_ops jval stream_json daemon_files reserved_fds lowest_fd sample_daemon
    sample_event event_text cl cl1 q) as R2.
  eexists _, _. split; [etrans; [exact R1|etrans; [exact (R2 _ Hc Hp Hc1 Hq)|apply run_to_close]]|].
  by split_and!.
Qed.

Lemma client_objects_safe_witness :
  exists s, rtc sample_sockets_step (sockets_init sample_daemon) s /\ tasks s = [(stream_fd, AtWait)] /\ alive s 0.
Proof.
  destruct sample_stream as (s & cl & Hr & Ht & _). exists s. split; [exact Hr|]. split; [exact Ht|].
  destruct (@client_objects_safe NullEnforcer NullEnforcer_ops jval stream_json daemon_files reserved_fds lowest_fd _ s Hr)
    as (_ & _ & _ & Hal & _).
  apply (Hal 0%nat stream_fd AtWait); [rewrite Ht|]; reflexivity.
Defined.

Lemma descriptors_private_witness :
  exists s, rtc sample_sockets_step (sockets_init sample_daemon) s /\ fds s !! stream_fd = Some 0%nat.
Proof.
  destruct sample_stream as (s & cl & Hr & Ht & _). exists s. split; [exact Hr|].
  destruct (@descriptors_private NullEnforcer NullEnforcer_ops jval stream_json daemon_files reserved_fds lowest_fd lowest_fd_laws _ s Hr)
    as (_ & H).
  destruct H as (H & _).
  - intros id fd at_ Hid _. rewrite Ht in Hid. destruct id as [|id]; [|discriminate]. injection Hid as _ <-. reflexivity.
  - apply (H 0%nat stream_fd AtWait); [rewrite Ht; reflexivity|discriminate|reflexivity].
Defined.

Lemma stream_end_terminates_witness :
  exists s, rtc sample_sockets_step (sockets_init sample_daemon) s /\ stream_ending s 0 /\
    forall s', rtc sample_sockets_step s s' -> (ending_left s' 0 <= ending_left s 0)%nat.
Proof.
  destruct sample_leaving as (s & o & Hr & Ht & Ho & _). exists s. split; [exact Hr|].
  assert (stream_ending s 0) as He by (exists stream_fd, AtRelease, o; split; [exact Ht|split; [exact Ho|left; reflexivity]]).
  split; [exact He|]. intros s' Hr'.
  apply (@stream_end_terminates NullEnforcer NullEnforcer_ops jval stream_json daemon_files reserved_fds lowest_fd _ s 0 Hr He).
  exact Hr'.
Defined.

Lemma stream_mode_alone_witness :
  exists s s', rtc sample_sockets_step s s' /\ tasks s' !! 0%nat = Some (stream_fd, AtEnd) /\
    daemon_of s' = (stream_leave 0 stream_fd (daemon_of s)).1.
Proof.
  destruct sample_stream as (s & cl & Hr & Ht & Ho & Hd & Hs). exists s.
  destruct (@stream_mode_alone NullEnforcer NullEnforcer_ops jval stream_json daemon_files reserved_fds lowest_fd lowest_fd_laws _ s 0 stream_fd
    Hr Hd ltac:(intros l; rewrite Hs; discriminate)) as (_ & Hl).
  destruct (Hl (MkStreamObject cl 3 WriterTop Alive)) as (s' & o' & H1 & H2 & _ & _ & _ & H3);
    [rewrite Ht; reflexivity|rewrite Ho; reflexivity|reflexivity|].
  exists s'. split; [exact H1|]. split; [exact H2|exact H3].
Defined.
