(* ===== verification/Cli.v ===== *)
(** * guardctl: include/fileguard/cli.hpp and src/cli.cpp

    The command line, the requests to the daemon and the commands.  A command
    is a function of what the system calls return ([cli_env]); its result is
    the exit code with the text written to stdout and stderr. *)

From S2P Require Import Prelude FileId Policy DecisionEngine PolicyCompiler SecurityEvent Enforcer Json ConfigParser EventSink Controller Daemon.

Local Open Scope Z_scope.

Definition kVersion : string := "0.1.0".
Definition kProjectName : string := "eBPF FileGuard".
Definition kTagline : string := "Kernel-Assisted Runtime File Access Control".

(** ** The command line *)

Record CliArgs := MkCliArgs {
  command : string;
  cli_policy_file : string;
  cli_runtime_dir : string;
  log_file : string;
  daemonize : bool;
  json_output : bool;
  event_count : Z;  (* int *)
  force : bool;
}.

Definition CliArgs_default : CliArgs := MkCliArgs "" "" "/tmp/fileguard" "" false false (-1) false.

Definition with_command (a : CliArgs) (c : string) : CliArgs :=
  MkCliArgs c (cli_policy_file a) (cli_runtime_dir a) (log_file a) (daemonize a) (json_output a)
    (event_count a) (force a).
Definition with_policy_file (a : CliArgs) (f : string) : CliArgs :=
  MkCliArgs (command a) f (cli_runtime_dir a) (log_file a) (daemonize a) (json_output a)
    (event_count a) (force a).
Definition with_runtime_dir (a : CliArgs) (d : string) : CliArgs :=
  MkCliArgs (command a) (cli_policy_file a) d (log_file a) (daemonize a) (json_output a)
    (event_count a) (force a).
Definition with_log_file (a : CliArgs) (f : string) : CliArgs :=
  MkCliArgs (command a) (cli_policy_file a) (cli_runtime_dir a) f (daemonize a) (json_output a)
    (event_count a) (force a).
Definition with_daemonize (a : CliArgs) : CliArgs :=
  MkCliArgs (command a) (cli_policy_file a) (cli_runtime_dir a) (log_file a) true (json_output a)
    (event_count a) (force a).
Definition with_json_output (a : CliArgs) : CliArgs :=
  MkCliArgs (command a) (cli_policy_file a) (cli_runtime_dir a) (log_file a) (daemonize a) true
    (event_count a) (force a).
Definition with_event_count (a : CliArgs) (n : Z) : CliArgs :=
  MkCliArgs (command a) (cli_policy_file a) (cli_runtime_dir a) (log_file a) (daemonize a)
    (json_output a) n (force a).

Definition default_runtime_dir (root : bool) : string :=
  if root then "/run/fileguard" else "/tmp/fileguard".

Definition socket_path (dir : string) : string := dir +:+ "/fileguard.sock".
Definition pid_file_path (dir : string) : string := dir +:+ "/fileguard.pid".

(** std::atoi: white space, a sign, digits.  The C standard leaves a value
    that is not representable undefined; as in glibc it is strtol's, which
    saturates at 64 bits, converted to int. *)
Definition is_space (c : ascii) : bool :=
  bool_decide (9 <= nat_of_ascii c <= 13)%nat || Ascii.eqb c " ".
Fixpoint skip_spaces (s : string) : string :=
  match s with
  | String c s' => if is_space c then skip_spaces s' else s
  | EmptyString => s
  end.
Fixpoint digits_value (acc : Z) (s : string) : Z :=
  match s with
  | String c s =>
     if is_digit c then digits_value (acc * 10 + (Z.of_nat (nat_of_ascii c) - 48)) s else acc
  | EmptyString => acc
  end.
Definition saturate64 (z : Z) : Z := Z.max (- 2 ^ 63) (Z.min z (2 ^ 63 - 1)).
Definition strtol (s : string) : Z :=
  let s := skip_spaces s in
  let v := match s with
           | String c rest =>
              if Ascii.eqb c "-" then - digits_value 0 rest
              else if Ascii.eqb c "+" then digits_value 0 rest
              else digits_value 0 s
           | EmptyString => 0
           end in
  saturate64 v.
Definition atoi (s : string) : Z := i32 (strtol s).

(** The option loops: [tokens[++i]] takes the next token, if there is one. *)
Fixpoint serve_options (args : CliArgs) (tokens : list string) : result CliArgs :=
  match tokens with
  | [] => Ok args
  | t :: tokens =>
     if String.eqb t "--daemon" then serve_options (with_daemonize args) tokens
     else
       match tokens with
       | [] => err ("unknown serve option: '" +:+ t +:+ "'")
       | v :: tokens =>
          if String.eqb t "--policy" || String.eqb t "-p" then
            serve_options (with_policy_file args v) tokens
          else if String.eqb t "--log" then serve_options (with_log_file args v) tokens
          else if String.eqb t "--runtime-dir" then serve_options (with_runtime_dir args v) tokens
          else err ("unknown serve option: '" +:+ t +:+ "'")
       end
  end.

Fixpoint events_options (args : CliArgs) (tokens : list string) : result CliArgs :=
  match tokens with
  | [] => Ok args
  | t :: tokens =>
     if String.eqb t "--json" then events_options (with_json_output args) tokens
     else
       match tokens with
       | [] => err ("unknown events option: '" +:+ t +:+ "'")
       | v :: tokens =>
          if String.eqb t "--count" then events_options (with_event_count args (atoi v)) tokens
          else if String.eqb t "--runtime-dir" then events_options (with_runtime_dir args v) tokens
          else err ("unknown events option: '" +:+ t +:+ "'")
       end
  end.

(** The loops of status, stop, policy load and policy list. *)
Fixpoint dir_options (what : string) (args : CliArgs) (tokens : list string) : result CliArgs :=
  match tokens with
  | [] => Ok args
  | t :: tokens =>
     match tokens with
     | [] => err ("unknown " +:+ what +:+ " option: '" +:+ t +:+ "'")
     | v :: tokens =>
        if String.eqb t "--runtime-dir" then dir_options what (with_runtime_dir args v) tokens
        else err ("unknown " +:+ what +:+ " option: '" +:+ t +:+ "'")
     end
  end.

Definition policy_command (args : CliArgs) (tokens : list string) : result CliArgs :=
  match tokens with
  | [] => err "`guardctl policy` needs a subcommand: validate|load|list"
  | sub :: tokens =>
     if String.eqb sub "validate" then
       match tokens with
       | [] => err "usage: guardctl policy validate <file>"
       | file :: _ => Ok (with_policy_file (with_command args "policy-validate") file)
       end
     else if String.eqb sub "load" then
       match tokens with
       | [] => err "usage: guardctl policy load <file>"
       | file :: tokens =>
          dir_options "policy load" (with_policy_file (with_command args "policy-load") file) tokens
       end
     else if String.eqb sub "list" then
       dir_options "policy list" (with_command args "policy-list") tokens
     else err ("unknown policy subcommand: '" +:+ sub +:+ "'")
  end.

(** parse_cli on the arguments after the program's name; [root] says whether
    the effective user is root. *)
Definition parse_cli (root : bool) (tokens : list string) : result CliArgs :=
  let args := with_runtime_dir CliArgs_default (default_runtime_dir root) in
  match tokens with
  | [] => err "no command given. Try `guardctl --help`."
  | first :: tokens =>
     if String.eqb first "--help" || String.eqb first "-h" || String.eqb first "help" then
       Ok (with_command args "help")
     else if String.eqb first "--version" || String.eqb first "-V" then
       Ok (with_command args "version")
     else if String.eqb first "serve" then serve_options (with_command args "serve") tokens
     else if String.eqb first "status" then dir_options "status" (with_command args "status") tokens
     else if String.eqb first "events" then events_options (with_command args "events") tokens
     else if String.eqb first "stop" then dir_options "stop" (with_command args "stop") tokens
     else if String.eqb first "policy" then policy_command args tokens
     else err ("unknown command: '" +:+ first +:+ "'")
  end.

(** ** The world of a command *)

(** fork(2): failed, in the parent, in the child. *)
Inductive fork_result := ForkFails (errno : Z) | ForkParent | ForkChild.

Record cli_env := MkCliEnv {
  env_resolver : FileResolver;
  env_read : string -> file_read;          (* the policy file, as from_file reads it *)
  env_reread : string -> string;           (* the text a second read of it yields *)
  env_strerror : Z -> string;
  env_exists : string -> bool;             (* std::filesystem::exists *)
  env_socket_errno : option Z;
  env_connect_errno : option Z;
  (* the calls of send that do not take all that is left *)
  env_sends : list send_result;
  (* the chunks recv delivers before the end of the connection *)
  env_recvs : list string;
  env_fork : fork_result;
  env_create_dirs : option string;         (* the message of a failure *)
  env_run : DaemonConfig -> ResultVoid;    (* Daemon::run *)
  env_signal : Z;                          (* the signal received while serving; 0: none *)
}.

(** The exit code, stdout and stderr of a command. *)
Record cli_result := MkCliResult { exit_code : Z; std_out : string; std_err : string }.

Definition done_with (code : Z) (out err : string) : outcome cli_result :=
  Return (MkCliResult code out err).

Definition ensure_runtime_dir (create : option string) (dir : string) : ResultVoid :=
  match create with
  | Some m => err ("cannot create runtime directory '" +:+ dir +:+ "': " +:+ m)
  | None => ok_v
  end.

Definition daemon_connect (env : cli_env) (sock : string) : ResultVoid :=
  if negb (env_exists env sock) then
    err ("no fileguard controller is running (socket '" +:+ sock +:+
         "' does not exist). Start one with `guardctl serve --daemon`.")
  else
    match env_socket_errno env with
    | Some e => err ("socket(2): " +:+ env_strerror env e)
    | None =>
       match env_connect_errno env with
       | Some e => err ("connect to controller failed: " +:+ env_strerror env e)
       | None => ok_v
       end
    end.

(** The send loop of [request_json]: the errno of a failure, and the bytes
    sent.  Past the given calls, send takes all that is left. *)
Fixpoint send_request (sends : list send_result) (payload : string) : option Z * string :=
  if str_empty payload then (None, "")
  else
    match sends with
    | [] => (None, payload)
    | SendError e :: sends => if e =? EINTR then send_request sends payload else (Some e, "")
    | Sent n :: sends =>
       let '(failed, sent) := send_request sends (str_drop n payload) in
       (failed, str_take n payload +:+ sent)
    end.

(** The receive loop: until a newline, the end of the connection, or more than
    1 MiB. *)
Fixpoint recv_line (recvs : list string) (line : string) : string :=
  if has_newline line then line
  else
    match recvs with
    | [] => line
    | chunk :: recvs =>
       let line := line +:+ chunk in
       if Z.shiftl 1 20 <? Z.of_nat (String.length line) then line else recv_line recvs line
    end.

(** [line.erase(line.find('\n'))] *)
Definition first_line (s : string) : string :=
  match split_lines s with
  | (l :: _, _) => l
  | ([], rest) => rest
  end.

(** action_from_name, operation_from_name, reason_from_name *)
Definition action_from_name (s : string) : Action := if String.eqb s "ALLOW" then Allow else Deny.
Definition operation_from_name (s : string) : Operation := if String.eqb s "OPEN" then Open else Open.
Definition reason_from_name (s : string) : Reason :=
  if String.eqb s "POLICY_RULE" then Reason_PolicyRule
  else if String.eqb s "DEFAULT_DENY" then Reason_DefaultDeny
  else if String.eqb s "UNKNOWN_PROCESS" then Reason_UnknownProcess
  else Reason_ResourceUnprotected.

Definition yes_no (b : bool) : string := if b then "yes" else "no".

Section Cli.
  Context {J : Type} `{!Json J}.

(** request_json: the bytes sent, and the reply. *)
Definition request_json (env : cli_env) (sock : string) (req : J) : outcome (string * result J) :=
  match daemon_connect env sock with
  | Err m => Return ("", Err m)
  | Ok _ =>
     text ← json_dump req;
     let '(failed, sent) := send_request (env_sends env) (text +:+ newline) in
     match failed with
     | Some e => Return (sent, err ("send to controller failed: " +:+ env_strerror env e))
     | None =>
        let line := first_line (recv_line (env_recvs env) "") in
        if str_empty line then
          Return (sent, err "controller closed the connection without a response")
        else
          match json_parse line with
          | inr j => Return (sent, Ok j)
          | inl what => Return (sent, err ("controller returned malformed JSON: " +:+ what))
          end
     end
  end.

Definition event_from_json (j : J) : outcome SecurityEvent :=
  timestamp ← json_value_string j "timestamp" "";
  pid ← json_value_uint j "pid" 0;
  tgid ← json_value_uint j "tgid" 0;
  uid ← json_value_uint j "uid" 0;
  gid ← json_value_uint j "gid" 0;
  comm ← json_value_string j "comm" "";
  process_path ← json_value_string j "process" "";
  resource_path ← json_value_string j "resource" "";
  operation ← json_value_string j "operation" "OPEN";
  action ← json_value_string j "action" "DENY";
  reason ← json_value_string j "reason" "DEFAULT_DENY";
  rule_id ← json_value_uint j "rule_id" 0;
  Return (MkSecurityEvent timestamp pid tgid uid gid comm process_path resource_path
            (operation_from_name operation) (action_from_name action) (reason_from_name reason)
            rule_id).

(** print_status: stdout and stderr.  [resp["status"]] of a reply without a
    "status" member is an assertion failure of the library. *)
Definition print_status (resp : J) : outcome (string * string) :=
  ok ← json_value_bool resp "ok" false;
  if negb ok then
    m ← json_value_string resp "error" "unknown error";
    Return ("", "status: " +:+ m +:+ newline)
  else
    match json_find resp "status" with
    | None => Throw "assertion failed: resp[status]"
    | Some s =>
       backend ← json_value_string s "backend" "?";
       attached ← json_value_bool s "attached" false;
       enforcing ← json_value_bool s "enforcing" false;
       version ← json_value_int s "policy_version" 0;
       protected ← json_value_int s "protected_count" 0;
       rules ← json_value_int s "rule_count" 0;
       detail ← json_value_string s "detail" "";
       Return ("fileguard: running" +:+ newline +:+
               "  backend:        " +:+ backend +:+ newline +:+
               "  attached:       " +:+ yes_no attached +:+ newline +:+
               "  enforcing:      " +:+ yes_no enforcing +:+ newline +:+
               "  policy version: " +:+ to_string_s version +:+ newline +:+
               "  protected:      " +:+ to_string_s protected +:+ newline +:+
               "  rules:          " +:+ to_string_s rules +:+ newline +:+
               "  detail:         " +:+ detail +:+ newline, "")
    end.

Definition run_status (env : cli_env) (args : CliArgs) : outcome cli_result :=
  r ← request_json env (socket_path (cli_runtime_dir args)) (json_object [("cmd", json_string "status")]);
  match r.2 with
  | Err m => done_with 1 "" ("fileguard: not running — " +:+ m +:+ newline)
  | Ok resp => p ← print_status resp; done_with 0 p.1 p.2
  end.

Definition run_stop (env : cli_env) (args : CliArgs) : outcome cli_result :=
  r ← request_json env (socket_path (cli_runtime_dir args)) (json_object [("cmd", json_string "stop")]);
  match r.2 with
  | Err m => done_with 1 "" ("stop: " +:+ m +:+ newline)
  | Ok resp =>
     m ← json_value_string resp "message" "stopped";
     done_with 0 ("fileguard: " +:+ m +:+ newline) ""
  end.

(** Parsing and compiling the policy file, as validate and load begin. *)
Definition check_policy (env : cli_env) (file : string) : outcome (result Policy) :=
  match from_file (J:=J) (env_read env) file with
  | Raise w => Throw w
  | Error m => Return (err m)
  | Value p => Return (_ ← compile (env_resolver env) p; Ok p)
  end.

Definition run_policy_validate (env : cli_env) (args : CliArgs) : outcome cli_result :=
  r ← check_policy env (cli_policy_file args);
  match r with
  | Err m => done_with 1 "" ("invalid policy: " +:+ m +:+ newline)
  | Ok p =>
     done_with 0 ("OK: policy '" +:+ cli_policy_file args +:+ "' is valid" +:+
                  " (version " +:+ to_string_s (version p) +:+ ", " +:+
                  to_string_u (Z.of_nat (length (protected_resources p))) +:+
                  " protected resource(s), " +:+
                  to_string_u (Z.of_nat (length (rules p))) +:+ " rule(s), default " +:+
                  action_name (default_action p) +:+ ")" +:+ newline) ""
  end.

(** The configuration [run_serve] gives to the daemon. *)
Definition serve_config (args : CliArgs) : DaemonConfig :=
  MkDaemonConfig
    (MkControllerConfig (cli_policy_file args) (cli_runtime_dir args) (negb (daemonize args))
       (log_file args) (Z.to_nat 65536) EnforcerConfig_default)
    (socket_path (cli_runtime_dir args)) (pid_file_path (cli_runtime_dir args)).

(** run_serve; [env_run] is what Daemon::run returns in the run thread.  In the
    child of a fork the two streams written to are /dev/null. *)
Definition run_serve (env : cli_env) (args : CliArgs) : cli_result :=
  let sock := socket_path (cli_runtime_dir args) in
  let serve :=
    match ensure_runtime_dir (env_create_dirs env) (cli_runtime_dir args) with
    | Err m => MkCliResult 1 "" ("fileguard: " +:+ m +:+ newline)
    | Ok _ =>
       let r := env_run env (serve_config args) in
       let out := "fileguard: serving on " +:+ sock +:+ newline +:+
                  "  " +:+ kProjectName +:+ " " +:+ kVersion +:+ " — " +:+ kTagline +:+ newline in
       let out := if env_signal env =? 0 then out
                  else out +:+ newline +:+ "fileguard: received signal " +:+
                       to_string_s (env_signal env) +:+ ", shutting down" +:+ newline in
       match r with
       | Err m => MkCliResult 1 out ("fileguard: controller exited with an error: " +:+
                                     (if str_empty m then "unknown" else m) +:+ newline)
       | Ok _ => MkCliResult 0 (out +:+ "fileguard: stopped cleanly" +:+ newline) ""
       end
    end in
  if env_exists env sock then
    MkCliResult 1 "" ("fileguard: a controller is already running (" +:+ sock +:+ ")" +:+ newline)
  else if daemonize args then
    match env_fork env with
    | ForkFails e => MkCliResult 1 "" ("fork failed: " +:+ env_strerror env e +:+ newline)
    | ForkParent => MkCliResult 0 "" ""
    | ForkChild => serve
    end
  else serve.

(** run_policy_load, with the bytes sent to the daemon. *)
Definition run_policy_load (env : cli_env) (args : CliArgs) : outcome (string * cli_result) :=
  checked ← check_policy env (cli_policy_file args);
  match checked with
  | Err m => Return ("", MkCliResult 1 "" ("invalid policy: " +:+ m +:+ newline))
  | Ok _ =>
     let sock := socket_path (cli_runtime_dir args) in
     if env_exists env sock then
       match json_parse (env_reread env (cli_policy_file args)) with
       | inl what => Throw what
       | inr doc =>
          r ← request_json env sock (json_object [("cmd", json_string "load_policy"); ("policy", doc)]);
          let '(sent, reply) := r in
          match reply with
          | Err _ => Return (sent, MkCliResult 1 "" "")
          | Ok resp =>
             ok ← json_value_bool resp "ok" false;
             if negb ok then
               m ← json_value_string resp "error" "";
               Return (sent, MkCliResult 1 "" ("policy rejected: " +:+ m +:+ newline))
             else
               v ← json_value_int resp "policy_version" 0;
               Return (sent, MkCliResult 0 ("policy loaded (version " +:+ to_string_s v +:+ ")" +:+ newline) "")
          end
       end
     else
       let spawned := run_serve env (with_daemonize (with_command args "serve")) in
       Return ("", MkCliResult (exit_code spawned)
         ("no controller running; starting fileguard daemon with the new policy..." +:+ newline +:+
          std_out spawned) (std_err spawned))
  end.

(** The member [resp[key]], iterated: a missing member is inserted as null, which has
    no elements. *)
Definition member_items (j : J) (key : string) : list J :=
  match json_find j key with Some l => json_items l | None => [] end.

Fixpoint outcome_concat (f : J -> outcome string) (l : list J) : outcome string :=
  match l with
  | [] => Return ""
  | x :: l => s ← f x; rest ← outcome_concat f l; Return (s +:+ rest)
  end.

Definition resource_line (p : J) : outcome string :=
  s ← json_get_string p; Return ("  " +:+ s +:+ newline).

Definition rule_line (r : J) : outcome string :=
  id ← json_value_string r "id" "?";
  process ← json_value_string r "process" "?";
  resource ← json_value_string r "resource" "?";
  operation ← json_value_string r "operation" "OPEN";
  action ← json_value_string r "action" "DENY";
  Return ("  " +:+ id +:+ ": " +:+ process +:+ " -> " +:+ resource +:+ " [" +:+ operation +:+
          "] " +:+ action +:+ newline).

(** The part of [run_policy_list] after a successful request. *)
Definition print_list (resp : J) : outcome cli_result :=
  ok ← json_value_bool resp "ok" false;
  if negb ok then
    m ← json_value_string resp "error" "";
    done_with 1 "" ("policy list: " +:+ m +:+ newline)
  else
    version ← json_value_int resp "version" 0;
    resources ← outcome_concat resource_line (member_items resp "protected_resources");
    rules ← outcome_concat rule_line (member_items resp "rules");
    done_with 0 ("policy version: " +:+ to_string_s version +:+ newline +:+
                 "protected resources:" +:+ newline +:+ resources +:+
                 "rules:" +:+ newline +:+ rules) "".

Definition run_policy_list (env : cli_env) (args : CliArgs) : outcome cli_result :=
  r ← request_json env (socket_path (cli_runtime_dir args)) (json_object [("cmd", json_string "list")]);
  match r.2 with
  | Err m => done_with 1 "" ("policy list: " +:+ m +:+ newline)
  | Ok resp => print_list resp
  end.

(** ** guardctl events *)

(** [table] writes to stdout, as the JSON mode does. *)
Record events_state := MkEventsState {
  table : ConsoleSink;
  events_err : string;
  seen : Z;
}.

(** One non-empty line of the stream. *)
Definition events_line (show_table : bool) (line : string) (s : events_state) : outcome events_state :=
  match json_parse line with
  | inl _ => Return s
  | inr j =>
     match (if json_contains j "event" then json_find j "event" else None) with
     | Some event =>
        if show_table then
          e ← event_from_json event;
          Return (MkEventsState (console_write (table s) e) (events_err s) (i32 (seen s + 1)))
        else
          text ← json_dump event;
          Return (MkEventsState
                    (MkConsoleSink (console_out (table s) +:+ text +:+ newline) (header_printed_ (table s)))
                    (events_err s) (i32 (seen s + 1)))
     | None =>
        ok ← json_value_bool j "ok" false;
        if negb ok && json_contains j "error" then
          m ← json_value_string j "error" "";
          Return (MkEventsState (table s) (events_err s +:+ "events: " +:+ m +:+ newline) (seen s))
        else Return s
     end
  end.

Fixpoint events_lines (show_table : bool) (lines : list string) (s : events_state)
    : outcome events_state :=
  match lines with
  | [] => Return s
  | line :: lines => s' ← events_line show_table line s; events_lines show_table lines s'
  end.

Fixpoint events_loop (show_table : bool) (count : Z) (recvs : list string) (pending : string)
    (s : events_state) : outcome events_state :=
  if (count <? 0) || (seen s <? count) then
    match recvs with
    | [] => Return s
    | chunk :: recvs =>
       let '(lines, pending) := frame pending chunk in
       s' ← events_lines show_table lines s;
       events_loop show_table count recvs pending s'
    end
  else Return s.

Definition run_events (env : cli_env) (args : CliArgs) : outcome cli_result :=
  match daemon_connect env (socket_path (cli_runtime_dir args)) with
  | Err m => done_with 1 "" ("events: " +:+ m +:+ newline)
  | Ok _ =>
     req ← json_dump (json_object [("cmd", json_string "stream"); ("json", json_bool (json_output args))]);
     s ← events_loop (negb (json_output args)) (event_count args) (env_recvs env) ""
           (MkEventsState (MkConsoleSink "" false) "" 0);
     done_with 0 (console_out (table s))
       (events_err s +:+ "events: stream ended (" +:+ to_string_s (seen s) +:+ " event(s))" +:+ newline)
  end.

(** ** Dispatch *)

Definition usage : string :=
  "eBPF FileGuard — Kernel-Assisted Runtime File Access Control" +:+ newline +:+ newline +:+
  "usage:" +:+ newline +:+
  "  guardctl serve [--policy FILE] [--daemon] [--log FILE] [--runtime-dir DIR]" +:+ newline +:+
  "  guardctl policy validate FILE" +:+ newline +:+
  "  guardctl policy load FILE" +:+ newline +:+
  "  guardctl policy list" +:+ newline +:+
  "  guardctl status" +:+ newline +:+
  "  guardctl events [--json] [--count N]" +:+ newline +:+
  "  guardctl stop" +:+ newline +:+
  "  guardctl --version | --help" +:+ newline.

Definition run_cli (env : cli_env) (args : CliArgs) : outcome cli_result :=
  let c := command args in
  if String.eqb c "serve" then Return (run_serve env args)
  else if String.eqb c "policy-validate" then run_policy_validate env args
  else if String.eqb c "policy-load" then r ← run_policy_load env args; Return r.2
  else if String.eqb c "policy-list" then run_policy_list env args
  else if String.eqb c "status" then run_status env args
  else if String.eqb c "events" then run_events env args
  else if String.eqb c "stop" then run_stop env args
  else if String.eqb c "version" then
    done_with 0 (kProjectName +:+ " " +:+ kVersion +:+ " — " +:+ kTagline +:+ newline) ""
  else if String.eqb c "help" then done_with 0 usage ""
  else done_with 1 "" ("unknown command" +:+ newline).

Definition guardctl_main (env : cli_env) (root : bool) (tokens : list string) : outcome cli_result :=
  match parse_cli root tokens with
  | Err m => done_with 2 "" ("guardctl: " +:+ m +:+ newline)
  | Ok args => run_cli env args
  end.

(** main.cpp; parse_cli reads [argv] from its second element on. *)
Definition main (env : cli_env) (root : bool) (argv : list string) : outcome cli_result :=
  guardctl_main env root (tail argv).
End Cli.
