(* ===== verification/CliProperties.v ===== *)
(** * Properties of guardctl

    The command line round trip, the JSON form of events, what `guardctl
    events`, `status` and `policy list` show of the daemon's replies, and the
    local check of `policy load`. *)

From S2P Require Import Prelude FileId Policy DecisionEngine PolicyCompiler SpscQueue SecurityEvent Enforcer Json ConfigParser EventSink Controller Daemon DaemonProperties Cli.

Local Open Scope Z_scope.

(** ** Decimal numbers *)

Lemma pretty_N_char_value (x : N) :
  (x < 10)%N -> Z.of_nat (nat_of_ascii (pretty_N_char x)) - 48 = Z.of_N x.
Proof.
  intros Hx. destruct x as [|p]; [done|].
  do 4 (destruct p as [p|p|]; try done; try lia).
Qed.

Lemma digits_value_go (x : N) (s : string) :
  digits_value 0 (pretty_N_go x s) = digits_value (Z.of_N x) s.
Proof.
  revert s. induction (N.lt_wf_0 x) as [x _ IH]; intros s.
  destruct (decide (0 < x)%N) as [Hx|Hx].
  - rewrite pretty_N_go_step by done. rewrite IH by by apply N.div_lt.
    assert (x mod 10 < 10)%N as Hm by by apply N.mod_lt.
    cbn [digits_value]. rewrite pretty_N_char_digit, pretty_N_char_value by done.
    f_equal. rewrite N2Z.inj_div, N2Z.inj_mod.
    rewrite (Z.div_mod (Z.of_N x) (Z.of_N 10)) at 3 by done. lia.
  - assert (x = 0)%N as -> by lia. by rewrite pretty_N_go_0.
Qed.

Lemma digits_value_to_string_u (z : Z) : 0 <= z -> digits_value 0 (to_string_u z) = z.
Proof.
  intros Hz. unfold to_string_u, pretty, pretty_N. case_decide as Hd.
  - replace z with 0 by lia. reflexivity.
  - rewrite digits_value_go. cbn. by rewrite Z2N.id.
Qed.

(** An unsigned rendering starts with a digit. *)
Lemma to_string_u_front (z : Z) :
  exists c s, to_string_u z = String c s /\ is_digit c = true.
Proof.
  pose proof (to_string_u_digits z) as Hd.
  destruct (to_string_u z) as [|c s] eqn:Hs.
  - exfalso. revert Hs. unfold to_string_u, pretty, pretty_N. case_decide; [done|].
    assert (0 < Z.to_N z)%N as Hpos by lia. rewrite pretty_N_go_step by done.
    assert (forall x t, t <> "" -> pretty_N_go x t <> "") as Hne.
    { intros x. induction (N.lt_wf_0 x) as [x _ IH]; intros t Ht.
      destruct (decide (0 < x)%N); [rewrite pretty_N_go_step by done; apply IH; [by apply N.div_lt|done]|].
      assert (x = 0)%N as -> by lia. by rewrite pretty_N_go_0. }
    by apply Hne.
  - exists c, s. cbn in Hd. apply andb_true_iff in Hd as [Hd _]. done.
Qed.

Lemma digit_not_space (c : ascii) : is_digit c = true -> is_space c = false.
Proof.
  unfold is_digit, is_space. intros Hd%bool_decide_eq_true.
  apply orb_false_iff. split; [apply bool_decide_eq_false; lia|].
  apply Ascii.eqb_neq. intros ->. change (48 <= 32 <= 57)%nat in Hd. lia.
Qed.

Lemma saturate64_small (z : Z) : in_s 32 z -> saturate64 z = z.
Proof. unfold in_s, saturate64. lia. Qed.

Lemma atoi_to_string_s (z : Z) : in_s 32 z -> atoi (to_string_s z) = z.
Proof.
  intros Hz. unfold atoi, strtol, to_string_s. destruct (Z.ltb_spec z 0) as [Hneg|Hpos].
  - rewrite str_app_cons, str_app_nil_l. cbn [skip_spaces].
    change (is_space "-") with false. cbv iota. change (Ascii.eqb "-" "-") with true. cbv iota.
    rewrite digits_value_to_string_u by lia. rewrite Z.opp_involutive, saturate64_small by done.
    by apply wrap_s_small.
  - destruct (to_string_u_front z) as (c & s & Hs & Hc). rewrite Hs. cbn [skip_spaces].
    rewrite digit_not_space by done.
    assert (forall d, is_digit d = false -> Ascii.eqb c d = false) as Hneq.
    { intros d Hd. apply Ascii.eqb_neq. congruence. }
    rewrite !Hneq, <- Hs by done. rewrite digits_value_to_string_u, saturate64_small by done.
    by apply wrap_s_small.
Qed.

(** ** The command line *)

(** The usage's spelling of a command, every option written out. *)
Definition cli_tokens (a : CliArgs) : list string :=
  let dir := ["--runtime-dir"; cli_runtime_dir a] in
  if String.eqb (command a) "serve" then
    ["serve"] ++ (if daemonize a then ["--daemon"] else []) ++
    ["--policy"; cli_policy_file a; "--log"; log_file a] ++ dir
  else if String.eqb (command a) "events" then
    ["events"] ++ (if json_output a then ["--json"] else []) ++
    ["--count"; to_string_s (event_count a)] ++ dir
  else if String.eqb (command a) "policy-validate" then ["policy"; "validate"; cli_policy_file a]
  else if String.eqb (command a) "policy-load" then ["policy"; "load"; cli_policy_file a] ++ dir
  else if String.eqb (command a) "policy-list" then ["policy"; "list"] ++ dir
  else if String.eqb (command a) "help" then ["--help"]
  else if String.eqb (command a) "version" then ["--version"]
  else command a :: dir.

(** The commands with the fields each of them can set. *)
Definition cli_wf (root : bool) (a : CliArgs) : Prop :=
  let base := with_runtime_dir CliArgs_default (default_runtime_dir root) in
  force a = false /\
  ((command a = "serve" /\ json_output a = false /\ event_count a = -1) \/
   (command a = "events" /\ in_s 32 (event_count a) /\ cli_policy_file a = "" /\ log_file a = "" /\
    daemonize a = false) \/
   (a = with_policy_file (with_command base "policy-validate") (cli_policy_file a)) \/
   (a = with_runtime_dir (with_policy_file (with_command base "policy-load") (cli_policy_file a))
          (cli_runtime_dir a)) \/
   (exists c, c ∈ ["policy-list"; "status"; "stop"] /\
      a = with_runtime_dir (with_command base c) (cli_runtime_dir a)) \/
   (exists c, c ∈ ["help"; "version"] /\ a = with_command base c)).

Definition cli_commands : list string :=
  ["serve"; "policy-validate"; "policy-load"; "policy-list"; "status"; "events"; "stop";
   "version"; "help"].

(** C36 (command lines round trip): for every command and every value of the
    options it accepts, an int count included, parsing the spelling of the
    usage text gives exactly those arguments. *)
Theorem parse_cli_render (root : bool) (a : CliArgs) :
  cli_wf root a -> parse_cli root (cli_tokens a) = Ok a.
Proof.
  destruct a as [cmd file dir log dmn json count frc]. unfold cli_wf; cbn.
  intros (-> & [H|[H|[H|[H|[H|H]]]]]).
  - destruct H as (-> & -> & ->). by destruct dmn.
  - destruct H as (-> & Hn & -> & -> & ->).
    destruct json; cbn; by rewrite atoi_to_string_s.
  - by injection H as -> -> -> -> -> ->.
  - by injection H as -> -> -> -> ->.
  - destruct H as (c & Hc & [= -> -> -> -> -> ->]).
    rewrite !elem_of_cons, elem_of_nil in Hc. by destruct Hc as [->|[->|[->|[]]]].
  - destruct H as (c & Hc & [= -> -> -> -> -> -> ->]).
    rewrite !elem_of_cons, elem_of_nil in Hc. by destruct Hc as [->|[->|[]]].
Qed.

Lemma parse_cli_render_witness :
  parse_cli true ["events"; "--json"; "--count"; "-12"; "--runtime-dir"; "/run/fg"] =
  Ok (MkCliArgs "events" "" "/run/fg" "" false true (-12) false).
Proof.
  refine (parse_cli_render true (MkCliArgs "events" "" "/run/fg" "" false true (-12) false) _).
  split; [reflexivity|]. right. left. split; [reflexivity|].
  split; [apply (bool_decide_unpack _); vm_compute; exact I|]. split_and!; reflexivity.
Defined.

(** An option loop keeps what its iterations keep. *)
Lemma dir_options_keeps (P : CliArgs -> Prop) what a tokens a' :
  (forall a d, P a -> P (with_runtime_dir a d)) ->
  P a -> dir_options what a tokens = Ok a' -> P a'.
Proof.
  intros HP. revert a. induction tokens as [tokens IH] using (well_founded_induction
    (well_founded_ltof _ (@length string))); intros a Ha.
  destruct tokens as [|t [|v tokens]]; cbn; [by intros [= <-]|done|].
  destruct (String.eqb t _); [|done]. apply IH; [unfold ltof; cbn; lia|by apply HP].
Qed.

Lemma serve_options_keeps (P : CliArgs -> Prop) a tokens a' :
  (forall a v, P a -> P (with_runtime_dir a v) /\ P (with_policy_file a v) /\
                      P (with_log_file a v) /\ P (with_daemonize a)) ->
  P a -> serve_options a tokens = Ok a' -> P a'.
Proof.
  intros HP. revert a. induction tokens as [tokens IH] using (well_founded_induction
    (well_founded_ltof _ (@length string))); intros a Ha.
  destruct tokens as [|t tokens]; [by intros [= <-]|]. cbn [serve_options].
  destruct (String.eqb t "--daemon"); [apply IH; [unfold ltof; cbn; lia|by apply (HP a "")]|].
  destruct tokens as [|v tokens]; [done|].
  repeat (destruct (_ || _) || destruct (String.eqb t _)); try done;
    (apply IH; [unfold ltof; cbn; lia|by apply (HP a v)]).
Qed.

Lemma events_options_keeps (P : CliArgs -> Prop) a tokens a' :
  (forall a v, P a -> P (with_runtime_dir a v) /\ P (with_event_count a (atoi v)) /\
                      P (with_json_output a)) ->
  P a -> events_options a tokens = Ok a' -> P a'.
Proof.
  intros HP. revert a. induction tokens as [tokens IH] using (well_founded_induction
    (well_founded_ltof _ (@length string))); intros a Ha.
  destruct tokens as [|t tokens]; [by intros [= <-]|]. cbn [events_options].
  destruct (String.eqb t "--json"); [apply IH; [unfold ltof; cbn; lia|by apply (HP a "")]|].
  destruct tokens as [|v tokens]; [done|].
  repeat destruct (String.eqb t _); try done; (apply IH; [unfold ltof; cbn; lia|by apply (HP a v)]).
Qed.

Definition args_ok (a : CliArgs) : Prop :=
  command a ∈ cli_commands /\ force a = false /\ in_s 32 (event_count a).

(** What parse_cli accepts: the accepted command is always one that
    [run_cli] knows, the count is an int, and [force], which the header
    documents as the option --force of policy load, is never set. *)
Theorem parse_cli_accepts (root : bool) (tokens : list string) (a : CliArgs) :
  parse_cli root tokens = Ok a -> args_ok a.
Proof.
  assert (forall c, c ∈ cli_commands ->
    args_ok (with_command (with_runtime_dir CliArgs_default (default_runtime_dir root)) c)) as Hbase
    by (intros c Hc; by split_and!).
  assert (forall a d, args_ok a -> args_ok (with_runtime_dir a d)) as Hdir by done.
  assert (forall a f, args_ok a -> args_ok (with_policy_file a f)) as Hfile by done.
  assert (forall a n, args_ok a -> args_ok (with_event_count a (atoi n))) as Hcount.
  { intros b n (Hc & Hf & _). split_and!; [done|done|by apply wrap_s_in]. }
  unfold parse_cli. destruct tokens as [|first tokens]; [done|].
  destruct (_ || _); [intros [= <-]; apply Hbase; set_solver|].
  destruct (_ || _); [intros [= <-]; apply Hbase; set_solver|].
  destruct (String.eqb first "serve").
  { apply serve_options_keeps; [by intros; split_and!|apply Hbase; set_solver]. }
  destruct (String.eqb first "status"); [apply dir_options_keeps; [done|apply Hbase; set_solver]|].
  destruct (String.eqb first "events").
  { apply events_options_keeps; [by intros; split_and!; auto|apply Hbase; set_solver]. }
  destruct (String.eqb first "stop"); [apply dir_options_keeps; [done|apply Hbase; set_solver]|].
  destruct (String.eqb first "policy"); [|done].
  destruct tokens as [|sub tokens]; [done|]. cbn [policy_command].
  destruct (String.eqb sub "validate").
  { destruct tokens; [done|intros [= <-]]. apply Hfile, Hbase. set_solver. }
  destruct (String.eqb sub "load").
  { destruct tokens; [done|]. apply dir_options_keeps; [done|]. apply Hfile, Hbase. set_solver. }
  destruct (String.eqb sub "list"); [|done]. apply dir_options_keeps; [done|apply Hbase; set_solver].
Qed.

Lemma parse_cli_accepts_witness :
  args_ok (with_policy_file (with_command (with_runtime_dir CliArgs_default "/run/fileguard")
             "policy-validate") "p.json").
Proof.
  apply (parse_cli_accepts true ["policy"; "validate"; "p.json"; "ignored"]). reflexivity.
Defined.

(** ** Events *)

(** One typed read of a member of a literal object. *)
Ltac read_member :=
  first
    [ erewrite value_string_object by (solve_nodup || reflexivity)
    | erewrite value_bool_object by (solve_nodup || reflexivity)
    | erewrite value_int_object by (solve_nodup || reflexivity)
    | erewrite value_uint_object by (solve_nodup || reflexivity) ];
  cbn [mbind outcome_bind].

Section Events.
Context {J : Type} `{!Json J} `{!JsonLaws J}.

Lemma operation_from_name_name (op : Operation) : operation_from_name (operation_name op) = Open.
Proof. unfold operation_from_name. by destruct (String.eqb _ _). Qed.

Lemma reason_from_name_name (r : Reason) :
  (forall v, r <> Reason_unnamed v) -> reason_from_name (reason_name r) = r.
Proof. destruct r as [| | | |v]; try done. by intros []%(fun H => H v). Qed.

Lemma action_from_name_name (a : Action) : named_action a -> action_from_name (action_name a) = a.
Proof. intros [->| ->]; reflexivity. Qed.

(** C37 (events survive their JSON form): reading back the object that the log
    and the daemon write for an event gives the event, for numbers that are
    uint32_t and an operation, action and reason with a name; the "ALLOW"/"DENY" and
    the four reason names are told apart. *)
Theorem event_json_roundtrip (e : SecurityEvent) :
  Forall (in_u 32) [se_pid e; se_tgid e; se_uid e; se_gid e; se_rule_id e] ->
  se_operation e = Open -> named_action (se_action e) ->
  (forall v, se_reason e <> Reason_unnamed v) ->
  event_from_json (J:=J) (event_object e) = Return e.
Proof.
  destruct e as [ts pid tgid uid gid comm proc res op act rsn rule]; cbn.
  intros Hall -> Hact Hrsn. rewrite !Forall_cons in Hall. destruct Hall as (H1 & H2 & H3 & H4 & H5 & _).
  unfold event_from_json, event_object. cbn [se_timestamp se_pid se_tgid se_uid se_gid se_comm
    se_process_path se_resource_path se_operation se_action se_reason se_rule_id].
  repeat read_member. rewrite !wrap_u_small by done.
  by rewrite operation_from_name_name, action_from_name_name, reason_from_name_name.
Qed.

Lemma events_lines_silent show lines (s : events_state) :
  Forall (fun l => events_line (J:=J) show l s = Return s) lines ->
  events_lines (J:=J) show lines s = Return s.
Proof. induction 1 as [|l lines Hl _ IH]; [done|]. cbn [events_lines]. rewrite Hl. apply IH. Qed.

Lemma events_loop_silent show count recvs pending (s : events_state) :
  Forall (fun l => events_line (J:=J) show l s = Return s) (frame_all pending recvs).1 ->
  events_loop (J:=J) show count recvs pending s = Return s.
Proof.
  revert pending; induction recvs as [|chunk recvs IH]; intros pending; cbn;
    [by case_match|].
  destruct (frame pending chunk) as [lines rest].
  specialize (IH rest). destruct (frame_all rest recvs) as [more rest'].
  intros [Hl Hm]%Forall_app. case_match; [|done].
  rewrite events_lines_silent by done. cbn [mbind outcome_bind]. by apply IH.
Qed.

(** C38 (guardctl events shows no event): let the daemon acknowledge the stream
    request and then send any events, as its stream client does; however the
    bytes are cut into chunks and whatever the options, guardctl prints
    nothing to stdout, reports no error and ends with "0 event(s)": the
    events are not terminated by newlines, so none is ever seen as a line. *)
Theorem run_events_shows_nothing (env : cli_env) (args : CliArgs) (ack req : string)
    (evs : list SecurityEvent) (ts : list string) :
  daemon_connect env (socket_path (cli_runtime_dir args)) = ok_v ->
  json_dump (J:=J) (json_object [("cmd", json_string "stream"); ("json", json_bool (json_output args))]) =
    Return req ->
  json_dump (J:=J) (json_object [("ok", json_bool true); ("stream", json_bool true)]) = Return ack ->
  json_parse ack = inr (json_object (J:=J) [("ok", json_bool true); ("stream", json_bool true)]) ->
  Forall2 (fun ev t => json_of (J:=J) ev = Return t) evs ts ->
  str_concat (env_recvs env) = (ack +:+ newline) +:+ str_concat ts ->
  run_events (J:=J) env args =
    Return (MkCliResult 0 "" ("events: stream ended (0 event(s))" +:+ newline)).
Proof.
  intros Hconn Hreq Hack Hparse Hts Hrecvs. unfold run_events. rewrite Hconn, Hreq.
  cbn [ok_v mbind outcome_bind]. rewrite events_loop_silent; [done|].
  rewrite frame_all_from by done. unfold frame. rewrite str_app_nil_l, Hrecvs.
  pose proof (dump_one_line _ _ Hack) as Hnl. apply negb_false_iff in Hnl.
  change (ack +:+ newline) with (line_of ack).
  rewrite split_lines_line, (split_lines_partial (str_concat ts)) by
    (done || by eapply json_of_no_newline).
  cbn [app fst]. rewrite filter_cons, filter_nil. case_decide; [|constructor]. apply Forall_singleton.
  unfold events_line. rewrite Hparse, contains_object by solve_nodup.
  rewrite bool_decide_eq_false_2 by (cbn; by intros [? [=]]).
  by read_member.
Qed.
End Events.

(** ** The daemon's replies as guardctl shows them *)
Section Replies.
Context {E : Type} `{!IEnforcer E} {J : Type} `{!Json J} `{!JsonLaws J}.
Context (file_resolver : FileResolver).
Implicit Types (d : Daemon E) (req : J).

(** Guardctl status: the daemon's answer to a status request, printed by
    guardctl, shows the backend, the two flags, the detail text and the three
    numbers of the controller's status exactly, for numbers that are ints. *)
Theorem status_shown d req :
  json_value_string req "cmd" "" = Return "status" ->
  let s := controller_status (controller_ d) in
  in_s 32 (policy_version s) -> in_s 32 (protected_count s) -> in_s 32 (rule_count s) ->
  exists resp, handle_request file_resolver req d = Return (resp, d) /\
    print_status resp =
      Return (str_concat (line_of <$>
        ["fileguard: running";
         "  backend:        " +:+ backend s;
         "  attached:       " +:+ yes_no (attached s);
         "  enforcing:      " +:+ yes_no (enforcing s);
         "  policy version: " +:+ to_string_s (policy_version s);
         "  protected:      " +:+ to_string_s (protected_count s);
         "  rules:          " +:+ to_string_s (rule_count s);
         "  detail:         " +:+ detail s]), "").
Proof.
  intros Hcmd s Hv Hp Hr. eexists. unfold handle_request. rewrite Hcmd. cbn [mbind outcome_bind].
  split; [reflexivity|]. fold s. unfold print_status, status_json. read_member. cbn [negb].
  rewrite find_object by solve_nodup. cbn [assoc find_first fmap option_fmap option_map snd fst
    String.eqb Ascii.eqb Bool.eqb]. repeat read_member.
  rewrite !wrap_s_small by done. cbn [fmap list_fmap str_concat]. unfold line_of.
  by rewrite !str_app_assoc, str_app_nil_r.
Qed.

Lemma outcome_concat_map {A : Type} (f : J -> outcome string) (g : A -> J) (h : A -> string) l :
  (forall x, x ∈ l -> f (g x) = Return (h x)) ->
  outcome_concat f (g <$> l) = Return (str_concat (h <$> l)).
Proof.
  induction l as [|x l IH]; intros H; [done|]. cbn [fmap list_fmap outcome_concat str_concat].
  rewrite H by constructor. cbn [mbind outcome_bind].
  change (list_fmap A J g l) with (g <$> l). rewrite IH; [done|].
  intros y Hy. apply H. by constructor.
Qed.

(** The listing guardctl prints for a policy. *)
Definition listing (p : Policy) : string :=
  str_concat (line_of <$>
    ["policy version: " +:+ to_string_s (version p); "protected resources:"] ++
    ((fun r => "  " +:+ res_path r) <$> protected_resources p) ++ ["rules:"] ++
    ((fun r => "  " +:+ rule_id r +:+ ": " +:+ proc_value (rule_process r) +:+ " -> " +:+
               res_path (rule_resource r) +:+ " [" +:+ operation_name (rule_operation r) +:+ "] " +:+
               action_name (rule_action r)) <$> rules p)).

(** C39 (guardctl policy list): the daemon's answer to a list request, printed
    by guardctl, is the listing of the current policy: its version, every
    protected path and every rule, in order. *)
Theorem policy_list_shown d req (p : Policy) :
  json_value_string req "cmd" "" = Return "list" ->
  current_ (policy_manager_ (controller_ d)) = Some p -> in_s 32 (version p) ->
  exists resp, handle_request file_resolver req d = Return (resp, d) /\
    print_list resp = done_with 0 (listing p) "".
Proof.
  intros Hcmd Hp Hv. eexists. unfold handle_request. rewrite Hcmd. cbn [mbind outcome_bind].
  split; [reflexivity|]. cbn [String.eqb Ascii.eqb Bool.eqb]. rewrite Hp. unfold manager_version.
  rewrite Hp. unfold print_list. read_member. cbn [negb]. read_member.
  rewrite wrap_s_small by done. unfold member_items. rewrite !find_object by solve_nodup.
  cbn [assoc find_first fmap option_fmap option_map snd fst String.eqb Ascii.eqb Bool.eqb].
  rewrite !items_array.
  rewrite (outcome_concat_map resource_line _ (fun r => line_of ("  " +:+ res_path r))).
  2:{ intros r _. unfold resource_line. rewrite get_string_string. cbn [mbind outcome_bind].
      unfold line_of. by rewrite str_app_assoc. }
  cbn [mbind outcome_bind].
  rewrite (outcome_concat_map rule_line _ (fun r => line_of ("  " +:+ rule_id r +:+ ": " +:+
    proc_value (rule_process r) +:+ " -> " +:+ res_path (rule_resource r) +:+ " [" +:+
    operation_name (rule_operation r) +:+ "] " +:+ action_name (rule_action r)))).
  2:{ intros r _. unfold rule_line, rule_summary_json. repeat read_member. unfold line_of.
      by rewrite !str_app_assoc. }
  cbn [mbind outcome_bind]. f_equal. f_equal. unfold listing.
  rewrite !fmap_app, !str_concat_app. cbn [fmap list_fmap str_concat].
  rewrite <- !list_fmap_compose. unfold compose, line_of. by rewrite !str_app_assoc, !str_app_nil_l.
Qed.
End Replies.

(** ** policy load *)
Section Load.
Context {J : Type} `{!Json J}.

(** The request [policy load] sends: the document of the second read. *)
Definition load_request_of (doc : J) : J :=
  json_object [("cmd", json_string "load_policy"); ("policy", doc)].

(** C40 (a bad policy never reaches the daemon): a run of `policy load` either
    finds the file unparsable or uncompilable, and then it sends nothing and
    exits with 1; or the file parses and compiles here.  With a daemon's
    socket present, what is sent is the request for the document of a second
    read of the file, which the check has not seen; the exit code is 0 only
    if the reply says ok, and if the exchange itself fails the command exits
    with 1 and prints nothing. *)
Theorem policy_load_checks (env : cli_env) (args : CliArgs) (sent : string) (r : cli_result) :
  run_policy_load (J:=J) env args = Return (sent, r) ->
  (exists m, sent = "" /\ r = MkCliResult 1 "" ("invalid policy: " +:+ m +:+ newline) /\
     forall p, from_file (J:=J) (env_read env) (cli_policy_file args) = Value p ->
       compile (env_resolver env) p = Err m) \/
  (exists p compiled,
     from_file (J:=J) (env_read env) (cli_policy_file args) = Value p /\
     compile (env_resolver env) p = Ok compiled /\
     (env_exists env (socket_path (cli_runtime_dir args)) = true ->
      exists doc reply,
        json_parse (env_reread env (cli_policy_file args)) = inr doc /\
        request_json env (socket_path (cli_runtime_dir args)) (load_request_of doc) =
          Return (sent, reply) /\
        match reply with
        | Err _ => r = MkCliResult 1 "" ""
        | Ok resp => exit_code r = 0 <-> json_value_bool resp "ok" false = Return true
        end)).
Proof.
  unfold run_policy_load. intros (checked & Hc & H)%outcome_bind_Return.
  unfold check_policy in Hc. destruct (from_file (env_read env) (cli_policy_file args)) as [p|m|w] eqn:Hf.
  - injection Hc as <-. destruct (compile (env_resolver env) p) as [compiled|m] eqn:Hk.
    + right. exists p, compiled. split_and!; [done..|]. intros Hex.
      cbn [mbind result_bind] in H. rewrite Hex in H.
      destruct (json_parse _) as [w|doc] eqn:Hp; [done|].
      apply outcome_bind_Return in H as ([sent' reply] & Hr & H). exists doc, reply.
      destruct reply as [resp|m]; [|by injection H as <- <-].
      apply outcome_bind_Return in H as (ok & Hok & H). destruct ok; cbn [negb] in H;
        apply outcome_bind_Return in H as (x & _ & [= <- <-]); by split_and!; [| |rewrite Hok].
    + left. exists m. injection H as <- <-. split_and!; [done..|]. by intros p' [= <-].
  - left. exists m. injection Hc as <-. injection H as <- <-. by split_and!.
  - done.
Qed.
End Load.

(** ** Concrete inputs *)

Definition cli_texts (text : string) : string + jval :=
  if String.eqb text "{}" then inr (VObject [("ok", VBool true); ("stream", VBool true)])
  else sample_texts text.
Definition cli_json : Json jval := jval_json cli_texts.
Definition cli_json_laws : @JsonLaws jval cli_json := jval_laws cli_texts.

Definition sample_env : cli_env :=
  MkCliEnv daemon_files (fun _ => Contents policy_text) (fun _ => policy_text)
    (fun _ => "error") (fun _ => true) None None []
    ["{"; "}" +:+ newline +:+ "{}"; "{}"] (ForkParent) None (fun _ => ok_v) 0.

Lemma event_json_roundtrip_witness :
  @event_from_json jval cli_json (@event_object jval cli_json sample_event) = Return sample_event.
Proof.
  apply (@event_json_roundtrip jval cli_json cli_json_laws sample_event).
  - repeat constructor; vm_compute; discriminate.
  - reflexivity.
  - right. reflexivity.
  - discriminate.
Defined.

Lemma run_events_shows_nothing_witness :
  @run_events jval cli_json sample_env (with_event_count CliArgs_default 1) =
  Return (MkCliResult 0 "" ("events: stream ended (0 event(s))" +:+ newline)).
Proof.
  apply (@run_events_shows_nothing jval cli_json cli_json_laws sample_env
           (with_event_count CliArgs_default 1) "{}" "{}" [sample_event; sample_event] ["{}"; "{}"]);
    try reflexivity.
  repeat constructor.
Defined.

Lemma status_shown_witness :
  exists resp,
    @handle_request NullEnforcer _ jval cli_json daemon_files (VObject [("cmd", VString "status")])
      sample_daemon = Return (resp, sample_daemon) /\
    exists text, @print_status jval cli_json resp = Return (text, "").
Proof.
  destruct (@status_shown NullEnforcer _ jval cli_json cli_json_laws daemon_files sample_daemon
    (VObject [("cmd", VString "status")]) eq_refl) as (resp & H1 & H2);
    [vm_compute; split; [discriminate|reflexivity]..|].
  exists resp. split; [exact H1|]. eexists. exact H2.
Defined.

Definition listing_daemon : Daemon NullEnforcer :=
  with_controller sample_daemon
    (with_policy (controller_ sample_daemon) (MkPolicyManager (Some sample_json_policy))).

Lemma policy_list_shown_witness :
  exists resp,
    @handle_request NullEnforcer _ jval cli_json daemon_files (VObject [("cmd", VString "list")])
      listing_daemon = Return (resp, listing_daemon) /\
    @print_list jval cli_json resp = done_with 0 (str_concat (line_of <$>
      ["policy version: 3"; "protected resources:"; "  /protected/secret.txt"; "rules:";
       "  allow-backup: /usr/local/bin/backup-agent -> /protected/secret.txt [OPEN] ALLOW"])) "".
Proof.
  apply (@policy_list_shown NullEnforcer _ jval cli_json cli_json_laws daemon_files listing_daemon
    (VObject [("cmd", VString "list")]) sample_json_policy eq_refl eq_refl).
  vm_compute. split; [discriminate|reflexivity].
Defined.

Lemma policy_load_checks_witness :
  exists p compiled, @from_file jval cli_json (fun _ => Contents policy_text) "" = Value p /\
    compile daemon_files p = Ok compiled.
Proof.
  destruct (@run_policy_load jval cli_json sample_env CliArgs_default) as [[sent r]|w] eqn:H;
    [|vm_compute in H; discriminate].
  assert (sent <> "") as Hsent.
  { intros ->. vm_compute in H. discriminate. }
  destruct (@policy_load_checks jval cli_json sample_env CliArgs_default sent r H)
    as [(m & Hm & _)|(p & compiled & Hp & Hc & _)]; [done|].
  exists p, compiled. split; [exact Hp|exact Hc].
Defined.
