(* ===== verification/Tools.v ===== *)
(** * The programs under src/tools

    [backup_agent] and [test_reader], the two readers of the demonstration
    (tools/backup-agent.cc, tools/test-reader.cc), and the benchmark
    (tools/bench.cc): its options, its loops over the results of open(2), and
    its report.  The rendering of floating-point numbers is a parameter. *)

From S2P Require Import Prelude CoreUtils Abi BpfMap FileId Policy DecisionEngine PolicyCompiler Enforcer Json ConfigParser EventSink.
From S2P Require Import Controller Agreement ControllerProperties Cli.

Local Open Scope Z_scope.

(** ** The readers *)

(** main of both programs; [read] gives the contents of a file that can be
    opened. *)
Definition reader_main (name : string) (read : string -> option string) (args : list string) : cli_result :=
  match args with
  | [path] =>
     match read path with
     | None => MkCliResult 1 "" (name +:+ ": " +:+ path +:+ ": Permission denied." +:+ newline)
     | Some contents =>
        MkCliResult 0 ("Access allowed." +:+ newline +:+ contents +:+
          (if negb (str_empty contents) &&
              negb (bool_decide (str_back contents = Some (ascii_of_nat 10))) then newline else "")) ""
     end
  | _ => MkCliResult 2 "" ("usage: " +:+ name +:+ " <file>" +:+ newline)
  end.
Definition backup_agent := reader_main "backup-agent".
Definition test_reader := reader_main "test-reader".

(** ** The benchmark *)
Record bench_args := MkBenchArgs { b_file : string; b_n : Z; b_pacing_ns : Z; b_csv : string }.
Definition bench_defaults : bench_args := MkBenchArgs "" 100000 0 "".

Definition bench_usage (prog : string) : string :=
  "usage: " +:+ prog +:+ " -f FILE -n N [-p pacing_ns] [-o csv] [-q]" +:+ newline.

(** The loop over argv; [None] is the usage error. *)
Fixpoint bench_options (a : bench_args) (tokens : list string) : option bench_args :=
  match tokens with
  | [] => Some a
  | t :: tokens =>
     match tokens with
     | v :: rest =>
        if String.eqb t "-f" then bench_options (MkBenchArgs v (b_n a) (b_pacing_ns a) (b_csv a)) rest
        else if String.eqb t "-n" then bench_options (MkBenchArgs (b_file a) (strtol v) (b_pacing_ns a) (b_csv a)) rest
        else if String.eqb t "-p" then bench_options (MkBenchArgs (b_file a) (b_n a) (strtol v) (b_csv a)) rest
        else if String.eqb t "-o" then bench_options (MkBenchArgs (b_file a) (b_n a) (b_pacing_ns a) v) rest
        else if String.eqb t "-q" then bench_options (MkBenchArgs (b_file a) (b_n a) (b_pacing_ns a) "") tokens
        else None
     | [] =>
        if String.eqb t "-q" then Some (MkBenchArgs (b_file a) (b_n a) (b_pacing_ns a) "") else None
     end
  end.

Section Bench.
(** Whether the [i]-th open of the run succeeds; the clock's two readings; and
    the text of the three derived numbers as printf and as the CSV stream
    render them, from the elapsed time and the number of iterations. *)
Context (opens : nat -> bool) (start finish : Z).
Context (printf_secs printf_per_op printf_throughput stream_per_op stream_throughput : Z -> Z -> string).

(** The warm-up opens and closes the file 1000 times, then the measured loop:
    the number of opens that failed, an int. *)
Definition warm_up : nat := 1000.
Fixpoint bench_loop (n : nat) (i : nat) (failed : Z) : Z :=
  match n with
  | O => failed
  | S n => bench_loop n (S i) (if opens i then failed else i32 (failed + 1))
  end.

Definition bench_report (a : bench_args) (failed elapsed : Z) : string :=
  "file=" +:+ b_file a +:+ " iterations=" +:+ to_string_s (b_n a) +:+ " failed=" +:+ to_string_s failed +:+ newline +:+
  "total_time=" +:+ printf_secs elapsed (b_n a) +:+ "s avg_per_open=" +:+ printf_per_op elapsed (b_n a) +:+
  "us throughput=" +:+ printf_throughput elapsed (b_n a) +:+ " opens/s" +:+ newline.
Definition bench_csv (a : bench_args) (failed elapsed : Z) : string :=
  b_file a +:+ "," +:+ to_string_s (b_n a) +:+ "," +:+ to_string_s failed +:+ "," +:+
  stream_per_op elapsed (b_n a) +:+ "," +:+ stream_throughput elapsed (b_n a) +:+ "," +:+
  to_string_s elapsed +:+ newline.

(** main: the exit code with the two streams, and the row appended to a CSV
    file. *)
Definition bench_main (prog : string) (tokens : list string) (csv_opens : bool)
    : cli_result * option (string * string) :=
  match bench_options bench_defaults tokens with
  | None => (MkCliResult 2 "" (bench_usage prog), None)
  | Some a =>
     if str_empty (b_file a) || (b_n a <=? 0) then (MkCliResult 2 "" (bench_usage prog), None)
     else
       let failed := bench_loop (Z.to_nat (b_n a)) warm_up 0 in
       let elapsed := i64 (finish - start) in
       (MkCliResult (if failed =? 0 then 0 else 1) (bench_report a failed elapsed) "",
        if negb (str_empty (b_csv a)) && csv_opens then Some (b_csv a, bench_csv a failed elapsed) else None)
  end.

(** ** Properties *)

(** The loop counts the opens that fail, as long as the count fits an int. *)
Lemma bench_loop_counts (n i : nat) (failed : Z) :
  0 <= failed -> failed + Z.of_nat n < 2 ^ 31 ->
  bench_loop n i failed = failed + Z.of_nat (length (filter (fun j => opens j = false) (seq i n))).
Proof.
  revert i failed; induction n as [|n IH]; intros i failed Hf Hn; cbn [bench_loop seq]; [cbn; lia|].
  rewrite filter_cons. destruct (opens i) eqn:Ho; cbn [bool_decide decide decide_rel].
  - rewrite decide_False by done. apply IH; lia.
  - rewrite decide_True by done. rewrite wrap_s_small by (unfold in_s; lia).
    rewrite IH by lia. cbn [length]. lia.
Qed.

(** The exit code of a run with a file and a positive count: 0 exactly when
    every measured open succeeded, and 1 otherwise. *)
Theorem bench_exit_code (prog : string) (tokens : list string) (csv_opens : bool) a :
  bench_options bench_defaults tokens = Some a -> b_file a <> "" -> 0 < b_n a < 2 ^ 31 ->
  let code := exit_code (bench_main prog tokens csv_opens).1 in
  (code = 0 \/ code = 1) /\
  (code = 0 <-> forall i, (i < Z.to_nat (b_n a))%nat -> opens (warm_up + i)%nat = true).
Proof.
  intros Ha Hf Hn. unfold bench_main. rewrite Ha, (proj2 (Z.leb_gt _ _)) by lia.
  assert (str_empty (b_file a) = false) as -> by (by destruct (b_file a)). cbn [orb fst exit_code].
  rewrite bench_loop_counts, Z.add_0_l by lia.
  set (failing := filter _ _). destruct (Z.eqb_spec (Z.of_nat (length failing)) 0) as [H0|H0];
    (split; [by auto|]); split; try done.
  - intros _ i Hi. destruct (opens (warm_up + i)%nat) eqn:Ho; [done|].
    assert ((warm_up + i)%nat ∈ failing) as Hin.
    { apply list_elem_of_filter. split; [done|]. apply elem_of_seq. lia. }
    assert (failing = []) as Hnil by (destruct failing; [done|cbn in H0; lia]). rewrite Hnil in Hin. by apply elem_of_nil in Hin.
  - intros Hall. destruct failing as [|j l] eqn:Hl; [done|].
    assert (j ∈ failing) as Hin by (rewrite Hl; by constructor).
    apply list_elem_of_filter in Hin as [Ho Hj%elem_of_seq].
    specialize (Hall (j - warm_up)%nat ltac:(lia)). rewrite Nat.add_comm, Nat.sub_add in Hall by lia. congruence.
Qed.

(** Two differences from the comment at the top of bench.cc: -q only cancels
    an -o before it, and the option -r of the usage line does not exist. *)
Lemma bench_quiet_before_csv :
  b_csv <$> bench_options bench_defaults ["-f"; "x"; "-q"; "-o"; "out.csv"] = Some "out.csv" /\
  b_csv <$> bench_options bench_defaults ["-f"; "x"; "-o"; "out.csv"; "-q"] = Some "" /\
  bench_options bench_defaults ["-f"; "x"; "-n"; "10"; "-r"; "5"] = None.
Proof. by split_and!. Qed.
End Bench.

(** ** The demonstration *)
Section Demo.
Context {E : Type} `{!IEnforcer E} `{!EnforcerLaws E} {Cl : Type} (file_resolver : FileResolver).

(** What a reader sees after a policy whose default is DENY has been loaded
    into an enforcing backend: started from the executable [exe], it prints the
    file and exits with 0 exactly when the decision engine allows [exe] the
    file, and exits with 1 otherwise, whatever the program is.  [files] are
    the contents the host would give without the LSM program, whose verdict
    decides whether an open succeeds. *)
Theorem reader_obeys_policy (p : Policy) (c c' : Controller E Cl) (e e' : E) (path exe : string)
    (res proc : FileId) (read files : string -> option string) (contents name : string) :
  enforcer_ c = Some e -> load_policy file_resolver (Some p) c = (ok_v, c') -> enforcer_ c' = Some e' ->
  Forall (fun rule => named_action (rule_action rule)) (rules p) ->
  default_action p <> Allow -> enforcing (enf_status e') = true ->
  resolves file_resolver path res -> resolves file_resolver exe proc ->
  no_alias file_resolver p path exe res proc ->
  read path = (if enforced e' res proc =? 0 then files path else None) -> files path = Some contents ->
  let r := reader_main name read [path] in
  exit_code r = (if decide (action (evaluate p (open_request path exe)) = Allow) then 0 else 1) /\
  (action (evaluate p (open_request path exe)) = Allow ->
   exists tail, std_out r = "Access allowed." +:+ newline +:+ contents +:+ tail /\ (tail = "" \/ tail = newline)) /\
  (action (evaluate p (open_request path exe)) <> Allow ->
   std_out r = "" /\ std_err r = name +:+ ": " +:+ path +:+ ": Permission denied." +:+ newline).
Proof.
  intros He Hl He' Hn Hdef Henf Hres Hproc Hal Hread Hfile.
  destruct (load_policy_Ok file_resolver p c c' e He Hl) as (k & e1 & Hc & Ha & He1 & _).
  assert (e1 = e') as -> by congruence.
  rewrite (load_policy_enforces file_resolver p k e e' path exe res proc Hc Ha Hn Hdef Henf Hres Hproc Hal) in Hread.
  unfold reader_main. destruct (decide _) as [Hallow|Hdeny]; rewrite Hread; cbn [Z.eqb].
  - rewrite Hfile. split_and!; [done| |done]. intros _. cbn [std_out].
    eexists. split; [reflexivity|]. destruct (_ && _); [by right|by left].
  - done.
Qed.
End Demo.
