(* ===== verification/System.v ===== *)
(** * The system: from a request on the socket to the kernel's verdict

    The theorem that puts the components together: JSON parsing, validation,
    compilation, the kernel maps, the LSM program's contract and the daemon's
    reply. *)

From S2P Require Import Prelude Abi BpfMap FileId Policy DecisionEngine PolicyCompiler PathResolver SpscQueue SecurityEvent Enforcer.
From S2P Require Import KernelProgram EbpfManager EbpfInstall EbpfProperties EbpfLifecycle.
From S2P Require Import Json ConfigParser EventSink Controller Agreement ControllerProperties Daemon DaemonProperties.

Local Open Scope Z_scope.

Section System.
Context {E : Type} `{!IEnforcer E} `{!EnforcerLaws E} {J : Type} `{!Json J} `{!JsonLaws J}.
Context (file_resolver : FileResolver).
Implicit Types (d : Daemon E) (req resp : J).

(** C2 (a policy load, end to end): when the daemon answers a load_policy
    request with ok, the request carried a document of a well-formed policy;
    that policy is the current one and the status shows its version and sizes;
    and if its default is DENY and the backend enforces, the host's verdict on
    every open of a resolvable file by a resolvable executable, without
    aliases, is the decision engine's decision on the paths. *)
Theorem load_request_enforces req resp d d' (e : E) :
  enforcer_ (controller_ d) = Some e ->
  json_value_string req "cmd" "" = Return "load_policy" ->
  handle_request file_resolver req d = Return (resp, d') ->
  json_value_bool resp "ok" false = Return true ->
  exists doc text p e',
    json_find req "policy" = Some doc /\ json_dump doc = Return text /\
    from_json (J:=J) text = Value p /\ policy_expressible p /\
    current_ (policy_manager_ (controller_ d')) = Some p /\
    enforcer_ (controller_ d') = Some e' /\
    let status := controller_status (controller_ d') in
    policy_version status = version p /\
    protected_count status = Z.of_nat (length (protected_resources p)) /\
    rule_count status = Z.of_nat (length (rules p)) /\
    (default_action p = Deny -> enforcing status = true ->
     forall path exe res proc,
       resolves file_resolver path res -> resolves file_resolver exe proc ->
       no_alias file_resolver p path exe res proc ->
       enforced e' res proc =
       if decide (action (evaluate p (open_request path exe)) = Allow) then 0 else - EACCES).
Proof.
  intros He Hcmd Hreq Hok.
  destruct (handle_load_request file_resolver req d resp d' Hcmd Hreq)
    as [[_ Hno]|(doc & text & p & Hdoc & Htext & Hp & Hl & Hcur & _)]; [congruence|].
  pose proof (from_json_sound text p Hp) as [Hwf Hver Hdef Hacts Hprocs Hops].
  destruct (load_policy_status file_resolver p _ _ e He Hl Hver)
    as (compiled & e' & Hc & Ha & He' & Hv & Hpc & Hrc).
  exists doc, text, p, e'. cbv zeta. split_and!; try done. intros Hdeny Henf path exe res proc Hr Hx Hal.
  apply (load_policy_enforces file_resolver p compiled e e' path exe res proc Hc Ha Hacts); try done.
  - by rewrite Hdeny.
  - unfold controller_status in Henf. by rewrite He' in Henf.
Qed.
End System.

(** ** A concrete system: the daemon over the Linux backend *)
Definition linux_daemon : Daemon LE :=
  MkDaemon (MkDaemonConfig sample_config "/tmp/fileguard/fileguard.sock" "")
    (MkController sample_config (MkPolicyManager None) (Some loaded_enforcer) None empty_queue [] 0
       [] true true)
    true [].

Definition load_answer : outcome (jval * Daemon LE) :=
  @handle_request LE sample_ops jval daemon_json daemon_files sample_load_request linux_daemon.

Lemma load_answer_ok :
  exists resp d', load_answer = Return (resp, d') /\
    @json_value_bool jval daemon_json resp "ok" false = Return true /\
    enforcing (@controller_status LE sample_ops _ (controller_ d')) = true.
Proof.
  assert (match load_answer with
          | Return (resp, d') =>
             (@json_value_bool jval daemon_json resp "ok" false,
              enforcing (@controller_status LE sample_ops _ (controller_ d')))
          | Throw w => (Throw w, false)
          end = (Return true, true)) as H by (vm_compute; reflexivity).
  destruct load_answer as [[resp d']|w]; [|discriminate].
  injection H as H1 H2. by exists resp, d'.
Qed.

Lemma parsed_document : @from_json jval daemon_json "{}" = Value sample_json_policy.
Proof. vm_compute. reflexivity. Qed.

Lemma sample_policy_no_alias (exe : string) (proc : FileId) :
  daemon_files exe = Ok proc ->
  exe = "/usr/local/bin/backup-agent" \/ proc <> MkFileId 1 2 2000 ->
  no_alias daemon_files sample_json_policy "/protected/secret.txt" exe (MkFileId 1 2 1000) proc.
Proof.
  intros Hexe Hcase. split.
  - intros q Hq _. cbn in Hq. by apply list_elem_of_singleton in Hq.
  - intros rule Hr Hp. cbn in Hr. apply list_elem_of_singleton in Hr. subst. cbn in Hp |- *.
    injection Hp as <-. destruct Hcase as [->|]; done.
Qed.

Lemma load_request_enforces_witness :
  exists e', @enforced LE sample_ops sample_laws e' (MkFileId 1 2 1000) (MkFileId 1 2 2000) = 0 /\
             @enforced LE sample_ops sample_laws e' (MkFileId 1 2 1000) (MkFileId 1 2 1000) = - EACCES.
Proof.
  destruct load_answer_ok as (resp & d' & Hreq & Hok & Henf).
  destruct (@load_request_enforces LE sample_ops sample_laws jval daemon_json daemon_json_laws
    daemon_files sample_load_request resp linux_daemon d' loaded_enforcer eq_refl eq_refl Hreq Hok)
    as (doc & text & p & e' & Hdoc & Htext & Hp & _ & _ & He' & _ & _ & _ & Hdec).
  exists e'. injection Hdoc as <-. injection Htext as <-.
  assert (p = sample_json_policy) as ->.
  { pose proof parsed_document as Hq. cbv beta in Hp. congruence. }
  split.
  - etrans; [apply (Hdec eq_refl Henf "/protected/secret.txt" "/usr/local/bin/backup-agent")|].
    + split; reflexivity.
    + split; reflexivity.
    + apply sample_policy_no_alias; [reflexivity|left; reflexivity].
    + vm_compute. reflexivity.
  - etrans; [apply (Hdec eq_refl Henf "/protected/secret.txt" "/protected/secret.txt")|].
    + split; reflexivity.
    + split; reflexivity.
    + apply sample_policy_no_alias; [reflexivity|right; discriminate].
    + vm_compute. reflexivity.
Defined.
