(* ===== verification/RepositoryTests.v ===== *)
(** * The unit tests of the repository

    The test cases of src/tests, run on the model: every CHECK and REQUIRE is
    one equation, in the order of the file.  They show that the definitions
    agree with what the authors expect of the code on these inputs; the
    documents of test_config_parser.cpp are read by the instance of
    JsonText.v.  At the end, one session over the control socket, as text. *)

From S2P Require Import Prelude Abi FileId Policy DecisionEngine PolicyCompiler PathResolver SpscQueue BpfMap KernelProgram.
From S2P Require Import SecurityEvent Enforcer KernelIo EbpfManager EbpfProperties EbpfLifecycle Json JsonText ConfigParser EventSink.
From S2P Require Import Controller ControllerProperties Daemon DaemonProperties System.

Local Open Scope Z_scope.

(** A JSON text, written with apostrophes for the quotation marks and accents
    for apostrophes. *)
Fixpoint json_text (s : string) : string :=
  match s with
  | EmptyString => EmptyString
  | String c s => (if Ascii.eqb c "'" then quote else if Ascii.eqb c "`" then "'" else String c "") +:+ json_text s
  end.

Definition call_ok {A : Type} (c : call A) : bool := match c with Value _ => true | _ => false end.
Definition call_error {A : Type} (c : call A) : bool := match c with Error _ => true | _ => false end.

Definition exe (path : string) : ProcessIdentity := MkProcessIdentity ExePath path.
Definition opened (path : string) : ResourceIdentity := MkResourceIdentity path (Some Open).

(** ** tests/test_policy.cpp *)
Module TestPolicy.
Definition good_policy : Policy :=
  MkPolicy 1 Deny [opened "/protected/secret.txt"]
    [MkPolicyRule "r1" (opened "/protected/secret.txt") (exe "/bin/cat") Open Allow].

Example accepts_consistent : has_value (validate good_policy) = true.
Proof. vm_compute. reflexivity. Qed.

Example rejects_unprotected :
  has_value (validate (MkPolicy 1 Deny [opened "/protected/secret.txt"]
    [MkPolicyRule "r1" (opened "/protected/secret.txt") (exe "/bin/cat") Open Allow;
     MkPolicyRule "r2" (opened "/etc/passwd") (exe "/bin/cat") Open Allow])) = false.
Proof. vm_compute. reflexivity. Qed.

Example rejects_duplicate_ids :
  has_value (validate (MkPolicy 1 Deny [opened "/protected/secret.txt"]
    [MkPolicyRule "dup" (opened "/protected/secret.txt") (exe "/bin/cat") Open Allow;
     MkPolicyRule "dup" (opened "/protected/secret.txt") (exe "/bin/vim") Open Deny])) = false.
Proof. vm_compute. reflexivity. Qed.

Example rejects_negative_version : has_value (validate (MkPolicy (-1) Deny [] [])) = false.
Proof. vm_compute. reflexivity. Qed.

Example is_protected_matches :
  (is_protected good_policy "/protected/secret.txt", is_protected good_policy "/etc/hosts") = (true, false).
Proof. vm_compute. reflexivity. Qed.

Example find_rule_matches :
  (rule_id <$> find_rule good_policy "/protected/secret.txt" (exe "/bin/cat") Open,
   find_rule good_policy "/protected/secret.txt" (exe "/bin/other") Open,
   find_rule good_policy "/etc/hosts" (exe "/bin/cat") Open) = (Some "r1", None, None).
Proof. vm_compute. reflexivity. Qed.
End TestPolicy.

(** ** tests/test_decision_engine.cpp *)
Module TestDecisionEngine.
Definition cat : ProcessIdentity := exe "/bin/cat".
Definition backup : ProcessIdentity := exe "/usr/local/bin/backup-agent".

Definition policy_with_default (def : Action) : Policy :=
  MkPolicy 1 def [opened "/protected/secret.txt"]
    [MkPolicyRule "allow-backup" (opened "/protected/secret.txt") backup Open Allow].

(** The action and the reason of a decision, and its rule. *)
Definition decide_on (p : Policy) (path : string) (process : ProcessIdentity) : Action * Reason * string :=
  let d := evaluate p (MkAccessRequest path process Open) in (action d, reason d, matched_rule_id d).

Example unprotected_is_allowed :
  decide_on (policy_with_default Deny) "/etc/hosts" cat = (Allow, Reason_ResourceUnprotected, "").
Proof. vm_compute. reflexivity. Qed.

Example matching_allow_rule :
  decide_on (policy_with_default Deny) "/protected/secret.txt" backup = (Allow, Reason_PolicyRule, "allow-backup").
Proof. vm_compute. reflexivity. Qed.

Example explicit_deny_rule :
  decide_on (MkPolicy 1 Deny [opened "/protected/secret.txt"]
      [MkPolicyRule "deny-backup" (opened "/protected/secret.txt") backup Open Deny])
    "/protected/secret.txt" backup = (Deny, Reason_PolicyRule, "deny-backup").
Proof. vm_compute. reflexivity. Qed.

Example unauthorized_is_denied :
  decide_on (policy_with_default Deny) "/protected/secret.txt" cat = (Deny, Reason_DefaultDeny, "").
Proof. vm_compute. reflexivity. Qed.

Example default_allow_applies :
  decide_on (policy_with_default Allow) "/protected/secret.txt" cat = (Allow, Reason_DefaultDeny, "").
Proof. vm_compute. reflexivity. Qed.

Example wrong_process_no_rule :
  decide_on (policy_with_default Deny) "/protected/secret.txt" (exe "/bin/cp") = (Deny, Reason_DefaultDeny, "").
Proof. vm_compute. reflexivity. Qed.
End TestDecisionEngine.

(** ** tests/test_event_queue.cpp *)
Module TestEventQueue.

(** A run of operations on a new queue, with its replies. *)
Definition run_queue (capacity : nat) (ops : list (queue_op nat)) : outcome (list (queue_reply nat)) :=
  q ← SpscQueue_new capacity; Return (replies queue_step q ops).

Example preserves_fifo :
  run_queue 8 ((OpPush <$> seq 0 5) ++ replicate 6 OpTryPop) =
  Return (replicate 5 Done ++ ((fun i => Popped (Some i)) <$> seq 0 5) ++ [Popped None]).
Proof. vm_compute. reflexivity. Qed.

Example refuses_when_full :
  run_queue 4 [OpTryPush 1; OpTryPush 2; OpTryPush 3; OpTryPush 4; OpTryPop; OpTryPush 4]%nat =
  Return [SpscQueue.Accepted true; SpscQueue.Accepted true; SpscQueue.Accepted true; SpscQueue.Accepted false; Popped (Some 1%nat); SpscQueue.Accepted true].
Proof. vm_compute. reflexivity. Qed.

Example drains_after_stop :
  run_queue 8 [OpPush 1; OpPush 2; OpPush 3; OpRequestStop; OpPop; OpPop; OpPop; OpPop]%nat =
  Return ([Done; Done; Done; Done] ++ [Popped (Some 1); Popped (Some 2); Popped (Some 3); Popped None]%nat).
Proof. vm_compute. reflexivity. Qed.
End TestEventQueue.

(** ** tests/test_path_resolver.cpp *)
Module TestPathResolver.
Example resolves_known_formats_unknown :
  let r := resolver_add PathResolver_empty (MkFileId 1 2 99) "/protected/secret.txt" in
  (resolver_resolve r (MkFileId 1 2 99), resolver_resolve r (MkFileId 3 4 55)) =
  ("/protected/secret.txt", "3:4:55").
Proof. vm_compute. reflexivity. Qed.
End TestPathResolver.

(** ** tests/test_policy_compiler.cpp *)
Module TestPolicyCompiler.
Definition make_policy : Policy :=
  MkPolicy 7 Deny [opened "/protected/secret.txt"]
    [MkPolicyRule "allow-backup" (opened "/protected/secret.txt") (exe "/usr/local/bin/backup-agent") Open Allow].

Definition two_files (path : string) : result FileId :=
  if String.eqb path "/protected/secret.txt" then Ok (MkFileId 1 2 1000)
  else if String.eqb path "/usr/local/bin/backup-agent" then Ok (MkFileId 1 2 2000)
  else Err ("unexpected path " +:+ path).

Example resolves_through_resolver :
  compile two_files make_policy =
  Ok (MkCompiledPolicy 7 [MkFileId 1 2 1000] [MkCompiledRule 1 (MkFileId 1 2 1000) (MkFileId 1 2 2000) Open Allow]).
Proof. vm_compute. reflexivity. Qed.

Example surfaces_unresolvable :
  match compile (fun _ => Err "no such file") make_policy with
  | Ok _ => false
  | Err m => contains "no such file" m
  end = true.
Proof. vm_compute. reflexivity. Qed.

Example rejects_invalid_policy :
  has_value (compile (fun _ => Ok (MkFileId 1 2 42))
    (MkPolicy 1 Deny [opened "/a"] [MkPolicyRule "r" (opened "/b") (exe "/bin/x") Open Allow])) = false.
Proof. vm_compute. reflexivity. Qed.

Example rule_ids_are_indexes :
  (fun c => c_rule_id <$> c_rules c) <$>
    compile (fun _ => Ok (MkFileId 1 1 7))
      (MkPolicy 1 Deny [opened "/a"]
         [MkPolicyRule "r1" (opened "/a") (exe "/bin/1") Open Allow;
          MkPolicyRule "r2" (opened "/a") (exe "/bin/2") Open Deny]) = Ok [1; 2].
Proof. vm_compute. reflexivity. Qed.
End TestPolicyCompiler.

(** ** tests/test_event_sink.cpp *)
Module TestEventSink.
Definition make_event : SecurityEvent :=
  MkSecurityEvent "2026-08-18 12:00:00.000" 1234 0 0 0 "backup-agent" "/usr/local/bin/backup-agent"
    "/protected/secret.txt" Open Allow Reason_PolicyRule 1.

Example console_renders_columns :
  let out := console_out (console_write (MkConsoleSink "" false) make_event) in
  (fun s => contains s out) <$>
    ["PID"; "ACTION"; "backup-agent"; "/protected/secret.txt"; "ALLOW"; "POLICY_RULE"] = replicate 6 true.
Proof. vm_compute. reflexivity. Qed.

(** The log of the same event twice, and its first line. *)
Definition json_log : outcome string :=
  out ← @json_write jval text_json "" make_event; @json_write jval text_json out make_event.

Example json_one_object_per_line :
  (fun out => let '(lines, rest) := split_lines out in
              (length lines, rest,
               (fun s => contains (json_text s) (default "" (head lines))) <$>
                 ["'resource':'/protected/secret.txt'"; "'action':'ALLOW'"])) <$>
    (match json_log with Return out => Some out | Throw _ => None end) =
  Some (2%nat, "", [true; true]).
Proof. vm_compute. reflexivity. Qed.
End TestEventSink.

(** ** tests/test_config_parser.cpp *)
Module TestConfigParser.
Definition kGoodPolicy : string := json_text
  "{
    'version': 3,
    'defaults': { 'action': 'DENY' },
    'protected_resources': [
        { 'path': '/protected/secret.txt', 'operation': 'OPEN' }
    ],
    'rules': [
        {
            'id': 'allow-backup',
            'resource': '/protected/secret.txt',
            'operation': 'OPEN',
            'process': { 'type': 'exe_path', 'value': '/usr/local/bin/backup-agent' },
            'action': 'ALLOW'
        }
    ]
}".

Definition from_text (text : string) : call Policy := @from_json jval text_json text.

Example accepts_valid :
  from_text kGoodPolicy =
  Value (MkPolicy 3 Deny [opened "/protected/secret.txt"]
    [MkPolicyRule "allow-backup" (MkResourceIdentity "/protected/secret.txt" None)
       (exe "/usr/local/bin/backup-agent") Open Allow]).
Proof. vm_compute. reflexivity. Qed.

Example rejects_malformed : call_error (from_text "{ not valid json") = true.
Proof. vm_compute. reflexivity. Qed.

Example rejects_unknown_action :
  call_error (from_text (json_text "{
        'defaults': { 'action': 'MAYBE' },
        'protected_resources': [],
        'rules': []
    }")) = true.
Proof. vm_compute. reflexivity. Qed.

Example defaults_to_deny :
  default_action <$> from_text (json_text "{
        'protected_resources': [],
        'rules': []
    }") = Value Deny.
Proof. vm_compute. reflexivity. Qed.

(** A document that protects one file, with these rules. *)
Definition with_rules (rules : string) : string :=
  json_text ("{ 'protected_resources': [ { 'path': '/protected/secret.txt' } ], 'rules': [" +:+ rules +:+ "] }").

Example rejects_rule_for_unprotected :
  call_error (from_text (with_rules
    "{ 'id': 'r1', 'resource': '/etc/passwd',
       'process': { 'type': 'exe_path', 'value': '/bin/cat' }, 'action': 'ALLOW' }")) = true.
Proof. vm_compute. reflexivity. Qed.

Example rejects_identity_type :
  call_error (from_text (with_rules
    "{ 'id': 'r1', 'resource': '/protected/secret.txt',
       'process': { 'type': 'uid', 'value': '1000' }, 'action': 'ALLOW' }")) = true.
Proof. vm_compute. reflexivity. Qed.

Example rejects_relative_paths :
  call_error (from_text (json_text "{
        'protected_resources': [ { 'path': 'relative/path.txt' } ],
        'rules': []
    }")) = true.
Proof. vm_compute. reflexivity. Qed.

Example rejects_duplicate_rule_ids :
  call_error (from_text (with_rules
    "{ 'id': 'dup', 'resource': '/protected/secret.txt',
       'process': { 'type': 'exe_path', 'value': '/bin/cat' }, 'action': 'ALLOW' },
     { 'id': 'dup', 'resource': '/protected/secret.txt',
       'process': { 'type': 'exe_path', 'value': '/bin/vim' }, 'action': 'ALLOW' }")) = true.
Proof. vm_compute. reflexivity. Qed.
End TestConfigParser.

(** ** A session over the control socket *)
Module TestSession.
Definition load_line : string := json_text
  "{'cmd':'load_policy','policy':{'version':4,'protected_resources':[{'path':'/protected/secret.txt'}],'rules':[{'id':'allow-backup','resource':'/protected/secret.txt','process':{'type':'exe_path','value':'/usr/local/bin/backup-agent'},'action':'ALLOW'}]}}".

Definition session (lines : list string) : outcome (bool * Daemon LE * string) :=
  @handle_lines LE sample_ops jval text_json daemon_files lines linux_daemon.

(** The lines of the replies, and the verdicts on the protected file for the
    backup agent and for another program. *)
Definition session_result (lines : list string) : option (list string * option (Z * Z)) :=
  match session lines with
  | Return (_, d, out) =>
     Some ((split_lines out).1,
           (fun e => (@enforced LE sample_ops sample_laws e (MkFileId 1 2 1000) (MkFileId 1 2 2000),
                      @enforced LE sample_ops sample_laws e (MkFileId 1 2 1000) (MkFileId 1 2 1000))) <$>
             enforcer_ (controller_ d))
  | Throw _ => None
  end.

Example load_status_list :
  session_result [load_line; json_text "{'cmd':'status'}"; json_text "{'cmd':'list'}"] =
  Some (json_text <$>
    ["{'ok':true,'policy_version':4}";
     "{'ok':true,'status':{'attached':true,'backend':'ebpf-lsm','detail':'LSM hook security_file_open attached','enforcing':true,'policy_version':4,'protected_count':1,'rule_count':1}}";
     "{'ok':true,'protected_resources':['/protected/secret.txt'],'rules':[{'action':'ALLOW','id':'allow-backup','operation':'OPEN','process':'/usr/local/bin/backup-agent','resource':'/protected/secret.txt'}],'version':4}"],
    Some (0, - EACCES)).
Proof. vm_compute. reflexivity. Qed.

Example refused_requests :
  session_result ["nonsense"; json_text "{'cmd':'load_policy','policy':[]}"; json_text "{'cmd':'load_policy','policy':{'version':-1}}"] =
  Some (json_text <$>
    ["{'error':'malformed request','ok':false}";
     "{'error':'load_policy requires a `policy` object','ok':false}";
     "{'error':'policy version must be non-negative','ok':false}"],
    Some (0, 0)).
Proof. vm_compute. reflexivity. Qed.
End TestSession.
